(* ===== verification/_CoqProject ===== *)
-Q . S2P
Prelude.v
GoHeap.v
GoNum.v
GoStr.v
Topology.v
Json.v
Keys.v
Redis.v
World.v
Schema.v
Store.v
Scripts.v
Tracker.v
Send.v
Receive.v
Delete.v
Sweep.v
Flow.v
Interleave.v
Claims.v
Concurrent.v
Dedup.v
FifoLock.v
Custody.v
Cycle.v
Admin.v
Kube.v
DeepCopy.v
Scheme.v
Shards.v
Zones.v
Temporal.v
Fakes.v
Worker.v
Reconcile.v
Service.v
Auth.v
Config.v
Server.v
Startup.v
