(* ===== verification/Prelude.v ===== *)
(** * A verification of the Kafka management service

    The repository is an SQS-like message queue on top of Kafka and Redis, in Go.  Two
    processes share one Redis and one Kafka cluster:

    - the message plane ([src/cmd/server]) answers SendMessage, ReceiveMessage,
      DeleteMessage and ChangeMessageVisibility over gRPC.  A queue is a list of shards,
      each a Kafka topic that owns a range of the murmur2 hash space; a message goes to
      the active shard whose range holds the hash of its group.  A received message is
      tracked in Redis under a receipt handle: an in-flight record, an entry in the
      visibility index, its offset in the pending set of its partition and, for FIFO
      queues, a lock per group.  Acknowledging removes these and commits the least
      pending offset.  A reaper per queue sweeps expired messages, either back onto a
      redelivery list or to a dead-letter queue;
    - the operator ([src/cmd/queue-operator]) turns Queue objects of Kubernetes into
      topics, splits busy shards, drains and closes old ones, publishes each queue's
      metadata and shard map to Redis, and runs Temporal workers as Deployments.

    ** Conventions

    Stateful code is a function of a state-and-error monad [M W A] ([Prelude]): it takes
    the world and gives a result or a Go error, with the world it leaves, so what a
    failing call has already done stays done.  The message plane runs in [world]
    ([World]): Redis' keyspace, Kafka, the clock, and what the environment has in store:
    the fate and duration of every network round trip (delivered, request lost, or reply
    lost after the server acted), what each poll returns, and when the context of the
    request ends.  A theorem about every world is therefore one about every pattern of
    failures; a theorem about a [calm] world is about calls that all get through.  The
    operator's [oworld] ([Kube]) adds the API server's objects and the reconciler's
    caches.  Integers are [Z] with Go's wrap-around ([u32], [i32], [i64]) written where
    the code converts or computes at a fixed width, floats are binary64 of the Standard
    Library, strings are byte strings.

    Code outside [src/] is a parameter, always a type class of operations with a class
    of laws that state its documented behaviour, and a concrete instance that satisfies
    them and that the examples and witnesses run on: Redis ([RedisServer], [MemRedis]),
    Kafka's producer and commits ([KafkaServer], [MemKafka]), kadm ([KadmServer],
    [MemKadm]), UUIDs, the Kubernetes API server and controllerutil ([KubeServer],
    [ControllerUtil]), the Temporal frontend, JWT, JWKS and HTTP libraries ([Auth]).
    Interfaces of the program are classes too: [Sender] (the reaper's DLQSender),
    [TopicAdmin] and [Registerer] (what the operator asks of Kafka and Temporal),
    [TokenValidator] and [KeySetProvider]; their laws are proved of the program's own
    implementations and are all that their clients' theorems use.

    ** Files, and the code they model

    - [Prelude], [GoNum], [GoStr]: the monad with its Hoare triples and invariance
      tactics; Go's integers, strconv, time and strings.  [GoHeap]: Go's pointers, slices
      and maps over a heap, and what it means that a copy is independent.
    - [Topology] (internal/kafka/topology.go), [Json] and [Keys]
      (internal/redis/shardmap.go's encoding, keys.go): names, the murmur2 hash, shard
      selection, hash-range splitting; the key schema.
    - [Redis], [World], [Schema]: the servers and the world; the typing of the keyspace,
      each key family holding one kind of value, which every operation keeps.
    - [Store], [Scripts] (internal/redis): in-flight records, deduplication, pending
      offsets, locks, metadata and shard map; ack.lua and reap.lua, command by command.
    - [Tracker]: what these rows stand for, an abstract state of one queue (records in
      flight, visibility, pending offsets, group locks, redelivery list), the requests as
      functions of it ([spec]), and the relation between the two ([represents]).
    - [Send], [Receive], [Delete], [Sweep] (internal/core): the four services and the
      reaper, with produce.go and consume.go of internal/kafka.
    - [Flow]: these put together, a message's life from send to acknowledgement;
      [Cycle]: the sweep and the receive that deliver it again.
    - [Interleave]: programs whose round trips are atomic steps, pools of processes, and
      the rely-guarantee rules for invariants of all interleavings; [Concurrent]: the
      receive, its redeliveries and the acknowledgement as such programs
      ([run_DeleteMessage], [run_hand_out_records], [run_drain] tie them to the
      functions), run against each other.  [Claims] (what SET NX buys), [Dedup] and
      [FifoLock]: sends with one deduplication id, and receives of one FIFO group, in
      every interleaving.  [Custody]: where each message is, in every interleaving, from
      the specifications of [Tracker].
    - [Admin] (internal/kafka/admin.go, internal/operator/admin.go), [Kube]
      (apis/kmsvc/v1), [Shards] (shard_split.go, shard_drain.go), [Zones]
      (zone_locator.go), [Temporal] (internal/temporal/client.go), [Worker]
      (temporal_worker_controller.go), [Reconcile] (queue_controller.go): the operator.
      [DeepCopy] (zz_generated.deepcopy.go, temporalworker_types.go): the objects as they
      lie in memory, and their deep copies.  [Scheme] (groupversion_info.go, the init
      functions): their registration.  [Fakes] (fake_admin.go, fake_temporal.go):
      the tests' doubles, instances of the operator's interfaces.
    - [Service] (internal/api/handlers), [Auth] (internal/auth, internal/api/interceptors),
      [Config] (internal/config), [Server] (cmd/server): the outer layer of the message
      plane, and the system of both processes.  [Startup] (cmd/server, cmd/queue-operator,
      the New functions of internal/kafka, internal/redis, internal/temporal): how the two
      processes start and stop.

    ** What the theorems show

    - Names and routing: murmur2 equals its block-wise reference; when the active shards
      cover the hash space once, every key has exactly one shard; the half of the hash
      space that is never used.
    - Storage: what is written reads back (records until their time to live); the reap
      and acknowledge scripts do exactly what their comments say, at most one of several
      reapers acts on a message; every request, whatever the network does, is atomic and
      does to the rows what its specification does to the tracker ([tracker_refines]); and
      every command in every run meets the type of value
      it expects.
    - Message plane: at most one record per send, with the caller's body; group order in
      one partition; deduplication; the outcomes of handing out fresh and redelivered
      messages; bounds and termination of the long poll; acknowledging, and that a commit
      never passes a pending offset; what a sweep does with every expired message; that a
      message sent is received with its body and gone once acknowledged, and received
      again when it is not acknowledged in time ([expired_redelivered]); and that commits
      stay safe in every interleaving of acknowledgements, reaps and redeliveries with one
      receive ([concurrent_commits_safe]), but not with two ([commit_passes_polled]).  In
      every interleaving, sends with one deduplication id produce at most one record
      within the window ([concurrent_dedup]), and of the receives of a group at most one
      hands out a message within its visibility timeout, whatever else is acknowledged or
      reaped meanwhile ([concurrent_fifo_exclusive]).  A message whose record is live stays
      where a sweep or a receive finds it, but for one per receive that is running or has
      failed ([tracked_never_lost]); the one of a failed receive is lost to them for good
      ([popped_message_lost]).
    - Control plane: a successful reconcile leaves a queue that is served ([serves]) by
      a shard map that routes every key; in every run of the operator the hash space
      stays partitioned among active shards; drains delete only drained topics; deletion;
      workers and their Deployments; zones; deep copies, which are independent of the
      original for TemporalWorkers but share the zones of a Queue; the tests' fakes keep
      the laws the theorems use.
    - Outer layer: batches are their entries in sequence, refusals map to their status,
      the registry is subscribed to what the shard map lists, no call passes the
      interceptors without an accepted token, one reaper per queue; whatever fails at the
      start, the server closes what it opened, in order ([run_cleans_up]).

    Theorems without a number are the counterexamples and auxiliary facts behind the
    findings, and further specifications of single operations.

    ** Fuel and bounds

    Two loops of the program have no structural measure.  The long poll runs on
    [receive_fuel], the number of intervals in the wait time plus two: every iteration
    that does not return sleeps for an interval ([receive_loop_returns]).  The reaper's
    ticker loop never ends by itself; given a context that ends it returns within one
    tick per interval ([Run_ends]).  The operator's theorems bound the number of shards
    so that shard numbers stay in an int32, far above what the code can reach.

    ** What is assumed, and what is not modelled

    - Outside [Concurrent], [Dedup], [FifoLock], [Custody] and the transitions of
      [Server], which have whole requests as steps, a request runs against the shared state without other
      requests in between.
      Lua scripts and Redis transactions are atomic.
    - The API server's reads return the stored object; a conflicting update is one of the
      errors the laws allow.
    - The clients the New functions return are not modelled as objects with a state, but
      for the consumers' subscriptions ([registeredConsumer]): a constructor is the options
      it passes and the error it may give, and the Close functions are events of a
      process's trace.  What the gateway, gRPC and
      controller-runtime do inside is their answers ([Libraries]).  A Go mutex held for a
      whole method makes the method one step.
    - In the interleavings a sweep is the reaps it consists of, and a receive is given the
      records of its poll.
    - The JSON reader accepts what the printer writes, the only writer of those rows. *)

From stdpp Require Export base gmap strings list fin_maps sorting.
From Stdlib Require Export ZArith Lia.

Declare Scope go_scope.
Delimit Scope go_scope with go.

(** ** Go errors

    An [error] value keeps what the code looks at: the text that [Error()]
    returns, and the chain that [errors.Is] walks.  [ErrText] is
    [errors.New]/[fmt.Errorf] without [%w]; [ErrWrap p e] is
    [fmt.Errorf (p ++ "%w") e]; the two context sentinels are their own
    constructors because [receive_message.go] and [queue_service.go] test for
    them.  [ErrFuel] is no Go error: a bounded loop returns it when its fuel is
    exhausted, and the termination theorems show that never happens. *)

Inductive error : Type :=
| ErrText (msg : string)
| ErrWrap (prefix : string) (cause : error)
| ErrDeadlineExceeded
| ErrCanceled
| ErrFuel.

#[export] Instance error_eq_dec : EqDecision error.
Proof. solve_decision. Defined.

Fixpoint err_msg (e : error) : string :=
  match e with
  | ErrText m => m
  | ErrWrap p c => p +:+ err_msg c
  | ErrDeadlineExceeded => "context deadline exceeded"
  | ErrCanceled => "context canceled"
  | ErrFuel => ""
  end.

(** [errors.Is(err, context.DeadlineExceeded)]. *)
Fixpoint is_deadline (e : error) : bool :=
  match e with
  | ErrWrap _ c => is_deadline c
  | ErrDeadlineExceeded => true
  | _ => false
  end.

(** ** Results and the state-and-error monad *)

Inductive res (A : Type) : Type :=
| Ok (a : A)
| Err (e : error).
Arguments Ok {A} _.
Arguments Err {A} _.

#[export] Instance res_eq_dec {A} `{EqDecision A} : EqDecision (res A).
Proof. solve_decision. Defined.

Definition is_ok {A} (r : res A) : bool :=
  match r with Ok _ => true | Err _ => false end.

(** [M W A] is code that reads and writes a world [W] and returns an [A] or an
    error.  The world survives an error: what was written before the failure
    stays written. *)
Definition M (W A : Type) : Type := W -> res A * W.

#[export] Instance M_ret {W} : MRet (M W) := fun A a w => (Ok a, w).

#[export] Instance M_bind {W} : MBind (M W) := fun A B f m w =>
  match m w with
  | (Ok a, w') => f a w'
  | (Err e, w') => (Err e, w')
  end.

Definition fail {W A} (e : error) : M W A := fun w => (Err e, w).

(** [if err != nil { return fmt.Errorf("p: %w", err) }] *)
Definition wrap_err {W A} (p : string) (m : M W A) : M W A := fun w =>
  match m w with
  | (Ok a, w') => (Ok a, w')
  | (Err e, w') => (Err (ErrWrap p e), w')
  end.

(** Read a field of the world. *)
Definition gets {W A} (f : W -> A) : M W A := fun w => (Ok (f w), w).

(** Change the world. *)
Definition modify {W} (f : W -> W) : M W unit := fun w => (Ok tt, f w).

(** The outcome of [m], errors included, as a value: what Go code does when it
    inspects [err] instead of returning it. *)
Definition attempt {W A} (m : M W A) : M W (res A) := fun w =>
  let '(r, w') := m w in (Ok r, w').

(** A loop that runs on fuel, as code: [ErrFuel] if it ran out. *)
Definition fueled {W A} (loop : W -> option (res A * W)) : M W A := fun w =>
  default (Err ErrFuel, w) (loop w).

Section MonadLaws.
Context {W A B C : Type}.

Lemma mbind_run (m : M W A) (f : A -> M W B) (w : W) :
  (m ≫= f) w = match m w with
               | (Ok a, w') => f a w'
               | (Err e, w') => (Err e, w')
               end.
Proof. done. Qed.

Lemma mret_run (a : A) (w : W) : (mret a : M W A) w = (Ok a, w).
Proof. done. Qed.

Lemma mret_bind (a : A) (f : A -> M W B) (w : W) : (mret a ≫= f) w = f a w.
Proof. done. Qed.

Lemma fail_bind (e : error) (f : A -> M W B) (w : W) : (fail e ≫= f) w = (Err e, w).
Proof. done. Qed.

Lemma mbind_ok (m : M W A) (f : A -> M W B) (w w' : W) (a : A) :
  m w = (Ok a, w') -> (m ≫= f) w = f a w'.
Proof. intros H. by rewrite mbind_run, H. Qed.

Lemma mbind_err (m : M W A) (f : A -> M W B) (w w' : W) (e : error) :
  m w = (Err e, w') -> (m ≫= f) w = (Err e, w').
Proof. intros H. by rewrite mbind_run, H. Qed.

(** Running a sequence to success splits it. *)
Lemma mbind_ok_inv (m : M W A) (f : A -> M W B) (w w' : W) (b : B) :
  (m ≫= f) w = (Ok b, w') ->
  exists a w1, m w = (Ok a, w1) /\ f a w1 = (Ok b, w').
Proof. rewrite mbind_run. destruct (m w) as [[a|e] w1]; naive_solver. Qed.

Lemma wrap_err_ok (p : string) (m : M W A) (w w' : W) (a : A) :
  wrap_err p m w = (Ok a, w') <-> m w = (Ok a, w').
Proof. unfold wrap_err. destruct (m w) as [[]]; naive_solver. Qed.
End MonadLaws.

(** A property of worlds that a piece of code keeps on every outcome. *)
Definition preserves {W A} (P : W -> Prop) (m : M W A) : Prop :=
  forall w, P w -> P (snd (m w)).

Section Preserves.
Context {W A B : Type} (P : W -> Prop).

Lemma preserves_ret (a : A) : preserves P (mret a : M W A).
Proof. by intros w Hw. Qed.

Lemma preserves_fail (e : error) : preserves P (fail e : M W A).
Proof. by intros w Hw. Qed.

Lemma preserves_bind (m : M W A) (f : A -> M W B) :
  preserves P m -> (forall a, preserves P (f a)) -> preserves P (m ≫= f).
Proof.
  intros Hm Hf w Hw. rewrite mbind_run. specialize (Hm w Hw).
  destruct (m w) as [[a|e] w']; simpl in *; [by apply Hf | done].
Qed.

Lemma preserves_wrap (p : string) (m : M W A) :
  preserves P m -> preserves P (wrap_err p m).
Proof.
  intros Hm w Hw. specialize (Hm w Hw). unfold wrap_err.
  by destruct (m w) as [[] ].
Qed.

Lemma preserves_attempt (m : M W A) :
  preserves P m -> preserves P (attempt m).
Proof.
  intros Hm w Hw. specialize (Hm w Hw). unfold attempt.
  by destruct (m w).
Qed.

Lemma preserves_gets (f : W -> A) : preserves P (gets f).
Proof. by intros w Hw. Qed.
End Preserves.

Create HintDb preserve.
#[export] Hint Resolve preserves_ret preserves_fail preserves_bind
  preserves_wrap preserves_attempt preserves_gets : preserve.

(** A triple: from a world in [P], the outcome and the world after are in [Q].  It
    speaks of every outcome, errors included. *)
Definition triple {W A} (P : W -> Prop) (m : M W A) (Q : res A -> W -> Prop) : Prop :=
  forall w, P w -> Q (fst (m w)) (snd (m w)).

Section Triples.
Context {W A B : Type}.

Lemma triple_bind (P : W -> Prop) (m : M W A) (f : A -> M W B) (P' : A -> W -> Prop) Q :
  triple P m (fun r w => match r with Ok a => P' a w | Err e => Q (Err e) w end) ->
  (forall a, triple (P' a) (f a) Q) -> triple P (m ≫= f) Q.
Proof.
  intros Hm Hf w Hw. rewrite mbind_run. specialize (Hm w Hw).
  destruct (m w) as [[a|e] w']; simpl in *; [by apply Hf | done].
Qed.

(** The first part keeps [P]; when it fails, so does the whole. *)
Lemma triple_bind_preserves (P : W -> Prop) (m : M W A) (f : A -> M W B) Q :
  preserves P m -> (forall e w, P w -> Q (Err e) w) ->
  (forall a, triple P (f a) Q) -> triple P (m ≫= f) Q.
Proof.
  intros Hm He Hf. apply (triple_bind P m f (fun _ => P)); [| done].
  intros w Hw. specialize (Hm w Hw). destruct (m w) as [[a|e] w']; simpl in *; auto.
Qed.

Lemma triple_ret (P : W -> Prop) (a : A) (Q : res A -> W -> Prop) :
  (forall w, P w -> Q (Ok a) w) -> triple P (mret a) Q.
Proof. intros H w Hw. by apply H. Qed.

Lemma triple_fail (P : W -> Prop) e (Q : res A -> W -> Prop) :
  (forall w, P w -> Q (Err e) w) -> triple P (fail e) Q.
Proof. intros H w Hw. by apply H. Qed.

Lemma triple_wrap (P : W -> Prop) p (m : M W A) (Q : res A -> W -> Prop) :
  triple P m (fun r w => match r with Ok a => Q (Ok a) w | Err e => Q (Err (ErrWrap p e)) w end) ->
  triple P (wrap_err p m) Q.
Proof.
  intros Hm w Hw. specialize (Hm w Hw). unfold wrap_err.
  by destruct (m w) as [[a|e] w'].
Qed.

Lemma triple_weaken (P : W -> Prop) (m : M W A) (Q Q' : res A -> W -> Prop) :
  triple P m Q -> (forall r w, Q r w -> Q' r w) -> triple P m Q'.
Proof. intros Hm HQ w Hw. by apply HQ, Hm. Qed.

Lemma triple_preserves (P : W -> Prop) (m : M W A) :
  triple P m (fun _ => P) <-> preserves P m.
Proof. done. Qed.
End Triples.

(** ** Tactics *)

(** Case analysis on every [match] or [if] of a hypothesis or of the goal. *)
Ltac case_all :=
  repeat (case_match; simplify_eq/=; try done).

(** One step of running monadic code whose next operation is known. *)
Ltac mstep :=
  first [ rewrite mret_run
        | erewrite mbind_ok by eassumption
        | erewrite mbind_err by eassumption
        | rewrite mbind_run ]; simpl.

(** Follow the structure of monadic code that keeps a property; what is left are
    the basic operations. *)
Ltac pres_step :=
  lazymatch goal with
  | |- forall _, _ => intro
  | |- preserves _ (mbind _ _) => apply preserves_bind
  | |- preserves _ (mret _) => apply preserves_ret
  | |- preserves _ (fail _) => apply preserves_fail
  | |- preserves _ (wrap_err _ _) => apply preserves_wrap
  | |- preserves _ (attempt _) => apply preserves_attempt
  | |- preserves _ (gets _) => apply preserves_gets
  | |- preserves _ (if ?b then _ else _) => destruct b
  | |- preserves _ (match ?b with _ => _ end) => destruct b
  end.

(** Case split on the boolean comparisons of [Z] in sight, with the facts. *)
Ltac zbool :=
  repeat match goal with
  | |- context [(?a <? ?b)%Z] => destruct (Z.ltb_spec a b)
  | |- context [(?a <=? ?b)%Z] => destruct (Z.leb_spec a b)
  | |- context [(?a =? ?b)%Z] => destruct (Z.eqb_spec a b)
  end.

(** Prove a decidable fact about closed terms by running its decision procedure: the
    values compared, maps among them, are never read back as terms. *)
Ltac vm_decide :=
  lazymatch goal with
  | |- ?P => refine (bool_decide_eq_true_1 P _); vm_compute; exact eq_refl
  end.

Lemma run_fst {W A} (m : M W A) (w : W) (r : res A) : fst (m w) = r -> m w = (r, snd (m w)).
Proof. intros <-. apply surjective_pairing. Qed.

(** ** Lists *)

Lemma list_filter_all {A} (P : A -> Prop) `{!forall x, Decision (P x)} (l : list A) :
  (forall x, x ∈ l -> P x) -> filter P l = l.
Proof.
  induction l as [|x l IH]; intros Hall; [done |].
  rewrite filter_cons_True by (apply Hall; left). f_equal.
  apply IH. intros y Hy. apply Hall. by right.
Qed.

Lemma list_filter_none {A} (P : A -> Prop) `{!forall x, Decision (P x)} (l : list A) :
  (forall x, x ∈ l -> ~ P x) -> filter P l = [].
Proof.
  induction l as [|x l IH]; intros Hall; [done |].
  rewrite filter_cons_False by (apply Hall; left). apply IH. intros y Hy. apply Hall. by right.
Qed.

(** Filtering by predicates that agree on the list. *)
Lemma list_filter_local {A} (P Q : A -> Prop) `{!forall x, Decision (P x)} `{!forall x, Decision (Q x)}
    (l : list A) :
  (forall x, x ∈ l -> P x <-> Q x) -> filter P l = filter Q l.
Proof.
  induction l as [|x l IH]; intros HPQ; [done |]. rewrite !filter_cons.
  rewrite IH by (intros y Hy; apply HPQ; by right).
  pose proof (HPQ x (list_elem_of_here x l)). repeat case_decide; tauto.
Qed.
