(* ===== verification/GoHeap.v ===== *)
(** Go's memory, as far as deep copies need it: a heap of typed cells, pointers, slices
    and maps that point into it, and what it means that a copy is deep.

    A value in memory ([A]) stands for a value without pointers ([V]): [rep h a v L] says
    that in the heap [h] it stands for [v], read from the locations [L].  A copy is deep
    ([copied]) when it stands for the same value from locations that are all new, and
    leaves the cells there are as they were. *)

From S2P Require Import Prelude.

Notation loc := positive.

(** A pointer, a slice header and a map, typed by what they point to.  Each may be nil;
    a slice is a window of a backing array. *)
Inductive ptr (A : Type) : Type := Nil | At (l : loc).
Inductive slice (A : Type) : Type := NilSlice | Slice (l : loc) (off len : nat).
Inductive gomap (A : Type) : Type := NilMap | MapAt (l : loc).
Arguments Nil {A}.
Arguments At {A} l.
Arguments NilSlice {A}.
Arguments Slice {A} l off len.
Arguments NilMap {A}.
Arguments MapAt {A} l.

(** The zero value of a type. *)
Class Zero (A : Type) : Type := zero : A.
#[export] Instance zero_string : Zero string := "".
#[export] Instance zero_Z : Zero Z := 0%Z.
#[export] Instance zero_ptr A : Zero (ptr A) := Nil.
#[export] Instance zero_slice A : Zero (slice A) := NilSlice.
#[export] Instance zero_gomap A : Zero (gomap A) := NilMap.

(** The types a cell can hold. *)
Class InCell (cell A : Type) : Type := {
  inj_cell : A -> cell;
  prj_cell : cell -> option A;
  prj_inj a : prj_cell (inj_cell a) = Some a
}.

(** ** Operations *)

Section Heap.
Context {cell : Type}.

Notation heap := (gmap loc cell).

Definition nil_dereference : error :=
  ErrText "runtime error: invalid memory address or nil pointer dereference".
Definition index_out_of_range : error := ErrText "runtime error: index out of range".

Definition new {A} `{InCell cell A} (a : A) : M heap loc := fun h =>
  let l := fresh (dom h) in (Ok l, <[l := inj_cell a]> h).

Definition load {A} `{InCell cell A} (l : loc) : M heap A := fun h =>
  match h !! l ≫= prj_cell with Some a => (Ok a, h) | None => (Err nil_dereference, h) end.

Definition store {A} `{InCell cell A} (l : loc) (a : A) : M heap unit := fun h =>
  (Ok tt, <[l := inj_cell a]> h).

(** ** Copies *)

(** [in.DeepCopyInto(out)] of a type: what is left in [out]. *)
Class DeepCopyInto (A : Type) : Type := deep_copy : A -> M heap A.

(** [if in.F != nil { *out = new(T); ( *in).DeepCopyInto( *out) }] *)
Definition copy_ptr {A} `{InCell cell A, Zero A, DeepCopyInto A} (p : ptr A) : M heap (ptr A) :=
  match p with
  | Nil => mret Nil
  | At l =>
    out ← new (A := A) zero;
    a ← load l;
    a' ← deep_copy a;
    _ ← store out a';
    mret (At out)
  end.

(** [for i := range *in { ( *in)[i].DeepCopyInto(&( *out)[i]) }], from index [i] on with
    [n] elements left. *)
Fixpoint copy_elems {A} `{InCell cell (list A), DeepCopyInto A} (l : loc) (off : nat) (out : loc)
    (i n : nat) : M heap unit :=
  match n with
  | O => mret tt
  | S n' =>
    xs ← load (A := list A) l;
    match xs !! (off + i)%nat with
    | None => fail index_out_of_range
    | Some x =>
      x' ← deep_copy x;
      ys ← load (A := list A) out;
      _ ← store out (<[i := x']> ys);
      copy_elems l off out (S i) n'
    end
  end.

(** [if in.F != nil { *out = make([]T, len( *in)); for ... }] *)
Definition copy_slice {A} `{InCell cell (list A), Zero A, DeepCopyInto A} (s : slice A) : M heap (slice A) :=
  match s with
  | NilSlice => mret NilSlice
  | Slice l off len =>
    out ← new (replicate len (zero (A := A)));
    _ ← copy_elems (A := A) l off out 0 len;
    mret (Slice out 0 len)
  end.

(** [if in.F != nil { *out = make(map[string]T, len( *in)); for k, v := range *in { ( *out)[k] = v } }] *)
Definition copy_map {A} `{InCell cell (gmap string A)} (m : gomap A) : M heap (gomap A) :=
  match m with
  | NilMap => mret NilMap
  | MapAt l =>
    out ← new (A := gmap string A) ∅;
    kvs ← load (A := gmap string A) l;
    _ ← foldl (fun acc '(k, v) => _ ← acc; cur ← load (A := gmap string A) out; store out (<[k := v]> cur))
          (mret tt) (map_to_list kvs);
    mret (MapAt out)
  end.

(** Writing element [i] of a slice: [s[i] = x]. *)
Definition set_elem {A} `{InCell cell (list A)} (s : slice A) (i : nat) (x : A) : M heap unit :=
  match s with
  | Slice l off len =>
    if decide (i < len)%nat then
      xs ← load (A := list A) l; store l (<[(off + i)%nat := x]> xs)
    else fail index_out_of_range
  | NilSlice => fail index_out_of_range
  end.

(** ** What a value stands for *)

Class Rep (A V : Type) : Type := rep : heap -> A -> V -> gset loc -> Prop.

(** [rep] reads its footprint, which is allocated, and nothing else. *)
Class RepLaws (A V : Type) `{Rep A V} : Prop := {
  rep_local h h' a v L : rep h a v L -> (forall l, l ∈ L -> h' !! l = h !! l) -> rep h' a v L;
  rep_alloc h a v L : rep h a v L -> L ⊆ dom h
}.

(** The code [m], started in [h], gives a fresh value that stands for [v]. *)
Definition copied {A V} `{Rep A V} (h : heap) (m : M heap A) (v : V) : Prop :=
  exists a h' L, m h = (Ok a, h') /\ h ⊆ h' /\ rep h' a v L /\ L ## dom h.

(** Copies of values in [φ] are deep. *)
Class DeepCopies (A V : Type) `{Rep A V, DeepCopyInto A} (φ : V -> Prop) : Prop :=
  deep_copies h a v L : φ v -> rep h a v L -> copied h (deep_copy a) v.

Definition every {V} : V -> Prop := fun _ => True.

Section Facts.
Context {A V : Type} `{RepLaws A V}.

Lemma rep_mono h h' a v L : rep h a v L -> h ⊆ h' -> rep h' a v L.
Proof.
  intros Hr Hsub. eapply rep_local; [done |]. intros l Hl. apply rep_alloc in Hr.
  apply Hr, elem_of_dom in Hl as [c Hc]. rewrite Hc. by eapply lookup_weaken.
Qed.

(** Changing other locations leaves the value as it is. *)
Lemma rep_frame h h' a v L (D : gset loc) :
  rep h a v L -> L ## D -> (forall l, l ∉ D -> h' !! l = h !! l) -> rep h' a v L.
Proof. intros Hr Hd Hl. eapply rep_local; [done |]. intros l Hl'. apply Hl. set_solver. Qed.
End Facts.

(** Types without pointers. *)
Definition rep_plain (A : Type) : Rep A A := fun _ a v L => a = v /\ L = ∅.
Definition copy_plain (A : Type) : DeepCopyInto A := fun a => mret a.

Lemma rep_plain_laws A : @RepLaws A A (rep_plain A).
Proof. split; [done |]. intros h a v L [_ ->]. set_solver. Qed.

Lemma copy_plain_deep A : @DeepCopies A A (rep_plain A) (copy_plain A) every.
Proof. intros h a v L _ [-> ->]. exists v, h, ∅. by split_and!. Qed.

(** Pointers and maps. *)
#[export] Instance rep_ptr {A V} `{InCell cell A, Rep A V} : Rep (ptr A) (option V) := fun h p v L =>
  match p, v with
  | Nil, None => L = ∅
  | At l, Some v => exists a L0, h !! l = Some (inj_cell a) /\ rep h a v L0 /\ L = {[l]} ∪ L0
  | _, _ => False
  end.

#[export] Instance rep_gomap {A} `{InCell cell (gmap string A)} : Rep (gomap A) (option (gmap string A)) :=
  fun h m v L =>
  match m, v with
  | NilMap, None => L = ∅
  | MapAt l, Some kvs => h !! l = Some (inj_cell kvs) /\ L = {[l]}
  | _, _ => False
  end.

(** Slices: the elements of the window. *)
Inductive rep_list {A V} `{Rep A V} (h : heap) : list A -> list V -> gset loc -> Prop :=
| rep_nil : rep_list h [] [] ∅
| rep_cons a v L l vs Ls : rep h a v L -> rep_list h l vs Ls -> rep_list h (a :: l) (v :: vs) (L ∪ Ls).

#[export] Instance rep_slice {A V} `{InCell cell (list A), Rep A V} : Rep (slice A) (option (list V)) := fun h s v L =>
  match s, v with
  | NilSlice, None => L = ∅
  | Slice l off len, Some vs =>
    exists arr L0, h !! l = Some (inj_cell arr) /\ rep_list h (take len (drop off arr)) vs L0 /\
      length vs = len /\ L = {[l]} ∪ L0
  | _, _ => False
  end.

Lemma rep_list_app {A V} `{Rep A V} h l1 vs1 L1 l2 vs2 L2 :
  rep_list h l1 vs1 L1 -> rep_list h l2 vs2 L2 -> rep_list h (l1 ++ l2) (vs1 ++ vs2) (L1 ∪ L2).
Proof.
  induction 1 as [|a v L l vs Ls Ha _ IH]; intros H2; cbn.
  - by rewrite union_empty_l_L.
  - rewrite <- union_assoc_L. constructor; [done | by apply IH].
Qed.

Lemma rep_list_laws {A V} `{RepLaws A V} : @RepLaws (list A) (list V) rep_list.
Proof.
  split.
  - induction 1 as [|a v L l vs Ls Ha _ IH]; intros Hl; constructor.
    + eapply rep_local; [done |]. set_solver.
    + apply IH. set_solver.
  - induction 1 as [|a v L l vs Ls Ha _ IH]; [set_solver |]. apply rep_alloc in Ha. set_solver.
Qed.

#[export] Instance rep_ptr_laws {A V} `{InCell cell A, RepLaws A V} : RepLaws (ptr A) (option V).
Proof.
  split.
  - intros h h' [|l] [v|] L; try done. intros (a & L0 & Hl & Ha & ->) Hagree. exists a, L0.
    rewrite Hagree by set_solver. split_and!; [done | | done]. eapply rep_local; [done |]. set_solver.
  - intros h [|l] [v|] L; try done; [intros E; change (L = ∅) in E; set_solver |]. intros (a & L0 & Hl & Ha & ->).
    apply elem_of_dom_2 in Hl. apply rep_alloc in Ha. set_solver.
Qed.

#[export] Instance rep_gomap_laws {A} `{InCell cell (gmap string A)} : RepLaws (gomap A) (option (gmap string A)).
Proof.
  split.
  - intros h h' [|l] [v|] L; try done. intros [Hl ->] Hagree. split; [| done]. by rewrite Hagree by set_solver.
  - intros h [|l] [v|] L; try done; [intros E; change (L = ∅) in E; set_solver |]. intros [Hl ->]. apply elem_of_dom_2 in Hl. set_solver.
Qed.

#[export] Instance rep_slice_laws {A V} `{InCell cell (list A), RepLaws A V} : RepLaws (slice A) (option (list V)).
Proof.
  pose proof (rep_list_laws (A := A) (V := V)) as HL. split.
  - intros h h' [|l off len] [vs|] L; try done. intros (arr & L0 & Hl & Ha & Hlen & ->) Hagree. exists arr, L0.
    rewrite Hagree by set_solver. split_and!; try done. eapply (rep_local (RepLaws := HL)); [done |]. set_solver.
  - intros h [|l off len] [vs|] L; try done; [intros E; change (L = ∅) in E; set_solver |]. intros (arr & L0 & Hl & Ha & Hlen & ->).
    apply elem_of_dom_2 in Hl. apply (rep_alloc (RepLaws := HL)) in Ha. set_solver.
Qed.

(** ** Deep copies of pointers, maps and slices *)

Section Running.
Context {A : Type} `{InCell cell A}.

Lemma new_run (a : A) h : exists l, new a h = (Ok l, <[l := inj_cell a]> h) /\ l ∉ dom h.
Proof. exists (fresh (dom h)). split; [done | apply is_fresh]. Qed.

Lemma load_run l (a : A) h : h !! l = Some (inj_cell a) -> load l h = (Ok a, h).
Proof. intros Hl. unfold load. rewrite Hl. cbn. by rewrite prj_inj. Qed.
End Running.

Lemma insert_new_sub (h : heap) l c : l ∉ dom h -> h ⊆ <[l := c]> h.
Proof. intros Hl. by apply insert_subseteq, not_elem_of_dom. Qed.

(** Writing a cell that was not there at first. *)
Lemma store_new_sub (h h' : heap) l c : l ∉ dom h -> h ⊆ h' -> h ⊆ <[l := c]> h'.
Proof.
  intros Hl Hsub. apply map_subseteq_spec. intros k x Hk. rewrite lookup_insert_ne.
  - by eapply lookup_weaken.
  - intros ->. apply Hl. by eapply elem_of_dom_2.
Qed.

Lemma copy_ptr_deep {A V} `{InCell cell A, Zero A, DeepCopies A V φ, !RepLaws A V} h (p : ptr A) (v : option V) L :
  (forall x, v = Some x -> φ x) -> rep h p v L -> copied h (copy_ptr p) v.
Proof.
  intros Hφ Hp. destruct p as [|l], v as [v|]; try done; [exists Nil, h, ∅; by split_and! |].
  destruct Hp as (a & L0 & Hl & Ha & ->).
  destruct (new_run (A := A) zero h) as (out & Hnew & Hout).
  pose proof (rep_mono _ _ _ _ _ Ha (insert_new_sub h out (inj_cell zero) Hout)) as Ha1.
  destruct (deep_copies _ _ _ _ (Hφ v eq_refl) Ha1) as (a' & h2 & L2 & Hrun & Hsub & Ha' & Hfresh).
  exists (At out), (<[out := inj_cell a']> h2), ({[out]} ∪ L2). split_and!.
  - cbn [copy_ptr]. erewrite mbind_ok by done.
    erewrite mbind_ok by (eapply load_run; by eapply lookup_weaken, insert_new_sub). by erewrite mbind_ok.
  - apply store_new_sub; [done |]. etrans; [by apply insert_new_sub | done].
  - exists a', L2. rewrite lookup_insert_eq. split_and!; [done | | done].
    apply (rep_frame h2 _ _ _ _ {[out]} Ha'); [set_solver |]. intros l' Hl'. rewrite lookup_insert_ne; set_solver.
  - set_solver.
Qed.

Lemma foldl_insert_map_to_list {A} (m : gmap string A) :
  foldl (fun m '(k, v) => <[k := v]> m) ∅ (map_to_list m) = m.
Proof.
  assert (H : forall l (m0 : gmap string A),
    foldl (fun m '(k, v) => <[k := v]> m) m0 l = foldr (fun p => <[p.1 := p.2]>) m0 (reverse l)).
  { induction l as [|[k v] l IH]; intros m0; [done |]. cbn [foldl]. by rewrite IH, reverse_cons, foldr_app. }
  rewrite H. symmetry. apply list_to_map_flip. by rewrite reverse_Permutation.
Qed.

Lemma copy_map_deep {A} `{InCell cell (gmap string A)} h (m : gomap A) v L :
  rep h m v L -> copied h (copy_map m) v.
Proof.
  intros Hm. destruct m as [|l], v as [kvs|]; try done; [exists NilMap, h, ∅; by split_and! |].
  destruct Hm as [Hl ->]. destruct (new_run (A := gmap string A) ∅ h) as (out & Hnew & Hout).
  assert (Hloop : forall kvl acc (h1 : heap) cur, acc h1 = (Ok tt, <[out := inj_cell cur]> h) ->
    foldl (fun acc '(k, v) => _ ← acc; cur ← load (A := gmap string A) out; store out (<[k := v]> cur)) acc kvl h1 =
    (Ok tt, <[out := inj_cell (foldl (fun m '(k, v) => <[k := v]> m) cur kvl)]> h)).
  { induction kvl as [|[k x] kvl IH]; intros acc h1 cur Hacc; [done |]. cbn [foldl]. apply IH.
    erewrite mbind_ok by done. erewrite mbind_ok by (apply load_run; by rewrite lookup_insert_eq).
    unfold store. by rewrite insert_insert_eq. }
  exists (MapAt out), (<[out := inj_cell kvs]> h), {[out]}. split_and!.
  - cbn [copy_map]. erewrite mbind_ok by done.
    erewrite mbind_ok by (eapply load_run; by eapply lookup_weaken, insert_new_sub).
    erewrite mbind_ok; [done |]. rewrite (Hloop _ _ _ ∅) by done.
    by rewrite foldl_insert_map_to_list.
  - by apply insert_new_sub.
  - split; [by rewrite lookup_insert_eq | done].
  - set_solver.
Qed.

(** The loop: after [i] elements the backing array of the copy starts with their copies. *)
Lemma copy_elems_deep {A V} `{InCell cell (list A), DeepCopies A V φ, !RepLaws A V} (h0 : heap) l off out arr :
  h0 !! l = Some (inj_cell arr) -> out ∉ dom h0 ->
  forall n i h xs zs vs1 vs2 L1 L2,
  h0 ⊆ h -> h !! out = Some (inj_cell (xs ++ zs)) -> length xs = i -> length zs = n ->
  rep_list h xs vs1 L1 -> L1 ## dom h0 -> out ∉ L1 ->
  rep_list h0 (take n (drop (off + i) arr)) vs2 L2 -> length vs2 = n -> Forall φ vs2 ->
  exists h' ys L', copy_elems (A := A) l off out i n h = (Ok tt, h') /\ h0 ⊆ h' /\
    h' !! out = Some (inj_cell ys) /\ length ys = (i + n)%nat /\
    rep_list h' ys (vs1 ++ vs2) L' /\ L' ## dom h0 /\ out ∉ L'.
Proof.
  intros Hl Hout n. induction n as [|n IH]; intros i h xs zs vs1 vs2 L1 L2 Hsub Ho Hi Hzs Hxs HL1 Ho1 Hv2 Hn Hφ.
  - destruct zs; [| done]. destruct vs2; [| done]. rewrite !app_nil_r in *. exists h, xs, L1. rewrite Nat.add_0_r. by split_and!.
  - destruct zs as [|z zs]; [done |]. destruct (arr !! (off + i)%nat) as [x|] eqn:Hx; cycle 1.
    { apply lookup_ge_None in Hx. rewrite drop_ge in Hv2 by done. inversion Hv2; by subst. }
    rewrite (drop_S _ _ _ Hx) in Hv2. inversion Hv2 as [|? v Lx ? vs2' Ls Hrx Hrest]; subst.
    apply Forall_cons in Hφ as [Hφv Hφs]. injection Hn as Hn. injection Hzs as Hzs.
    destruct (deep_copies h x v Lx Hφv (rep_mono _ _ _ _ _ Hrx Hsub)) as (x' & h1 & L' & Hrun & Hsub1 & Hx' & HL').
    assert (Ho1' : h1 !! out = Some (inj_cell (xs ++ z :: zs))) by (by eapply lookup_weaken).
    assert (Hod : out ∈ dom h) by (by eapply elem_of_dom_2).
    assert (Hd0 : dom h0 ⊆ dom h) by (by apply subseteq_dom).
    set (h2 := <[out := inj_cell (xs ++ x' :: zs)]> h1).
    assert (Hagree : forall k, k ∉ ({[out]} : gset loc) -> h2 !! k = h1 !! k)
      by (intros k Hk; unfold h2; rewrite lookup_insert_ne; set_solver).
    pose proof (rep_list_laws (A := A) (V := V)) as HL.
    destruct (IH (S (length xs)) h2 (xs ++ [x']) zs (vs1 ++ [v]) vs2' (L1 ∪ (L' ∪ ∅)) Ls)
      as (h' & ys & L'' & Hrun' & Hsub' & Hys & Hlen & Hrep & HL'' & Ho''); clear IH.
    + apply store_new_sub; [done | by etrans].
    + unfold h2. by rewrite lookup_insert_eq, <- app_assoc.
    + by rewrite length_app, Nat.add_1_r.
    + done.
    + apply rep_list_app; [| constructor; [| constructor]].
      * eapply (@rep_frame _ _ _ HL h1 _ _ _ _ {[out]}); [| set_solver | done].
        eapply (@rep_mono _ _ _ HL); [done |]; by etrans.
      * eapply (rep_frame h1 _ _ _ _ {[out]}); [done | set_solver | done].
    + set_solver.
    + set_solver.
    + by rewrite Nat.add_succ_r.
    + done.
    + done.
    + exists h', ys, L''. split_and!; try done.
      * cbn [copy_elems]. erewrite mbind_ok by (apply load_run; by eapply lookup_weaken). rewrite Hx.
        erewrite mbind_ok by done. erewrite mbind_ok by (by apply load_run). erewrite mbind_ok by done.
        replace (<[length xs := x']> (xs ++ z :: zs)) with (xs ++ x' :: zs); [done |].
        by rewrite insert_app_r_alt, Nat.sub_diag by lia.
      * by rewrite Hlen, Nat.add_succ_r.
      * by rewrite <- app_assoc in Hrep.
Qed.

Lemma copy_slice_deep {A V} `{InCell cell (list A), Zero A, DeepCopies A V φ, !RepLaws A V} h (s : slice A)
    (v : option (list V)) L :
  (forall vs, v = Some vs -> Forall φ vs) -> rep h s v L -> copied h (copy_slice s) v.
Proof.
  intros Hφ Hs. destruct s as [|l off len], v as [vs|]; try done; [exists NilSlice, h, ∅; by split_and! |].
  destruct Hs as (arr & L0 & Hl & Ha & Hlen & ->).
  destruct (new_run (A := list A) (replicate len zero) h) as (out & Hnew & Hout).
  destruct (copy_elems_deep h l off out arr Hl Hout len 0 (<[out := inj_cell (replicate len zero)]> h) []
              (replicate len zero) [] vs ∅ L0)
    as (h' & ys & L' & Hrun & Hsub & Hys & Hlen' & Hrep & HL' & Ho);
    [by apply insert_new_sub | by rewrite lookup_insert_eq | done | apply length_replicate | constructor | set_solver
     | set_solver | by rewrite Nat.add_0_r | done | by apply Hφ |].
  exists (Slice out 0 len), h', ({[out]} ∪ L'). split_and!; [| done | | set_solver].
  - cbn [copy_slice]. erewrite mbind_ok by done. by erewrite mbind_ok.
  - exists ys, L'. rewrite drop_0, take_ge by lia. by split_and!.
Qed.

(** ** Structs: the fields one after the other *)

(** As [copied], for the code from some field on: fresh with respect to [h0]. *)
Definition gives {A V} `{Rep A V} (h0 h : heap) (m : M heap A) (v : V) : Prop :=
  exists a h' L, m h = (Ok a, h') /\ h ⊆ h' /\ rep h' a v L /\ L ## dom h0.

Lemma gives_bind {A V B VB} `{Rep A V, Rep B VB} h0 h (m : M heap A) (f : A -> M heap B) (v : V) (vb : VB) :
  h0 ⊆ h -> copied h m v ->
  (forall a h1 L, h ⊆ h1 -> rep h1 a v L -> L ## dom h0 -> gives h0 h1 (f a) vb) -> gives h0 h (m ≫= f) vb.
Proof.
  intros Hsub (a & h1 & L & Hrun & Hsub1 & Ha & HL) Hf.
  destruct (Hf a h1 L Hsub1 Ha) as (b & h2 & L2 & Hrun2 & Hsub2 & Hb & HL2).
  { apply subseteq_dom in Hsub. set_solver. }
  exists b, h2, L2. split_and!; [by erewrite mbind_ok | by etrans | done | done].
Qed.

Lemma gives_ret {A V} `{Rep A V} h0 h (a : A) (v : V) L : rep h a v L -> L ## dom h0 -> gives h0 h (mret a) v.
Proof. intros Ha HL. exists a, h, L. by split_and!. Qed.

(** ** Independence *)

(** The copy stands for what the original stands for; nothing written through the copy
    changes the original, and nothing written to the memory there was changes the copy. *)
Definition independent_copy {A V} `{Rep A V} (h : heap) (a : A) (v : V) (L : gset loc) (m : M heap A) : Prop :=
  exists a' h' L', m h = (Ok a', h') /\ rep h' a' v L' /\
    (forall h2, (forall l, l ∉ L' -> h2 !! l = h' !! l) -> rep h2 a v L) /\
    (forall h2, (forall l, l ∉ dom h -> h2 !! l = h' !! l) -> rep h2 a' v L').

Lemma copied_independent {A V} `{RepLaws A V} h (a : A) (v : V) L m :
  rep h a v L -> copied h m v -> independent_copy h a v L m.
Proof.
  intros Ha (a' & h' & L' & Hrun & Hsub & Ha' & HL'). exists a', h', L'. pose proof (rep_alloc _ _ _ _ Ha).
  split_and!; [done | done | |]; intros h2 Hh2.
  - eapply (rep_frame h' _ _ _ _ L'); [by eapply rep_mono | set_solver | done].
  - by eapply (rep_frame h' _ _ _ _ (dom h)).
Qed.
End Heap.

Arguments Rep : clear implicits.
Arguments DeepCopyInto : clear implicits.
Arguments RepLaws cell A V {_}.
Arguments DeepCopies cell A V {_ _} φ.

(** ** Proofs about structs *)

(** A struct reads what its fields read. *)
Ltac open_rep H :=
  hnf in H; repeat lazymatch type of H with ex _ => destruct H as [? H] | _ /\ _ => destruct H as [? H] end.
Ltac build_rep := hnf; repeat lazymatch goal with |- ex _ => eexists end; split_and!.
Ltac struct_laws :=
  split;
  [ intros h h' a v L Hr Hagree; open_rep Hr; subst L; build_rep;
    try reflexivity; try eassumption; (eapply rep_local; [eassumption |]); set_solver
  | intros h a v L Hr; open_rep Hr; subst L;
    repeat match goal with H : rep _ _ _ _ |- _ => apply rep_alloc in H end; set_solver ].

Lemma Forall_every {V} (l : list V) : Forall every l.
Proof. by apply Forall_true. Qed.

Ltac sub_heap := solve [repeat first [reflexivity | eassumption | etrans; [eassumption |]]].

(** One field, read from the heap as it was, copied in the heap as it is. *)
Ltac copy_field :=
  eapply gives_bind;
  [ sub_heap
  | first [ eapply deep_copies; [| eapply rep_mono; [eassumption | sub_heap]]
          | eapply copy_ptr_deep; [| eapply rep_mono; [eassumption | sub_heap]]
          | eapply copy_slice_deep; [| eapply rep_mono; [eassumption | sub_heap]]
          | eapply copy_map_deep, rep_mono; [eassumption | sub_heap] ];
    try first [exact I | intros; apply Forall_every | intros; exact I]
  | intros ? ? ? ? ? ? ].

(** All fields are copied. *)
Ltac copies_done :=
  eapply gives_ret;
  [ build_rep; try reflexivity;
    first [ eapply rep_mono; [eassumption | sub_heap]
          | match goal with H : ?a = _ |- context [?a] => rewrite H; reflexivity end ]
  | set_solver ].

Ltac copy_struct :=
  let Hφ := fresh "Hφ" in let Hr := fresh in
  intros h a v L Hφ Hr; open_rep Hr; subst L;
  lazymatch goal with |- copied _ ?m _ => change (gives h h m v) end;
  lazymatch goal with |- gives _ _ (deep_copy _) _ => unfold deep_copy at 1 end.
