(* ===== verification/GoNum.v ===== *)
(** Go's numbers, as the program uses them: fixed-width integers kept at their
    width, [strconv] on base 10, [time.Duration] and [time.Time] as nanosecond
    counts, and the conversion of an integer to [float64] (Redis scores). *)

From S2P Require Import Prelude.
From Stdlib Require Import Ascii Decimal DecimalString DecimalZ.

Local Open Scope char_scope.

Local Open Scope Z_scope.

Create HintDb gonum.

(** ** Fixed-width integers *)

Definition u32 (z : Z) : Z := z mod 2 ^ 32.
Definition i32 (z : Z) : Z := (z + 2 ^ 31) mod 2 ^ 32 - 2 ^ 31.
Definition i64 (z : Z) : Z := (z + 2 ^ 63) mod 2 ^ 64 - 2 ^ 63.

Definition is_u32 (z : Z) : Prop := 0 <= z < 2 ^ 32.
Definition is_i32 (z : Z) : Prop := - 2 ^ 31 <= z < 2 ^ 31.
Definition is_i64 (z : Z) : Prop := - 2 ^ 63 <= z < 2 ^ 63.

#[export] Instance is_u32_dec z : Decision (is_u32 z).
Proof. unfold is_u32. apply _. Defined.
#[export] Instance is_i32_dec z : Decision (is_i32 z).
Proof. unfold is_i32. apply _. Defined.
#[export] Instance is_i64_dec z : Decision (is_i64 z).
Proof. unfold is_i64. apply _. Defined.

Lemma u32_range z : is_u32 (u32 z).
Proof. unfold is_u32, u32. apply Z.mod_pos_bound. lia. Qed.

Lemma u32_id z : is_u32 z -> u32 z = z.
Proof. unfold is_u32, u32. intros. by apply Z.mod_small. Qed.

Lemma i32_range z : is_i32 (i32 z).
Proof.
  unfold is_i32, i32. pose proof (Z.mod_pos_bound (z + 2 ^ 31) (2 ^ 32)). lia.
Qed.

Lemma i32_id z : is_i32 z -> i32 z = z.
Proof. unfold is_i32, i32. intros. rewrite Z.mod_small; lia. Qed.

Lemma i64_id z : is_i64 z -> i64 z = z.
Proof. unfold is_i64, i64. intros. rewrite Z.mod_small; lia. Qed.

(** Bit operations stay inside [n] bits. *)
Lemma testbit_high_bound z n :
  0 <= n -> 0 <= z -> (forall i, n <= i -> Z.testbit z i = false) -> z < 2 ^ n.
Proof.
  intros Hn Hz Hb.
  assert (Hm : z mod 2 ^ n = z).
  { apply Z.bits_inj'. intros i Hi. destruct (Z.lt_ge_cases i n).
    - by rewrite Z.mod_pow2_bits_low.
    - rewrite Z.mod_pow2_bits_high by lia. symmetry. apply Hb. lia. }
  rewrite <- Hm. apply Z.mod_pos_bound. lia.
Qed.

Lemma testbit_above z n i : 0 <= z < 2 ^ n -> 0 <= n <= i -> Z.testbit z i = false.
Proof.
  intros [H0 H1] Hi. rewrite <- (Z.mod_small z (2 ^ n)) by lia.
  apply Z.mod_pow2_bits_high. lia.
Qed.

Lemma lxor_u32 a b : is_u32 a -> is_u32 b -> is_u32 (Z.lxor a b).
Proof.
  intros Ha Hb. unfold is_u32 in *. split.
  - apply Z.lxor_nonneg. lia.
  - apply testbit_high_bound; [lia | apply Z.lxor_nonneg; lia |].
    intros i Hi. rewrite Z.lxor_spec.
    rewrite !(testbit_above _ 32) by lia. done.
Qed.

Lemma lor_u32 a b : is_u32 a -> is_u32 b -> is_u32 (Z.lor a b).
Proof.
  intros Ha Hb. unfold is_u32 in *. split.
  - apply Z.lor_nonneg. lia.
  - apply testbit_high_bound; [lia | apply Z.lor_nonneg; lia |].
    intros i Hi. rewrite Z.lor_spec.
    rewrite !(testbit_above _ 32) by lia. done.
Qed.

Lemma shiftr_u32 a n : is_u32 a -> 0 <= n -> is_u32 (Z.shiftr a n).
Proof.
  unfold is_u32. intros Ha Hn. rewrite Z.shiftr_div_pow2 by lia.
  split; [apply Z.div_pos; lia |].
  apply Z.le_lt_trans with a; [|lia].
  apply Z.div_le_upper_bound; [lia |]. nia.
Qed.

#[export] Hint Resolve u32_range lxor_u32 lor_u32 shiftr_u32 : gonum.

(** ** [float64] of an integer

    [float64(z)] for an integer rounds to 53 significant bits, ties to even.  The
    value is again an integer, so scores are kept as [Z]. *)
Definition f64_of_int (z : Z) : Z :=
  let a := Z.abs z in
  let e := Z.log2 a - 52 in
  if e <=? 0 then z
  else
    let q := a / 2 ^ e in
    let r := a mod 2 ^ e in
    let half := 2 ^ (e - 1) in
    let up := (half <? r) || ((half =? r) && Z.odd q) in
    Z.sgn z * ((if up then q + 1 else q) * 2 ^ e).

Lemma f64_of_int_exact z : Z.abs z < 2 ^ 53 -> f64_of_int z = z.
Proof.
  intros Hz. unfold f64_of_int.
  assert (Z.log2 (Z.abs z) < 53).
  { destruct (Z.eq_dec (Z.abs z) 0) as [-> | Hne]; [done |].
    apply Z.log2_lt_pow2; lia. }
  destruct (Z.leb_spec (Z.log2 (Z.abs z) - 52) 0); [done | lia].
Qed.

(** Converting a [float64] score back with [int64(...)] : scores are integers,
    and one that does not fit (only 2^63 can arise from an [int64]) becomes the
    value amd64 produces. *)
Definition i64_of_f64 (f : Z) : Z := if decide (is_i64 f) then f else - 2 ^ 63.

Lemma i64_of_f64_exact z : Z.abs z < 2 ^ 53 -> i64_of_f64 (f64_of_int z) = z.
Proof.
  intros Hz. rewrite f64_of_int_exact by done. unfold i64_of_f64.
  rewrite decide_True; [done | unfold is_i64; lia].
Qed.

(** ** [strconv] *)

(** [strconv.FormatInt(z, 10)], [strconv.Itoa] and [%d]. *)
Definition FormatInt (z : Z) : string := NilZero.string_of_int (Z.to_int z).

(** The value of an optionally signed string of decimal digits. *)
Definition parse_dec (s : string) : option Z :=
  match s with
  | String "+"%char r => Z.of_uint <$> NilZero.uint_of_string r
  | _ => Z.of_int <$> NilZero.int_of_string s
  end.

(** [strconv.ParseInt(s, 10, bits)]: the returned value, and the error's kind.  A
    syntax error returns 0, a range error the nearest representable value; callers
    that drop the error use the value all the same. *)
Inductive num_error : Type := ErrSyntax | ErrRange.

Definition ParseInt (s : string) (bits : Z) : Z * option num_error :=
  match parse_dec s with
  | None => (0, Some ErrSyntax)
  | Some z =>
    if 2 ^ (bits - 1) <=? z then (2 ^ (bits - 1) - 1, Some ErrRange)
    else if z <? - 2 ^ (bits - 1) then (- 2 ^ (bits - 1), Some ErrRange)
    else (z, None)
  end.

Definition num_error_msg (e : num_error) : string :=
  match e with ErrSyntax => "invalid syntax" | ErrRange => "value out of range" end.

(** [strconv.Atoi], [None] for an error. *)
Definition Atoi (s : string) : option Z :=
  match ParseInt s 64 with (z, None) => Some z | _ => None end.

Lemma to_uint_nonnil p : Pos.to_uint p <> Decimal.Nil.
Proof. apply DecimalPos.Unsigned.to_uint_nonnil. Qed.

Lemma string_of_uint_head u r : NilZero.string_of_uint u <> String "+"%char r.
Proof. by destruct u. Qed.

Lemma FormatInt_head z r : FormatInt z <> String "+"%char r.
Proof.
  unfold FormatInt. destruct (Z.to_int z); simpl; [apply string_of_uint_head | done].
Qed.

Lemma to_int_not_nil z : Z.to_int z <> Decimal.Pos Decimal.Nil /\ Z.to_int z <> Decimal.Neg Decimal.Nil.
Proof.
  destruct z as [|p|p]; simpl; split; try done; intros [=]; by eapply to_uint_nonnil.
Qed.

Lemma parse_dec_FormatInt z : parse_dec (FormatInt z) = Some z.
Proof.
  pose proof (FormatInt_head z) as Hh. unfold parse_dec.
  assert (Hp : Z.of_int <$> NilZero.int_of_string (FormatInt z) = Some z).
  { unfold FormatInt. destruct (to_int_not_nil z).
    rewrite NilZero.isi by done. simpl. by rewrite DecimalZ.of_to. }
  destruct (FormatInt z) as [|c r] eqn:E; [done |].
  destruct c as [[][][][][][][][]]; try exact Hp. exfalso. by apply (Hh r).
Qed.

Lemma FormatInt_inj a b : FormatInt a = FormatInt b -> a = b.
Proof.
  intros H. pose proof (parse_dec_FormatInt a) as Ha.
  rewrite H, parse_dec_FormatInt in Ha. congruence.
Qed.

Lemma ParseInt_FormatInt z bits :
  - 2 ^ (bits - 1) <= z < 2 ^ (bits - 1) -> ParseInt (FormatInt z) bits = (z, None).
Proof.
  intros Hz. unfold ParseInt. rewrite parse_dec_FormatInt. zbool; simpl in *; first [done | lia].
Qed.

Lemma ParseInt_i32 z : is_i32 z -> ParseInt (FormatInt z) 32 = (z, None).
Proof. apply (ParseInt_FormatInt z 32). Qed.

Lemma ParseInt_i64 z : is_i64 z -> ParseInt (FormatInt z) 64 = (z, None).
Proof. apply (ParseInt_FormatInt z 64). Qed.

Lemma Atoi_FormatInt z : is_i64 z -> Atoi (FormatInt z) = Some z.
Proof. intros. unfold Atoi. by rewrite ParseInt_i64. Qed.



(** ** Time

    A [time.Duration] is a count of nanoseconds; a [time.Time] is the nanosecond
    count since the Unix epoch; the zero [Time] is the first instant of year 1. *)
Definition Millisecond : Z := 10 ^ 6.
Definition Second : Z := 10 ^ 9.
Definition Minute : Z := 60 * Second.
Definition zero_time : Z := - 62135596800 * Second.

(** [time.Duration(s) * time.Second], an [int64] product. *)
Definition seconds (s : Z) : Z := i64 (s * Second).

Lemma seconds_i32 s : is_i32 s -> seconds s = s * Second.
Proof. intros H. apply i64_id. unfold is_i32, is_i64, Second in *. lia. Qed.

Definition UnixMilli (t : Z) : Z := t / Millisecond.
Definition Unix (t : Z) : Z := t / Second.
