(* ===== verification/GoStr.v ===== *)
(** Go's [strings] package and string indexing, as far as the program uses them.
    A Go string is a sequence of bytes; [string] of the Standard Library is one
    too ([ascii] is an 8-bit byte). *)

From S2P Require Import Prelude.
From Stdlib Require Import Ascii.

(** ** Bytes *)

Definition byte_of (c : ascii) : Z := Z.of_N (N_of_ascii c).

(** [[]byte(s)] *)
Definition bytes (s : string) : list Z := byte_of <$> String.list_ascii_of_string s.

Lemma byte_of_range c : (0 <= byte_of c < 256)%Z.
Proof.
  unfold byte_of. split; [apply N2Z.is_nonneg |].
  change 256%Z with (Z.of_N 256). apply N2Z.inj_lt. apply N_ascii_bounded.
Qed.

Lemma bytes_range s : Forall (fun b => 0 <= b < 256)%Z (bytes s).
Proof.
  unfold bytes. apply Forall_fmap, Forall_forall. intros c _. apply byte_of_range.
Qed.

(** Whether a byte occurs in a string. *)
Fixpoint has_char (c : ascii) (s : string) : bool :=
  match s with
  | EmptyString => false
  | String d r => bool_decide (c = d) || has_char c r
  end.

(** ** Searching and cutting *)

(** [strings.HasPrefix(s, p)] *)
Fixpoint HasPrefix (s p : string) {struct p} : bool :=
  match p, s with
  | EmptyString, _ => true
  | String c p', String d s' => bool_decide (c = d) && HasPrefix s' p'
  | _, EmptyString => false
  end.

(** [strings.TrimPrefix(s, p)]: [s] unchanged when [p] is not a prefix. *)
Fixpoint drop_str (n : nat) (s : string) : string :=
  match n, s with
  | S n', String _ r => drop_str n' r
  | _, _ => s
  end.

Definition TrimPrefix (s p : string) : string :=
  if HasPrefix s p then drop_str (String.length p) s else s.

(** [strings.Contains(s, sub)] *)
Fixpoint Contains (s sub : string) : bool :=
  HasPrefix s sub ||
  match s with
  | EmptyString => false
  | String _ r => Contains r sub
  end.

(** [strings.Split(s, sep)] for a one-byte separator. *)
Fixpoint Split (s : string) (sep : ascii) : list string :=
  match s with
  | EmptyString => [EmptyString]
  | String c r =>
    match Split r sep with
    | [] => []
    | p :: ps => if bool_decide (c = sep) then EmptyString :: p :: ps else String c p :: ps
    end
  end.

(** The ASCII white space of [unicode.IsSpace]. *)
Definition is_space (c : ascii) : bool :=
  let b := byte_of c in ((9 <=? b) && (b <=? 13) || (b =? 32))%Z.

Fixpoint TrimLeftSpace (s : string) : string :=
  match s with
  | String c r => if is_space c then TrimLeftSpace r else s
  | EmptyString => EmptyString
  end.

Fixpoint TrimRightSpace (s : string) : string :=
  match s with
  | EmptyString => EmptyString
  | String c r =>
    match TrimRightSpace r with
    | EmptyString => if is_space c then EmptyString else String c EmptyString
    | r' => String c r'
    end
  end.

(** [strings.TrimSpace(s)] *)
Definition TrimSpace (s : string) : string := TrimRightSpace (TrimLeftSpace s).

(** ** Quoting

    [strconv.Quote] ([%q]) of a string of printable ASCII: quote and backslash are
    escaped.  Only error texts of the operator use it, on object names. *)
Definition dquote : ascii := ascii_of_nat 34.
Definition backslash : ascii := ascii_of_nat 92.

Fixpoint quote_body (s : string) : string :=
  match s with
  | EmptyString => String dquote EmptyString
  | String c r =>
    if bool_decide (c = dquote \/ c = backslash) then String backslash (String c (quote_body r))
    else String c (quote_body r)
  end.

Definition quote (s : string) : string := String dquote (quote_body s).

(** ** Lemmas *)

Lemma string_app_cons c a b : String c a +:+ b = String c (a +:+ b).
Proof. done. Qed.

Lemma string_app_nil_l b : EmptyString +:+ b = b.
Proof. done. Qed.

Lemma string_app_assoc a b c : (a +:+ b) +:+ c = a +:+ (b +:+ c).
Proof. induction a as [|x a IH]; [done |]. by rewrite !string_app_cons, IH. Qed.

Lemma string_app_inj_l a b c : a +:+ b = a +:+ c -> b = c.
Proof. induction a as [|x a IH]; [done |]. rewrite !string_app_cons. intros [=]. auto. Qed.

Lemma has_char_app c a b : has_char c (a +:+ b) = has_char c a || has_char c b.
Proof. induction a as [|x a IH]; [done |]. rewrite string_app_cons. simpl. by rewrite IH, orb_assoc. Qed.

(** Two strings that reach the separator for the first time at the end of their
    first parts agree part by part. *)
Lemma app_sep_inj c a b ra rb :
  has_char c a = false -> has_char c b = false ->
  a +:+ String c ra = b +:+ String c rb -> a = b /\ ra = rb.
Proof.
  revert b. induction a as [|x a IH]; intros [|y b] Ha Hb Heq; simpl in *.
  - rewrite !string_app_nil_l in Heq. by simplify_eq.
  - rewrite string_app_cons, string_app_nil_l in Heq. simplify_eq.
    by rewrite bool_decide_eq_true_2 in Hb.
  - rewrite string_app_cons, string_app_nil_l in Heq. simplify_eq.
    by rewrite bool_decide_eq_true_2 in Ha.
  - rewrite !string_app_cons in Heq. simplify_eq.
    apply orb_false_iff in Ha as [_ Ha]. apply orb_false_iff in Hb as [_ Hb].
    by destruct (IH b Ha Hb) as [-> ->].
Qed.

(** And for the last time at the start of their second parts. *)
Lemma app_last_sep c a b ra rb :
  has_char c ra = false -> has_char c rb = false -> a +:+ String c ra = b +:+ String c rb -> a = b /\ ra = rb.
Proof.
  revert b. induction a as [|x a IH]; intros [|y b] Ha Hb Heq; rewrite ?string_app_cons, ?string_app_nil_l in Heq.
  - by simplify_eq.
  - simplify_eq. rewrite has_char_app in Ha. cbn in Ha. case_bool_decide; [by rewrite orb_true_r in Ha | done].
  - simplify_eq. rewrite has_char_app in Hb. cbn in Hb. case_bool_decide; [by rewrite orb_true_r in Hb | done].
  - injection Heq as -> Heq. by destruct (IH b Ha Hb Heq) as [-> ->].
Qed.

Lemma HasPrefix_app p s : HasPrefix (p +:+ s) p = true.
Proof.
  induction p as [|c p IH]; [done |]. rewrite string_app_cons. simpl.
  by rewrite bool_decide_eq_true_2.
Qed.

Lemma HasPrefix_spec s p : HasPrefix s p = true <-> exists r, s = p +:+ r.
Proof.
  split; [| intros [r ->]; apply HasPrefix_app].
  revert s. induction p as [|c p IH]; intros s H; [by exists s |].
  destruct s as [|d s]; [done |]. simpl in H.
  apply andb_true_iff in H as [Hc H]. apply bool_decide_eq_true in Hc as ->.
  destruct (IH s H) as [r ->]. by exists r.
Qed.

Lemma drop_str_app p s : drop_str (String.length p) (p +:+ s) = s.
Proof. induction p as [|c p IH]; [by destruct s |]. by rewrite string_app_cons. Qed.

Lemma TrimPrefix_app p s : TrimPrefix (p +:+ s) p = s.
Proof. unfold TrimPrefix. by rewrite HasPrefix_app, drop_str_app. Qed.

Lemma Split_nonempty s sep : Split s sep <> [].
Proof.
  induction s as [|c s IH]; simpl; [done |].
  destruct (Split s sep); [done |]. by case_bool_decide.
Qed.
