(* ===== verification/Topology.v ===== *)
(** [internal/kafka/topology.go]: topic names, the murmur2 routing hash, shard
    selection, hash-range splitting, partition choice and the DLQ-cycle guard. *)

From S2P Require Import Prelude GoNum GoStr.
From Stdlib Require Import Ascii.

Local Open Scope Z_scope.

(** ** Names *)

Definition topicPrefix : string := "kmsvc.".
Definition fifoSuffix : string := ".fifo".
Definition dlqSuffix : string := ".dlq".
Definition shardInfix : string := ".shard-".
Definition DefaultPartitionCount : Z := 6.
Definition FullHashRangeEnd : Z := 0xFFFFFFFF.

Definition ShardTopicName (queueName : string) (fifo : bool) (shardID : string) : string :=
  let base := topicPrefix +:+ queueName in
  let base := if fifo then base +:+ fifoSuffix else base in
  base +:+ shardInfix +:+ shardID.

Definition DLQShardTopicName (queueName : string) (fifo : bool) (shardID : string) : string :=
  let base := topicPrefix +:+ queueName in
  let base := if fifo then base +:+ fifoSuffix else base in
  base +:+ dlqSuffix +:+ shardInfix +:+ shardID.

Definition ConsumerGroup (queueName : string) : string := "kmsvc-consumer-" +:+ queueName.

(** ** murmur2 *)

Definition murmur_seed : Z := 0x9747b28c.
Definition murmur_m : Z := 0x5bd1e995.
Definition murmur_r : Z := 24.

(** [data[i]]; every index the code uses is in range. *)
Definition at_ (data : list Z) (i : nat) : Z := Z.land (default 0 (data !! i)) 0xff.

(** One iteration of the block loop. *)
Definition murmur2_mix (h k : Z) : Z :=
  let k := u32 (k * murmur_m) in
  let k := Z.lxor k (Z.shiftr k murmur_r) in
  let k := u32 (k * murmur_m) in
  let h := u32 (h * murmur_m) in
  Z.lxor h k.

(** [for i := 0; i < four; i++ { ... }], with [n] iterations left. *)
Fixpoint murmur2_loop (data : list Z) (i n : nat) (h : Z) : Z :=
  match n with
  | O => h
  | S n' =>
    let i4 := (i * 4)%nat in
    let k := Z.lor (Z.lor (Z.lor (at_ data i4)
                                 (Z.shiftl (at_ data (i4 + 1)%nat) 8))
                          (Z.shiftl (at_ data (i4 + 2)%nat) 16))
                   (Z.shiftl (at_ data (i4 + 3)%nat) 24) in
    murmur2_loop data (S i) n' (murmur2_mix h k)
  end.

(** The [switch length & 3] with its fallthroughs. *)
Definition murmur2_tail (data : list Z) (h : Z) : Z :=
  let length := length data in
  let base := (length - length mod 4)%nat in
  let case1 h := u32 (Z.lxor h (at_ data base) * murmur_m) in
  let case2 h := case1 (Z.lxor h (Z.shiftl (at_ data (base + 1)%nat) 8)) in
  let case3 h := case2 (Z.lxor h (Z.shiftl (at_ data (base + 2)%nat) 16)) in
  match (length mod 4)%nat with
  | 3%nat => case3 h
  | 2%nat => case2 h
  | 1%nat => case1 h
  | _ => h
  end.

Definition murmur2_final (h : Z) : Z :=
  let h := Z.lxor h (Z.shiftr h 13) in
  let h := u32 (h * murmur_m) in
  Z.lxor h (Z.shiftr h 15).

Definition murmur2 (data : list Z) : Z :=
  let h := Z.lxor murmur_seed (u32 (Z.of_nat (length data))) in
  let four := (length data / 4)%nat in
  murmur2_final (murmur2_tail data (murmur2_loop data 0 four h)).

Definition toPositive (n : Z) : Z := Z.land n 0x7fffffff.

Definition HashKey (key : string) : Z := toPositive (murmur2 (bytes key)).

(** ** Shards *)

Record Shard : Type := MkShard {
  sh_ID : string;
  sh_Topic : string;
  sh_HashRangeStart : Z;
  sh_HashRangeEnd : Z;
  sh_Phase : string
}.

#[export] Instance Shard_eq_dec : EqDecision Shard.
Proof. solve_decision. Defined.

Definition is_active_phase (s : Shard) : bool :=
  bool_decide (sh_Phase s = "") || bool_decide (sh_Phase s = "Active").

Fixpoint ActiveShards (shards : list Shard) : list Shard :=
  match shards with
  | [] => []
  | s :: rest => if is_active_phase s then s :: ActiveShards rest else ActiveShards rest
  end.

Definition in_range (h : Z) (s : Shard) : bool :=
  (sh_HashRangeStart s <=? h) && (h <? sh_HashRangeEnd s).

Fixpoint select_hash (shards : list Shard) (h : Z) : option Shard :=
  match shards with
  | [] => None
  | s :: rest => if in_range h s then Some s else select_hash rest h
  end.

Definition SelectShard (shards : list Shard) (routingKey : string) : option Shard :=
  select_hash shards (HashKey routingKey).

Definition SplitHashRange (start end_ : Z) : Z := u32 (start + u32 (end_ - start) / 2).

Definition PartitionWithinShard (routingKey : string) (partitionsPerShard : Z) : Z :=
  let partitionsPerShard :=
    if partitionsPerShard <=? 0 then DefaultPartitionCount else partitionsPerShard in
  i32 (HashKey routingKey mod u32 partitionsPerShard).

(** ** DLQ guard *)

Definition ValidateNoDLQCycle (queueName : string) (isDLQ : bool) (deadLetterTarget : string)
  : res unit :=
  if bool_decide (deadLetterTarget = "") then Ok tt
  else if bool_decide (deadLetterTarget = queueName) then
    Err (ErrText ("queue " +:+ quote queueName +:+ " cannot set its own dead-letter target"))
  else if isDLQ then
    Err (ErrText ("DLQ queue " +:+ quote queueName +:+
                  " cannot itself have a dead-letter target (no DLQ chains)"))
  else Ok tt.

(** ** Specifications *)

(** murmur2 over a byte list, four bytes at a time: the little-endian value of
    each block is mixed in, then that of the one to three bytes left. *)
Fixpoint le_word (l : list Z) : Z :=
  match l with [] => 0 | b :: r => b + 2 ^ 8 * le_word r end.

Fixpoint murmur2_spec (l : list Z) (h : Z) : Z :=
  match l with
  | b0 :: b1 :: b2 :: b3 :: r => murmur2_spec r (murmur2_mix h (le_word [b0; b1; b2; b3]))
  | [] => h
  | _ => u32 (Z.lxor h (le_word l) * murmur_m)
  end.

(** The shards of a list whose range holds [h]. *)
Definition covering (h : Z) (shards : list Shard) : list Shard :=
  filter (fun s => in_range h s = true) shards.

(** Every hash value has exactly one active shard. *)
Definition routable (shards : list Shard) : Prop :=
  forall h, 0 <= h < FullHashRangeEnd -> exists s, covering h (ActiveShards shards) = [s].

(** ** Lemmas *)

Lemma lor_shiftl_add a b n : 0 <= n -> 0 <= a < 2 ^ n -> Z.lor a (Z.shiftl b n) = a + b * 2 ^ n.
Proof.
  intros Hn Ha. rewrite <- Z.shiftl_mul_pow2 by lia.
  assert (Hd : Z.land a (Z.shiftl b n) = 0).
  { apply Z.bits_inj'. intros i Hi. rewrite Z.land_spec, Z.bits_0.
    destruct (Z.lt_ge_cases i n).
    - by rewrite Z.shiftl_spec_low, andb_false_r.
    - by rewrite (testbit_above a n) by lia. }
  rewrite Z.add_nocarry_lxor by done. by rewrite Z.lxor_lor.
Qed.

Lemma lxor_shiftl_add a b n : 0 <= n -> 0 <= a < 2 ^ n -> Z.lxor a (Z.shiftl b n) = a + b * 2 ^ n.
Proof.
  intros Hn Ha. rewrite <- (lor_shiftl_add a b n) by done. apply Z.lxor_lor.
  apply Z.bits_inj'. intros i Hi. rewrite Z.land_spec, Z.bits_0.
  destruct (Z.lt_ge_cases i n).
  - by rewrite Z.shiftl_spec_low, andb_false_r.
  - by rewrite (testbit_above a n) by lia.
Qed.

Lemma at_byte (pre l : list Z) (j : nat) (b : Z) :
  l !! j = Some b -> 0 <= b < 256 -> at_ (pre ++ l) (length pre + j)%nat = b.
Proof.
  intros Hj Hb. unfold at_. rewrite lookup_app_r by lia.
  replace (length pre + j - length pre)%nat with j by lia. rewrite Hj. simpl.
  change 255 with (Z.ones 8). rewrite Z.land_ones by lia. by apply Z.mod_small.
Qed.

Lemma at_byte0 (pre l : list Z) (b : Z) :
  0 <= b < 256 -> at_ (pre ++ b :: l) (length pre) = b.
Proof. intros Hb. rewrite <- (Nat.add_0_r (length pre)). by apply at_byte. Qed.

(** Bytes combined by shifts and [or] are the little-endian value. *)
Lemma le_word_lor b0 b1 b2 b3 :
  0 <= b0 < 256 -> 0 <= b1 < 256 -> 0 <= b2 < 256 ->
  Z.lor (Z.lor (Z.lor b0 (Z.shiftl b1 8)) (Z.shiftl b2 16)) (Z.shiftl b3 24)
  = le_word [b0; b1; b2; b3].
Proof.
  intros. rewrite (lor_shiftl_add b0), (lor_shiftl_add _ b2), (lor_shiftl_add _ b3) by lia.
  simpl. lia.
Qed.

Lemma tail_word (pre l : list Z) (i : nat) (h : Z) :
  length pre = (i * 4)%nat -> (length l < 4)%nat -> Forall (fun b => 0 <= b < 256) l ->
  murmur2_tail (pre ++ l) h = murmur2_spec l h.
Proof.
  intros Hpre Hl Hb. unfold murmur2_tail. rewrite length_app.
  replace ((length pre + length l) mod 4)%nat with (length l).
  2:{ rewrite Hpre, Nat.add_comm, Nat.Div0.mod_add. symmetry. by apply Nat.mod_small. }
  replace (length pre + length l - length l)%nat with (length pre) by lia.
  destruct l as [|b0 [|b1 [|b2 [|b3 r]]]]; simpl in Hl; [done | | | | lia];
    decompose_Forall_hyps; rewrite at_byte0 by done;
    rewrite ?(at_byte pre _ 1 b1), ?(at_byte pre _ 2 b2) by done; simpl; do 2 f_equal.
  - f_equal. lia.
  - rewrite Z.lxor_assoc, (Z.lxor_comm (Z.shiftl _ _)), lxor_shiftl_add by lia. f_equal. lia.
  - rewrite !Z.lxor_assoc. f_equal.
    rewrite (Z.lxor_comm (Z.shiftl b1 8)), (lxor_shiftl_add b0) by lia.
    rewrite Z.lxor_comm, lxor_shiftl_add by lia. lia.
Qed.

Lemma div4_step (n : nat) : (S (S (S (S n))) / 4 = S (n / 4))%nat.
Proof.
  replace (S (S (S (S n)))) with (n + 1 * 4)%nat by lia.
  rewrite Nat.div_add by done. lia.
Qed.

Lemma loop_spec (n : nat) (pre l : list Z) (i : nat) (h : Z) :
  length pre = (i * 4)%nat -> (length l / 4)%nat = n -> Forall (fun b => 0 <= b < 256) l ->
  murmur2_tail (pre ++ l) (murmur2_loop (pre ++ l) i n h) = murmur2_spec l h.
Proof.
  revert pre l i h. induction n as [|n IH]; intros pre l i h Hpre Hn Hb.
  { apply (tail_word pre l i); [done | | done]. by apply Nat.div_small_iff in Hn. }
  destruct l as [|b0 [|b1 [|b2 [|b3 r]]]]; [done.. |].
  assert ((length r / 4)%nat = n) by (pose proof (div4_step (length r)); simpl length in Hn; lia).
  clear Hn. decompose_Forall_hyps. cbn [murmur2_loop murmur2_spec]. rewrite <- Hpre.
  rewrite at_byte0 by done.
  rewrite (at_byte pre _ 1 b1), (at_byte pre _ 2 b2), (at_byte pre _ 3 b3) by done.
  rewrite le_word_lor by done.
  replace (pre ++ b0 :: b1 :: b2 :: b3 :: r) with ((pre ++ [b0; b1; b2; b3]) ++ r)
    by (by rewrite <- app_assoc).
  apply IH; [rewrite length_app; simpl; lia | done | done].
Qed.

Lemma toPositive_mod n : toPositive n = n mod 2 ^ 31.
Proof. unfold toPositive. change 0x7fffffff with (Z.ones 31). by apply Z.land_ones. Qed.

Lemma HashKey_range key : 0 <= HashKey key < 2 ^ 31.
Proof. unfold HashKey. rewrite toPositive_mod. by apply Z.mod_pos_bound. Qed.

Lemma in_range_spec h s :
  in_range h s = true <-> sh_HashRangeStart s <= h < sh_HashRangeEnd s.
Proof. unfold in_range. rewrite andb_true_iff. lia. Qed.

Lemma elem_of_ActiveShards s shards :
  s ∈ ActiveShards shards <-> s ∈ shards /\ is_active_phase s = true.
Proof.
  induction shards as [|t shards IH]; simpl; [set_solver |].
  destruct (is_active_phase t) eqn:E; rewrite ?elem_of_cons, IH; [naive_solver |].
  split; [tauto |]. intros [[-> | H] H2]; [congruence | tauto].
Qed.

Lemma select_hash_head shards h : select_hash shards h = head (covering h shards).
Proof.
  unfold covering. induction shards as [|s shards IH]; [done |]. simpl.
  destruct (in_range h s) eqn:E.
  - by rewrite filter_cons_True.
  - rewrite filter_cons_False; [done |]. by rewrite E.
Qed.

Lemma select_hash_Some shards h s :
  select_hash shards h = Some s -> s ∈ shards /\ in_range h s = true.
Proof.
  rewrite select_hash_head. intros H. apply head_Some in H as [l Hl].
  assert (Hin : s ∈ covering h shards) by (rewrite Hl; left).
  apply list_elem_of_filter in Hin. tauto.
Qed.

Lemma select_hash_None shards h :
  select_hash shards h = None <-> forall s, s ∈ shards -> in_range h s = false.
Proof.
  rewrite select_hash_head. split.
  - intros H s Hs. destruct (in_range h s) eqn:E; [| done].
    assert (Hin : s ∈ covering h shards) by (by apply list_elem_of_filter).
    destruct (covering h shards); [set_solver | done].
  - intros H. destruct (covering h shards) as [|s l] eqn:E; [done |].
    assert (Hin : s ∈ covering h shards) by (rewrite E; left).
    apply list_elem_of_filter in Hin as [Hr Hin]. by rewrite H in Hr.
Qed.

#[export] Hint Resolve HashKey_range : gonum.

Lemma SplitHashRange_mid start end_ :
  0 <= start <= end_ -> end_ < 2 ^ 32 ->
  SplitHashRange start end_ = start + (end_ - start) / 2.
Proof.
  intros Hs He. unfold SplitHashRange.
  rewrite (u32_id (end_ - start)) by (unfold is_u32; lia).
  apply u32_id. unfold is_u32. Z.div_mod_to_equations. lia.
Qed.

(** A routable list of shards routes every key to one of its active shards. *)
Lemma SelectShard_active shards key :
  routable shards ->
  exists s, SelectShard (ActiveShards shards) key = Some s /\ s ∈ shards /\ is_active_phase s = true.
Proof.
  intros Hr. destruct (Hr (HashKey key)) as [s Hs].
  { pose proof (HashKey_range key). unfold FullHashRangeEnd. lia. }
  exists s. unfold SelectShard. rewrite select_hash_head, Hs. split; [done |].
  assert (Hel : s ∈ covering (HashKey key) (ActiveShards shards)) by (rewrite Hs; left).
  apply list_elem_of_filter in Hel as [_ Hel]. by apply elem_of_ActiveShards.
Qed.

(** The part of a topic name after the queue name. *)
Lemma ShardTopicName_eq q fifo id :
  ShardTopicName q fifo id =
  topicPrefix +:+ (q +:+ String "."%char ((if fifo then "fifo.shard-" else "shard-") +:+ id)).
Proof.
  unfold ShardTopicName, fifoSuffix, shardInfix. destruct fifo; by rewrite !string_app_assoc.
Qed.

(** ** Properties *)

(** C37. The index-based murmur2 loop with its fallthrough switch computes the
    same value as mixing the little-endian value of each four-byte block and then
    of the bytes left over, for every routing key. *)
Theorem murmur2_equiv key :
  murmur2 (bytes key) =
  murmur2_final (murmur2_spec (bytes key)
                   (Z.lxor murmur_seed (u32 (Z.of_nat (length (bytes key)))))).
Proof.
  unfold murmur2. f_equal. apply (loop_spec _ [] (bytes key) 0); [done | done |].
  apply bytes_range.
Qed.

(** When the active shards cover the hash space exactly once, every routing
    key is routed, to an active shard of the map whose range holds its hash, and no
    other active shard could have been chosen. *)
Theorem SelectShard_routable shards key :
  routable shards ->
  exists s, SelectShard (ActiveShards shards) key = Some s /\
    s ∈ shards /\ is_active_phase s = true /\
    sh_HashRangeStart s <= HashKey key < sh_HashRangeEnd s /\
    forall t, t ∈ shards -> is_active_phase t = true ->
      sh_HashRangeStart t <= HashKey key < sh_HashRangeEnd t -> t = s.
Proof.
  intros Hr. destruct (Hr (HashKey key)) as [s Hs].
  { pose proof (HashKey_range key). unfold FullHashRangeEnd. lia. }
  assert (Hcov : forall t, t ∈ covering (HashKey key) (ActiveShards shards) <-> t = s).
  { intros t. rewrite Hs. set_solver. }
  exists s. unfold SelectShard. rewrite select_hash_head, Hs.
  pose proof (proj2 (Hcov s) eq_refl) as Hel. apply list_elem_of_filter in Hel as [Hin Hel].
  apply elem_of_ActiveShards in Hel as [Hel Hact]. rewrite <- in_range_spec.
  repeat split; try done. intros t Ht Hta Hrange. apply Hcov, list_elem_of_filter.
  rewrite in_range_spec, elem_of_ActiveShards. done.
Qed.

Definition two_shards : list Shard :=
  [MkShard "1" "kmsvc.orders.shard-1" 0 1000000000 "Active";
   MkShard "2" "kmsvc.orders.shard-2" 1000000000 FullHashRangeEnd "Active"].

Lemma two_shards_routable : routable two_shards.
Proof.
  intros h Hh. change (ActiveShards two_shards) with two_shards. unfold covering, two_shards.
  destruct (Z.ltb_spec h 1000000000).
  - eexists. rewrite filter_cons_True, filter_cons_False; [reflexivity | |];
      rewrite in_range_spec; simpl; lia.
  - eexists. rewrite filter_cons_False, filter_cons_True; [reflexivity | |];
      rewrite in_range_spec; simpl; lia.
Qed.

Lemma SelectShard_routable_witness :
  exists s, SelectShard (ActiveShards two_shards) "group-a" = Some s /\ s ∈ two_shards /\
    sh_HashRangeStart s <= HashKey "group-a" < sh_HashRangeEnd s.
Proof.
  destruct (SelectShard_routable two_shards "group-a" two_shards_routable) as (s & H1 & H2 & _ & H3 & _).
  exists s. split; [exact H1 |]. split; [exact H2 | exact H3].
Defined.

(** Splitting a range yields a midpoint inside it, without overflow: the two
    halves are disjoint, cover the range, and differ in width by at most one. *)
Theorem SplitHashRange_spec start end_ :
  0 <= start <= end_ -> end_ < 2 ^ 32 ->
  let mid := SplitHashRange start end_ in
  start <= mid <= end_ /\ 0 <= (end_ - mid) - (mid - start) <= 1 /\
  forall h, start <= h < end_ <->
    (start <= h < mid /\ ~ mid <= h < end_) \/ (mid <= h < end_ /\ ~ start <= h < mid).
Proof.
  intros Hs He mid. subst mid. rewrite SplitHashRange_mid by done.
  Z.div_mod_to_equations. split_and!; intros; lia.
Qed.

(** The routing hash has its sign bit cleared, so a shard whose range starts
    above 0x7fffffff never receives a message; in particular the right child of the
    first split of a queue receives exactly the keys whose hash is 0x7fffffff. *)
Theorem upper_half_unreachable key :
  (forall shards s, SelectShard shards key = Some s -> sh_HashRangeStart s <= 0x7fffffff) /\
  (forall a b,
     sh_HashRangeStart a = 0 -> sh_HashRangeEnd a = SplitHashRange 0 FullHashRangeEnd ->
     sh_HashRangeStart b = SplitHashRange 0 FullHashRangeEnd ->
     sh_HashRangeEnd b = FullHashRangeEnd ->
     SelectShard [a; b] key = Some (if HashKey key =? 0x7fffffff then b else a)).
Proof.
  pose proof (HashKey_range key) as Hk. split.
  - intros shards s Hs. apply select_hash_Some in Hs as [_ Hr].
    apply in_range_spec in Hr. lia.
  - intros a b Ha0 Ha1 Hb0 Hb1. unfold SelectShard. simpl. unfold in_range.
    rewrite Ha0, Ha1, Hb0, Hb1.
    change (SplitHashRange 0 FullHashRangeEnd) with 0x7fffffff.
    unfold FullHashRangeEnd. zbool; simpl; first [done | lia].
Qed.

(** The partition index is inside the shard's topic: below the configured
    partition count, or below the default count when none is configured. *)
Theorem PartitionWithinShard_bounds key n :
  is_i32 n ->
  0 <= PartitionWithinShard key n < (if n <=? 0 then DefaultPartitionCount else n).
Proof.
  intros Hn. unfold PartitionWithinShard. unfold is_i32 in Hn.
  set (m := if n <=? 0 then DefaultPartitionCount else n).
  assert (Hm : 0 < m < 2 ^ 31).
  { unfold m, DefaultPartitionCount. zbool; lia. }
  rewrite (u32_id m) by (unfold is_u32; lia).
  pose proof (Z.mod_pos_bound (HashKey key) m).
  rewrite i32_id by (unfold is_i32; lia). lia.
Qed.

Lemma PartitionWithinShard_bounds_witness :
  0 <= PartitionWithinShard "group-a" 6 < 6.
Proof. apply (PartitionWithinShard_bounds "group-a" 6). split; vm_compute; done. Defined.

(** A queue passes the dead-letter guard exactly when it has no dead-letter
    target, or its target is another queue and it is not itself a DLQ. *)
Theorem ValidateNoDLQCycle_spec q isDLQ target :
  ValidateNoDLQCycle q isDLQ target = Ok tt <->
  target = "" \/ (target <> q /\ isDLQ = false).
Proof.
  unfold ValidateNoDLQCycle. repeat case_bool_decide; destruct isDLQ; naive_solver.
Qed.

(** Topic names identify the shard they belong to as long as queue names have
    no dot; with dots, which object names allow, two different queues can share a
    topic. *)
Theorem ShardTopicName_inj q1 f1 id1 q2 f2 id2 :
  has_char "."%char q1 = false -> has_char "."%char q2 = false ->
  ShardTopicName q1 f1 id1 = ShardTopicName q2 f2 id2 -> q1 = q2 /\ f1 = f2 /\ id1 = id2.
Proof.
  intros H1 H2. rewrite !ShardTopicName_eq. intros Heq.
  apply string_app_inj_l, app_sep_inj in Heq as [-> Heq]; [| done | done].
  destruct f1, f2; simpl in Heq; rewrite ?string_app_cons in Heq; simplify_eq; auto.
Qed.

(** The collision itself: a standard queue named [orders.fifo] and a FIFO
    queue named [orders] own the same topic for every shard id. *)
Theorem ShardTopicName_collision q id :
  ShardTopicName (q +:+ ".fifo") false id = ShardTopicName q true id.
Proof. unfold ShardTopicName, fifoSuffix. by rewrite !string_app_assoc. Qed.
