(* ===== verification/Json.v ===== *)
(** [encoding/json] for one type, [[]kafka.Shard]: what [json.Marshal] writes in
    [PutShardMap] and [json.Unmarshal] reads in [GetShardMap].

    The printer follows Go's encoder on ASCII text (HTML-unsafe and control bytes
    are escaped).  The reader accepts the documents the printer produces: members in
    declaration order, no white space.  Only [PutShardMap] writes the rows that
    [GetShardMap] reads, so no other document reaches it. *)

From S2P Require Import Prelude GoNum GoStr Topology.
From Stdlib Require Import Ascii Decimal DecimalString.

Local Open Scope Z_scope.

(** ** Printing *)

Definition hex_digit (n : Z) : ascii :=
  ascii_of_N (Z.to_N (if n <? 10 then 48 + n else 87 + n)).

Definition enc_char (c : ascii) : string :=
  let b := byte_of c in
  let esc x := String backslash (String x EmptyString) in
  if bool_decide (c = dquote) || bool_decide (c = backslash) then esc c
  else if b =? 8 then esc "b"%char
  else if b =? 12 then esc "f"%char
  else if b =? 10 then esc "n"%char
  else if b =? 13 then esc "r"%char
  else if b =? 9 then esc "t"%char
  else if (b <? 32) || (b =? 60) || (b =? 62) || (b =? 38) then
    String backslash ("u00" +:+ String (hex_digit (b / 16)) (String (hex_digit (b mod 16)) EmptyString))
  else String c EmptyString.

Fixpoint enc_chars (s : string) : string :=
  match s with
  | EmptyString => EmptyString
  | String c r => enc_char c +:+ enc_chars r
  end.

Definition enc_string (s : string) : string :=
  String dquote (enc_chars s +:+ String dquote EmptyString).

(** [{"ID":...,"Topic":...,...}]: a member name and its colon. *)
Definition member (name : string) : string := enc_string name +:+ ":".

Definition enc_shard (s : Shard) : string :=
  "{" +:+ member "ID" +:+ enc_string (sh_ID s) +:+
  "," +:+ member "Topic" +:+ enc_string (sh_Topic s) +:+
  "," +:+ member "HashRangeStart" +:+ FormatInt (sh_HashRangeStart s) +:+
  "," +:+ member "HashRangeEnd" +:+ FormatInt (sh_HashRangeEnd s) +:+
  "," +:+ member "Phase" +:+ enc_string (sh_Phase s) +:+ "}".

Fixpoint enc_shards_tail (l : list Shard) : string :=
  match l with
  | [] => "]"
  | s :: r => "," +:+ enc_shard s +:+ enc_shards_tail r
  end.

(** [json.Marshal(shards)] *)
Definition Marshal (l : list Shard) : string :=
  match l with
  | [] => "[]"
  | s :: r => "[" +:+ enc_shard s +:+ enc_shards_tail r
  end.

(** ** Reading *)

Definition parser (A : Type) : Type := string -> option (A * string).

Definition p_lit (lit : string) : parser unit := fun s =>
  if HasPrefix s lit then Some (tt, drop_str (String.length lit) s) else None.

Definition unhex (c : ascii) : option Z :=
  let b := byte_of c in
  if (48 <=? b) && (b <=? 57) then Some (b - 48)
  else if (97 <=? b) && (b <=? 102) then Some (b - 87)
  else None.

Definition unescape (c : ascii) : option ascii :=
  if bool_decide (c = dquote) || bool_decide (c = backslash) then Some c
  else match byte_of c with
       | 98 => Some (ascii_of_nat 8) | 102 => Some (ascii_of_nat 12)
       | 110 => Some (ascii_of_nat 10) | 114 => Some (ascii_of_nat 13)
       | 116 => Some (ascii_of_nat 9) | 47 => Some c
       | _ => None
       end.

Definition cons_char (c : ascii) (r : option (string * string)) : option (string * string) :=
  match r with Some (t, rest) => Some (String c t, rest) | None => None end.

(** The characters of a string literal up to and including its closing quote. *)
Fixpoint p_chars (s : string) : option (string * string) :=
  match s with
  | EmptyString => None
  | String c r =>
    if bool_decide (c = dquote) then Some (EmptyString, r)
    else if bool_decide (c = backslash) then
      match r with
      | EmptyString => None
      | String e r' =>
        if bool_decide (e = "u"%char) then
          match r' with
          | String "0"%char (String "0"%char (String h (String l r''))) =>
            match unhex h, unhex l with
            | Some hv, Some lv => cons_char (ascii_of_N (Z.to_N (hv * 16 + lv))) (p_chars r'')
            | _, _ => None
            end
          | _ => None
          end
        else match unescape e with
             | Some c' => cons_char c' (p_chars r')
             | None => None
             end
      end
    else cons_char c (p_chars r)
  end.

Definition p_string : parser string := fun s =>
  match p_lit (String dquote EmptyString) s with Some (_, r) => p_chars r | None => None end.

Definition is_digit (c : ascii) : bool := let b := byte_of c in (48 <=? b) && (b <=? 57).

Fixpoint span_digits (s : string) : string * string :=
  match s with
  | EmptyString => (EmptyString, EmptyString)
  | String c r =>
    if is_digit c then let '(d, rest) := span_digits r in (String c d, rest)
    else (EmptyString, s)
  end.

(** A number that fits a [uint32]. *)
Definition p_uint32 : parser Z := fun s =>
  let '(d, rest) := span_digits s in
  match parse_dec d with
  | Some z => if decide (is_u32 z) then Some (z, rest) else None
  | None => None
  end.

Definition p_bind {A B} (p : parser A) (f : A -> parser B) : parser B := fun s =>
  match p s with Some (a, r) => f a r | None => None end.

Definition p_member {A} (sep name : string) (p : parser A) : parser A :=
  p_bind (p_lit (sep +:+ member name)) (fun _ => p).

Definition p_shard : parser Shard :=
  p_bind (p_member "{" "ID" p_string) (fun id =>
  p_bind (p_member "," "Topic" p_string) (fun topic =>
  p_bind (p_member "," "HashRangeStart" p_uint32) (fun s =>
  p_bind (p_member "," "HashRangeEnd" p_uint32) (fun e =>
  p_bind (p_member "," "Phase" p_string) (fun phase =>
  p_bind (p_lit "}") (fun _ r => Some (MkShard id topic s e phase, r))))))).

(** The elements after the first; each consumes input, so the input's length is
    fuel enough. *)
Fixpoint p_shards_tail (fuel : nat) : parser (list Shard) := fun s =>
  match fuel with
  | O => None
  | S fuel' =>
    match p_lit "]" s with
    | Some (_, r) => Some ([], r)
    | None =>
      match p_bind (p_lit ",") (fun _ => p_shard) s with
      | Some (x, r) =>
        match p_shards_tail fuel' r with
        | Some (l, r') => Some (x :: l, r')
        | None => None
        end
      | None => None
      end
    end
  end.

(** [json.Unmarshal(data, &shards)] *)
Definition Unmarshal (s : string) : option (list Shard) :=
  let all (o : option (list Shard * string)) :=
    match o with Some (l, EmptyString) => Some l | _ => None end in
  match p_lit "[]" s with
  | Some (_, r) => all (Some ([], r))
  | None =>
    match p_bind (p_lit "[") (fun _ => p_shard) s with
    | Some (x, r) => all (match p_shards_tail (S (String.length r)) r with
                          | Some (l, r') => Some (x :: l, r') | None => None end)
    | None => None
    end
  end.

(** ** The round trip *)

Lemma p_lit_app lit r : p_lit lit (lit +:+ r) = Some (tt, r).
Proof. unfold p_lit. by rewrite HasPrefix_app, drop_str_app. Qed.

Lemma p_chars_enc c r : p_chars (enc_char c +:+ r) = cons_char c (p_chars r).
Proof. destruct c as [[] [] [] [] [] [] [] []]; reflexivity. Qed.

Lemma p_chars_string s r : p_chars (enc_chars s +:+ String dquote r) = Some (s, r).
Proof.
  induction s as [|c s IH]; [done |]. simpl. by rewrite string_app_assoc, p_chars_enc, IH.
Qed.

Lemma p_string_enc s r : p_string (enc_string s +:+ r) = Some (s, r).
Proof.
  unfold p_string, enc_string. rewrite string_app_cons, string_app_assoc.
  change (String dquote (enc_chars s +:+ String dquote EmptyString +:+ r))
    with (String dquote EmptyString +:+ (enc_chars s +:+ String dquote r)).
  by rewrite p_lit_app, p_chars_string.
Qed.

Lemma span_digits_uint u c r :
  is_digit c = false ->
  span_digits (NilEmpty.string_of_uint u +:+ String c r) = (NilEmpty.string_of_uint u, String c r).
Proof.
  intros Hc. induction u; simpl; rewrite ?string_app_cons, ?string_app_nil_l; simpl;
    [by rewrite Hc | by rewrite IHu ..].
Qed.

Lemma FormatInt_nonneg z :
  0 <= z -> exists u, FormatInt z = NilEmpty.string_of_uint u.
Proof.
  intros Hz. unfold FormatInt. destruct z as [|p|p]; [by exists (Decimal.D0 Decimal.Nil) | | lia].
  simpl. exists (Pos.to_uint p). unfold NilZero.string_of_uint.
  pose proof (to_uint_nonnil p). by destruct (Pos.to_uint p).
Qed.

Lemma p_uint32_enc z c r :
  is_u32 z -> is_digit c = false ->
  p_uint32 (FormatInt z +:+ String c r) = Some (z, String c r).
Proof.
  intros Hz Hc. unfold p_uint32. destruct (FormatInt_nonneg z) as [u Hu]; [apply Hz |].
  rewrite Hu, span_digits_uint by done. rewrite <- Hu, parse_dec_FormatInt.
  by rewrite decide_True.
Qed.

Lemma p_member_enc {A} sep name (p : parser A) r :
  p_member sep name p (sep +:+ member name +:+ r) = p r.
Proof. unfold p_member, p_bind. by rewrite <- string_app_assoc, p_lit_app. Qed.

(** The ranges of a shard as the encoder has them: [uint32] fields. *)
Definition shard_ranges_ok (s : Shard) : Prop :=
  is_u32 (sh_HashRangeStart s) /\ is_u32 (sh_HashRangeEnd s).

Lemma p_shard_enc s r : shard_ranges_ok s -> p_shard (enc_shard s +:+ r) = Some (s, r).
Proof.
  intros [H1 H2]. destruct s as [id topic st en ph]. unfold p_shard, enc_shard. simpl in *.
  rewrite !string_app_assoc. unfold p_bind at 1. rewrite p_member_enc, p_string_enc.
  unfold p_bind at 1. rewrite p_member_enc, p_string_enc.
  unfold p_bind at 1. rewrite p_member_enc.
  rewrite (string_app_cons ","%char), p_uint32_enc, <- string_app_cons by done.
  unfold p_bind at 1. rewrite p_member_enc.
  rewrite (string_app_cons ","%char), p_uint32_enc, <- string_app_cons by done.
  unfold p_bind at 1. rewrite p_member_enc, p_string_enc.
  unfold p_bind. by rewrite p_lit_app.
Qed.

Lemma enc_shard_length s r : (0 < String.length (enc_shard s +:+ r))%nat.
Proof. unfold enc_shard. rewrite string_app_cons. simpl. lia. Qed.

Lemma string_length_app a b : String.length (a +:+ b) = (String.length a + String.length b)%nat.
Proof. induction a as [|c a IH]; [done |]. rewrite string_app_cons. simpl. by rewrite IH. Qed.

Lemma p_shards_tail_enc l fuel :
  Forall shard_ranges_ok l -> (length l < fuel)%nat ->
  p_shards_tail fuel (enc_shards_tail l) = Some (l, EmptyString).
Proof.
  revert fuel. induction l as [|s l IH]; intros [|fuel] Hl Hf; simpl in Hf; try lia; [done |].
  apply Forall_cons in Hl as [Hs Hl]. cbn [p_shards_tail enc_shards_tail].
  change (p_lit "]" (","  +:+ enc_shard s +:+ enc_shards_tail l)) with (@None (unit * string)).
  unfold p_bind. rewrite p_lit_app, p_shard_enc by done. rewrite IH; [done | done | lia].
Qed.

Lemma enc_shards_tail_length l : (length l < String.length (enc_shards_tail l))%nat.
Proof.
  induction l as [|s l IH]; simpl; [lia |].
  rewrite string_app_cons, string_app_nil_l. simpl. rewrite string_length_app. lia.
Qed.

Lemma Unmarshal_Marshal_list l : Forall shard_ranges_ok l -> Unmarshal (Marshal l) = Some l.
Proof.
  intros Hl. destruct l as [|s l]; [done |]. apply Forall_cons in Hl as [Hs Hl].
  unfold Unmarshal, Marshal.
  change (p_lit "[]" ("[" +:+ enc_shard s +:+ enc_shards_tail l)) with (@None (unit * string)).
  unfold p_bind at 1. rewrite p_lit_app, p_shard_enc by done.
  rewrite p_shards_tail_enc; [done | done |].
  pose proof (enc_shards_tail_length l). lia.
Qed.
