(* ===== verification/Keys.v ===== *)
(** [internal/redis/keys.go]: the Redis key schema.  Keys of different families
    never collide, and within a family a key determines its queue as long as queue
    names hold no colon. *)

From S2P Require Import Prelude GoNum GoStr.
From Stdlib Require Import Ascii Decimal DecimalString.

Definition InFlightKey (queue receiptHandle : string) : string :=
  "kmsvc:inflight:" +:+ queue +:+ ":" +:+ receiptHandle.

Definition PendingKey (queue shardID : string) (partition : Z) : string :=
  "kmsvc:pending:" +:+ queue +:+ ":" +:+ shardID +:+ ":" +:+ FormatInt partition.

Definition WatermarkKey (queue shardID : string) (partition : Z) : string :=
  "kmsvc:watermark:" +:+ queue +:+ ":" +:+ shardID +:+ ":" +:+ FormatInt partition.

Definition VisIndexKey (queue : string) : string := "kmsvc:vis_index:" +:+ queue.

Definition DedupKey (queue groupID dedupID : string) : string :=
  "kmsvc:dedup:" +:+ queue +:+ ":" +:+ groupID +:+ ":" +:+ dedupID.

Definition FIFOLockKey (queue groupID : string) : string :=
  "kmsvc:fifo_lock:" +:+ queue +:+ ":" +:+ groupID.

Definition QueueMetaKey (queue : string) : string := "kmsvc:queue:" +:+ queue.

Definition ShardMapKey (queue : string) : string := "kmsvc:shardmap:" +:+ queue.

Definition ShardMapChannel (queue : string) : string := "kmsvc:shardmap_invalidate:" +:+ queue.

Definition QueueMetaChannel (queue : string) : string := "kmsvc:queuemeta_invalidate:" +:+ queue.

Definition RedeliverKey (queue : string) : string := "kmsvc:redeliver:" +:+ queue.

Definition QueueLockKey (queue : string) : string := "kmsvc:queue_lock:" +:+ queue.

(** ** Families *)

(** The families of keys, and the text every key of a family starts with. *)
Inductive family : Type :=
| FInFlight | FPending | FWatermark | FVisIndex | FDedup | FFIFOLock
| FQueueMeta | FShardMap | FRedeliver | FQueueLock.

#[export] Instance family_eq_dec : EqDecision family.
Proof. solve_decision. Defined.

Definition family_tag (f : family) : string :=
  match f with
  | FInFlight => "inflight" | FPending => "pending" | FWatermark => "watermark"
  | FVisIndex => "vis_index" | FDedup => "dedup" | FFIFOLock => "fifo_lock"
  | FQueueMeta => "queue" | FShardMap => "shardmap" | FRedeliver => "redeliver"
  | FQueueLock => "queue_lock"
  end.

(** [k] is a key of family [f]. *)
Definition of_family (f : family) (k : string) : Prop :=
  exists rest, k = "kmsvc:" +:+ family_tag f +:+ String ":"%char rest.

Lemma family_tag_inj f g : family_tag f = family_tag g -> f = g.
Proof. by destruct f, g. Qed.

Lemma family_tag_colon f : has_char ":"%char (family_tag f) = false.
Proof. by destruct f. Qed.

(** A key has one family. *)
Lemma of_family_inj f g k : of_family f k -> of_family g k -> f = g.
Proof.
  intros [r1 ->] [r2 Heq]. apply string_app_inj_l, app_sep_inj in Heq as [Heq _];
    [by apply family_tag_inj | apply family_tag_colon ..].
Qed.

Lemma of_family_ne f g k1 k2 : of_family f k1 -> of_family g k2 -> f <> g -> k1 <> k2.
Proof. intros H1 H2 Hne ->. apply Hne. by eapply of_family_inj. Qed.

Lemma InFlightKey_family q h : of_family FInFlight (InFlightKey q h).
Proof. by eexists. Qed.
Lemma PendingKey_family q s p : of_family FPending (PendingKey q s p).
Proof. by eexists. Qed.
Lemma WatermarkKey_family q s p : of_family FWatermark (WatermarkKey q s p).
Proof. by eexists. Qed.
Lemma VisIndexKey_family q : of_family FVisIndex (VisIndexKey q).
Proof. by eexists. Qed.
Lemma DedupKey_family q g d : of_family FDedup (DedupKey q g d).
Proof. by eexists. Qed.
Lemma FIFOLockKey_family q g : of_family FFIFOLock (FIFOLockKey q g).
Proof. by eexists. Qed.
Lemma QueueMetaKey_family q : of_family FQueueMeta (QueueMetaKey q).
Proof. by eexists. Qed.
Lemma ShardMapKey_family q : of_family FShardMap (ShardMapKey q).
Proof. by eexists. Qed.
Lemma RedeliverKey_family q : of_family FRedeliver (RedeliverKey q).
Proof. by eexists. Qed.
Lemma QueueLockKey_family q : of_family FQueueLock (QueueLockKey q).
Proof. by eexists. Qed.

Create HintDb keys.
#[export] Hint Resolve InFlightKey_family PendingKey_family WatermarkKey_family
  VisIndexKey_family DedupKey_family FIFOLockKey_family QueueMetaKey_family
  ShardMapKey_family RedeliverKey_family QueueLockKey_family : keys.

(** Keys of different families differ. *)
Ltac keys_ne := eapply of_family_ne; [eauto with keys | eauto with keys | done].

#[export] Hint Extern 1 (_ <> _ :> string) => solve [keys_ne] : keys.

Lemma FIFOLockKey_inj q g1 g2 : FIFOLockKey q g1 = FIFOLockKey q g2 -> g1 = g2.
Proof. unfold FIFOLockKey. intros H. by do 3 apply string_app_inj_l in H. Qed.

Lemma InFlightKey_inj q h1 h2 : InFlightKey q h1 = InFlightKey q h2 -> h1 = h2.
Proof. unfold InFlightKey. intros H. by do 3 apply string_app_inj_l in H. Qed.

(** A key built as family, queue, colon, rest gives both parts back when queue
    names hold no colon. *)
Lemma queue_part_inj p q1 q2 r1 r2 :
  has_char ":"%char q1 = false -> has_char ":"%char q2 = false ->
  p +:+ q1 +:+ String ":"%char r1 = p +:+ q2 +:+ String ":"%char r2 -> q1 = q2 /\ r1 = r2.
Proof. intros ?? H%string_app_inj_l. by eapply app_sep_inj. Qed.

(** Decimal numerals hold no colon. *)
Lemma string_of_uint_no_colon u : has_char ":"%char (NilEmpty.string_of_uint u) = false.
Proof. by induction u. Qed.

Lemma FormatInt_no_colon z : has_char ":"%char (FormatInt z) = false.
Proof.
  unfold FormatInt. by destruct (Z.to_int z) as [u|u]; destruct u; simpl; rewrite ?string_of_uint_no_colon.
Qed.

(** ** Properties *)

(** Keys of two different families are never equal, whatever the queue,
    shard, group, handle and deduplication names they are built from, so the value
    kinds of Redis never clash; and the [kmsvc:queue:] scan sees queue rows only. *)
Theorem keys_disjoint q1 q2 q3 s g h d p r :
  NoDup [InFlightKey q1 h; PendingKey q2 s p; WatermarkKey q3 s p; VisIndexKey q1;
         DedupKey q2 g d; FIFOLockKey q3 g; QueueMetaKey q1; ShardMapKey q2;
         RedeliverKey q3; QueueLockKey r] /\
  HasPrefix (QueueLockKey r) (QueueMetaKey "") = false /\
  HasPrefix (QueueMetaChannel r) (QueueMetaKey "") = false.
Proof.
  split; [| done].
  repeat (apply NoDup_cons_2;
    [rewrite ?not_elem_of_cons; repeat split; try (auto with keys); apply not_elem_of_nil |]).
  apply NoDup_nil_2.
Qed.

(** Within a family, a key determines the queue, shard, partition and handle
    it was built from when queue names (and shard ids) hold no colon. *)
Theorem keys_injective q1 q2 s1 s2 p1 p2 h1 h2 :
  has_char ":"%char q1 = false -> has_char ":"%char q2 = false ->
  has_char ":"%char s1 = false -> has_char ":"%char s2 = false ->
  (InFlightKey q1 h1 = InFlightKey q2 h2 -> q1 = q2 /\ h1 = h2) /\
  (PendingKey q1 s1 p1 = PendingKey q2 s2 p2 -> q1 = q2 /\ s1 = s2 /\ p1 = p2) /\
  (WatermarkKey q1 s1 p1 = WatermarkKey q2 s2 p2 -> q1 = q2 /\ s1 = s2 /\ p1 = p2).
Proof.
  intros Hq1 Hq2 Hs1 Hs2. unfold InFlightKey, PendingKey, WatermarkKey.
  split_and!; intros H; apply queue_part_inj in H as [-> H]; try done;
    rewrite ?string_app_nil_l in H;
    apply app_sep_inj in H as [-> H]; try done; rewrite ?string_app_nil_l in H;
    apply FormatInt_inj in H; done.
Qed.

Lemma keys_injective_witness :
  has_char ":"%char "orders" = false /\
  (InFlightKey "orders" "h1" = InFlightKey "orders" "h2" -> "orders" = "orders" /\ "h1" = "h2").
Proof. split; [done |]. by apply (keys_injective "orders" "orders" "0" "0" 0 0 "h1" "h2"). Defined.

(** Without that restriction the in-flight key is ambiguous: the same row is
    reached through a different queue name and a shorter handle, which is how a
    request naming another queue can touch this queue's messages. *)
Theorem InFlightKey_ambiguous q a b : InFlightKey (q +:+ ":" +:+ a) b = InFlightKey q (a +:+ ":" +:+ b).
Proof. unfold InFlightKey. by rewrite !string_app_assoc. Qed.
