(* ===== verification/Redis.v ===== *)
(** The Redis server the program talks to.

    Redis is not part of the repository: its commands are the fields of the class
    [RedisServer], which every definition that touches Redis takes as a parameter,
    and what the program relies on of them is the class [RedisLaws], one law per
    command, as the command's documentation states it.  The keyspace they act on is
    the documented data model: each key holds a string, a hash, a sorted set or a
    list, and may have an expiry deadline in Unix milliseconds.  [MemRedis] is a
    concrete server that satisfies the laws; the examples run on it. *)

From S2P Require Import Prelude GoNum GoStr.

Local Open Scope Z_scope.

(** ** The keyspace *)

Inductive rval : Type :=
| VStr (s : string)
| VHash (h : gmap string string)
| VZSet (z : gmap string Z)
| VList (l : list string).

Record entry : Type := Entry { e_val : rval; e_exp : option Z }.

#[export] Instance rval_eq_dec : EqDecision rval.
Proof. solve_decision. Defined.
#[export] Instance entry_eq_dec : EqDecision entry.
Proof. solve_decision. Defined.

Notation keyspace := (gmap string entry).

(** A key is expired once the clock is past its deadline. *)
Definition expired (now : Z) (e : entry) : bool :=
  match e_exp e with Some d => d <? now | None => false end.

(** What a key shows at time [now]. *)
Definition live_entry (now : Z) (ks : keyspace) (k : string) : option entry :=
  match ks !! k with
  | Some e => if expired now e then None else Some e
  | None => None
  end.

Definition live (now : Z) (ks : keyspace) (k : string) : option rval :=
  e_val <$> live_entry now ks k.

(** The value of a key at its type: an absent key reads as the empty value, and
    [None] means the key holds another type. *)
Definition str_at (now : Z) (ks : keyspace) (k : string) : option (option string) :=
  match live now ks k with
  | None => Some None | Some (VStr s) => Some (Some s) | Some _ => None
  end.

Definition hash_at (now : Z) (ks : keyspace) (k : string) : option (gmap string string) :=
  match live now ks k with
  | None => Some ∅ | Some (VHash h) => Some h | Some _ => None
  end.

Definition zset_at (now : Z) (ks : keyspace) (k : string) : option (gmap string Z) :=
  match live now ks k with
  | None => Some ∅ | Some (VZSet z) => Some z | Some _ => None
  end.

Definition list_at (now : Z) (ks : keyspace) (k : string) : option (list string) :=
  match live now ks k with
  | None => Some [] | Some (VList l) => Some l | Some _ => None
  end.

(** Writing a value in place keeps the deadline of a live key; an aggregate that
    becomes empty is removed. *)
Definition put (now : Z) (k : string) (v : rval) (ks : keyspace) : keyspace :=
  <[k := Entry v (live_entry now ks k ≫= e_exp)]> ks.

Definition put_zset (now : Z) (k : string) (z : gmap string Z) (ks : keyspace) : keyspace :=
  if decide (z = ∅) then delete k ks else put now k (VZSet z) ks.

Definition put_list (now : Z) (k : string) (l : list string) (ks : keyspace) : keyspace :=
  if decide (l = []) then delete k ks else put now k (VList l) ks.

Definition hash_set (h : gmap string string) (fs : list (string * string)) : gmap string string :=
  foldl (fun h f => <[f.1 := f.2]> h) h fs.

(** Sorted sets are read by ascending score, equal scores by member. *)
Definition zle (p q : string * Z) : Prop := p.2 < q.2 \/ (p.2 = q.2 /\ String.le p.1 q.1).

#[export] Instance zle_dec : RelDecision zle.
Proof. intros p q. unfold zle. apply _. Defined.

Definition zset_sorted (z : gmap string Z) : list (string * Z) := merge_sort zle (map_to_list z).

Definition zset_range (z : gmap string Z) (min max : Z) : list (string * Z) :=
  filter (fun p => min <= p.2 <= max) (zset_sorted z).

Definition wrong_type : error :=
  ErrText "WRONGTYPE Operation against a key holding the wrong kind of value".
Definition invalid_expire : error := ErrText "ERR invalid expire time in 'set' command".

(** ** The server's commands *)

Class RedisServer : Type := {
  cmd_get : Z -> string -> M keyspace (option string);
  cmd_set : Z -> string -> string -> M keyspace unit;
  (** SET NX, with a time to live in milliseconds or none *)
  cmd_setnx : Z -> string -> string -> option Z -> M keyspace bool;
  cmd_del : Z -> string -> M keyspace unit;
  cmd_exists : Z -> string -> M keyspace Z;
  (** EXPIRE, in milliseconds *)
  cmd_expire : Z -> string -> Z -> M keyspace unit;
  cmd_hgetall : Z -> string -> M keyspace (gmap string string);
  cmd_hset : Z -> string -> list (string * string) -> M keyspace unit;
  cmd_zadd : Z -> string -> Z -> string -> M keyspace unit;
  cmd_zrem : Z -> string -> string -> M keyspace Z;
  (** ZRANGE key 0 0 WITHSCORES *)
  cmd_zfirst : Z -> string -> M keyspace (list (string * Z));
  (** ZRANGEBYSCORE key min max LIMIT 0 count *)
  cmd_zrangebyscore : Z -> string -> Z -> Z -> nat -> M keyspace (list string);
  cmd_lpop : Z -> string -> M keyspace (option string);
  cmd_rpush : Z -> string -> string -> M keyspace unit;
  (** a complete SCAN with MATCH prefix* *)
  cmd_scan : Z -> string -> M keyspace (list string);
  cmd_publish : Z -> string -> string -> M keyspace unit;
  (** How the go-redis client puts arguments on the wire: a duration given to
      EXPIRE and to SET NX (milliseconds to live, [None] for no expiry), a bool. *)
  cli_expire_ms : Z -> Z;
  cli_nx_ms : Z -> option Z;
  cli_bool : bool -> string
}.

Class RedisLaws (R : RedisServer) : Prop := {
  law_get now k ks : cmd_get now k ks =
    match str_at now ks k with Some o => (Ok o, ks) | None => (Err wrong_type, ks) end;
  law_set now k v ks : cmd_set now k v ks = (Ok tt, <[k := Entry (VStr v) None]> ks);
  law_setnx now k v ttl ks : cmd_setnx now k v ttl ks =
    match ttl with
    | Some t =>
      if t <=? 0 then (Err invalid_expire, ks)
      else match live now ks k with
           | Some _ => (Ok false, ks)
           | None => (Ok true, <[k := Entry (VStr v) (Some (now + t))]> ks)
           end
    | None =>
      match live now ks k with
      | Some _ => (Ok false, ks)
      | None => (Ok true, <[k := Entry (VStr v) None]> ks)
      end
    end;
  law_del now k ks : cmd_del now k ks = (Ok tt, delete k ks);
  law_exists now k ks : cmd_exists now k ks =
    (Ok (match live now ks k with Some _ => 1 | None => 0 end), ks);
  law_expire now k t ks : cmd_expire now k t ks =
    (Ok tt, match live now ks k with
            | Some v => if t <=? 0 then delete k ks else <[k := Entry v (Some (now + t))]> ks
            | None => ks
            end);
  law_hgetall now k ks : cmd_hgetall now k ks =
    match hash_at now ks k with Some h => (Ok h, ks) | None => (Err wrong_type, ks) end;
  law_hset now k fs ks : cmd_hset now k fs ks =
    match hash_at now ks k with
    | Some h => (Ok tt, put now k (VHash (hash_set h fs)) ks)
    | None => (Err wrong_type, ks)
    end;
  law_zadd now k s m ks : cmd_zadd now k s m ks =
    match zset_at now ks k with
    | Some z => (Ok tt, put now k (VZSet (<[m := s]> z)) ks)
    | None => (Err wrong_type, ks)
    end;
  law_zrem now k m ks : cmd_zrem now k m ks =
    match zset_at now ks k with
    | Some z =>
      match z !! m with
      | Some _ => (Ok 1, put_zset now k (delete m z) ks)
      | None => (Ok 0, ks)
      end
    | None => (Err wrong_type, ks)
    end;
  law_zfirst now k ks : cmd_zfirst now k ks =
    match zset_at now ks k with
    | Some z => (Ok (take 1 (zset_sorted z)), ks)
    | None => (Err wrong_type, ks)
    end;
  law_zrangebyscore now k min max n ks : cmd_zrangebyscore now k min max n ks =
    match zset_at now ks k with
    | Some z => (Ok (take n ((zset_range z min max).*1)), ks)
    | None => (Err wrong_type, ks)
    end;
  law_lpop now k ks : cmd_lpop now k ks =
    match list_at now ks k with
    | Some (x :: l) => (Ok (Some x), put_list now k l ks)
    | Some [] => (Ok None, ks)
    | None => (Err wrong_type, ks)
    end;
  law_rpush now k x ks : cmd_rpush now k x ks =
    match list_at now ks k with
    | Some l => (Ok tt, put now k (VList (l ++ [x])) ks)
    | None => (Err wrong_type, ks)
    end;
  (** SCAN promises a set of keys, in no order and possibly with repeats. *)
  law_scan now p ks : exists l, cmd_scan now p ks = (Ok l, ks) /\
    forall k, k ∈ l <-> is_Some (live now ks k) /\ HasPrefix k p = true;
  law_publish now c m ks : cmd_publish now c m ks = (Ok tt, ks);
  law_expire_ms s : 0 < s -> cli_expire_ms (s * Second) = s * 1000;
  law_nx_zero : cli_nx_ms 0 = None;
  law_nx_pos n : 0 < n -> cli_nx_ms (n * Millisecond) = Some n;
  law_bool b : cli_bool b = if b then "1" else "0"
}.

(** [HSET] on behalf of the program always has at least one field. *)

(** ** Transactions

    [TxPipeline]: the commands run one after the other without anything in between;
    a command that fails does not stop the others, and [Exec] returns the first
    error. *)
Fixpoint tx (cmds : list (M keyspace unit)) : M keyspace unit := fun ks =>
  match cmds with
  | [] => (Ok tt, ks)
  | c :: cs =>
    let '(r, ks1) := c ks in
    let '(r', ks2) := tx cs ks1 in
    (match r with Ok _ => r' | Err e => Err e end, ks2)
  end.

Lemma preserves_tx (P : keyspace -> Prop) cmds : Forall (preserves P) cmds -> preserves P (tx cmds).
Proof.
  induction 1 as [|c cs Hc _ IH]; intros ks Hks; [done |]. simpl.
  specialize (Hc ks Hks). destruct (c ks) as [r ks1]. specialize (IH ks1 Hc). by destruct (tx cs ks1).
Qed.

(** ** A concrete server *)

#[export] Instance MemRedis : RedisServer := {
  cmd_get now k ks :=
    match str_at now ks k with Some o => (Ok o, ks) | None => (Err wrong_type, ks) end;
  cmd_set now k v ks := (Ok tt, <[k := Entry (VStr v) None]> ks);
  cmd_setnx now k v ttl ks :=
    match ttl with
    | Some t =>
      if t <=? 0 then (Err invalid_expire, ks)
      else match live now ks k with
           | Some _ => (Ok false, ks)
           | None => (Ok true, <[k := Entry (VStr v) (Some (now + t))]> ks)
           end
    | None =>
      match live now ks k with
      | Some _ => (Ok false, ks)
      | None => (Ok true, <[k := Entry (VStr v) None]> ks)
      end
    end;
  cmd_del now k ks := (Ok tt, delete k ks);
  cmd_exists now k ks := (Ok (match live now ks k with Some _ => 1 | None => 0 end), ks);
  cmd_expire now k t ks :=
    (Ok tt, match live now ks k with
            | Some v => if t <=? 0 then delete k ks else <[k := Entry v (Some (now + t))]> ks
            | None => ks
            end);
  cmd_hgetall now k ks :=
    match hash_at now ks k with Some h => (Ok h, ks) | None => (Err wrong_type, ks) end;
  cmd_hset now k fs ks :=
    match hash_at now ks k with
    | Some h => (Ok tt, put now k (VHash (hash_set h fs)) ks)
    | None => (Err wrong_type, ks)
    end;
  cmd_zadd now k s m ks :=
    match zset_at now ks k with
    | Some z => (Ok tt, put now k (VZSet (<[m := s]> z)) ks)
    | None => (Err wrong_type, ks)
    end;
  cmd_zrem now k m ks :=
    match zset_at now ks k with
    | Some z =>
      match z !! m with
      | Some _ => (Ok 1, put_zset now k (delete m z) ks)
      | None => (Ok 0, ks)
      end
    | None => (Err wrong_type, ks)
    end;
  cmd_zfirst now k ks :=
    match zset_at now ks k with
    | Some z => (Ok (take 1 (zset_sorted z)), ks)
    | None => (Err wrong_type, ks)
    end;
  cmd_zrangebyscore now k min max n ks :=
    match zset_at now ks k with
    | Some z => (Ok (take n ((zset_range z min max).*1)), ks)
    | None => (Err wrong_type, ks)
    end;
  cmd_lpop now k ks :=
    match list_at now ks k with
    | Some (x :: l) => (Ok (Some x), put_list now k l ks)
    | Some [] => (Ok None, ks)
    | None => (Err wrong_type, ks)
    end;
  cmd_rpush now k x ks :=
    match list_at now ks k with
    | Some l => (Ok tt, put now k (VList (l ++ [x])) ks)
    | None => (Err wrong_type, ks)
    end;
  cmd_scan now p ks :=
    (Ok (filter (fun k => is_Some (live now ks k) /\ HasPrefix k p = true)
           (map_to_list ks).*1), ks);
  cmd_publish now c m ks := (Ok tt, ks);
  cli_expire_ms d :=
    if (0 <? d) && (d <? Second) then 1000 else Z.quot d Second * 1000;
  cli_nx_ms d :=
    if d =? 0 then None
    else Some (if (0 <? d) && (d <? Millisecond) then 1 else Z.quot d Millisecond);
  cli_bool b := if b then "1" else "0"
}.

Lemma live_lookup now ks k v : live now ks k = Some v -> is_Some (ks !! k).
Proof. unfold live, live_entry. by destruct (ks !! k). Qed.

#[export] Instance MemRedis_laws : RedisLaws MemRedis.
Proof.
  split; try done.
  2:{ intros s Hs. cbn. unfold Second. rewrite Z.quot_mul by lia. zbool; simpl; lia. }
  2:{ intros n Hn. cbn. unfold Millisecond. rewrite Z.quot_mul by lia.
      zbool; simpl; f_equal; lia. }
  intros now p ks. eexists. split; [done |]. intros k. cbn.
  rewrite list_elem_of_filter. split; [tauto |]. intros [Hl Hp]. split; [done |].
  destruct Hl as [v Hl]. apply live_lookup in Hl as [e He].
  apply list_elem_of_fmap. exists (k, e). split; [done |]. by apply elem_of_map_to_list.
Qed.

(** ** Reading back what was written *)

Section Keyspace.
Context (now : Z) (ks : keyspace) (k : string).

Lemma live_insert_eq v x :
  live now (<[k := Entry v x]> ks) k = if expired now (Entry v x) then None else Some v.
Proof. unfold live, live_entry. rewrite lookup_insert_eq. by case_match. Qed.

Lemma live_insert_ne k' e : k' <> k -> live now (<[k' := e]> ks) k = live now ks k.
Proof. intros. unfold live, live_entry. by rewrite lookup_insert_ne. Qed.

Lemma live_entry_insert_ne k' e :
  k' <> k -> live_entry now (<[k' := e]> ks) k = live_entry now ks k.
Proof. intros. unfold live_entry. by rewrite lookup_insert_ne. Qed.

Lemma live_delete_eq : live now (delete k ks) k = None.
Proof. unfold live, live_entry. by rewrite lookup_delete_eq. Qed.

Lemma live_delete_ne k' : k' <> k -> live now (delete k' ks) k = live now ks k.
Proof. intros. unfold live, live_entry. by rewrite lookup_delete_ne. Qed.

Lemma live_put_eq v : live now (put now k v ks) k = Some v.
Proof.
  unfold put. rewrite live_insert_eq. unfold live_entry.
  destruct (ks !! k) as [[v' x]|]; [| done]. simpl.
  destruct (expired now (Entry v' x)) eqn:E; simpl; [done |].
  unfold expired in *. simpl in *. by rewrite E.
Qed.

Lemma live_put_ne now' k' v : k' <> k -> live now (put now' k' v ks) k = live now ks k.
Proof. apply live_insert_ne. Qed.

Lemma live_put_zset_eq z :
  live now (put_zset now k z ks) k = if decide (z = ∅) then None else Some (VZSet z).
Proof. unfold put_zset. case_decide; [apply live_delete_eq | apply live_put_eq]. Qed.

Lemma live_put_zset_ne now' k' z : k' <> k -> live now (put_zset now' k' z ks) k = live now ks k.
Proof. intros. unfold put_zset. case_decide; [by apply live_delete_ne | by apply live_put_ne]. Qed.

Lemma live_put_list_ne now' k' l : k' <> k -> live now (put_list now' k' l ks) k = live now ks k.
Proof. intros. unfold put_list. case_decide; [by apply live_delete_ne | by apply live_put_ne]. Qed.

Lemma zset_at_put_zset z : zset_at now (put_zset now k z ks) k = Some z.
Proof. unfold zset_at. rewrite live_put_zset_eq. by case_decide; subst. Qed.

Lemma list_at_put_list l : list_at now (put_list now k l ks) k = Some l.
Proof.
  unfold list_at, put_list. case_decide; subst;
    [by rewrite live_delete_eq | by rewrite live_put_eq].
Qed.

(** The typed readings depend on the live value alone. *)
Lemma reads_live k' ks' :
  live now ks' k' = live now ks k ->
  str_at now ks' k' = str_at now ks k /\ hash_at now ks' k' = hash_at now ks k /\
  zset_at now ks' k' = zset_at now ks k /\ list_at now ks' k' = list_at now ks k.
Proof. intros H. unfold str_at, hash_at, zset_at, list_at. by rewrite !H. Qed.
End Keyspace.

Create Rewrite HintDb redis.
#[export] Hint Rewrite live_insert_eq live_delete_eq live_put_eq live_put_zset_eq
  zset_at_put_zset list_at_put_list : redis.
#[export] Hint Rewrite live_insert_ne live_delete_ne live_put_ne live_put_zset_ne
  live_put_list_ne using done : redis.

(** ** Sorted sets *)

#[export] Instance zle_trans : Transitive zle.
Proof.
  intros [m1 s1] [m2 s2] [m3 s3]. unfold zle. simpl.
  intros [?|[? ?]] [?|[? ?]]; [left; lia .. |]. right. split; [lia |]. by etrans.
Qed.

#[export] Instance zle_total : Total zle.
Proof.
  intros [m1 s1] [m2 s2]. unfold zle. simpl.
  destruct (Z.lt_trichotomy s1 s2) as [|[->|]]; [tauto | | tauto].
  destruct (total String.le m1 m2); tauto.
Qed.

Lemma elem_of_zset_sorted z m s : (m, s) ∈ zset_sorted z <-> z !! m = Some s.
Proof.
  unfold zset_sorted. rewrite (merge_sort_Permutation zle). apply elem_of_map_to_list.
Qed.

Lemma zset_sorted_nil z : zset_sorted z = [] <-> z = ∅.
Proof.
  split; [| by intros ->]. intros H. apply map_empty. intros m.
  destruct (z !! m) as [s|] eqn:E; [| done]. apply elem_of_zset_sorted in E.
  rewrite H in E. set_solver.
Qed.

(** The first element of the sorted reading has the least score. *)
Lemma zset_sorted_head z m s l :
  zset_sorted z = (m, s) :: l -> z !! m = Some s /\ forall m' s', z !! m' = Some s' -> s <= s'.
Proof.
  intros H. split.
  { apply elem_of_zset_sorted. rewrite H. left. }
  intros m' s' Hm'. apply elem_of_zset_sorted in Hm'. rewrite H in Hm'.
  assert (HS : StronglySorted zle (zset_sorted z)) by (apply StronglySorted_merge_sort; apply _).
  rewrite H in HS. apply StronglySorted_inv in HS as [_ HS].
  apply elem_of_cons in Hm' as [[= -> ->] | Hm']; [lia |].
  rewrite Forall_forall in HS. specialize (HS _ Hm'). unfold zle in HS. simpl in HS. lia.
Qed.
