(* ===== verification/World.v ===== *)
(** The state the message plane runs in: the Redis keyspace, the Kafka cluster, the
    clock, and what the environment still has in store (the fate of each network
    round trip, what each Kafka poll will return, when the request's context ends).
    Kafka, like Redis, is a parameter with laws: the class [KafkaServer]. *)

From S2P Require Import Prelude GoNum Redis.

Local Open Scope Z_scope.

(** ** Kafka *)

Record krecord : Type := KRecord { kr_key : option string; kr_value : string }.

Record TopicConfig : Type := MkTopicConfig {
  tc_PartitionCount : Z;
  tc_ReplicationFactor : Z;
  tc_RetentionSeconds : Z;
  tc_MinInsyncReplicas : Z
}.

#[export] Instance krecord_eq_dec : EqDecision krecord.
Proof. solve_decision. Defined.
#[export] Instance TopicConfig_eq_dec : EqDecision TopicConfig.
Proof. solve_decision. Defined.

(** The cluster as its clients see it: topics, partition logs (by topic and
    partition), and the offsets committed by (group, topic, partition). *)
Record kafka : Type := Kafka {
  k_topics : gmap string TopicConfig;
  k_log : gmap (string * Z) (list krecord);
  k_commits : gmap (string * string * Z) Z
}.

Definition partition_log (st : kafka) (t : string) (p : Z) : list krecord :=
  default [] (k_log st !! (t, p)).

Definition append_record (t : string) (p : Z) (r : krecord) (st : kafka) : kafka :=
  Kafka (k_topics st) (<[(t, p) := partition_log st t p ++ [r]]> (k_log st)) (k_commits st).

Definition set_commit (g t : string) (p o : Z) (st : kafka) : kafka :=
  Kafka (k_topics st) (k_log st) (<[(g, t, p) := o]> (k_commits st)).

Class KafkaServer : Type := {
  (** kgo's [ProduceSync] with a manual partitioner: the offset of the record *)
  kgo_produce : string -> Z -> option string -> string -> M kafka Z;
  (** kadm's [CommitOffsets] for one (group, topic, partition) *)
  kadm_commit : string -> string -> Z -> Z -> M kafka unit
}.

Class KafkaLaws (K : KafkaServer) : Prop := {
  (** A successful produce appends the record and returns its offset; a refused
      one leaves the log alone. *)
  law_produce t p k v st :
    match kgo_produce t p k v st with
    | (Ok off, st') => off = Z.of_nat (length (partition_log st t p)) /\
                       st' = append_record t p (KRecord k v) st
    | (Err _, st') => st' = st
    end;
  law_commit g t p o st :
    match kadm_commit g t p o st with
    | (Ok _, st') => st' = set_commit g t p o st
    | (Err _, st') => st' = st
    end
}.

(** A concrete cluster: it refuses records for partitions that do not exist. *)
#[export] Instance MemKafka : KafkaServer := {
  kgo_produce t p k v st :=
    match k_topics st !! t with
    | Some c =>
      if (0 <=? p) && (p <? tc_PartitionCount c)
      then (Ok (Z.of_nat (length (partition_log st t p))), append_record t p (KRecord k v) st)
      else (Err (ErrText "UNKNOWN_TOPIC_OR_PARTITION"), st)
    | None => (Err (ErrText "UNKNOWN_TOPIC_OR_PARTITION"), st)
    end;
  kadm_commit g t p o st := (Ok tt, set_commit g t p o st)
}.

#[export] Instance MemKafka_laws : KafkaLaws MemKafka.
Proof. split; intros; simpl; repeat case_match; simplify_eq; auto. Qed.

(** ** UUIDs

    [uuid.NewString()]: the n-th value of an unknown source. *)
Class UUIDSource : Type := uuid_at : nat -> string.

(** ** The world *)

(** A record handed out by [Consumer.Poll]. *)
Record FetchedRecord : Type := MkRecord {
  rec_Topic : string;
  rec_Partition : Z;
  rec_Offset : Z;
  rec_Key : option string;
  rec_Value : string
}.

(** The fate of one network round trip: how long it takes, and whether the request
    and its reply get through. *)
Inductive verdict : Type :=
| Delivered
| RequestLost (e : error)
| ReplyLost (e : error).

Record event : Type := Event { ev_wait : Z; ev_verdict : verdict }.

(** What one [PollFetches] returns, and how long it takes. *)
Record fetch : Type := Fetch {
  f_wait : Z;
  f_errors : list error;
  f_records : list FetchedRecord
}.

Record world : Type := World {
  w_redis : keyspace;
  w_kafka : kafka;
  w_clock : Z;                       (* nanoseconds *)
  w_net : list event;                (* the rounds trips to come; then all is delivered *)
  w_fetches : list fetch;            (* the polls to come; then the topics are quiet *)
  w_cancel : option (Z * error);     (* when the request's context ends, and ctx.Err() *)
  w_uuid : nat                       (* UUIDs drawn so far *)
}.

Definition set_redis (ks : keyspace) (w : world) : world :=
  World ks (w_kafka w) (w_clock w) (w_net w) (w_fetches w) (w_cancel w) (w_uuid w).
Definition set_kafka (k : kafka) (w : world) : world :=
  World (w_redis w) k (w_clock w) (w_net w) (w_fetches w) (w_cancel w) (w_uuid w).
Definition set_clock (t : Z) (w : world) : world :=
  World (w_redis w) (w_kafka w) t (w_net w) (w_fetches w) (w_cancel w) (w_uuid w).
Definition set_net (n : list event) (w : world) : world :=
  World (w_redis w) (w_kafka w) (w_clock w) n (w_fetches w) (w_cancel w) (w_uuid w).
Definition set_fetches (f : list fetch) (w : world) : world :=
  World (w_redis w) (w_kafka w) (w_clock w) (w_net w) f (w_cancel w) (w_uuid w).
Definition set_uuid (n : nat) (w : world) : world :=
  World (w_redis w) (w_kafka w) (w_clock w) (w_net w) (w_fetches w) (w_cancel w) n.

(** Time passes; it never runs backwards. *)
Definition elapse (d : Z) (w : world) : world := set_clock (w_clock w + Z.max 0 d) w.

(** ** Reaching the servers *)

(** One round trip running [run] at the server. *)
Definition trip {A} (run : M world A) : M world A := fun w =>
  match w_net w with
  | [] => run w
  | ev :: evs =>
    let w1 := elapse (ev_wait ev) (set_net evs w) in
    match ev_verdict ev with
    | Delivered => run w1
    | RequestLost e => (Err e, w1)
    | ReplyLost e => (Err e, snd (run w1))
    end
  end.

(** A Redis command (or transaction, or script) at the server's time. *)
Definition redis_run {A} (c : Z -> M keyspace A) : M world A := fun w =>
  let '(r, ks) := c (UnixMilli (w_clock w)) (w_redis w) in (r, set_redis ks w).

Definition rdo {A} (c : Z -> M keyspace A) : M world A := trip (redis_run c).

Definition kafka_run {A} (c : M kafka A) : M world A := fun w =>
  let '(r, k) := c (w_kafka w) in (r, set_kafka k w).

Definition kdo {A} (c : M kafka A) : M world A := trip (kafka_run c).

(** ** The process's own environment *)

(** [time.Now()] *)
Definition Now : M world Z := gets w_clock.

(** [ctx.Err()] *)
Definition ctx_Err : M world (option error) := gets (fun w =>
  match w_cancel w with
  | Some (t, e) => if t <=? w_clock w then Some e else None
  | None => None
  end).

(** [uuid.NewString()] *)
Definition NewString `{UUIDSource} : M world string := fun w =>
  (Ok (uuid_at (w_uuid w)), set_uuid (S (w_uuid w)) w).

(** [select { case <-ctx.Done(): ... case <-time.After(d): }]: [Some e] when the
    context ends first. *)
Definition sleep (d : Z) : M world (option error) := fun w =>
  match w_cancel w with
  | Some (t, e) =>
    if t <=? w_clock w + Z.max 0 d then (Ok (Some e), elapse (t - w_clock w) w)
    else (Ok None, elapse d w)
  | None => (Ok None, elapse d w)
  end.

(** ** Calm worlds: no failures or delays on the network *)

Definition calm (w : world) : Prop := w_net w = [].

(** The server's clock, in milliseconds. *)
Definition ms (w : world) : Z := UnixMilli (w_clock w).

Section Calm.
Context {A : Type} (w : world) (Hcalm : calm w).

Lemma rdo_calm (c : Z -> M keyspace A) (r : res A) (ks : keyspace) :
  c (ms w) (w_redis w) = (r, ks) -> rdo c w = (r, set_redis ks w).
Proof. intros Hc. unfold rdo, trip. rewrite Hcalm. unfold redis_run. unfold ms in Hc. by rewrite Hc. Qed.

Lemma kdo_calm (c : M kafka A) (r : res A) (k : kafka) :
  c (w_kafka w) = (r, k) -> kdo c w = (r, set_kafka k w).
Proof. intros Hc. unfold kdo, trip. rewrite Hcalm. unfold kafka_run. by rewrite Hc. Qed.
End Calm.

Lemma set_redis_id w : set_redis (w_redis w) w = w.
Proof. by destruct w. Qed.

Lemma set_redis_twice ks1 ks2 w : set_redis ks1 (set_redis ks2 w) = set_redis ks1 w.
Proof. done. Qed.

Lemma ms_set_redis ks w : ms (set_redis ks w) = ms w.
Proof. done. Qed.

Lemma calm_set_redis ks w : calm w -> calm (set_redis ks w).
Proof. done. Qed.

Create HintDb world.
#[export] Hint Resolve calm_set_redis : world.

(** A round trip preserves what its command preserves, whatever its fate, provided
    the passing of time does too. *)
Section TripPreserves.
Context (P : world -> Prop).
Context (HP_net : forall n w, P w -> P (set_net n w)).
Context (HP_time : forall d w, P w -> P (elapse d w)).

Lemma preserves_trip {A} (run : M world A) : preserves P run -> preserves P (trip run).
Proof.
  intros Hr w Hw. unfold trip. destruct (w_net w) as [|[d [ | e | e]] evs]; simpl; auto.
Qed.
End TripPreserves.

(** Three things no Redis command, and no waiting, changes. *)
Lemma kafka_rdo {A} (c : Z -> M keyspace A) k : preserves (fun w => w_kafka w = k) (rdo c).
Proof.
  apply preserves_trip; [done | done |]. intros w Hw. unfold redis_run. by destruct (c _ _).
Qed.

Lemma kafka_sleep d k : preserves (fun w => w_kafka w = k) (sleep d).
Proof. intros w Hw. unfold sleep. repeat case_match; done. Qed.

Lemma kafka_NewString `{UUIDSource} k : preserves (fun w => w_kafka w = k) NewString.
Proof. by intros w Hw. Qed.

(** Properties that no operation of the program can break, because they are stable
    under every change it makes to the world: the passing of time, new server states,
    consumed randomness and consumed network events and polls. *)
Class Ambient (P : world -> Prop) : Prop := {
  ambient_redis ks w : P w -> P (set_redis ks w);
  ambient_kafka k w : P w -> P (set_kafka k w);
  ambient_net n w : P w -> P (set_net n w);
  ambient_fetches f w : P w -> P (set_fetches f w);
  ambient_uuid n w : P w -> P (set_uuid n w);
  ambient_time d w : P w -> P (elapse d w)
}.

(** Time moves forward; and the end of the request's context is fixed. *)
Definition after (t : Z) (w : world) : Prop := t <= w_clock w.

#[export] Instance after_ambient t : Ambient (after t).
Proof. split; unfold after; simpl; intros; lia. Qed.

#[export] Instance cancel_ambient c : Ambient (fun w => w_cancel w = c).
Proof. by split. Qed.

Section Ambients.
Context (P : world -> Prop) {AP : Ambient P}.

Lemma ambient_rdo {A} (c : Z -> M keyspace A) : preserves P (rdo c).
Proof.
  apply preserves_trip; [by intros; apply ambient_net | by intros; apply ambient_time |].
  intros w Hw. unfold redis_run. destruct (c _ _). by apply ambient_redis.
Qed.

Lemma ambient_kdo {A} (c : M kafka A) : preserves P (kdo c).
Proof.
  apply preserves_trip; [by intros; apply ambient_net | by intros; apply ambient_time |].
  intros w Hw. unfold kafka_run. destruct (c _). by apply ambient_kafka.
Qed.

Lemma ambient_NewString `{UUIDSource} : preserves P NewString.
Proof. intros w Hw. by apply ambient_uuid. Qed.

Lemma ambient_sleep d : preserves P (sleep d).
Proof. intros w Hw. unfold sleep. repeat case_match; by apply ambient_time. Qed.
End Ambients.

Create HintDb kstate.
#[export] Hint Resolve kafka_rdo kafka_sleep kafka_NewString : kstate.
Create HintDb clock.
#[export] Hint Resolve ambient_rdo ambient_kdo ambient_NewString ambient_sleep after_ambient
  cancel_ambient : clock.

(** Code without Kafka requests; and code that only waits and talks to the servers. *)
Ltac world_step :=
  lazymatch goal with
  | |- preserves _ Now => apply preserves_gets
  | |- preserves _ ctx_Err => apply preserves_gets
  | _ => pres_step
  end.
Ltac solve_kstate := repeat world_step; eauto with kstate.
Ltac solve_clock := repeat world_step; eauto with clock.

(** What can come of a Redis round trip: the command ran at some later time and its
    result came back; or there is an error, and the command ran or it did not. *)
Lemma rdo_cases {A} (c : Z -> M keyspace A) w r w' :
  rdo c w = (r, w') ->
  w_clock w <= w_clock w' /\
  (c (ms w') (w_redis w) = (r, w_redis w') \/
   exists e, r = Err e /\
     (w_redis w' = w_redis w \/ w_redis w' = snd (c (ms w') (w_redis w)))).
Proof.
  unfold rdo, trip, redis_run. destruct (w_net w) as [|[d [ | e | e]] evs]; cbn [ev_verdict ev_wait];
    try (destruct (c _ _) as [r0 ks] eqn:E); intros [= <- <-];
    (split; [simpl; lia |]); unfold ms; cbn in *; rewrite ?E; cbn; eauto 10.
Qed.

Lemma ms_mono w w' : w_clock w <= w_clock w' -> ms w <= ms w'.
Proof. intros H. unfold ms, UnixMilli. apply Z.div_le_mono; [done | exact H]. Qed.

(** A fresh world for examples: empty stores, some moment in 2023. *)
Definition world0 : world :=
  World ∅ (Kafka ∅ ∅ ∅) (1700000000 * Second) [] [] None 0.

(** A source of distinct identifiers for examples. *)
#[export] Instance SeqUUID : UUIDSource := fun n => "uuid-" +:+ FormatInt (Z.of_nat n).
