(* ===== verification/Schema.v ===== *)
(** The typing of the keyspace: each family of keys holds one kind of value.  The
    program relies on it (a command on a key of another kind fails), and every
    operation keeps it, whatever the network does. *)

From S2P Require Import Prelude GoNum GoStr Keys Redis World.

Local Open Scope Z_scope.

Definition kind_ok (f : family) (v : rval) : Prop :=
  match f, v with
  | FInFlight, VHash _ | FQueueMeta, VHash _
  | FPending, VZSet _ | FVisIndex, VZSet _
  | FWatermark, VStr _ | FDedup, VStr _ | FFIFOLock, VStr _ | FShardMap, VStr _
  | FRedeliver, VList _ | FQueueLock, VStr _ => True
  | _, _ => False
  end.

Definition well_typed (ks : keyspace) : Prop :=
  forall k e f, ks !! k = Some e -> of_family f k -> kind_ok f (e_val e).

Lemma well_typed_empty : well_typed ∅.
Proof. intros k e f H. by rewrite lookup_empty in H. Qed.

Lemma well_typed_insert ks k v x f :
  well_typed ks -> of_family f k -> kind_ok f v -> well_typed (<[k := Entry v x]> ks).
Proof.
  intros Hks Hf Hv k' e f' Hk' Hf'. apply lookup_insert_Some in Hk' as [[<- <-] | [_ Hk']].
  - by rewrite (of_family_inj f' f k).
  - by apply (Hks k' e f').
Qed.

Lemma well_typed_delete ks k : well_typed ks -> well_typed (delete k ks).
Proof. intros Hks k' e f [_ Hk']%lookup_delete_Some. by apply Hks. Qed.

Lemma well_typed_put now ks k v f :
  well_typed ks -> of_family f k -> kind_ok f v -> well_typed (put now k v ks).
Proof. apply well_typed_insert. Qed.

Lemma well_typed_put_zset now ks k z f :
  well_typed ks -> of_family f k -> kind_ok f (VZSet z) -> well_typed (put_zset now k z ks).
Proof.
  intros. unfold put_zset. case_decide; [by apply well_typed_delete | by eapply well_typed_put].
Qed.

Lemma well_typed_put_list now ks k l f :
  well_typed ks -> of_family f k -> kind_ok f (VList l) -> well_typed (put_list now k l ks).
Proof.
  intros. unfold put_list. case_decide; [by apply well_typed_delete | by eapply well_typed_put].
Qed.

(** Reads of a well-typed keyspace find the kind they expect. *)
Section Reads.
Context (now : Z) (ks : keyspace) (Hks : well_typed ks) (k : string).

Lemma live_kind f v : of_family f k -> live now ks k = Some v -> kind_ok f v.
Proof.
  unfold live, live_entry. intros Hf Hl. destruct (ks !! k) as [e|] eqn:E; [| done].
  destruct (expired now e); [done |]. simpl in Hl. simplify_eq. by apply (Hks k e f).
Qed.

Lemma hash_at_typed f :
  of_family f k -> f = FInFlight \/ f = FQueueMeta -> is_Some (hash_at now ks k).
Proof.
  intros Hf Hff. unfold hash_at. destruct (live now ks k) as [v|] eqn:E; [| by eexists].
  apply (live_kind f) in E; [| done]. destruct Hff; subst; destruct v; try done; by eexists.
Qed.

Lemma zset_at_typed f :
  of_family f k -> f = FPending \/ f = FVisIndex -> is_Some (zset_at now ks k).
Proof.
  intros Hf Hff. unfold zset_at. destruct (live now ks k) as [v|] eqn:E; [| by eexists].
  apply (live_kind f) in E; [| done]. destruct Hff; subst; destruct v; try done; by eexists.
Qed.

Lemma str_at_typed f :
  of_family f k -> f = FWatermark \/ f = FDedup \/ f = FFIFOLock \/ f = FShardMap ->
  is_Some (str_at now ks k).
Proof.
  intros Hf Hff. unfold str_at. destruct (live now ks k) as [v|] eqn:E; [| by eexists].
  apply (live_kind f) in E; [| done].
  destruct Hff as [-> | [-> | [-> | ->]]]; destruct v; try done; by eexists.
Qed.

Lemma list_at_typed : of_family FRedeliver k -> is_Some (list_at now ks k).
Proof.
  intros Hf. unfold list_at. destruct (live now ks k) as [v|] eqn:E; [| by eexists].
  apply (live_kind FRedeliver) in E; [| done]. destruct v; try done; by eexists.
Qed.
End Reads.

Create HintDb schema.
#[export] Hint Resolve hash_at_typed zset_at_typed str_at_typed list_at_typed : schema.

(** ** Commands keep the typing *)

Section Commands.
Context {R : RedisServer} {RL : RedisLaws R}.

Lemma typed_get now k : preserves well_typed (cmd_get now k).
Proof. intros ks Hks. rewrite law_get. by destruct (str_at now ks k). Qed.

Lemma typed_set now k v f :
  of_family f k -> kind_ok f (VStr v) -> preserves well_typed (cmd_set now k v).
Proof. intros ?? ks Hks. rewrite law_set. by eapply well_typed_insert. Qed.

Lemma typed_setnx now k v t f :
  of_family f k -> kind_ok f (VStr v) -> preserves well_typed (cmd_setnx now k v t).
Proof.
  intros ?? ks Hks. rewrite law_setnx. repeat case_match; simpl; try done; by eapply well_typed_insert.
Qed.

Lemma typed_del now k : preserves well_typed (cmd_del now k).
Proof. intros ks Hks. rewrite law_del. by apply well_typed_delete. Qed.

Lemma typed_exists now k : preserves well_typed (cmd_exists now k).
Proof. intros ks Hks. by rewrite law_exists. Qed.

Lemma typed_expire now k t : preserves well_typed (cmd_expire now k t).
Proof.
  intros ks Hks. rewrite law_expire. unfold live, live_entry. simpl.
  destruct (ks !! k) as [e|] eqn:E; [| done]. destruct (expired now e); [done |]. simpl.
  destruct (t <=? 0); [by apply well_typed_delete |].
  intros k' e' f Hk' Hf. apply lookup_insert_Some in Hk' as [[<- <-] | [_ Hk']];
    [by apply (Hks k e f) | by apply (Hks k' e' f)].
Qed.

Lemma typed_hgetall now k : preserves well_typed (cmd_hgetall now k).
Proof. intros ks Hks. rewrite law_hgetall. by destruct (hash_at now ks k). Qed.

Lemma typed_hset now k fs f :
  of_family f k -> f = FInFlight \/ f = FQueueMeta -> preserves well_typed (cmd_hset now k fs).
Proof.
  intros Hf Hff ks Hks. rewrite law_hset. destruct (hash_at now ks k); [| done].
  apply (well_typed_put _ _ _ _ f); [done | done |]. by destruct Hff; subst.
Qed.

Lemma typed_zadd now k s m f :
  of_family f k -> f = FPending \/ f = FVisIndex -> preserves well_typed (cmd_zadd now k s m).
Proof.
  intros Hf Hff ks Hks. rewrite law_zadd. destruct (zset_at now ks k); [| done].
  apply (well_typed_put _ _ _ _ f); [done | done |]. by destruct Hff; subst.
Qed.

Lemma typed_zrem now k m f :
  of_family f k -> f = FPending \/ f = FVisIndex -> preserves well_typed (cmd_zrem now k m).
Proof.
  intros Hf Hff ks Hks. rewrite law_zrem. destruct (zset_at now ks k) as [z|]; [| done].
  destruct (z !! m); [| done].
  apply (well_typed_put_zset _ _ _ _ f); [done | done |]. by destruct Hff; subst.
Qed.

Lemma typed_zfirst now k : preserves well_typed (cmd_zfirst now k).
Proof. intros ks Hks. rewrite law_zfirst. by destruct (zset_at now ks k). Qed.

Lemma typed_zrangebyscore now k a b n : preserves well_typed (cmd_zrangebyscore now k a b n).
Proof. intros ks Hks. rewrite law_zrangebyscore. by destruct (zset_at now ks k). Qed.

Lemma typed_lpop now k : of_family FRedeliver k -> preserves well_typed (cmd_lpop now k).
Proof.
  intros Hf ks Hks. rewrite law_lpop. destruct (list_at now ks k) as [[|x l]|]; try done.
  by apply (well_typed_put_list _ _ _ _ FRedeliver).
Qed.

Lemma typed_rpush now k x : of_family FRedeliver k -> preserves well_typed (cmd_rpush now k x).
Proof.
  intros Hf ks Hks. rewrite law_rpush. destruct (list_at now ks k) as [l|]; [| done].
  by apply (well_typed_put _ _ _ _ FRedeliver).
Qed.

Lemma typed_scan now p : preserves well_typed (cmd_scan now p).
Proof. intros ks Hks. by destruct (law_scan now p ks) as (l & -> & _). Qed.

Lemma typed_publish now c m : preserves well_typed (cmd_publish now c m).
Proof. intros ks Hks. by rewrite law_publish. Qed.

Lemma typed_tx cmds : Forall (preserves well_typed) cmds -> preserves well_typed (tx cmds).
Proof. apply preserves_tx. Qed.
End Commands.

(** ** Commands leave other keys alone *)

Section Frames.
Context {R : RedisServer} {RL : RedisLaws R}.
Context (k' : string) (e : option entry).

Notation untouched := (fun ks : keyspace => ks !! k' = e).

Lemma frame_get now k : preserves untouched (cmd_get now k).
Proof. intros ks Hks. rewrite law_get. by destruct (str_at now ks k). Qed.

Lemma frame_set now k v : k' <> k -> preserves untouched (cmd_set now k v).
Proof. intros Hk ks Hks. rewrite law_set. simpl. by rewrite lookup_insert_ne. Qed.

Lemma frame_setnx now k v t : k' <> k -> preserves untouched (cmd_setnx now k v t).
Proof.
  intros Hk ks Hks. rewrite law_setnx. repeat case_match; simpl; try done; by rewrite lookup_insert_ne.
Qed.

Lemma frame_del now k : k' <> k -> preserves untouched (cmd_del now k).
Proof. intros Hk ks Hks. rewrite law_del. simpl. by rewrite lookup_delete_ne. Qed.

Lemma frame_exists now k : preserves untouched (cmd_exists now k).
Proof. intros ks Hks. by rewrite law_exists. Qed.

Lemma frame_expire now k t : k' <> k -> preserves untouched (cmd_expire now k t).
Proof.
  intros Hk ks Hks. rewrite law_expire. repeat case_match; simpl; try done;
    [by rewrite lookup_delete_ne | by rewrite lookup_insert_ne].
Qed.

Lemma frame_hgetall now k : preserves untouched (cmd_hgetall now k).
Proof. intros ks Hks. rewrite law_hgetall. by destruct (hash_at now ks k). Qed.

Lemma frame_hset now k fs : k' <> k -> preserves untouched (cmd_hset now k fs).
Proof.
  intros Hk ks Hks. rewrite law_hset. destruct (hash_at now ks k); [| done].
  simpl. unfold put. by rewrite lookup_insert_ne.
Qed.

Lemma frame_zadd now k s m : k' <> k -> preserves untouched (cmd_zadd now k s m).
Proof.
  intros Hk ks Hks. rewrite law_zadd. destruct (zset_at now ks k); [| done].
  simpl. unfold put. by rewrite lookup_insert_ne.
Qed.

Lemma frame_zrem now k m : k' <> k -> preserves untouched (cmd_zrem now k m).
Proof.
  intros Hk ks Hks. rewrite law_zrem. unfold put_zset, put. repeat case_match; simpl; try done;
    [by rewrite lookup_delete_ne | by rewrite lookup_insert_ne].
Qed.

Lemma frame_zfirst now k : preserves untouched (cmd_zfirst now k).
Proof. intros ks Hks. rewrite law_zfirst. by destruct (zset_at now ks k). Qed.

Lemma frame_lpop now k : k' <> k -> preserves untouched (cmd_lpop now k).
Proof.
  intros Hk ks Hks. rewrite law_lpop. unfold put_list, put. repeat case_match; simpl; try done;
    [by rewrite lookup_delete_ne | by rewrite lookup_insert_ne].
Qed.

Lemma frame_rpush now k x : k' <> k -> preserves untouched (cmd_rpush now k x).
Proof.
  intros Hk ks Hks. rewrite law_rpush. destruct (list_at now ks k); [| done].
  simpl. unfold put. by rewrite lookup_insert_ne.
Qed.
End Frames.

Create HintDb frame.
#[export] Hint Resolve frame_get frame_set frame_setnx frame_del frame_exists frame_expire
  frame_hgetall frame_hset frame_zadd frame_zrem frame_zfirst frame_lpop frame_rpush : frame.

(** ** Worlds *)

(** A round trip preserves a property of the keyspace that its command preserves,
    whatever the fate of the request and of the reply. *)
Lemma preserves_rdo (P : keyspace -> Prop) {A} (c : Z -> M keyspace A) :
  (forall t, preserves P (c t)) -> preserves (fun w => P (w_redis w)) (rdo c).
Proof.
  intros Hc. apply preserves_trip; [done | done |]. intros w Hw. unfold redis_run.
  specialize (Hc (UnixMilli (w_clock w)) (w_redis w) Hw).
  by destruct (c (UnixMilli (w_clock w)) (w_redis w)).
Qed.

Definition typed (w : world) : Prop := well_typed (w_redis w).

Lemma typed_rdo {A} (c : Z -> M keyspace A) :
  (forall t, preserves well_typed (c t)) -> preserves typed (rdo c).
Proof. apply preserves_rdo. Qed.

Lemma typed_elapse d w : typed w -> typed (elapse d w).
Proof. done. Qed.

Lemma typed_kdo {A} (c : M kafka A) : preserves typed (kdo c).
Proof.
  apply preserves_trip; [done | done |]. intros w Hw. unfold kafka_run.
  by destruct (c (w_kafka w)).
Qed.

Lemma typed_gets {A} (f : world -> A) : preserves typed (gets f).
Proof. apply preserves_gets. Qed.

Lemma typed_NewString `{UUIDSource} : preserves typed NewString.
Proof. by intros w Hw. Qed.

Lemma typed_sleep d : preserves typed (sleep d).
Proof. intros w Hw. unfold sleep. repeat case_match; done. Qed.

#[export] Hint Resolve typed_get typed_set typed_setnx typed_del typed_exists typed_expire
  typed_hgetall typed_hset typed_zadd typed_zrem typed_zfirst typed_zrangebyscore typed_lpop
  typed_rpush typed_scan typed_publish typed_tx typed_rdo typed_kdo typed_gets
  typed_NewString typed_sleep : preserve.

(** Typing of a piece of monadic code: follow its binds and branches, and close
    each command with its lemma. *)
Ltac typed_step :=
  lazymatch goal with
  | |- preserves _ Now => apply preserves_gets
  | |- preserves _ ctx_Err => apply preserves_gets
  | |- preserves _ (rdo _) => apply typed_rdo
  | |- preserves _ (kdo _) => apply typed_kdo
  | |- preserves _ (sleep _) => apply typed_sleep
  | |- preserves _ (tx _) => apply typed_tx; repeat constructor
  | _ => pres_step
  end.

Ltac solve_typed :=
  repeat typed_step; eauto with preserve keys; try (eapply typed_hset; eauto with keys; tauto);
  try (eapply typed_zadd; eauto with keys; tauto); try (eapply typed_zrem; eauto with keys; tauto);
  try (eapply typed_set; eauto with keys; done); try (eapply typed_setnx; eauto with keys; done).
