(* ===== verification/Store.v ===== *)
(** [internal/redis]: the typed operations on the key schema — deduplication,
    in-flight records, pending offsets and watermarks, FIFO locks, queue metadata
    and the shard map ([dedup.go], [inflight.go], [watermark.go], [queuemeta.go],
    [shardmap.go]). *)

From S2P Require Import Prelude GoNum GoStr Topology Json Keys Redis World.
From Stdlib Require Import Ascii.

Local Open Scope Z_scope.

(** ** Data *)

Record InFlightRecord : Type := MkInFlight {
  if_ShardID : string;
  if_Topic : string;
  if_Partition : Z;
  if_Offset : Z;
  if_GroupID : string;
  if_DedupID : string;
  if_ReceiveCount : Z;
  if_Body : string
}.

Record QueueMeta : Type := MkQueueMeta {
  qm_FIFO : bool;
  qm_VisibilityTimeoutSeconds : Z;
  qm_MaxReceiveCount : Z;
  qm_DLQQueueName : string;
  qm_PartitionsPerShard : Z;
  qm_RetentionSeconds : Z;
  qm_CreatedAt : Z
}.

#[export] Instance InFlightRecord_eq_dec : EqDecision InFlightRecord.
Proof. solve_decision. Defined.
#[export] Instance QueueMeta_eq_dec : EqDecision QueueMeta.
Proof. solve_decision. Defined.

(** A field of a [map[string]string]: the empty string when it is missing. *)
Definition field (m : gmap string string) (f : string) : string := default "" (m !! f).

(** [n, _ := strconv.ParseInt(m[f], 10, bits)] *)
Definition int_field (m : gmap string string) (f : string) (bits : Z) : Z :=
  fst (ParseInt (field m f) bits).

(** The hash written for an in-flight record, and the record read from one. *)
Definition inflight_fields (rec : InFlightRecord) : list (string * string) :=
  [("shardId", if_ShardID rec); ("topic", if_Topic rec);
   ("partition", FormatInt (if_Partition rec)); ("offset", FormatInt (if_Offset rec));
   ("groupId", if_GroupID rec); ("dedupId", if_DedupID rec);
   ("receiveCount", FormatInt (if_ReceiveCount rec)); ("body", if_Body rec)].

Definition inflight_of_hash (m : gmap string string) : InFlightRecord :=
  {| if_ShardID := field m "shardId"; if_Topic := field m "topic";
     if_Partition := i32 (int_field m "partition" 32); if_Offset := int_field m "offset" 64;
     if_GroupID := field m "groupId"; if_DedupID := field m "dedupId";
     if_ReceiveCount := i32 (int_field m "receiveCount" 32); if_Body := field m "body" |}.

Definition meta_of_hash (m : gmap string string) : QueueMeta :=
  {| qm_FIFO := bool_decide (field m "fifo" = "1");
     qm_VisibilityTimeoutSeconds := i32 (int_field m "visibilityTimeoutSeconds" 32);
     qm_MaxReceiveCount := i32 (int_field m "maxReceiveCount" 32);
     qm_DLQQueueName := field m "dlqQueueName";
     qm_PartitionsPerShard := i32 (int_field m "partitionsPerShard" 32);
     qm_RetentionSeconds := i32 (int_field m "retentionSeconds" 32);
     qm_CreatedAt := int_field m "createdAt" 64 * Second |}.

Section Ops.
Context {R : RedisServer}.

(** *** dedup.go *)

Definition TryDedup (queue groupID dedupID : string) (window : Z) : M world bool :=
  wrap_err ("dedup check " +:+ groupID +:+ "/" +:+ dedupID +:+ ": ")
    (rdo (fun now => cmd_setnx now (DedupKey queue groupID dedupID) "1" (cli_nx_ms window))).

(** *** inflight.go *)

Definition PutInFlight (queue receiptHandle : string) (rec : InFlightRecord)
    (visibilityTimeout : Z) : M world unit :=
  let key := InFlightKey queue receiptHandle in
  now ← Now;
  let visibleAt := now + visibilityTimeout in
  wrap_err ("put in-flight " +:+ receiptHandle +:+ ": ")
    (rdo (fun t => tx [cmd_hset t key (inflight_fields rec);
                       cmd_expire t key (cli_expire_ms (visibilityTimeout + Minute));
                       cmd_zadd t (VisIndexKey queue) (f64_of_int (UnixMilli visibleAt))
                         receiptHandle])).

Definition GetInFlight (queue receiptHandle : string) : M world (option InFlightRecord) :=
  m ← wrap_err ("get in-flight " +:+ receiptHandle +:+ ": ")
        (rdo (fun t => cmd_hgetall t (InFlightKey queue receiptHandle)));
  if decide (m = ∅) then mret None else mret (Some (inflight_of_hash m)).

Definition ExtendVisibility (queue receiptHandle : string) (newTimeout : Z) : M world bool :=
  exists_ ← wrap_err ("extend visibility " +:+ receiptHandle +:+ ": ")
              (rdo (fun t => cmd_exists t (InFlightKey queue receiptHandle)));
  if exists_ =? 0 then mret false
  else
    now ← Now;
    let visibleAt := now + newTimeout in
    _ ← wrap_err ("extend visibility " +:+ receiptHandle +:+ ": ")
          (rdo (fun t => cmd_zadd t (VisIndexKey queue) (f64_of_int (UnixMilli visibleAt))
                           receiptHandle));
    mret true.

(** *** watermark.go *)

Definition AddPending (queue shardID : string) (partition offset : Z) : M world unit :=
  let key := PendingKey queue shardID partition in
  wrap_err ("add pending " +:+ key +:+ ": ")
    (rdo (fun t => cmd_zadd t key (f64_of_int offset) (FormatInt offset))).

Definition MinPending (queue shardID : string) (partition : Z) : M world (option Z) :=
  res ← wrap_err ("min pending " +:+ PendingKey queue shardID partition +:+ ": ")
          (rdo (fun t => cmd_zfirst t (PendingKey queue shardID partition)));
  match res with
  | [] => mret None
  | (_, score) :: _ => mret (Some (i64_of_f64 score))
  end.

Definition SetWatermark (queue shardID : string) (partition offset : Z) : M world unit :=
  let key := WatermarkKey queue shardID partition in
  wrap_err ("set watermark " +:+ key +:+ ": ")
    (rdo (fun t => cmd_set t key (FormatInt offset))).

Definition GetWatermark (queue shardID : string) (partition : Z) : M world (option Z) :=
  let key := WatermarkKey queue shardID partition in
  v ← wrap_err ("get watermark " +:+ key +:+ ": ") (rdo (fun t => cmd_get t key));
  match v with
  | None => mret None
  | Some v =>
    match ParseInt v 64 with
    | (n, None) => mret (Some n)
    | (_, Some e) =>
      fail (ErrWrap ("parse watermark " +:+ key +:+ ": ")
              (ErrText ("strconv.ParseInt: parsing " +:+ quote v +:+ ": " +:+ num_error_msg e)))
    end
  end.

Definition AcquireFIFOLock (queue groupID receiptHandle : string) (ttl : Z) : M world bool :=
  wrap_err ("acquire fifo lock " +:+ groupID +:+ ": ")
    (rdo (fun t => cmd_setnx t (FIFOLockKey queue groupID) receiptHandle (cli_nx_ms ttl))).

(** *** queuemeta.go *)

Definition meta_fields (m : QueueMeta) (createdAt : Z) : list (string * string) :=
  [("fifo", cli_bool (qm_FIFO m));
   ("visibilityTimeoutSeconds", FormatInt (qm_VisibilityTimeoutSeconds m));
   ("maxReceiveCount", FormatInt (qm_MaxReceiveCount m));
   ("dlqQueueName", qm_DLQQueueName m);
   ("partitionsPerShard", FormatInt (qm_PartitionsPerShard m));
   ("retentionSeconds", FormatInt (qm_RetentionSeconds m));
   ("createdAt", FormatInt (Unix createdAt))].

Definition PutQueueMeta (queue : string) (m : QueueMeta) : M world unit :=
  let key := QueueMetaKey queue in
  now ← Now;
  let createdAt := if qm_CreatedAt m =? zero_time then now else qm_CreatedAt m in
  wrap_err ("put queue meta " +:+ queue +:+ ": ")
    (rdo (fun t => tx [cmd_hset t key (meta_fields m createdAt);
                       cmd_publish t (QueueMetaChannel queue) "invalidate"])).

Definition GetQueueMeta (queue : string) : M world (option QueueMeta) :=
  m ← wrap_err ("get queue meta " +:+ queue +:+ ": ")
        (rdo (fun t => cmd_hgetall t (QueueMetaKey queue)));
  if decide (m = ∅) then mret None else mret (Some (meta_of_hash m)).

Definition DeleteQueueMeta (queue : string) : M world unit :=
  wrap_err ("delete queue meta " +:+ queue +:+ ": ")
    (rdo (fun t => cmd_del t (QueueMetaKey queue))).

Definition queue_prefix : string := "kmsvc:queue:".

Definition ListQueueNames : M world (list string) :=
  keys ← wrap_err "list queue names: " (rdo (fun t => cmd_scan t queue_prefix));
  mret ((fun k => TrimPrefix k queue_prefix) <$> keys).

(** *** shardmap.go *)

Definition PutShardMap (queue : string) (shards : list Shard) : M world unit :=
  wrap_err ("put shard map " +:+ queue +:+ ": ")
    (rdo (fun t => tx [cmd_set t (ShardMapKey queue) (Marshal shards);
                       cmd_publish t (ShardMapChannel queue) "invalidate"])).

Definition GetShardMap (queue : string) : M world (option (list Shard)) :=
  data ← wrap_err ("get shard map " +:+ queue +:+ ": ")
           (rdo (fun t => cmd_get t (ShardMapKey queue)));
  match data with
  | None => mret None
  | Some data =>
    match Unmarshal data with
    | Some shards => mret (Some shards)
    | None => fail (ErrWrap ("unmarshal shard map " +:+ queue +:+ ": ")
                      (ErrText "invalid character in shard map"))
    end
  end.

Definition DeleteShardMap (queue : string) : M world unit :=
  wrap_err ("delete shard map " +:+ queue +:+ ": ")
    (rdo (fun t => cmd_del t (ShardMapKey queue))).
End Ops.

(** ** Lemmas *)

(** Look a literal field up in a hash just written. *)
Ltac look_fields :=
  repeat first [rewrite lookup_insert_eq | rewrite lookup_insert_ne by done].

Definition inflight_ok (rec : InFlightRecord) : Prop :=
  is_i32 (if_Partition rec) /\ is_i64 (if_Offset rec) /\ is_i32 (if_ReceiveCount rec).

Definition meta_ok (m : QueueMeta) : Prop :=
  is_i32 (qm_VisibilityTimeoutSeconds m) /\ is_i32 (qm_MaxReceiveCount m) /\
  is_i32 (qm_PartitionsPerShard m) /\ is_i32 (qm_RetentionSeconds m) /\
  is_i64 (Unix (qm_CreatedAt m)).

Lemma inflight_of_fields h rec :
  inflight_ok rec -> inflight_of_hash (hash_set h (inflight_fields rec)) = rec.
Proof.
  intros (Hp & Ho & Hr). unfold inflight_of_hash, int_field, field. simpl. look_fields. simpl.
  rewrite !ParseInt_i32, ParseInt_i64 by done. simpl. rewrite !i32_id by done. by destruct rec.
Qed.

Lemma hash_set_nonempty h f fs : hash_set h (f :: fs) <> ∅.
Proof.
  simpl. generalize (<[f.1 := f.2]> h) as h', (insert_non_empty h f.1 f.2) as H.
  induction fs as [|g fs IH]; intros h' H; [done |]. simpl. apply IH, insert_non_empty.
Qed.

Section Laws.
Context {R : RedisServer} {RL : RedisLaws R}.
Context (w : world) (Hcalm : calm w).

Notation now := (ms w).
Notation ks := (w_redis w).

Lemma TryDedup_calm q g d window :
  TryDedup q g d window w =
  match cmd_setnx now (DedupKey q g d) "1" (cli_nx_ms window) ks with
  | (Ok b, ks') => (Ok b, set_redis ks' w)
  | (Err e, ks') => (Err (ErrWrap ("dedup check " +:+ g +:+ "/" +:+ d +:+ ": ") e), set_redis ks' w)
  end.
Proof.
  unfold TryDedup, wrap_err.
  destruct (cmd_setnx now (DedupKey q g d) "1" (cli_nx_ms window) ks) as [[b|e] ks'] eqn:E;
    by rewrite (rdo_calm w Hcalm _ _ _ E).
Qed.

Lemma AddPending_calm q s p o z :
  zset_at now ks (PendingKey q s p) = Some z ->
  AddPending q s p o w =
  (Ok tt, set_redis (put now (PendingKey q s p)
                       (VZSet (<[FormatInt o := f64_of_int o]> z)) ks) w).
Proof.
  intros Hz. unfold AddPending, wrap_err.
  erewrite rdo_calm; [| done | rewrite law_zadd, Hz; reflexivity]. done.
Qed.

Lemma MinPending_calm q s p z :
  zset_at now ks (PendingKey q s p) = Some z ->
  MinPending q s p w =
  (Ok (match zset_sorted z with [] => None | (_, f) :: _ => Some (i64_of_f64 f) end), w).
Proof.
  intros Hz. unfold MinPending. rewrite mbind_run. unfold wrap_err.
  erewrite rdo_calm; [| done | rewrite law_zfirst, Hz; reflexivity].
  rewrite set_redis_id. by destruct (zset_sorted z) as [|[m f] l].
Qed.

Lemma SetWatermark_calm q s p o :
  SetWatermark q s p o w =
  (Ok tt, set_redis (<[WatermarkKey q s p := Entry (VStr (FormatInt o)) None]> ks) w).
Proof.
  unfold SetWatermark, wrap_err. erewrite rdo_calm; [| done | by rewrite law_set]. done.
Qed.

Lemma AcquireFIFOLock_calm q g h s :
  0 < s ->
  AcquireFIFOLock q g h (s * Second) w =
  match live now ks (FIFOLockKey q g) with
  | Some _ => (Ok false, w)
  | None => (Ok true, set_redis (<[FIFOLockKey q g :=
                                    Entry (VStr h) (Some (now + s * 1000))]> ks) w)
  end.
Proof.
  intros Hs. unfold AcquireFIFOLock, wrap_err.
  replace (s * Second) with (s * 1000 * Millisecond) by (unfold Second, Millisecond; lia).
  destruct (live now ks (FIFOLockKey q g)) as [v|] eqn:E.
  - erewrite rdo_calm; [| done | rewrite law_setnx, law_nx_pos, E by lia].
    2:{ destruct (Z.leb_spec (s * 1000) 0); [lia |]. reflexivity. }
    by rewrite set_redis_id.
  - erewrite rdo_calm; [| done | rewrite law_setnx, law_nx_pos, E by lia].
    2:{ destruct (Z.leb_spec (s * 1000) 0); [lia |]. reflexivity. }
    done.
Qed.

Lemma GetInFlight_calm q h m :
  hash_at now ks (InFlightKey q h) = Some m ->
  GetInFlight q h w = (Ok (if decide (m = ∅) then None else Some (inflight_of_hash m)), w).
Proof.
  intros Hm. unfold GetInFlight. rewrite mbind_run. unfold wrap_err.
  erewrite rdo_calm; [| done | rewrite law_hgetall, Hm; reflexivity].
  rewrite set_redis_id. by case_decide.
Qed.

Lemma GetQueueMeta_calm q m :
  hash_at now ks (QueueMetaKey q) = Some m ->
  GetQueueMeta q w = (Ok (if decide (m = ∅) then None else Some (meta_of_hash m)), w).
Proof.
  intros Hm. unfold GetQueueMeta. rewrite mbind_run. unfold wrap_err.
  erewrite rdo_calm; [| done | rewrite law_hgetall, Hm; reflexivity].
  rewrite set_redis_id. by case_decide.
Qed.

Lemma GetShardMap_calm q s :
  str_at now ks (ShardMapKey q) = Some (Some s) ->
  GetShardMap q w =
  (match Unmarshal s with
   | Some l => Ok (Some l)
   | None => Err (ErrWrap ("unmarshal shard map " +:+ q +:+ ": ")
                    (ErrText "invalid character in shard map"))
   end, w).
Proof.
  intros Hs. unfold GetShardMap. rewrite mbind_run. unfold wrap_err.
  erewrite rdo_calm; [| done | rewrite law_get, Hs; reflexivity].
  rewrite set_redis_id. by destruct (Unmarshal s).
Qed.

(** [PutInFlight] with a visibility timeout of whole seconds. *)
Lemma PutInFlight_calm q h rec s m z :
  0 <= s ->
  hash_at now ks (InFlightKey q h) = Some m ->
  zset_at now ks (VisIndexKey q) = Some z ->
  let score := f64_of_int (UnixMilli (w_clock w + s * Second)) in
  let ks1 := <[InFlightKey q h :=
                Entry (VHash (hash_set m (inflight_fields rec))) (Some (now + (s + 60) * 1000))]> ks in
  exists ks',
    PutInFlight q h rec (s * Second) w = (Ok tt, set_redis ks' w) /\
    ks' = put now (VisIndexKey q) (VZSet (<[h := score]> z)) ks1.
Proof.
  intros Hs Hm Hz score ks1.
  eexists. split; [| reflexivity]. unfold PutInFlight, wrap_err. rewrite mbind_run. cbn [Now gets].
  assert (Hz1 : zset_at now ks1 (VisIndexKey q) = Some z).
  { rewrite <- Hz. apply reads_live. unfold ks1. apply live_insert_ne. auto with keys. }
  erewrite rdo_calm; [| done |]; cycle 1.
  { cbn [tx]. rewrite law_hset, Hm. cbv beta iota zeta.
    replace (s * Second + Minute) with ((s + 60) * Second) by (unfold Minute; lia).
    rewrite law_expire, live_put_eq, law_expire_ms by lia.
    destruct (Z.leb_spec ((s + 60) * 1000) 0); [lia |]. cbv beta iota zeta.
    unfold put at 1. rewrite insert_insert_eq. fold ks1.
    rewrite law_zadd, Hz1. reflexivity. }
  done.
Qed.
End Laws.

(** A pending set holds exactly the offsets [os], each scored by its value. *)
Definition pending_offsets (z : gmap string Z) (os : gset Z) : Prop :=
  forall m f, z !! m = Some f <-> exists o, o ∈ os /\ m = FormatInt o /\ f = f64_of_int o.

Lemma pending_offsets_empty : pending_offsets ∅ ∅.
Proof. intros m f. rewrite lookup_empty. set_solver. Qed.

Lemma pending_offsets_insert z os o :
  pending_offsets z os -> pending_offsets (<[FormatInt o := f64_of_int o]> z) ({[o]} ∪ os).
Proof.
  intros Hz m f. rewrite lookup_insert_Some, (Hz m f). split.
  - intros [[<- <-] | (Hne & o' & Ho' & -> & ->)]; [exists o | exists o']; set_solver.
  - intros (o' & [->%elem_of_singleton | Ho']%elem_of_union & -> & ->); [by left |].
    destruct (decide (o' = o)) as [-> | Hne]; [by left | right].
    split; [| eauto]. intros E. by apply FormatInt_inj in E.
Qed.

Lemma pending_offsets_delete z os o :
  pending_offsets z os -> pending_offsets (delete (FormatInt o) z) (os ∖ {[o]}).
Proof.
  intros Hz m f. rewrite lookup_delete_Some, (Hz m f). split.
  - intros (Hne & o' & Ho' & -> & ->). exists o'. set_solver.
  - intros (o' & [Ho' Hne]%elem_of_difference & -> & ->). split; [| eauto].
    intros E. apply FormatInt_inj in E. set_solver.
Qed.

(** Reading the first element of such a set yields its minimum. *)
Lemma pending_offsets_min z os :
  pending_offsets z os -> (forall o, o ∈ os -> Z.abs o < 2 ^ 53) ->
  match zset_sorted z with
  | [] => os = ∅
  | (_, f) :: _ => i64_of_f64 f ∈ os /\ forall o, o ∈ os -> i64_of_f64 f <= o
  end.
Proof.
  intros Hz Hos. destruct (zset_sorted z) as [|[m f] l] eqn:E.
  - apply zset_sorted_nil in E as ->. apply set_eq. intros o. split; [| set_solver].
    intros Ho. assert (H : ∅ !! FormatInt o = Some (f64_of_int o)) by (apply Hz; eauto).
    by rewrite lookup_empty in H.
  - apply zset_sorted_head in E as [Hm Hmin]. apply Hz in Hm as (o & Ho & -> & ->).
    rewrite i64_of_f64_exact by auto. split; [done |]. intros o' Ho'.
    assert (H : z !! FormatInt o' = Some (f64_of_int o')) by (apply Hz; eauto).
    apply Hmin in H. rewrite !f64_of_int_exact in H by auto. done.
Qed.

(** ** Properties *)

(** C38. An in-flight record that [PutInFlight] wrote reads back unchanged until
    its time to live (the visibility timeout plus a minute) has passed, and is gone
    afterwards. *)
Theorem PutInFlight_GetInFlight {R : RedisServer} {RL : RedisLaws R} w q h rec s d :
  calm w -> inflight_ok rec -> 0 <= s -> 0 <= d ->
  is_Some (hash_at (ms w) (w_redis w) (InFlightKey q h)) ->
  is_Some (zset_at (ms w) (w_redis w) (VisIndexKey q)) ->
  let w' := elapse d (snd (PutInFlight q h rec (s * Second) w)) in
  GetInFlight q h w' =
  (Ok (if ms w' <=? ms w + (s + 60) * 1000 then Some rec else None), w').
Proof.
  intros Hcalm Hrec Hs Hd [m Hm] [z Hz] w'.
  destruct (PutInFlight_calm w Hcalm q h rec s m z Hs Hm Hz) as (ks' & Hput & Hks').
  assert (Hw' : w' = elapse d (set_redis ks' w)) by (unfold w'; by rewrite Hput).
  set (key := InFlightKey q h) in *. set (full := hash_set m (inflight_fields rec)) in *.
  assert (Hlive : live (ms w') ks' key = if ms w + (s + 60) * 1000 <? ms w' then None else Some (VHash full)).
  { rewrite Hks', live_put_ne by (unfold key; auto with keys). apply live_insert_eq. }
  assert (Hh : hash_at (ms w') (w_redis w') key =
               Some (if ms w + (s + 60) * 1000 <? ms w' then ∅ else full)).
  { unfold hash_at. rewrite Hw' at 2. cbn [w_redis elapse set_clock set_redis].
    rewrite Hlive. by destruct (_ <? _). }
  rewrite (GetInFlight_calm w') with (m := if ms w + (s + 60) * 1000 <? ms w' then ∅ else full);
    [| by rewrite Hw' | exact Hh].
  do 2 f_equal. zbool; try lia; case_decide as E; try done.
  - by apply hash_set_nonempty in E.
  - unfold full. by rewrite inflight_of_fields.
Qed.

Definition sample_record : InFlightRecord :=
  MkInFlight "0" "kmsvc.orders.shard-0" 2 42 "g1" "" 1 "hello".

Lemma PutInFlight_GetInFlight_witness :
  GetInFlight "orders" "rh-1"
    (elapse Second (snd (PutInFlight "orders" "rh-1" sample_record (30 * Second) world0))) =
  (Ok (Some sample_record),
   elapse Second (snd (PutInFlight "orders" "rh-1" sample_record (30 * Second) world0))).
Proof.
  refine (eq_trans (PutInFlight_GetInFlight world0 "orders" "rh-1" sample_record 30 Second
                      _ _ _ _ _ _) _);
    [done | by vm_compute | done | done | by eexists | by eexists | by vm_compute].
Defined.

(** Metadata as a reader gets it back: the creation time is kept to the second. *)
Definition stored_meta (m : QueueMeta) : QueueMeta :=
  MkQueueMeta (qm_FIFO m) (qm_VisibilityTimeoutSeconds m) (qm_MaxReceiveCount m)
    (qm_DLQQueueName m) (qm_PartitionsPerShard m) (qm_RetentionSeconds m) (Unix (qm_CreatedAt m) * Second).

Lemma meta_of_hash_fields {R : RedisServer} {RL : RedisLaws R} h m :
  meta_ok m -> meta_of_hash (hash_set h (meta_fields m (qm_CreatedAt m))) = stored_meta m.
Proof.
  intros (Hv & Hmr & Hp & Hr & Hc). unfold stored_meta, meta_of_hash, int_field, field. simpl. look_fields. simpl.
  rewrite !ParseInt_i32, ParseInt_i64 by done. simpl. rewrite !i32_id by done.
  rewrite law_bool. by destruct (qm_FIFO m).
Qed.

(** Queue metadata that the operator wrote reads back unchanged, whatever the
    row held before; the creation time is kept to the second. *)
Theorem PutQueueMeta_GetQueueMeta {R : RedisServer} {RL : RedisLaws R} w q m :
  calm w -> meta_ok m -> qm_CreatedAt m <> zero_time ->
  is_Some (hash_at (ms w) (w_redis w) (QueueMetaKey q)) ->
  let w' := snd (PutQueueMeta q m w) in
  fst (PutQueueMeta q m w) = Ok tt /\
  GetQueueMeta q w' =
  (Ok (Some (stored_meta m)), w').
Proof.
  intros Hcalm Hm Hzt [h Hh].
  assert (Hput : PutQueueMeta q m w =
    (Ok tt, set_redis (put (ms w) (QueueMetaKey q)
                         (VHash (hash_set h (meta_fields m (qm_CreatedAt m)))) (w_redis w)) w)).
  { unfold PutQueueMeta, wrap_err. rewrite mbind_run. cbn [Now gets].
    destruct (Z.eqb_spec (qm_CreatedAt m) zero_time) as [? | _]; [done |].
    erewrite rdo_calm; [| done | cbn [tx]; rewrite law_hset, Hh, law_publish; reflexivity]. done. }
  rewrite Hput. cbv zeta. cbn [snd]. split; [done |].
  erewrite GetQueueMeta_calm; [| done |].
  2:{ unfold hash_at. rewrite ms_set_redis. cbn [w_redis set_redis].
      rewrite live_put_eq. reflexivity. }
  rewrite decide_False by apply hash_set_nonempty. do 3 f_equal. by apply meta_of_hash_fields.
Qed.

Lemma PutQueueMeta_GetQueueMeta_witness :
  let m := MkQueueMeta true 30 5 "orders-dlq" 6 345600 (1600000000 * Second) in
  GetQueueMeta "orders" (snd (PutQueueMeta "orders" m world0)) =
  (Ok (Some m), snd (PutQueueMeta "orders" m world0)).
Proof.
  refine (proj2 (PutQueueMeta_GetQueueMeta world0 "orders"
           (MkQueueMeta true 30 5 "orders-dlq" 6 345600 (1600000000 * Second)) _ _ _ _));
    [done | by vm_compute | done | by eexists].
Defined.

(** The shard map the operator publishes is read back by every router,
    shard by shard and in order, at any later time. *)
Theorem PutShardMap_GetShardMap {R : RedisServer} {RL : RedisLaws R} w q shards d :
  calm w -> Forall shard_ranges_ok shards ->
  let w' := elapse d (snd (PutShardMap q shards w)) in
  fst (PutShardMap q shards w) = Ok tt /\ GetShardMap q w' = (Ok (Some shards), w').
Proof.
  intros Hcalm Hs.
  assert (Hput : PutShardMap q shards w =
    (Ok tt, set_redis (<[ShardMapKey q := Entry (VStr (Marshal shards)) None]> (w_redis w)) w)).
  { unfold PutShardMap, wrap_err.
    erewrite rdo_calm; [| done | cbn [tx]; rewrite law_set, law_publish; reflexivity]. done. }
  rewrite Hput. cbv zeta. cbn [snd]. split; [done |].
  erewrite GetShardMap_calm; [| done |].
  2:{ unfold str_at. cbn [w_redis elapse set_clock set_redis]. by rewrite live_insert_eq. }
  by rewrite Unmarshal_Marshal_list.
Qed.

Lemma PutShardMap_GetShardMap_witness :
  let shards := [MkShard "0" "kmsvc.orders.fifo.shard-0" 0 FullHashRangeEnd "Active"] in
  GetShardMap "orders" (elapse 0 (snd (PutShardMap "orders" shards world0))) =
  (Ok (Some shards), elapse 0 (snd (PutShardMap "orders" shards world0))).
Proof.
  refine (proj2 (PutShardMap_GetShardMap world0 "orders"
                   [MkShard "0" "kmsvc.orders.fifo.shard-0" 0 FullHashRangeEnd "Active"] 0 _ _));
    [done | apply Forall_singleton; by vm_compute].
Defined.

(** Of the sends that carry one deduplication id in one group, the first is
    accepted, and a later one is accepted exactly when the window has passed. *)
Theorem TryDedup_window {R : RedisServer} {RL : RedisLaws R} w q g id s d :
  calm w -> 0 < s -> 0 <= d -> live (ms w) (w_redis w) (DedupKey q g id) = None ->
  let w1 := snd (TryDedup q g id (s * Second) w) in
  let w2 := elapse d w1 in
  fst (TryDedup q g id (s * Second) w) = Ok true /\
  fst (TryDedup q g id (s * Second) w2) = Ok (ms w + s * 1000 <? ms w2).
Proof.
  intros Hcalm Hs Hd Hnone.
  assert (Hms : cli_nx_ms (s * Second) = Some (s * 1000)).
  { replace (s * Second) with (s * 1000 * Millisecond) by (unfold Second, Millisecond; lia).
    apply law_nx_pos. lia. }
  assert (Hneg : (s * 1000 <=? 0) = false) by lia.
  assert (H1 : TryDedup q g id (s * Second) w =
    (Ok true, set_redis (<[DedupKey q g id := Entry (VStr "1") (Some (ms w + s * 1000))]> (w_redis w)) w)).
  { rewrite TryDedup_calm by done. by rewrite law_setnx, Hms, Hneg, Hnone. }
  cbv zeta. rewrite H1. cbn [fst snd]. split; [done |].
  rewrite TryDedup_calm by done. rewrite law_setnx, Hms, Hneg.
  cbn [w_redis elapse set_clock set_redis]. rewrite live_insert_eq. unfold expired. cbn [e_exp].
  by destruct (_ <? _).
Qed.

Lemma TryDedup_window_witness :
  fst (TryDedup "orders" "g1" "d1" (300 * Second) world0) = Ok true /\
  fst (TryDedup "orders" "g1" "d1" (300 * Second)
         (elapse 0 (snd (TryDedup "orders" "g1" "d1" (300 * Second) world0)))) = Ok false.
Proof.
  destruct (TryDedup_window world0 "orders" "g1" "d1" 300 0) as [H1 H2]; [done .. |].
  split; [exact H1 |]. rewrite H2. by vm_compute.
Defined.

(** [MinPending] is the least offset not yet acknowledged, and reports that
    nothing is pending exactly when the set is empty; offsets are exact in the
    score up to 2^53. *)
Theorem MinPending_least {R : RedisServer} {RL : RedisLaws R} w q sh p z os :
  calm w -> zset_at (ms w) (w_redis w) (PendingKey q sh p) = Some z ->
  pending_offsets z os -> (forall o, o ∈ os -> Z.abs o < 2 ^ 53) ->
  (MinPending q sh p w = (Ok None, w) /\ os = ∅) \/
  (exists o, MinPending q sh p w = (Ok (Some o), w) /\ o ∈ os /\ forall o', o' ∈ os -> o <= o').
Proof.
  intros Hcalm Hz Hos Hb. rewrite (MinPending_calm w Hcalm q sh p z Hz).
  pose proof (pending_offsets_min z os Hos Hb) as Hmin.
  destruct (zset_sorted z) as [|[m f] l]; [by left | right]. eauto.
Qed.

Lemma MinPending_least_witness :
  let w := snd (AddPending "orders" "0" 2 9 (snd (AddPending "orders" "0" 2 10 world0))) in
  MinPending "orders" "0" 2 w = (Ok (Some 9), w).
Proof.
  set (w := snd (AddPending "orders" "0" 2 9 (snd (AddPending "orders" "0" 2 10 world0)))).
  destruct (MinPending_least w "orders" "0" 2
              (<["9" := 9]> (<["10" := 10]> ∅)) ({[9]} ∪ ({[10]} ∪ ∅))) as [[_ H] | (o & H & Ho & Hmin)].
  - done.
  - vm_compute. reflexivity.
  - apply (pending_offsets_insert _ _ 9), (pending_offsets_insert _ _ 10), pending_offsets_empty.
  - intros o Ho. set_unfold. lia.
  - set_solver.
  - cbv zeta. rewrite H. do 3 f_equal. set_unfold. specialize (Hmin 9). lia.
Defined.

(** Whatever the network does, [ExtendVisibility] touches nothing but the
    visibility index: the in-flight hash keeps the deadline it got on first
    receipt, and so does the FIFO lock. *)
Theorem ExtendVisibility_frame {R : RedisServer} {RL : RedisLaws R} w q h d k :
  k <> VisIndexKey q ->
  w_redis (snd (ExtendVisibility q h d w)) !! k = w_redis w !! k.
Proof.
  intros Hk. apply (preserves_bind (fun w' => w_redis w' !! k = w_redis w !! k)); [| | done].
  - apply preserves_wrap, preserves_trip; [done.. |]. intros w1 Hw1. unfold redis_run.
    by rewrite law_exists.
  - intros n. destruct (n =? 0); [apply preserves_ret |].
    apply preserves_bind; [apply preserves_gets | intros t].
    apply preserves_bind; [| intros _; apply preserves_ret].
    apply preserves_wrap, preserves_trip; [done.. |]. intros w1 Hw1. unfold redis_run.
    rewrite law_zadd. destruct (zset_at _ _ _); [| done].
    simpl. unfold put. by rewrite lookup_insert_ne.
Qed.

Lemma ExtendVisibility_frame_witness :
  let w := snd (PutInFlight "orders" "rh-1" sample_record (30 * Second) world0) in
  fst (ExtendVisibility "orders" "rh-1" (3600 * Second) w) = Ok true /\
  w_redis (snd (ExtendVisibility "orders" "rh-1" (3600 * Second) w)) !! InFlightKey "orders" "rh-1" =
  w_redis w !! InFlightKey "orders" "rh-1".
Proof.
  split; [by vm_compute |].
  apply (ExtendVisibility_frame _ "orders" "rh-1" (3600 * Second)). done.
Defined.

(** A successful scan, whenever it ran. *)
Lemma ListQueueNames_ok {R : RedisServer} {RL : RedisLaws R} w names w' :
  ListQueueNames w = (Ok names, w') ->
  w_redis w' = w_redis w /\
  forall q, q ∈ names <-> is_Some (live (ms w') (w_redis w) (QueueMetaKey q)).
Proof.
  unfold ListQueueNames. intros (keys & w1 & H%wrap_err_ok & [= <- <-])%mbind_ok_inv.
  apply rdo_cases in H as [_ [H | (e & ? & _)]]; [| done].
  destruct (law_scan (ms w1) queue_prefix (w_redis w)) as (l & Hl & Hspec). rewrite Hl in H.
  injection H as <- <-. split; [done |]. intros q. rewrite list_elem_of_fmap. split.
  - intros (k & -> & Hk). apply Hspec in Hk as [Hlive Hpre].
    apply HasPrefix_spec in Hpre as [r ->]. by rewrite TrimPrefix_app.
  - intros Hlive. exists (QueueMetaKey q). split; [symmetry; apply (TrimPrefix_app queue_prefix) |].
    apply Hspec. split; [done |]. apply (HasPrefix_app queue_prefix).
Qed.

(** The queues the server discovers are exactly those with a live metadata
    row. *)
Theorem ListQueueNames_spec {R : RedisServer} {RL : RedisLaws R} w :
  calm w ->
  exists names, ListQueueNames w = (Ok names, w) /\
    forall q, q ∈ names <-> is_Some (live (ms w) (w_redis w) (QueueMetaKey q)).
Proof.
  intros Hcalm. destruct (law_scan (ms w) queue_prefix (w_redis w)) as (l & Hl & _).
  assert (Hrun : ListQueueNames w = (Ok ((fun k => TrimPrefix k queue_prefix) <$> l), w)).
  { unfold ListQueueNames, wrap_err. rewrite mbind_run.
    erewrite rdo_calm; [| done | exact Hl]. by rewrite set_redis_id. }
  eexists. split; [exact Hrun |]. by apply ListQueueNames_ok.
Qed.

Lemma ListQueueNames_spec_witness :
  calm world0 /\ exists names, ListQueueNames world0 = (Ok names, world0) /\
    forall q, q ∈ names <-> is_Some (live (ms world0) (w_redis world0) (QueueMetaKey q)).
Proof. split; [done |]. by apply (ListQueueNames_spec world0). Defined.
