(* ===== verification/Scripts.v ===== *)
(** [internal/redis/reaper.go] and the two Lua scripts it runs: the atomic
    acknowledgement [ack.lua], the atomic check-and-act [reap.lua] for an expired
    message, and the redelivery list.

    A script runs at the server without interleaving, so it is a [M keyspace]
    program; [redis.call] raises a server error by failing, which keeps the effects
    already made.  Lua numbers are integers here: the only numerals the scripts
    convert are receive counts, which the program writes in decimal. *)

From S2P Require Import Prelude GoNum GoStr Topology Json Keys Redis World Schema Store.

Local Open Scope Z_scope.

(** ** Lua *)

Definition lua_error (msg : string) : error := ErrText ("ERR Error running script: " +:+ msg).

(** [m[f]] where a nil makes the expression fail (concatenation, command argument). *)
Definition lua_field (m : gmap string string) (f : string) : M keyspace string :=
  match m !! f with
  | Some s => mret s
  | None => fail (lua_error ("field '" +:+ f +:+ "' is nil"))
  end.

(** [tonumber(s)] and the decimal text of a number, for integers. *)
Definition lua_tonumber (s : string) : option Z := parse_dec s.
Definition lua_tostring (n : Z) : string := FormatInt n.

(** The guarded release of a message's FIFO lock, the same in both scripts. *)
Definition lua_release_lock {R : RedisServer} (now : Z) (queueName handle : string)
    (m : gmap string string) : M keyspace unit :=
  match m !! "groupId" with
  | Some groupId =>
    if decide (groupId = "") then mret tt
    else
      let lockKey := "kmsvc:fifo_lock:" +:+ queueName +:+ ":" +:+ groupId in
      lockVal ← cmd_get now lockKey;
      if decide (lockVal = Some handle) then cmd_del now lockKey else mret tt
  | None => mret tt
  end.

Definition lua_pendingKey (queueName shardId partition : string) : string :=
  "kmsvc:pending:" +:+ queueName +:+ ":" +:+ shardId +:+ ":" +:+ partition.

(** [ack.lua] with KEYS = [k1; k2] and ARGV = [handle; queueName]. *)
Definition ack_lua {R : RedisServer} (k1 k2 handle queueName : string) (now : Z)
    : M keyspace (list string) :=
  m ← cmd_hgetall now k1;
  if decide (m = ∅) then mret ["not_found"]
  else
    _ ← cmd_zrem now k2 handle;
    shardId ← lua_field m "shardId";
    partition ← lua_field m "partition";
    let pendingKey := lua_pendingKey queueName shardId partition in
    offset ← lua_field m "offset";
    _ ← cmd_zrem now pendingKey offset;
    _ ← cmd_del now k1;
    _ ← lua_release_lock now queueName handle m;
    mret ["acked"].

(** [m[f] or d] *)
Definition or_field (m : gmap string string) (f d : string) : string := default d (m !! f).

(** [reap.lua] with KEYS = [k1; k2] and ARGV = [handle; maxReceiveCount; queueName]. *)
Definition reap_lua {R : RedisServer} (k1 k2 handle maxReceiveCount queueName : string)
    (now : Z) : M keyspace (list string) :=
  removed ← cmd_zrem now k2 handle;
  if removed =? 0 then mret ["gone"]
  else
    m ← cmd_hgetall now k1;
    if decide (m = ∅) then mret ["gone"]
    else
      let receiveCount := lua_tonumber (or_field m "receiveCount" "0") in
      let maxReceive := lua_tonumber maxReceiveCount in
      _ ← lua_release_lock now queueName handle m;
      match receiveCount, maxReceive with
      | Some receiveCount, Some maxReceive =>
        if maxReceive <=? receiveCount then
          shardId ← lua_field m "shardId";
          partition ← lua_field m "partition";
          let pendingKey := lua_pendingKey queueName shardId partition in
          offset ← lua_field m "offset";
          _ ← cmd_zrem now pendingKey offset;
          _ ← cmd_del now k1;
          mret ["dlq"; or_field m "topic" ""; or_field m "shardId" "";
                or_field m "partition" ""; or_field m "offset" ""; or_field m "body" "";
                or_field m "groupId" ""; or_field m "dedupId" ""]
        else
          _ ← cmd_hset now k1 [("receiveCount", lua_tostring (receiveCount + 1))];
          _ ← cmd_rpush now ("kmsvc:redeliver:" +:+ queueName) handle;
          mret ["redeliver"; handle; lua_tostring (receiveCount + 1)]
      | _, _ => fail (lua_error "attempt to compare nil with number")
      end.

(** ** reaper.go *)

Inductive ReapOutcome : Type := ReapOutcomeGone | ReapOutcomeDLQ | ReapOutcomeRedeliver.

#[export] Instance ReapOutcome_eq_dec : EqDecision ReapOutcome.
Proof. solve_decision. Defined.

Record ReapResult : Type := MkReapResult {
  rr_Outcome : ReapOutcome;
  rr_Topic : string;
  rr_ShardID : string;
  rr_Partition : Z;
  rr_Offset : Z;
  rr_Body : string;
  rr_GroupID : string;
  rr_DedupID : string;
  rr_ReceiveCount : Z
}.

(** [ReapResult{Outcome: ReapOutcomeGone}] *)
Definition reap_gone : ReapResult := MkReapResult ReapOutcomeGone "" "" 0 0 "" "" "" 0.

Definition reap_result_of (receiptHandle : string) (res : list string) : M world ReapResult :=
  match res with
  | [] => mret reap_gone
  | o :: _ =>
    if decide (o = "gone") then mret reap_gone
    else if decide (o = "dlq") then
      let at_ i := default "" (res !! i) in
      mret {| rr_Outcome := ReapOutcomeDLQ; rr_Topic := at_ 1%nat; rr_ShardID := at_ 2%nat;
              rr_Partition := i32 (fst (ParseInt (at_ 3%nat) 32));
              rr_Offset := fst (ParseInt (at_ 4%nat) 64); rr_Body := at_ 5%nat;
              rr_GroupID := at_ 6%nat; rr_DedupID := at_ 7%nat; rr_ReceiveCount := 0 |}
    else if decide (o = "redeliver") then
      let at_ i := default "" (res !! i) in
      mret (MkReapResult ReapOutcomeRedeliver "" "" 0 0 "" "" ""
              (i32 (fst (ParseInt (at_ 2%nat) 32))))
    else fail (ErrText ("reap " +:+ receiptHandle +:+ ": unexpected outcome " +:+ quote o))
  end.

Inductive AckOutcome : Type := AckOutcomeAcked | AckOutcomeNotFound | AckOutcomeOther (s : string).

#[export] Instance AckOutcome_eq_dec : EqDecision AckOutcome.
Proof. solve_decision. Defined.

(** [AckOutcome(s)]: the two named values, or any other text. *)
Definition ack_outcome_of (s : string) : AckOutcome :=
  if decide (s = "acked") then AckOutcomeAcked
  else if decide (s = "not_found") then AckOutcomeNotFound
  else AckOutcomeOther s.

Section Ops.
Context {R : RedisServer}.

Definition Reap (queue receiptHandle : string) (maxReceiveCount : Z) : M world ReapResult :=
  res ← wrap_err ("reap " +:+ receiptHandle +:+ ": ")
          (rdo (reap_lua (InFlightKey queue receiptHandle) (VisIndexKey queue) receiptHandle
                  (FormatInt maxReceiveCount) queue));
  reap_result_of receiptHandle res.

Definition Ack (queue receiptHandle : string) : M world AckOutcome :=
  res ← wrap_err ("ack " +:+ receiptHandle +:+ ": ")
          (rdo (ack_lua (InFlightKey queue receiptHandle) (VisIndexKey queue) receiptHandle queue));
  match res with
  | [] => mret AckOutcomeNotFound
  | o :: _ => mret (ack_outcome_of o)
  end.

Definition ExpiredVisIndexEntries (queue : string) (limit : nat) : M world (list string) :=
  now ← Now;
  wrap_err ("expired vis index " +:+ queue +:+ ": ")
    (rdo (fun t => cmd_zrangebyscore t (VisIndexKey queue) 0 (UnixMilli now) limit)).

Definition PopRedeliverable (queue : string) : M world (option string) :=
  wrap_err ("pop redeliverable " +:+ queue +:+ ": ") (rdo (fun t => cmd_lpop t (RedeliverKey queue))).

Definition PushRedeliverable (queue receiptHandle : string) : M world unit :=
  wrap_err ("push redeliverable " +:+ queue +:+ ": ")
    (rdo (fun t => cmd_rpush t (RedeliverKey queue) receiptHandle)).
End Ops.

(** ** What the scripts do, as keyspace transformers *)

(** ZREM of a member, and the guarded DEL of a lock. *)
Definition zrem_ks (now : Z) (k m : string) (ks : keyspace) : keyspace :=
  match zset_at now ks k with
  | Some z => match z !! m with Some _ => put_zset now k (delete m z) ks | None => ks end
  | None => ks
  end.

Definition release_ks (now : Z) (q g h : string) (ks : keyspace) : keyspace :=
  if decide (g <> "" /\ str_at now ks (FIFOLockKey q g) = Some (Some h))
  then delete (FIFOLockKey q g) ks else ks.

(** The hash [m] stores the record [rec]. *)
Definition stored (m : gmap string string) (rec : InFlightRecord) : Prop :=
  forall p, p ∈ inflight_fields rec -> m !! p.1 = Some p.2.

Definition rec_pending_key (q : string) (rec : InFlightRecord) : string :=
  PendingKey q (if_ShardID rec) (if_Partition rec).

Definition ack_ks (now : Z) (q h : string) (rec : InFlightRecord) (ks : keyspace) : keyspace :=
  release_ks now q (if_GroupID rec) h
    (delete (InFlightKey q h)
       (zrem_ks now (rec_pending_key q rec) (FormatInt (if_Offset rec))
          (zrem_ks now (VisIndexKey q) h ks))).

(** A reap that gives up on the message, and one that queues it again. *)
Definition reap_dlq_ks (now : Z) (q h : string) (rec : InFlightRecord) (ks : keyspace) : keyspace :=
  delete (InFlightKey q h)
    (zrem_ks now (rec_pending_key q rec) (FormatInt (if_Offset rec))
       (release_ks now q (if_GroupID rec) h (zrem_ks now (VisIndexKey q) h ks))).

Definition reap_redeliver_ks (now : Z) (q h : string) (rec : InFlightRecord)
    (m : gmap string string) (l : list string) (ks : keyspace) : keyspace :=
  put now (RedeliverKey q) (VList (l ++ [h]))
    (put now (InFlightKey q h)
       (VHash (<["receiveCount" := FormatInt (if_ReceiveCount rec + 1)]> m))
       (release_ks now q (if_GroupID rec) h (zrem_ks now (VisIndexKey q) h ks))).

(** ** Lemmas *)

Lemma zrem_ks_ne now k m ks k' : k' <> k -> zrem_ks now k m ks !! k' = ks !! k'.
Proof.
  intros Hne. unfold zrem_ks, put_zset, put. repeat case_match; try done.
  - by rewrite lookup_delete_ne.
  - by rewrite lookup_insert_ne.
Qed.

Lemma release_ks_ne now q g h ks k' :
  k' <> FIFOLockKey q g -> release_ks now q g h ks !! k' = ks !! k'.
Proof. intros Hne. unfold release_ks. case_decide; [by rewrite lookup_delete_ne | done]. Qed.

Lemma live_lookup_eq now ks ks' k : ks' !! k = ks !! k -> live now ks' k = live now ks k.
Proof. intros H. unfold live, live_entry. by rewrite H. Qed.

(** Typed reads of a key that was not touched. *)
Lemma zset_at_lookup_eq now ks ks' k : ks' !! k = ks !! k -> zset_at now ks' k = zset_at now ks k.
Proof. intros H. unfold zset_at. by rewrite (live_lookup_eq now ks ks'). Qed.

Lemma str_at_lookup_eq now ks ks' k : ks' !! k = ks !! k -> str_at now ks' k = str_at now ks k.
Proof. intros H. unfold str_at. by rewrite (live_lookup_eq now ks ks'). Qed.

Lemma hash_at_lookup_eq now ks ks' k : ks' !! k = ks !! k -> hash_at now ks' k = hash_at now ks k.
Proof. intros H. unfold hash_at. by rewrite (live_lookup_eq now ks ks'). Qed.

Lemma list_at_lookup_eq now ks ks' k : ks' !! k = ks !! k -> list_at now ks' k = list_at now ks k.
Proof. intros H. unfold list_at. by rewrite (live_lookup_eq now ks ks'). Qed.

Lemma zset_at_zrem now ks k m : zset_at now (zrem_ks now k m ks) k = delete m <$> zset_at now ks k.
Proof.
  unfold zrem_ks. destruct (zset_at now ks k) as [z|] eqn:E; [| done].
  destruct (z !! m) eqn:Em; simpl.
  - apply zset_at_put_zset.
  - by rewrite E, delete_id.
Qed.

Lemma well_typed_zrem now k m ks f :
  of_family f k -> f = FPending \/ f = FVisIndex ->
  well_typed ks -> well_typed (zrem_ks now k m ks).
Proof.
  intros Hf Hff Hks. unfold zrem_ks. repeat case_match; try done.
  apply (well_typed_put_zset _ _ _ _ f); [done | done |]. by destruct Hff; subst.
Qed.

Lemma well_typed_release now q g h ks : well_typed ks -> well_typed (release_ks now q g h ks).
Proof. intros Hks. unfold release_ks. case_decide; [by apply well_typed_delete | done]. Qed.

Lemma str_at_release now q g h ks :
  g <> "" ->
  str_at now (release_ks now q g h ks) (FIFOLockKey q g) =
  if decide (str_at now ks (FIFOLockKey q g) = Some (Some h)) then Some None
  else str_at now ks (FIFOLockKey q g).
Proof.
  intros Hg. unfold release_ks. repeat case_decide; try tauto.
  unfold str_at at 1. by rewrite live_delete_eq.
Qed.

#[export] Hint Resolve well_typed_zrem well_typed_release well_typed_delete : schema.

Lemma stored_fields h rec : stored (hash_set h (inflight_fields rec)) rec.
Proof.
  intros p Hp. unfold inflight_fields in Hp. set_unfold. simpl.
  destruct_or! Hp; subst; simpl; look_fields; done.
Qed.

(** A stored record gives its fields; its hash is not empty. *)
Lemma stored_lookup m rec :
  stored m rec ->
  m !! "shardId" = Some (if_ShardID rec) /\ m !! "topic" = Some (if_Topic rec) /\
  m !! "partition" = Some (FormatInt (if_Partition rec)) /\
  m !! "offset" = Some (FormatInt (if_Offset rec)) /\
  m !! "groupId" = Some (if_GroupID rec) /\ m !! "dedupId" = Some (if_DedupID rec) /\
  m !! "receiveCount" = Some (FormatInt (if_ReceiveCount rec)) /\ m !! "body" = Some (if_Body rec).
Proof.
  intros Hm. split_and!;
    lazymatch goal with |- _ !! ?f = Some ?v =>
      apply (Hm (f, v)); unfold inflight_fields; set_solver end.
Qed.

Lemma stored_nonempty m rec : stored m rec -> m <> ∅.
Proof. intros Hm ->. apply stored_lookup in Hm as [H _]. by rewrite lookup_empty in H. Qed.

Lemma stored_inflight m rec : inflight_ok rec -> stored m rec -> inflight_of_hash m = rec.
Proof.
  intros (Hp & Ho & Hr) Hm. apply stored_lookup in Hm as (H1 & H2 & H3 & H4 & H5 & H6 & H7 & H8).
  unfold inflight_of_hash, int_field, field. rewrite H1, H2, H3, H4, H5, H6, H7, H8. simpl.
  rewrite !ParseInt_i32, ParseInt_i64 by done. simpl. rewrite !i32_id by done. by destruct rec.
Qed.

(** The record as it is after one more delivery. *)
Definition bump_count (rec : InFlightRecord) : InFlightRecord :=
  MkInFlight (if_ShardID rec) (if_Topic rec) (if_Partition rec) (if_Offset rec) (if_GroupID rec)
    (if_DedupID rec) (if_ReceiveCount rec + 1) (if_Body rec).

Lemma stored_bump m rec :
  stored m rec ->
  stored (<["receiveCount" := FormatInt (if_ReceiveCount rec + 1)]> m) (bump_count rec).
Proof.
  intros Hm p Hp. apply stored_lookup in Hm as (H1 & H2 & H3 & H4 & H5 & H6 & H7 & H8).
  unfold inflight_fields, bump_count in Hp. set_unfold. simpl.
  destruct_or! Hp; subst; simpl; look_fields; done.
Qed.

Section Runs.
Context {R : RedisServer} {RL : RedisLaws R}.

Lemma zrem_run now k m ks z :
  zset_at now ks k = Some z ->
  cmd_zrem now k m ks = (Ok (match z !! m with Some _ => 1 | None => 0 end), zrem_ks now k m ks).
Proof.
  intros Hz. rewrite law_zrem, Hz. unfold zrem_ks. rewrite Hz. by destruct (z !! m).
Qed.

Lemma release_lock_run now q h m rec ks :
  well_typed ks -> m !! "groupId" = Some (if_GroupID rec) ->
  lua_release_lock now q h m ks = (Ok tt, release_ks now q (if_GroupID rec) h ks).
Proof.
  intros Hks Hg. unfold lua_release_lock, release_ks. rewrite Hg.
  case_decide as Hne; [rewrite decide_False by tauto; done |].
  change ("kmsvc:fifo_lock:" +:+ q +:+ ":" +:+ if_GroupID rec) with (FIFOLockKey q (if_GroupID rec)).
  rewrite mbind_run, law_get.
  destruct (str_at_typed now ks Hks (FIFOLockKey q (if_GroupID rec)) FFIFOLock) as [o Ho];
    [auto with keys | tauto |].
  rewrite Ho. destruct (decide (o = Some h)) as [-> | Hoh].
  - rewrite law_del, decide_True by done. done.
  - rewrite decide_False by naive_solver. done.
Qed.

Lemma ack_lua_run now q h m rec ks :
  well_typed ks -> hash_at now ks (InFlightKey q h) = Some m -> stored m rec ->
  ack_lua (InFlightKey q h) (VisIndexKey q) h q now ks = (Ok ["acked"], ack_ks now q h rec ks).
Proof.
  intros Hks Hm Hst. pose proof (stored_nonempty m rec Hst) as Hne.
  apply stored_lookup in Hst as (H1 & _ & H3 & H4 & H5 & _).
  destruct (zset_at_typed now ks Hks (VisIndexKey q) FVisIndex) as [z Hz]; [auto with keys | tauto |].
  unfold ack_lua, lua_field. rewrite mbind_run, law_hgetall, Hm, decide_False by done.
  rewrite mbind_run, (zrem_run _ _ _ _ z Hz), H1, H3, H4, !mret_bind.
  change (lua_pendingKey q (if_ShardID rec) (FormatInt (if_Partition rec))) with (rec_pending_key q rec).
  assert (Hks1 : well_typed (zrem_ks now (VisIndexKey q) h ks)).
  { eapply well_typed_zrem; eauto with keys. }
  destruct (zset_at_typed now _ Hks1 (rec_pending_key q rec) FPending) as [zp Hzp];
    [apply PendingKey_family | tauto |].
  rewrite mbind_run, (zrem_run _ _ _ _ zp Hzp), mbind_run, law_del, mbind_run.
  erewrite release_lock_run; [done | | done].
  apply well_typed_delete. eapply well_typed_zrem; [apply PendingKey_family | tauto | done].
Qed.

(** The prefix common to the two outcomes of a reap that wins the race. *)
Lemma reap_lua_run now q h m rec ks z l max :
  well_typed ks ->
  zset_at now ks (VisIndexKey q) = Some z -> is_Some (z !! h) ->
  hash_at now ks (InFlightKey q h) = Some m -> stored m rec ->
  list_at now ks (RedeliverKey q) = Some l ->
  reap_lua (InFlightKey q h) (VisIndexKey q) h (FormatInt max) q now ks =
  if max <=? if_ReceiveCount rec then
    (Ok ["dlq"; if_Topic rec; if_ShardID rec; FormatInt (if_Partition rec);
         FormatInt (if_Offset rec); if_Body rec; if_GroupID rec; if_DedupID rec],
     reap_dlq_ks now q h rec ks)
  else
    (Ok ["redeliver"; h; FormatInt (if_ReceiveCount rec + 1)],
     reap_redeliver_ks now q h rec m l ks).
Proof.
  intros Hks Hz [f Hf] Hm Hst Hl. pose proof (stored_nonempty m rec Hst) as Hne.
  apply stored_lookup in Hst as (H1 & H2 & H3 & H4 & H5 & H6 & H7 & H8).
  unfold reap_lua, lua_field, or_field, lua_tonumber, lua_tostring.
  rewrite mbind_run, (zrem_run _ _ _ _ z Hz), Hf. cbn [Z.eqb].
  set (ks1 := zrem_ks now (VisIndexKey q) h ks).
  assert (Hks1 : well_typed ks1) by (eapply well_typed_zrem; eauto with keys).
  assert (Hsame : forall k, k <> VisIndexKey q -> ks1 !! k = ks !! k).
  { intros k Hk. by apply zrem_ks_ne. }
  rewrite mbind_run, law_hgetall, (hash_at_lookup_eq now ks ks1), Hm, decide_False
    by (try apply Hsame; auto with keys).
  rewrite H7, !parse_dec_FormatInt. cbn [default from_option id].
  rewrite !parse_dec_FormatInt, mbind_run, (release_lock_run now q h m rec ks1) by done.
  set (ks2 := release_ks now q (if_GroupID rec) h ks1).
  assert (Hks2 : well_typed ks2) by (by apply well_typed_release).
  destruct (max <=? if_ReceiveCount rec).
  - rewrite H1, H3, H4, !mret_bind.
    change (lua_pendingKey q (if_ShardID rec) (FormatInt (if_Partition rec))) with (rec_pending_key q rec).
    destruct (zset_at_typed now _ Hks2 (rec_pending_key q rec) FPending) as [zp Hzp];
      [apply PendingKey_family | tauto |].
    rewrite mbind_run, (zrem_run _ _ _ _ zp Hzp), mbind_run, law_del.
    rewrite H2, H5, H6, H8. done.
  - assert (Hlock : forall k, k <> VisIndexKey q -> k <> FIFOLockKey q (if_GroupID rec) ->
      ks2 !! k = ks !! k).
    { intros k Hk1 Hk2. unfold ks2. by rewrite release_ks_ne, Hsame. }
    rewrite mbind_run, law_hset, (hash_at_lookup_eq now ks ks2), Hm
      by (apply Hlock; auto with keys).
    rewrite mbind_run, law_rpush.
    assert (Hl2 : list_at now (put now (InFlightKey q h)
       (VHash (<["receiveCount" := FormatInt (if_ReceiveCount rec + 1)]> m)) ks2)
       ("kmsvc:redeliver:" +:+ q) = Some l).
    { rewrite <- Hl. apply list_at_lookup_eq. unfold put.
      rewrite lookup_insert_ne by (change ("kmsvc:redeliver:" +:+ q) with (RedeliverKey q); auto with keys).
      apply Hlock; auto with keys. }
    cbn [hash_set foldl fst snd]. rewrite Hl2. done.
Qed.
End Runs.

Lemma rec_pending_key_family q rec : of_family FPending (rec_pending_key q rec).
Proof. apply PendingKey_family. Qed.
#[export] Hint Resolve rec_pending_key_family : keys.

(** The keys a message's bookkeeping lives in. *)
Definition message_keys (q h : string) (rec : InFlightRecord) : list string :=
  [InFlightKey q h; VisIndexKey q; rec_pending_key q rec; FIFOLockKey q (if_GroupID rec)].

(** Read through the parts of an effect that do not concern the key. *)
Ltac frame :=
  repeat first
    [ rewrite release_ks_ne by (auto with keys)
    | rewrite lookup_delete_ne by (auto with keys)
    | rewrite zrem_ks_ne by (auto with keys)
    | rewrite lookup_insert_ne by (auto with keys) ].

Lemma ack_ks_spec now q h rec ks :
  let ks' := ack_ks now q h rec ks in
  ks' !! InFlightKey q h = None /\
  zset_at now ks' (VisIndexKey q) = delete h <$> zset_at now ks (VisIndexKey q) /\
  zset_at now ks' (rec_pending_key q rec) =
    delete (FormatInt (if_Offset rec)) <$> zset_at now ks (rec_pending_key q rec) /\
  (if_GroupID rec <> "" ->
   str_at now ks' (FIFOLockKey q (if_GroupID rec)) =
   if decide (str_at now ks (FIFOLockKey q (if_GroupID rec)) = Some (Some h)) then Some None
   else str_at now ks (FIFOLockKey q (if_GroupID rec))) /\
  (forall k, k ∉ message_keys q h rec -> ks' !! k = ks !! k).
Proof.
  unfold ack_ks. split_and!.
  - frame. by rewrite lookup_delete_eq.
  - rewrite <- (zset_at_zrem now ks). apply zset_at_lookup_eq. by frame.
  - rewrite <- (zset_at_lookup_eq now ks (zrem_ks now (VisIndexKey q) h ks) (rec_pending_key q rec))
      by (frame; done).
    rewrite <- zset_at_zrem. apply zset_at_lookup_eq. by frame.
  - intros Hg. rewrite str_at_release by done.
    rewrite (str_at_lookup_eq now ks) by (frame; done). done.
  - intros k Hk. unfold message_keys in Hk. rewrite !not_elem_of_cons in Hk. destruct_and! Hk.
    rewrite release_ks_ne, lookup_delete_ne, !zrem_ks_ne by done. done.
Qed.

Lemma reap_dlq_ks_spec now q h rec ks :
  let ks' := reap_dlq_ks now q h rec ks in
  ks' !! InFlightKey q h = None /\
  zset_at now ks' (VisIndexKey q) = delete h <$> zset_at now ks (VisIndexKey q) /\
  zset_at now ks' (rec_pending_key q rec) =
    delete (FormatInt (if_Offset rec)) <$> zset_at now ks (rec_pending_key q rec) /\
  (if_GroupID rec <> "" ->
   str_at now ks' (FIFOLockKey q (if_GroupID rec)) =
   if decide (str_at now ks (FIFOLockKey q (if_GroupID rec)) = Some (Some h)) then Some None
   else str_at now ks (FIFOLockKey q (if_GroupID rec))) /\
  (forall k, k ∉ message_keys q h rec -> ks' !! k = ks !! k).
Proof.
  unfold reap_dlq_ks. split_and!.
  - frame. by rewrite lookup_delete_eq.
  - rewrite <- (zset_at_zrem now ks). apply zset_at_lookup_eq. by frame.
  - rewrite <- (zset_at_lookup_eq now ks
      (release_ks now q (if_GroupID rec) h (zrem_ks now (VisIndexKey q) h ks)) (rec_pending_key q rec))
      by (frame; done).
    rewrite <- zset_at_zrem. apply zset_at_lookup_eq. by frame.
  - intros Hg.
    rewrite (str_at_lookup_eq now
      (release_ks now q (if_GroupID rec) h (zrem_ks now (VisIndexKey q) h ks))) by (frame; done).
    rewrite str_at_release by done.
    rewrite (str_at_lookup_eq now ks) by (frame; done). done.
  - intros k Hk. unfold message_keys in Hk. rewrite !not_elem_of_cons in Hk. destruct_and! Hk.
    rewrite lookup_delete_ne, zrem_ks_ne, release_ks_ne, zrem_ks_ne by done. done.
Qed.

Lemma live_entry_lookup_eq now ks ks' k :
  ks' !! k = ks !! k -> live_entry now ks' k = live_entry now ks k.
Proof. intros H. unfold live_entry. by rewrite H. Qed.

Lemma reap_redeliver_ks_spec now q h rec m l ks :
  let ks' := reap_redeliver_ks now q h rec m l ks in
  ks' !! InFlightKey q h =
    Some (Entry (VHash (<["receiveCount" := FormatInt (if_ReceiveCount rec + 1)]> m))
            (live_entry now ks (InFlightKey q h) ≫= e_exp)) /\
  zset_at now ks' (VisIndexKey q) = delete h <$> zset_at now ks (VisIndexKey q) /\
  list_at now ks' (RedeliverKey q) = Some (l ++ [h]) /\
  (if_GroupID rec <> "" ->
   str_at now ks' (FIFOLockKey q (if_GroupID rec)) =
   if decide (str_at now ks (FIFOLockKey q (if_GroupID rec)) = Some (Some h)) then Some None
   else str_at now ks (FIFOLockKey q (if_GroupID rec))) /\
  (forall k, k ∉ [InFlightKey q h; VisIndexKey q; RedeliverKey q; FIFOLockKey q (if_GroupID rec)] ->
   ks' !! k = ks !! k).
Proof.
  unfold reap_redeliver_ks. split_and!.
  - unfold put. frame. rewrite lookup_insert_eq. do 3 f_equal. apply live_entry_lookup_eq. by frame.
  - rewrite <- (zset_at_zrem now ks). apply zset_at_lookup_eq. unfold put. by frame.
  - unfold list_at. by rewrite live_put_eq.
  - intros Hg.
    rewrite (str_at_lookup_eq now
      (release_ks now q (if_GroupID rec) h (zrem_ks now (VisIndexKey q) h ks)))
      by (unfold put; frame; done).
    rewrite str_at_release by done.
    rewrite (str_at_lookup_eq now ks) by (frame; done). done.
  - intros k Hk. unfold put. rewrite !not_elem_of_cons in Hk. destruct_and! Hk.
    rewrite !lookup_insert_ne, release_ks_ne, zrem_ks_ne by done. done.
Qed.

(** ** Running the Go wrappers in a calm world *)

Section CalmRuns.
Context {R : RedisServer} {RL : RedisLaws R}.
Context (w : world) (Hcalm : calm w) (Htyped : typed w).

Lemma Ack_calm q h m rec :
  hash_at (ms w) (w_redis w) (InFlightKey q h) = Some m -> stored m rec ->
  Ack q h w = (Ok AckOutcomeAcked, set_redis (ack_ks (ms w) q h rec (w_redis w)) w).
Proof.
  intros Hm Hst. unfold Ack, wrap_err. rewrite mbind_run.
  pose proof (ack_lua_run (ms w) q h m rec (w_redis w) Htyped Hm Hst) as Hrun.
  by rewrite (rdo_calm w Hcalm _ _ _ Hrun).
Qed.

Lemma Ack_calm_gone q h :
  hash_at (ms w) (w_redis w) (InFlightKey q h) = Some ∅ ->
  Ack q h w = (Ok AckOutcomeNotFound, w).
Proof.
  intros Hm. unfold Ack, wrap_err. rewrite mbind_run.
  erewrite rdo_calm; [| done |]; cycle 1.
  { unfold ack_lua. rewrite mbind_run, law_hgetall, Hm. reflexivity. }
  by rewrite set_redis_id.
Qed.

(** The three ways a reap can go, by what it finds. *)
Lemma Reap_calm_lost q h max z :
  zset_at (ms w) (w_redis w) (VisIndexKey q) = Some z -> z !! h = None ->
  Reap q h max w = (Ok reap_gone, w).
Proof.
  intros Hz Hh. unfold Reap, wrap_err. rewrite mbind_run.
  erewrite rdo_calm; [| done |]; cycle 1.
  { unfold reap_lua. rewrite mbind_run, (zrem_run _ _ _ _ z Hz), Hh. reflexivity. }
  unfold zrem_ks. rewrite Hz, Hh, set_redis_id. done.
Qed.

Lemma Reap_calm_expired q h max z :
  zset_at (ms w) (w_redis w) (VisIndexKey q) = Some z -> is_Some (z !! h) ->
  hash_at (ms w) (w_redis w) (InFlightKey q h) = Some ∅ ->
  Reap q h max w = (Ok reap_gone, set_redis (zrem_ks (ms w) (VisIndexKey q) h (w_redis w)) w).
Proof.
  intros Hz [f Hf] Hm. unfold Reap, wrap_err. rewrite mbind_run.
  erewrite rdo_calm; [| done |]; cycle 1.
  { unfold reap_lua. rewrite mbind_run, (zrem_run _ _ _ _ z Hz), Hf. cbn [Z.eqb].
    rewrite mbind_run, law_hgetall.
    rewrite (hash_at_lookup_eq (ms w) (w_redis w)), Hm by (apply zrem_ks_ne; auto with keys).
    reflexivity. }
  done.
Qed.

Definition dlq_result (rec : InFlightRecord) : ReapResult :=
  MkReapResult ReapOutcomeDLQ (if_Topic rec) (if_ShardID rec) (if_Partition rec) (if_Offset rec)
    (if_Body rec) (if_GroupID rec) (if_DedupID rec) 0.

Definition redeliver_result (count : Z) : ReapResult :=
  MkReapResult ReapOutcomeRedeliver "" "" 0 0 "" "" "" count.

Lemma Reap_calm_won q h max z m rec l :
  zset_at (ms w) (w_redis w) (VisIndexKey q) = Some z -> is_Some (z !! h) ->
  hash_at (ms w) (w_redis w) (InFlightKey q h) = Some m -> stored m rec -> inflight_ok rec ->
  list_at (ms w) (w_redis w) (RedeliverKey q) = Some l -> is_i32 max ->
  Reap q h max w =
  if max <=? if_ReceiveCount rec
  then (Ok (dlq_result rec), set_redis (reap_dlq_ks (ms w) q h rec (w_redis w)) w)
  else (Ok (redeliver_result (if_ReceiveCount rec + 1)),
        set_redis (reap_redeliver_ks (ms w) q h rec m l (w_redis w)) w).
Proof.
  intros Hz Hh Hm Hst (Hp & Ho & Hc) Hl Hmax. unfold Reap, wrap_err. rewrite mbind_run.
  pose proof (reap_lua_run (ms w) q h m rec (w_redis w) z l max Htyped Hz Hh Hm Hst Hl) as Hrun.
  destruct (Z.leb_spec max (if_ReceiveCount rec)); rewrite (rdo_calm w Hcalm _ _ _ Hrun).
  - unfold reap_result_of. simpl. rewrite ParseInt_i32, ParseInt_i64 by done. simpl.
    by rewrite i32_id.
  - unfold reap_result_of. simpl. unfold is_i32 in *.
    rewrite ParseInt_i32 by (unfold is_i32; lia). simpl. rewrite i32_id by (unfold is_i32; lia). done.
Qed.
End CalmRuns.

(** ** Typing and frames *)

Lemma lua_pendingKey_family q s p : of_family FPending (lua_pendingKey q s p).
Proof. by eexists. Qed.
#[export] Hint Resolve lua_pendingKey_family : keys.

Section ScriptsTyped.
Context {R : RedisServer} {RL : RedisLaws R}.

Lemma typed_lua_field m f : preserves well_typed (lua_field m f).
Proof. unfold lua_field. destruct (m !! f); auto with preserve. Qed.

Lemma typed_release_lock now q h m : preserves well_typed (lua_release_lock now q h m).
Proof. unfold lua_release_lock. cbv zeta. solve_typed. Qed.

#[local] Hint Resolve typed_lua_field typed_release_lock : preserve.

Lemma typed_ack_lua k1 q h now : preserves well_typed (ack_lua k1 (VisIndexKey q) h q now).
Proof. unfold ack_lua. cbv zeta. solve_typed. Qed.

Lemma typed_reap_lua q h max now :
  preserves well_typed (reap_lua (InFlightKey q h) (VisIndexKey q) h max q now).
Proof. unfold reap_lua. cbv zeta. solve_typed. Qed.

#[local] Hint Resolve typed_ack_lua typed_reap_lua : preserve.

Lemma typed_TryDedup q g d t : preserves typed (TryDedup q g d t).
Proof. unfold TryDedup. solve_typed. Qed.

Lemma typed_PutInFlight q h rec t : preserves typed (PutInFlight q h rec t).
Proof. unfold PutInFlight. cbv zeta. solve_typed. Qed.

Lemma typed_GetInFlight q h : preserves typed (GetInFlight q h).
Proof. unfold GetInFlight. solve_typed. Qed.

Lemma typed_ExtendVisibility q h t : preserves typed (ExtendVisibility q h t).
Proof. unfold ExtendVisibility. cbv zeta. solve_typed. Qed.

Lemma typed_AddPending q s p o : preserves typed (AddPending q s p o).
Proof. unfold AddPending. cbv zeta. solve_typed. Qed.

Lemma typed_MinPending q s p : preserves typed (MinPending q s p).
Proof. unfold MinPending. solve_typed. Qed.

Lemma typed_SetWatermark q s p o : preserves typed (SetWatermark q s p o).
Proof. unfold SetWatermark. cbv zeta. solve_typed. Qed.

Lemma typed_AcquireFIFOLock q g h t : preserves typed (AcquireFIFOLock q g h t).
Proof. unfold AcquireFIFOLock. solve_typed. Qed.

Lemma typed_PutQueueMeta q m : preserves typed (PutQueueMeta q m).
Proof. unfold PutQueueMeta. cbv zeta. solve_typed. Qed.

Lemma typed_GetQueueMeta q : preserves typed (GetQueueMeta q).
Proof. unfold GetQueueMeta. solve_typed. Qed.

Lemma typed_DeleteQueueMeta q : preserves typed (DeleteQueueMeta q).
Proof. unfold DeleteQueueMeta. solve_typed. Qed.

Lemma typed_ListQueueNames : preserves typed ListQueueNames.
Proof. unfold ListQueueNames. solve_typed. Qed.

Lemma typed_PutShardMap q l : preserves typed (PutShardMap q l).
Proof. unfold PutShardMap. solve_typed. Qed.

Lemma typed_GetShardMap q : preserves typed (GetShardMap q).
Proof. unfold GetShardMap. solve_typed. Qed.

Lemma typed_DeleteShardMap q : preserves typed (DeleteShardMap q).
Proof. unfold DeleteShardMap. solve_typed. Qed.

Lemma typed_reap_result_of h res : preserves typed (reap_result_of h res).
Proof. unfold reap_result_of. cbv zeta. solve_typed. Qed.

#[local] Hint Resolve typed_reap_result_of : preserve.

Lemma typed_Reap q h max : preserves typed (Reap q h max).
Proof. unfold Reap. solve_typed. Qed.

Lemma typed_Ack q h : preserves typed (Ack q h).
Proof. unfold Ack. solve_typed. Qed.

Lemma typed_ExpiredVisIndexEntries q n : preserves typed (ExpiredVisIndexEntries q n).
Proof. unfold ExpiredVisIndexEntries. solve_typed. Qed.

Lemma typed_PopRedeliverable q : preserves typed (PopRedeliverable q).
Proof. unfold PopRedeliverable. solve_typed. Qed.

Lemma typed_PushRedeliverable q h : preserves typed (PushRedeliverable q h).
Proof. unfold PushRedeliverable. solve_typed. Qed.
End ScriptsTyped.

#[export] Hint Resolve typed_TryDedup typed_PutInFlight typed_GetInFlight typed_ExtendVisibility
  typed_AddPending typed_MinPending typed_SetWatermark typed_AcquireFIFOLock typed_PutQueueMeta
  typed_GetQueueMeta typed_DeleteQueueMeta typed_ListQueueNames typed_PutShardMap typed_GetShardMap
  typed_DeleteShardMap typed_Reap typed_Ack typed_ExpiredVisIndexEntries typed_PopRedeliverable
  typed_PushRedeliverable : preserve.

(** ** Removal from the visibility index *)

(** Monadic code at the server that never touches the key in question. *)
Ltac solve_frame := repeat pres_step; eauto with frame keys.

(** From [now] on, [h] does not show in the visibility index of [q]. *)
Definition unindexed (now : Z) (q h : string) (ks : keyspace) : Prop :=
  forall t z, now <= t -> zset_at t ks (VisIndexKey q) = Some z -> z !! h = None.

Lemma unindexed_frame now q h ks ks' :
  ks' !! VisIndexKey q = ks !! VisIndexKey q -> unindexed now q h ks -> unindexed now q h ks'.
Proof. intros Hk Hu t z Ht. rewrite (zset_at_lookup_eq t ks ks') by done. by apply Hu. Qed.

Lemma unindexed_later now now' q h ks : now <= now' -> unindexed now q h ks -> unindexed now' q h ks.
Proof. intros Hn Hu t z Ht. apply Hu. lia. Qed.

(** Time only empties a sorted set. *)
Lemma zset_at_later now t ks k z :
  now <= t -> zset_at now ks k = Some z ->
  forall z', zset_at t ks k = Some z' -> z' = z \/ z' = ∅.
Proof.
  intros Ht Hz z' Hz'. unfold zset_at, live, live_entry in *.
  destruct (ks !! k) as [e|]; simpl in *; [| simplify_eq; tauto].
  unfold expired in *. destruct (e_exp e) as [d|]; repeat case_match; simpl in *; simplify_eq; try tauto;
    try lia; destruct (e_val e); simplify_eq; tauto.
Qed.

Section Unindexed.
Context {R : RedisServer} {RL : RedisLaws R}.

Lemma release_lock_frame now q h m k :
  of_family FVisIndex k -> forall e, preserves (fun ks => ks !! k = e) (lua_release_lock now q h m).
Proof.
  intros Hk e. unfold lua_release_lock. cbv zeta.
  assert (forall g, k <> "kmsvc:fifo_lock:" +:+ q +:+ ":" +:+ g).
  { intros g. apply (of_family_ne FVisIndex FFIFOLock); [done | apply FIFOLockKey_family | done]. }
  solve_frame.
Qed.

Lemma lua_field_frame m f k e : preserves (fun ks : keyspace => ks !! k = e) (lua_field m f).
Proof. unfold lua_field. destruct (m !! f); auto with preserve. Qed.

#[local] Hint Resolve release_lock_frame lua_field_frame : frame.

(** However [reap.lua] ends, the handle has left the index; and it ends with
    anything but "gone" only if the handle was there. *)
Lemma reap_lua_unindexed now q h max ks :
  match reap_lua (InFlightKey q h) (VisIndexKey q) h max q now ks with
  | (Ok _, ks') => unindexed now q h ks'
  | (Err _, _) => True
  end /\
  (unindexed now q h ks ->
   match reap_lua (InFlightKey q h) (VisIndexKey q) h max q now ks with
   | (Ok res, ks') => res = ["gone"] /\ ks' = ks
   | (Err _, ks') => ks' = ks
   end).
Proof.
  unfold reap_lua. rewrite mbind_run, law_zrem.
  destruct (zset_at now ks (VisIndexKey q)) as [z|] eqn:Hz; [| done].
  destruct (z !! h) as [f|] eqn:Hh; cbn [Z.eqb].
  - split; [| intros Hu; specialize (Hu now z ltac:(lia) Hz); congruence].
    set (ks1 := put_zset now (VisIndexKey q) (delete h z) ks).
    assert (Hu1 : unindexed now q h ks1).
    { intros t z' Ht Hz'. destruct (zset_at_later now t ks1 (VisIndexKey q) (delete h z) Ht) with z'
        as [-> | ->]; [apply zset_at_put_zset | done | apply lookup_delete_eq | done]. }
    match goal with |- match ?m ks1 with _ => _ end => set (rest := m) end.
    assert (Hrest : preserves (fun ks => ks !! VisIndexKey q = ks1 !! VisIndexKey q) rest).
    { unfold rest. cbv zeta. solve_frame. }
    specialize (Hrest ks1 eq_refl). destruct (rest ks1) as [[res|e] ks']; [| done].
    by apply (unindexed_frame now q h ks1).
  - split; [| done]. intros t z' Ht Hz'.
    destruct (zset_at_later now t ks _ z Ht Hz z' Hz') as [-> | ->]; [done | apply lookup_empty].
Qed.
End Unindexed.

(** ** Scenarios *)

(** Several reaper replicas process the same handle one after the other, each with
    its own outcome, an error included. *)
Fixpoint replica_reaps {R : RedisServer} (q h : string) (maxes : list Z)
    : M world (list (res ReapResult)) :=
  match maxes with
  | [] => mret []
  | max :: rest =>
    r ← attempt (Reap q h max);
    rs ← replica_reaps q h rest;
    mret (r :: rs)
  end.

(** The replica took action on the message. *)
Definition acted (r : res ReapResult) : Prop :=
  match r with Ok r => rr_Outcome r <> ReapOutcomeGone | Err _ => False end.

#[export] Instance acted_dec r : Decision (acted r).
Proof. unfold acted. destruct r; apply _. Defined.

Lemma reap_result_gone h w : reap_result_of h ["gone"] w = (Ok reap_gone, w).
Proof. done. Qed.

Lemma reap_result_of_world h res w : snd (reap_result_of h res w) = w.
Proof. unfold reap_result_of. repeat case_match; done. Qed.

Section Replicas.
Context {R : RedisServer} {RL : RedisLaws R}.

Lemma Reap_unindexed q h max w r w' :
  Reap q h max w = (r, w') ->
  ms w <= ms w' /\
  (acted r -> unindexed (ms w') q h (w_redis w')) /\
  (unindexed (ms w) q h (w_redis w) -> ~ acted r /\ unindexed (ms w') q h (w_redis w')).
Proof.
  unfold Reap. rewrite mbind_run. unfold wrap_err.
  destruct (rdo _ w) as [r0 w1] eqn:Hrdo. apply rdo_cases in Hrdo as [Hclock Hcase].
  pose proof (reap_lua_unindexed (ms w1) q h (FormatInt max) (w_redis w)) as [H1 H2].
  pose proof (ms_mono w w1 Hclock) as Hms.
  assert (Hlater : unindexed (ms w) q h (w_redis w) -> unindexed (ms w1) q h (w_redis w))
    by (by apply unindexed_later).
  destruct Hcase as [Hrun | (e & -> & Hks)].
  - rewrite Hrun in H1, H2. destruct r0 as [res|e].
    + pose proof (reap_result_of_world h res w1) as Hw.
      destruct (reap_result_of h res w1) as [r1 w2] eqn:Hres. simpl in Hw. subst w2.
      intros [= <- <-]. split; [done |]. split; [done |].
      intros Hu. destruct (H2 (Hlater Hu)) as [-> _]. rewrite reap_result_gone in Hres.
      split; [| done]. simplify_eq. by intros [].
    + intros [= <- <-]. split; [done |]. split; [done |]. intros Hu. split; [by intros [] |].
      rewrite (H2 (Hlater Hu)). auto.
  - intros [= <- <-]. split; [done |]. split; [done |]. intros Hu. split; [by intros [] |].
    specialize (H2 (Hlater Hu)). destruct Hks as [-> | ->]; [auto |].
    destruct (reap_lua _ _ _ _ _ _ _) as [[res|e'] ks']; simpl; [| rewrite H2; auto].
    by destruct H2 as [_ ->]; auto.
Qed.

Lemma replica_reaps_unindexed q h maxes w :
  unindexed (ms w) q h (w_redis w) ->
  exists rs w', replica_reaps q h maxes w = (Ok rs, w') /\ Forall (fun r => ~ acted r) rs.
Proof.
  revert w. induction maxes as [|max maxes IH]; intros w Hu; [by eexists _, _ |].
  simpl. rewrite mbind_run. unfold attempt. destruct (Reap q h max w) as [r w1] eqn:Hr.
  apply Reap_unindexed in Hr as (_ & _ & H2). destruct (H2 Hu) as [Hna Hu1].
  destruct (IH w1 Hu1) as (rs & w' & Hrs & Hall). rewrite mbind_run, Hrs. eauto.
Qed.
End Replicas.

(** ** Properties *)

(** C11. Of any number of reaper replicas that process the same expired handle, at
    most one acts on it: the others are told it is gone, or fail.  This holds in
    every world, whatever requests and replies the network loses and however long it
    takes. *)
Theorem replica_reaps_once {R : RedisServer} {RL : RedisLaws R} q h maxes w :
  exists rs w', replica_reaps q h maxes w = (Ok rs, w') /\ (length (filter acted rs) <= 1)%nat.
Proof.
  revert w. induction maxes as [|max maxes IH]; intros w; [eexists _, _; split; [done | simpl; lia] |].
  simpl. rewrite mbind_run. unfold attempt. destruct (Reap q h max w) as [r w1] eqn:Hr.
  apply Reap_unindexed in Hr as (_ & H1 & _). destruct (decide (acted r)) as [Ha | Hna].
  - destruct (replica_reaps_unindexed q h maxes w1 (H1 Ha)) as (rs & w' & Hrs & Hall).
    rewrite mbind_run, Hrs. eexists _, _. split; [done |].
    rewrite filter_cons_True by done. simpl.
    rewrite list_filter_none; [simpl; lia | by apply Forall_forall].
  - destruct (IH w1) as (rs & w' & Hrs & Hlen). rewrite mbind_run, Hrs.
    eexists _, _. split; [done |]. by rewrite filter_cons_False.
Qed.

Lemma expired_hash_gone {R : RedisServer} {RL : RedisLaws R} w q h :
  calm w -> w_redis w !! InFlightKey q h = None ->
  GetInFlight q h w = (Ok None, w) /\ Ack q h w = (Ok AckOutcomeNotFound, w).
Proof.
  intros Hcalm Hnone.
  assert (Hh : hash_at (ms w) (w_redis w) (InFlightKey q h) = Some ∅)
    by (unfold hash_at, live, live_entry; by rewrite Hnone).
  split; [by rewrite (GetInFlight_calm w Hcalm q h ∅ Hh) | by apply Ack_calm_gone].
Qed.

(** Acknowledging a stored message removes its record, its entry in the visibility
    index and its offset from the pending set, and releases the group lock exactly
    when this handle holds it; no other key changes.  The record is then gone for
    every reader, and acknowledging again finds nothing and changes nothing. *)
Theorem Ack_spec {R : RedisServer} {RL : RedisLaws R} w q h m rec :
  calm w -> typed w ->
  hash_at (ms w) (w_redis w) (InFlightKey q h) = Some m -> stored m rec ->
  exists w', Ack q h w = (Ok AckOutcomeAcked, w') /\
    GetInFlight q h w' = (Ok None, w') /\ Ack q h w' = (Ok AckOutcomeNotFound, w') /\
    zset_at (ms w) (w_redis w') (VisIndexKey q) =
      delete h <$> zset_at (ms w) (w_redis w) (VisIndexKey q) /\
    zset_at (ms w) (w_redis w') (rec_pending_key q rec) =
      delete (FormatInt (if_Offset rec)) <$> zset_at (ms w) (w_redis w) (rec_pending_key q rec) /\
    (if_GroupID rec <> "" ->
     str_at (ms w) (w_redis w') (FIFOLockKey q (if_GroupID rec)) =
     if decide (str_at (ms w) (w_redis w) (FIFOLockKey q (if_GroupID rec)) = Some (Some h))
     then Some None else str_at (ms w) (w_redis w) (FIFOLockKey q (if_GroupID rec))) /\
    (forall k, k ∉ message_keys q h rec -> w_redis w' !! k = w_redis w !! k).
Proof.
  intros Hcalm Htyped Hm Hst. eexists. split; [by eapply Ack_calm |].
  destruct (ack_ks_spec (ms w) q h rec (w_redis w)) as (Hgone & Hvis & Hpend & Hlock & Hframe).
  destruct (expired_hash_gone (set_redis (ack_ks (ms w) q h rec (w_redis w)) w) q h) as [Hget Hack];
    [done | done |].
  split_and!; done.
Qed.

(** A message of a FIFO group, as [ReceiveMessage] leaves it after handing it out at
    the time of [world0] with a visibility timeout of 30 seconds. *)
Definition sample_hash : gmap string string := hash_set ∅ (inflight_fields sample_record).

Lemma sample_hash_stored : stored sample_hash sample_record.
Proof. apply stored_fields. Qed.

Definition sample_world : world :=
  set_redis (<[FIFOLockKey "orders" "g1" := Entry (VStr "rh-1") (Some (ms world0 + 30000))]>
     (<[PendingKey "orders" "0" 2 := Entry (VZSet {["42" := 42; "43" := 43]}) None]>
        (w_redis (snd (PutInFlight "orders" "rh-1" sample_record (30 * Second) world0))))) world0.

Lemma sample_world_typed : typed sample_world.
Proof.
  unfold typed, sample_world. cbn [w_redis set_redis].
  apply (well_typed_insert _ _ _ _ FFIFOLock); [| apply FIFOLockKey_family | done].
  apply (well_typed_insert _ _ _ _ FPending); [| apply PendingKey_family | done].
  apply (typed_PutInFlight "orders" "rh-1" sample_record (30 * Second) world0), well_typed_empty.
Qed.

Lemma Ack_spec_witness :
  exists w', Ack "orders" "rh-1" sample_world = (Ok AckOutcomeAcked, w') /\
    Ack "orders" "rh-1" w' = (Ok AckOutcomeNotFound, w') /\
    str_at (ms sample_world) (w_redis w') (FIFOLockKey "orders" "g1") = Some None.
Proof.
  destruct (Ack_spec sample_world "orders" "rh-1" sample_hash sample_record)
    as (w' & H1 & _ & H3 & _ & _ & H6 & _);
    [done | apply sample_world_typed | vm_decide | apply sample_hash_stored |].
  exists w'. split; [exact H1 |]. split; [exact H3 |].
  refine (eq_trans (H6 _) _); [done | vm_decide].
Defined.

(** What a reap of an expired message does.  If the handle has left the visibility
    index, another replica has it: nothing changes.  If the record is gone, only the
    index entry goes.  Otherwise the message is dead exactly when its receive count
    has reached the maximum: it is then removed and returned with everything needed
    to dead-letter it.  Below the maximum its count is incremented in place, without
    renewing the record's time to live, and its handle joins the end of the
    redelivery list; the pending offset stays. *)
Theorem Reap_spec {R : RedisServer} {RL : RedisLaws R} w q h max z m l :
  calm w -> typed w -> is_i32 max ->
  zset_at (ms w) (w_redis w) (VisIndexKey q) = Some z ->
  hash_at (ms w) (w_redis w) (InFlightKey q h) = Some m ->
  list_at (ms w) (w_redis w) (RedeliverKey q) = Some l ->
  (z !! h = None -> Reap q h max w = (Ok reap_gone, w)) /\
  (is_Some (z !! h) -> m = ∅ ->
   exists w', Reap q h max w = (Ok reap_gone, w') /\
     zset_at (ms w) (w_redis w') (VisIndexKey q) = Some (delete h z) /\
     forall k, k <> VisIndexKey q -> w_redis w' !! k = w_redis w !! k) /\
  (forall rec, is_Some (z !! h) -> stored m rec -> inflight_ok rec -> max <= if_ReceiveCount rec ->
   exists w', Reap q h max w = (Ok (dlq_result rec), w') /\
     w_redis w' !! InFlightKey q h = None /\
     zset_at (ms w) (w_redis w') (VisIndexKey q) = Some (delete h z) /\
     zset_at (ms w) (w_redis w') (rec_pending_key q rec) =
       delete (FormatInt (if_Offset rec)) <$> zset_at (ms w) (w_redis w) (rec_pending_key q rec) /\
     forall k, k ∉ message_keys q h rec -> w_redis w' !! k = w_redis w !! k) /\
  (forall rec, is_Some (z !! h) -> stored m rec -> inflight_ok rec -> if_ReceiveCount rec < max ->
   exists w' m', Reap q h max w = (Ok (redeliver_result (if_ReceiveCount rec + 1)), w') /\
     w_redis w' !! InFlightKey q h =
       Some (Entry (VHash m') (live_entry (ms w) (w_redis w) (InFlightKey q h) ≫= e_exp)) /\
     stored m' (bump_count rec) /\
     zset_at (ms w) (w_redis w') (VisIndexKey q) = Some (delete h z) /\
     list_at (ms w) (w_redis w') (RedeliverKey q) = Some (l ++ [h]) /\
     w_redis w' !! rec_pending_key q rec = w_redis w !! rec_pending_key q rec).
Proof.
  intros Hcalm Htyped Hmax Hz Hm Hl. split_and!.
  - by eapply Reap_calm_lost.
  - intros Hh ->. eexists. split; [by eapply Reap_calm_expired |]. cbn [w_redis set_redis].
    rewrite zset_at_zrem, Hz. split; [done |]. intros k Hk. by apply zrem_ks_ne.
  - intros rec Hh Hst Hok Hcount. eexists.
    rewrite (Reap_calm_won w Hcalm Htyped q h max z m rec l) by done.
    destruct (Z.leb_spec max (if_ReceiveCount rec)); [| lia]. split; [done |].
    destruct (reap_dlq_ks_spec (ms w) q h rec (w_redis w)) as (? & Hvis & ? & _ & ?).
    rewrite Hz in Hvis. by split_and!.
  - intros rec Hh Hst Hok Hcount. eexists _, _.
    rewrite (Reap_calm_won w Hcalm Htyped q h max z m rec l) by done.
    destruct (Z.leb_spec max (if_ReceiveCount rec)); [lia |]. split; [done |].
    destruct (reap_redeliver_ks_spec (ms w) q h rec m l (w_redis w)) as (Hrec & Hvis & Hlist & _ & Hframe).
    rewrite Hz in Hvis. split_and!; [exact Hrec | by apply stored_bump | done | done |].
    apply Hframe. rewrite !not_elem_of_cons. split_and!; auto with keys. apply not_elem_of_nil.
Qed.

Lemma Reap_spec_witness :
  fst (Reap "orders" "rh-1" 1 sample_world) = Ok (dlq_result sample_record) /\
  fst (Reap "orders" "rh-1" 3 sample_world) = Ok (redeliver_result 2).
Proof.
  set (z := {["rh-1" := ms world0 + 30000]} : gmap string Z).
  split.
  - destruct (Reap_spec sample_world "orders" "rh-1" 1 z sample_hash []) as (_ & _ & H & _);
      [done | apply sample_world_typed | by vm_compute | vm_decide | vm_decide | vm_decide |].
    destruct (H sample_record) as (w' & Hr & _); [eexists; apply lookup_singleton_eq | apply sample_hash_stored | by vm_compute | done |].
    exact (f_equal fst Hr).
  - destruct (Reap_spec sample_world "orders" "rh-1" 3 z sample_hash []) as (_ & _ & _ & H);
      [done | apply sample_world_typed | by vm_compute | vm_decide | vm_decide | vm_decide |].
    destruct (H sample_record) as (w' & m' & Hr & _); [eexists; apply lookup_singleton_eq | apply sample_hash_stored | by vm_compute | done |].
    exact (f_equal fst Hr).
Defined.

(** ** The sweep's index read and the redelivery list *)

Section Lists.
Context {R : RedisServer} {RL : RedisLaws R}.
Context (w : world) (Hcalm : calm w).

Lemma ExpiredVisIndexEntries_calm q n z :
  zset_at (ms w) (w_redis w) (VisIndexKey q) = Some z ->
  ExpiredVisIndexEntries q n w = (Ok (take n ((zset_range z 0 (ms w)).*1)), w).
Proof.
  intros Hz. unfold ExpiredVisIndexEntries, wrap_err. rewrite mbind_run. cbn [Now gets].
  erewrite rdo_calm; [| done | rewrite law_zrangebyscore, Hz; reflexivity].
  by rewrite set_redis_id.
Qed.

Lemma PopRedeliverable_calm q l :
  list_at (ms w) (w_redis w) (RedeliverKey q) = Some l ->
  PopRedeliverable q w =
  (Ok (head l), match l with
                | [] => w
                | _ :: l' => set_redis (put_list (ms w) (RedeliverKey q) l' (w_redis w)) w
                end).
Proof.
  intros Hl. unfold PopRedeliverable, wrap_err.
  destruct l; (erewrite rdo_calm; [| done | rewrite law_lpop, Hl; reflexivity]);
    [by rewrite set_redis_id | done].
Qed.

Lemma PushRedeliverable_calm q h l :
  list_at (ms w) (w_redis w) (RedeliverKey q) = Some l ->
  PushRedeliverable q h w =
  (Ok tt, set_redis (put (ms w) (RedeliverKey q) (VList (l ++ [h])) (w_redis w)) w).
Proof.
  intros Hl. unfold PushRedeliverable, wrap_err.
  erewrite rdo_calm; [| done | rewrite law_rpush, Hl; reflexivity]. done.
Qed.
End Lists.

Lemma StronglySorted_filter {A} (R : A -> A -> Prop) (P : A -> Prop)
    `{!forall x, Decision (P x)} (l : list A) :
  StronglySorted R l -> StronglySorted R (filter P l).
Proof.
  induction 1 as [|x l Hl IH Hx]; [constructor |]. rewrite filter_cons.
  destruct (decide (P x)); [| done]. constructor; [done |].
  apply Forall_forall. intros y Hy. apply list_elem_of_filter in Hy as [_ Hy].
  rewrite Forall_forall in Hx. auto.
Qed.

Lemma zset_range_sorted z a b : StronglySorted zle (zset_range z a b).
Proof. apply StronglySorted_filter, StronglySorted_merge_sort; apply _. Qed.

Lemma elem_of_zset_range z a b m s :
  (m, s) ∈ zset_range z a b <-> z !! m = Some s /\ a <= s <= b.
Proof. unfold zset_range. rewrite list_elem_of_filter, elem_of_zset_sorted. simpl. tauto. Qed.

(** The sweep takes the messages whose visibility has passed, oldest first and at
    most [limit] of them; one it does not take expires no earlier than every one it
    takes, and it then takes a full batch. *)
Theorem ExpiredVisIndexEntries_spec {R : RedisServer} {RL : RedisLaws R} w q limit z :
  calm w -> zset_at (ms w) (w_redis w) (VisIndexKey q) = Some z ->
  exists ps, ExpiredVisIndexEntries q limit w = (Ok ps.*1, w) /\
    (length ps <= limit)%nat /\ StronglySorted zle ps /\
    (forall h s, (h, s) ∈ ps -> z !! h = Some s /\ 0 <= s <= ms w) /\
    (forall h s, z !! h = Some s -> 0 <= s <= ms w ->
       (h, s) ∈ ps \/ (length ps = limit /\ forall p, p ∈ ps -> zle p (h, s))).
Proof.
  intros Hcalm Hz. pose proof (zset_range_sorted z 0 (ms w)) as HS.
  set (all := zset_range z 0 (ms w)) in *.
  exists (take limit all). rewrite (ExpiredVisIndexEntries_calm w Hcalm q limit z Hz).
  rewrite fmap_take. split; [done |]. split; [rewrite length_take; lia |].
  rewrite <- (take_drop limit all) in HS. apply StronglySorted_app in HS as (Hle & Hs1 & _).
  split; [done |]. split.
  - intros h s Hin. apply elem_of_zset_range, (subseteq_take limit), Hin.
  - intros h s Hh Hs. assert (Hin : (h, s) ∈ all) by (by apply elem_of_zset_range).
    rewrite <- (take_drop limit all) in Hin. apply elem_of_app in Hin as [Hin | Hin]; [by left |].
    right. split; [| intros p Hp; by apply Hle].
    rewrite length_take. destruct (decide (length all <= limit)%nat) as [Hlen | Hlen]; [| lia].
    rewrite drop_ge in Hin by done. by apply elem_of_nil in Hin.
Qed.

Lemma ExpiredVisIndexEntries_spec_witness :
  let w := elapse Minute sample_world in
  exists ps : list (string * Z), ExpiredVisIndexEntries "orders" 100 w = (Ok ps.*1, w) /\
    forall h s, (h, s) ∈ ps -> h = "rh-1".
Proof.
  cbv zeta. set (w := elapse Minute sample_world).
  assert (Hz : zset_at (ms w) (w_redis w) (VisIndexKey "orders") =
               Some {["rh-1" := ms world0 + 30000]}) by vm_decide.
  destruct (ExpiredVisIndexEntries_spec w "orders" 100 {["rh-1" := ms world0 + 30000]})
    as (ps & Hr & _ & _ & Hps & _); [done | exact Hz |].
  exists ps. split; [exact Hr |]. intros h s Hin. apply Hps in Hin as [Hin _].
  by apply lookup_singleton_Some in Hin as [<- _].
Defined.

(** The redelivery list is a queue: handles come out in the order they went in,
    after those already there, and then there is none. *)
Theorem redelivery_order {R : RedisServer} {RL : RedisLaws R} w q l hs :
  calm w -> list_at (ms w) (w_redis w) (RedeliverKey q) = Some l ->
  let n := length (l ++ hs) in
  exists w', (_ ← mapM (PushRedeliverable q) hs; mapM (fun _ => PopRedeliverable q) (replicate (S n) tt)) w =
    (Ok ((Some <$> (l ++ hs)) ++ [None]), w').
Proof.
  intros Hcalm Hl n. subst n. revert w l Hcalm Hl.
  induction hs as [|h hs IH]; intros w l Hcalm Hl.
  - rewrite app_nil_r. cbn [mapM]. rewrite mret_bind.
    revert w Hcalm Hl. induction l as [|x l IHl]; intros w Hcalm Hl.
    + cbn [length replicate mapM]. rewrite mbind_run.
      rewrite (PopRedeliverable_calm w Hcalm q [] Hl). by eexists.
    + cbn [length]. change (replicate (S (S (length l))) tt) with (tt :: replicate (S (length l)) tt).
      set (us := replicate (S (length l)) tt) in *. cbn [mapM]. rewrite mbind_run.
      rewrite (PopRedeliverable_calm w Hcalm q (x :: l) Hl). cbn [head].
      destruct (IHl (set_redis (put_list (ms w) (RedeliverKey q) l (w_redis w)) w)) as (w' & Hw');
        [done | apply list_at_put_list |].
      rewrite mbind_run, Hw'. by eexists.
  - cbn [mapM]. rewrite mbind_run, mbind_run.
    rewrite (PushRedeliverable_calm w Hcalm q h l Hl). cbv beta iota.
    set (w1 := set_redis _ w).
    destruct (IH w1 (l ++ [h])) as (w' & Hw'); [done | |].
    { unfold list_at, w1. cbn [w_redis set_redis]. rewrite ms_set_redis, live_put_eq. done. }
    rewrite <- app_assoc in Hw'. cbn [app] in Hw'. exists w'. rewrite <- Hw'.
    rewrite !mbind_run. by destruct (mapM (PushRedeliverable q) hs w1) as [[] ].
Qed.

Lemma redelivery_order_witness :
  exists w', (_ ← mapM (PushRedeliverable "orders") ["a"; "b"];
              mapM (fun _ => PopRedeliverable "orders") (replicate 3 tt)) world0 =
             (Ok [Some "a"; Some "b"; None], w').
Proof. by apply (redelivery_order world0 "orders" [] ["a"; "b"]). Defined.

(** Three replicas meet the same expired message, past its maximum. *)
Lemma replica_reaps_once_witness :
  (exists rs w', replica_reaps "orders" "rh-1" [1; 1; 1] sample_world = (Ok rs, w') /\
     (length (filter acted rs) <= 1)%nat) /\
  fst (replica_reaps "orders" "rh-1" [1; 1; 1] sample_world) =
    Ok [Ok (dlq_result sample_record); Ok reap_gone; Ok reap_gone].
Proof. split; [apply replica_reaps_once | vm_compute; reflexivity]. Defined.
