(* ===== verification/Tracker.v ===== *)
(** The message tracker: what the rows that Redis keeps for one queue stand for, and the
    requests on them as functions of that abstract state.

    The requests are the round trips of [internal/redis] ([inflight.go], [watermark.go],
    [reaper.go]).  [represents] ties a keyspace to a tracker, and [tracker_refines] says
    that whatever the network does, a request that is answered did to the keyspace what
    its specification does to the tracker, and one that fails did that or nothing. *)

From S2P Require Import Prelude GoNum GoStr Keys Redis World Schema Store Scripts.
From Stdlib Require Import Ascii.

Local Open Scope Z_scope.

(** ** The abstract state *)

(** Records in flight and group locks have a deadline in milliseconds; the visibility
    index has the time each handle becomes visible; offsets pend per shard and partition;
    the redelivery list is a queue of handles. *)
Record tracker : Type := MkTracker {
  tk_rows : gmap string (InFlightRecord * Z);
  tk_visible : gmap string Z;
  tk_pending : gmap (string * Z) (gset Z);
  tk_locks : gmap string (string * Z);
  tk_queue : list string
}.

Definition empty_tracker : tracker := MkTracker ∅ ∅ ∅ ∅ [].

Definition set_rows (x : gmap string (InFlightRecord * Z)) (t : tracker) : tracker :=
  MkTracker x (tk_visible t) (tk_pending t) (tk_locks t) (tk_queue t).
Definition set_visible (x : gmap string Z) (t : tracker) : tracker :=
  MkTracker (tk_rows t) x (tk_pending t) (tk_locks t) (tk_queue t).
Definition set_pending (x : gmap (string * Z) (gset Z)) (t : tracker) : tracker :=
  MkTracker (tk_rows t) (tk_visible t) x (tk_locks t) (tk_queue t).
Definition set_locks (x : gmap string (string * Z)) (t : tracker) : tracker :=
  MkTracker (tk_rows t) (tk_visible t) (tk_pending t) x (tk_queue t).
Definition set_queue (x : list string) (t : tracker) : tracker :=
  MkTracker (tk_rows t) (tk_visible t) (tk_pending t) (tk_locks t) x.

(** Reading, at a time. *)
Definition in_time {A} (now : Z) (x : A * Z) : option A := if x.2 <? now then None else Some x.1.

Definition live_row (now : Z) (t : tracker) (h : string) : option InFlightRecord :=
  tk_rows t !! h ≫= in_time now.

Definition holder (now : Z) (t : tracker) (g : string) : option string := tk_locks t !! g ≫= in_time now.

Definition offsets (t : tracker) (id : string) (p : Z) : gset Z := default ∅ (tk_pending t !! (id, p)).

Definition least (os : gset Z) : option Z :=
  match elements os with [] => None | o :: l => Some (foldr Z.min o l) end.

(** Steps of the requests. *)
Definition track (id : string) (p o : Z) (t : tracker) : tracker :=
  set_pending (<[(id, p) := {[o]} ∪ offsets t id p]> (tk_pending t)) t.
Definition untrack (id : string) (p o : Z) (t : tracker) : tracker :=
  set_pending (<[(id, p) := offsets t id p ∖ {[o]}]> (tk_pending t)) t.
Definition show (h : string) (score : Z) (t : tracker) : tracker := set_visible (<[h := score]> (tk_visible t)) t.
Definition hide (h : string) (t : tracker) : tracker := set_visible (delete h (tk_visible t)) t.
Definition drop_row (h : string) (t : tracker) : tracker := set_rows (delete h (tk_rows t)) t.
Definition release (now : Z) (g h : string) (t : tracker) : tracker :=
  if decide (g <> "" /\ holder now t g = Some h) then set_locks (delete g (tk_locks t)) t else t.

(** A message is done with: nothing of it is left, and its group is free. *)
Definition forget (now : Z) (h : string) (rec : InFlightRecord) (t : tracker) : tracker :=
  release now (if_GroupID rec) h
    (drop_row h (untrack (if_ShardID rec) (if_Partition rec) (if_Offset rec) (hide h t))).

(** A message is to be delivered again. *)
Definition requeue (now : Z) (h : string) (rec : InFlightRecord) (t : tracker) : tracker :=
  let t1 := release now (if_GroupID rec) h (hide h t) in
  set_queue (tk_queue t1 ++ [h]) (set_rows (alter (fun x => (bump_count rec, x.2)) h (tk_rows t1)) t1).

(** ** Requests, as the program makes them *)

Inductive request : Type -> Type :=
| RTrack (id : string) (p o : Z) : request unit
| RPut (h : string) (rec : InFlightRecord) (s : Z) : request unit
| RGet (h : string) : request (option InFlightRecord)
| RExists (h : string) : request Z
| RShow (h : string) (t : Z) : request unit
| RAck (h : string) : request AckOutcome
| RReap (h : string) (max : Z) : request ReapResult
| RLock (g h : string) (s : Z) : request bool
| RLeast (id : string) (p : Z) : request (option Z)
| RPush (h : string) : request unit
| RPop : request (option string)
| RExpired (n : nat) : request (list string).

(** The two round trips of [ExtendVisibility] are requests of their own. *)
Definition serve {R : RedisServer} (q : string) {A} (r : request A) : M world A :=
  match r with
  | RTrack id p o => AddPending q id p o
  | RPut h rec s => PutInFlight q h rec (s * Second)
  | RGet h => GetInFlight q h
  | RExists h => rdo (fun t => cmd_exists t (InFlightKey q h))
  | RShow h t => rdo (fun now => cmd_zadd now (VisIndexKey q) (f64_of_int (UnixMilli t)) h)
  | RAck h => Ack q h
  | RReap h max => Reap q h max
  | RLock g h s => AcquireFIFOLock q g h (s * Second)
  | RLeast id p => MinPending q id p
  | RPush h => PushRedeliverable q h
  | RPop => PopRedeliverable q
  | RExpired n => ExpiredVisIndexEntries q n
  end.

(** What a request does at the server's time [now], called at the client's time [at_]. *)
Definition spec (at_ now : Z) {A} (r : request A) (t : tracker) : A * tracker :=
  match r with
  | RTrack id p o => (tt, track id p o t)
  | RPut h rec s =>
    (tt, show h (f64_of_int (UnixMilli (at_ + s * Second)))
           (set_rows (<[h := (rec, now + (s + 60) * 1000)]> (tk_rows t)) t))
  | RGet h => (live_row now t h, t)
  | RExists h => (match live_row now t h with Some _ => 1 | None => 0 end, t)
  | RShow h tm => (tt, show h (f64_of_int (UnixMilli tm)) t)
  | RAck h =>
    match live_row now t h with
    | Some rec => (AckOutcomeAcked, forget now h rec t)
    | None => (AckOutcomeNotFound, t)
    end
  | RReap h max =>
    match tk_visible t !! h, live_row now t h with
    | None, _ => (reap_gone, t)
    | Some _, None => (reap_gone, hide h t)
    | Some _, Some rec =>
      if max <=? if_ReceiveCount rec then (dlq_result rec, forget now h rec t)
      else (redeliver_result (if_ReceiveCount rec + 1), requeue now h rec t)
    end
  | RLock g h s =>
    match holder now t g with
    | Some _ => (false, t)
    | None => (true, set_locks (<[g := (h, now + s * 1000)]> (tk_locks t)) t)
    end
  | RLeast id p => (least (offsets t id p), t)
  | RPush h => (tt, set_queue (tk_queue t ++ [h]) t)
  | RPop => match tk_queue t with h :: l => (Some h, set_queue l t) | [] => (None, t) end
  | RExpired n => (take n (zset_range (tk_visible t) 0 (UnixMilli at_)).*1, t)
  end.

(** What the callers see to. *)
Definition admissible {A} (r : request A) : Prop :=
  match r with
  | RTrack _ _ o => Z.abs o < 2 ^ 53
  | RPut _ rec s => inflight_ok rec /\ 0 <= s
  | RReap _ max => is_i32 max
  | RLock _ _ s => 0 < s
  | _ => True
  end.

(** ** The rows that stand for a tracker *)

Definition zset_row (z : gmap string Z) : option entry :=
  if decide (z = ∅) then None else Some (Entry (VZSet z) None).
Definition list_row (l : list string) : option entry :=
  if decide (l = []) then None else Some (Entry (VList l) None).

Definition row_stands (x : option (InFlightRecord * Z)) (e : option entry) : Prop :=
  match x with
  | None => e = None
  | Some (rec, d) => inflight_ok rec /\ exists m, e = Some (Entry (VHash m) (Some d)) /\ stored m rec
  end.

Definition pending_stands (os : gset Z) (e : option entry) : Prop :=
  exists z, e = zset_row z /\ pending_offsets z os /\ forall o, o ∈ os -> Z.abs o < 2 ^ 53.

Record represents (q : string) (t : tracker) (ks : keyspace) : Prop := {
  rp_typed : well_typed ks;
  rp_rows h : row_stands (tk_rows t !! h) (ks !! InFlightKey q h);
  rp_visible : ks !! VisIndexKey q = zset_row (tk_visible t);
  rp_pending id p : pending_stands (offsets t id p) (ks !! PendingKey q id p);
  rp_locks g : ks !! FIFOLockKey q g = (fun x => Entry (VStr x.1) (Some x.2)) <$> tk_locks t !! g;
  rp_queue : ks !! RedeliverKey q = list_row (tk_queue t)
}.

(** ** Reading the rows *)

Lemma live_of now ks k e : ks !! k = Some e -> expired now e = false -> live now ks k = Some (e_val e).
Proof. intros Hk He. unfold live, live_entry. by rewrite Hk, He. Qed.

Lemma live_absent now ks k : ks !! k = None -> live now ks k = None.
Proof. intros Hk. unfold live, live_entry. by rewrite Hk. Qed.

Lemma zset_row_at now ks k z : ks !! k = zset_row z -> zset_at now ks k = Some z.
Proof.
  unfold zset_row, zset_at. case_decide as Hz; intros Hk; [by rewrite (live_absent _ _ _ Hk), Hz |].
  by rewrite (live_of _ _ _ _ Hk).
Qed.

Lemma list_row_at now ks k l : ks !! k = list_row l -> list_at now ks k = Some l.
Proof.
  unfold list_row, list_at. case_decide as Hl; intros Hk; [by rewrite (live_absent _ _ _ Hk), Hl |].
  by rewrite (live_of _ _ _ _ Hk).
Qed.

(** Writing a set or list back keeps it without deadline. *)
Lemma put_zset_row now ks k z z' :
  ks !! k = zset_row z -> put_zset now k z' ks !! k = zset_row z'.
Proof.
  unfold zset_row, put_zset, put. intros Hk. destruct (decide (z' = _)) as [Hz | Hz]; [apply lookup_delete_eq |]. rewrite lookup_insert_eq.
  unfold live_entry. rewrite Hk. by case_decide.
Qed.

Lemma put_zset_full now ks k z z' :
  ks !! k = zset_row z -> z' <> ∅ -> put now k (VZSet z') ks !! k = zset_row z'.
Proof. intros Hk Hz. rewrite <- (put_zset_row now ks k z z' Hk). unfold put_zset. by rewrite decide_False. Qed.

Lemma put_list_row now ks k l l' :
  ks !! k = list_row l -> put_list now k l' ks !! k = list_row l'.
Proof.
  unfold list_row, put_list, put. intros Hk. destruct (decide (l' = _)) as [Hz | Hz]; [apply lookup_delete_eq |]. rewrite lookup_insert_eq.
  unfold live_entry. rewrite Hk. by case_decide.
Qed.

Lemma put_list_full now ks k l l' :
  ks !! k = list_row l -> l' <> [] -> put now k (VList l') ks !! k = list_row l'.
Proof. intros Hk Hl. rewrite <- (put_list_row now ks k l l' Hk). unfold put_list. by rewrite decide_False. Qed.

Lemma PendingKey_inj q id1 p1 id2 p2 : PendingKey q id1 p1 = PendingKey q id2 p2 -> id1 = id2 /\ p1 = p2.
Proof.
  unfold PendingKey. intros H. do 3 apply string_app_inj_l in H.
  apply app_last_sep in H as [-> H%FormatInt_inj]; auto using FormatInt_no_colon.
Qed.

(** What the server reads of the rows of a tracker. *)
Section Reads.
Context (q : string) (t : tracker) (ks : keyspace) (Hrep : represents q t ks) (now : Z).

Lemma read_row h :
  match live_row now t h with
  | Some rec => inflight_ok rec /\ exists m, hash_at now ks (InFlightKey q h) = Some m /\ stored m rec
  | None => hash_at now ks (InFlightKey q h) = Some ∅
  end.
Proof.
  pose proof (rp_rows _ _ _ Hrep h) as Hrow. unfold live_row. destruct (tk_rows t !! h) as [[rec d]|]; cbn in *.
  - destruct Hrow as (Hok & m & Hm & Hst). unfold in_time. cbn. unfold hash_at.
    destruct (d <? now) eqn:Hd; cbn.
    + unfold live, live_entry. rewrite Hm. unfold expired. cbn. by rewrite Hd.
    + split; [done |]. exists m. split; [| done]. by erewrite live_of by (done || exact Hd).
  - unfold hash_at. by rewrite live_absent.
Qed.

Lemma read_visible : zset_at now ks (VisIndexKey q) = Some (tk_visible t).
Proof. apply zset_row_at. exact (rp_visible _ _ _ Hrep). Qed.

Lemma read_queue : list_at now ks (RedeliverKey q) = Some (tk_queue t).
Proof. apply list_row_at. exact (rp_queue _ _ _ Hrep). Qed.

Lemma read_lock g : live now ks (FIFOLockKey q g) = VStr <$> holder now t g.
Proof.
  pose proof (rp_locks _ _ _ Hrep g) as Hlock. unfold holder. destruct (tk_locks t !! g) as [[h d]|]; cbn in *.
  - unfold in_time, live, live_entry. rewrite Hlock. unfold expired. cbn. by destruct (d <? now).
  - by rewrite live_absent.
Qed.
End Reads.

Lemma str_at_lock q t ks now g :
  represents q t ks -> str_at now ks (FIFOLockKey q g) = Some (holder now t g).
Proof. intros Hrep. unfold str_at. rewrite (read_lock _ _ _ Hrep). by destruct (holder now t g). Qed.

(** Writing one row.  Keys of the other families are those of before. *)
Section Writes.
Context (q : string) (t : tracker) (ks ks' : keyspace) (Hrep : represents q t ks) (Hty : well_typed ks').

Ltac other_rows Hk := destruct Hrep; unfold offsets in *; split; [exact Hty | intros; unfold offsets; cbn in *; rewrite ?Hk by auto with keys; auto ..].

Lemma write_visible z :
  (forall k, k <> VisIndexKey q -> ks' !! k = ks !! k) -> ks' !! VisIndexKey q = zset_row z ->
  represents q (set_visible z t) ks'.
Proof. intros Hk Hz. other_rows Hk. Qed.

Lemma write_queue l :
  (forall k, k <> RedeliverKey q -> ks' !! k = ks !! k) -> ks' !! RedeliverKey q = list_row l ->
  represents q (set_queue l t) ks'.
Proof. intros Hk Hz. other_rows Hk. Qed.

Lemma write_rows rows h :
  (forall k, k <> InFlightKey q h -> ks' !! k = ks !! k) -> row_stands (rows !! h) (ks' !! InFlightKey q h) ->
  (forall h', h' <> h -> rows !! h' = tk_rows t !! h') -> represents q (set_rows rows t) ks'.
Proof.
  intros Hk Hrow Hothers. other_rows Hk. destruct (decide (h0 = h)) as [-> | Hne]; [done |].
  rewrite Hothers, Hk; [auto | | done]. by intros ?%InFlightKey_inj.
Qed.

Lemma write_locks g x :
  (forall k, k <> FIFOLockKey q g -> ks' !! k = ks !! k) ->
  ks' !! FIFOLockKey q g = (fun x => Entry (VStr x.1) (Some x.2)) <$> x ->
  represents q (set_locks (partial_alter (fun _ => x) g (tk_locks t)) t) ks'.
Proof.
  intros Hk Hx. other_rows Hk. destruct (decide (g0 = g)) as [-> | Hne].
  - by rewrite lookup_partial_alter_eq.
  - rewrite lookup_partial_alter_ne, Hk by (done || by intros ?%FIFOLockKey_inj). auto.
Qed.

Lemma write_pending id p os :
  (forall k, k <> PendingKey q id p -> ks' !! k = ks !! k) -> pending_stands os (ks' !! PendingKey q id p) ->
  represents q (set_pending (<[(id, p) := os]> (tk_pending t)) t) ks'.
Proof.
  intros Hk Hos. other_rows Hk. destruct (decide ((id0, p0) = (id, p))) as [[= -> ->] | Hne].
  - by rewrite lookup_insert_eq.
  - rewrite lookup_insert_ne, Hk by (congruence || by intros [-> ->]%PendingKey_inj). apply rp_pending0.
Qed.
End Writes.

(** A row of another family. *)
Lemma represents_beside q t ks ks' f :
  represents q t ks -> well_typed ks' -> f ∉ [FInFlight; FVisIndex; FPending; FFIFOLock; FRedeliver] ->
  (forall k g, of_family g k -> g <> f -> ks' !! k = ks !! k) -> represents q t ks'.
Proof.
  intros Hrep Hty Hf Hk.
  assert (Hne : forall g, g ∈ [FInFlight; FVisIndex; FPending; FFIFOLock; FRedeliver] -> g <> f) by congruence.
  split; [exact Hty | intros ..].
  - rewrite (Hk _ FInFlight) by (auto with keys || by apply Hne; set_solver). apply (rp_rows _ _ _ Hrep).
  - rewrite (Hk _ FVisIndex) by (auto with keys || by apply Hne; set_solver). apply (rp_visible _ _ _ Hrep).
  - rewrite (Hk _ FPending) by (auto with keys || by apply Hne; set_solver). apply (rp_pending _ _ _ Hrep).
  - rewrite (Hk _ FFIFOLock) by (auto with keys || by apply Hne; set_solver). apply (rp_locks _ _ _ Hrep).
  - rewrite (Hk _ FRedeliver) by (auto with keys || by apply Hne; set_solver). apply (rp_queue _ _ _ Hrep).
Qed.

(** ** What the scripts and commands write *)

Lemma zrem_row now k m ks z : ks !! k = zset_row z -> zrem_ks now k m ks !! k = zset_row (delete m z).
Proof.
  intros Hk. unfold zrem_ks. rewrite (zset_row_at now ks k z Hk). destruct (z !! m) eqn:Hm.
  - by eapply put_zset_row.
  - by rewrite Hk, delete_id.
Qed.

Section Effects.
Context (q : string) (now : Z).

Lemma hide_represents h t ks :
  represents q t ks -> represents q (hide h t) (zrem_ks now (VisIndexKey q) h ks).
Proof.
  intros Hrep. apply (write_visible q t ks); [done | | |].
  - eapply well_typed_zrem; [apply VisIndexKey_family | auto | exact (rp_typed _ _ _ Hrep)].
  - intros k Hk. by apply zrem_ks_ne.
  - apply zrem_row. exact (rp_visible _ _ _ Hrep).
Qed.

Lemma untrack_represents id p o t ks :
  represents q t ks -> represents q (untrack id p o t) (zrem_ks now (PendingKey q id p) (FormatInt o) ks).
Proof.
  intros Hrep. apply (write_pending q t ks); [done | | |].
  - eapply well_typed_zrem; [apply PendingKey_family | auto | exact (rp_typed _ _ _ Hrep)].
  - intros k Hk. by apply zrem_ks_ne.
  - destruct (rp_pending _ _ _ Hrep id p) as (z & Hz & Hos & Hb). exists (delete (FormatInt o) z). split_and!.
    + by apply zrem_row.
    + by apply pending_offsets_delete.
    + intros x. rewrite elem_of_difference. intros [Hx _]. by apply Hb.
Qed.

Lemma release_represents g h t ks :
  represents q t ks -> represents q (release now g h t) (release_ks now q g h ks).
Proof.
  intros Hrep. unfold release, release_ks. rewrite (str_at_lock _ _ _ now g Hrep).
  destruct (decide (g <> "" /\ holder now t g = Some h)) as [[Hg Hh] | Hno]; cycle 1.
  { rewrite decide_False; [done |]. intros [Hg [= Hh]]. by apply Hno. }
  rewrite decide_True by (by rewrite Hh). apply (write_locks q t ks _ Hrep) with (x := None).
  - apply well_typed_delete. exact (rp_typed _ _ _ Hrep).
  - intros k Hk. by rewrite lookup_delete_ne.
  - by rewrite lookup_delete_eq.
Qed.

Lemma drop_represents h t ks : represents q t ks -> represents q (drop_row h t) (delete (InFlightKey q h) ks).
Proof.
  intros Hrep. apply (write_rows q t ks) with (h := h); [done | | | |].
  - apply well_typed_delete. exact (rp_typed _ _ _ Hrep).
  - intros k Hk. by rewrite lookup_delete_ne.
  - by rewrite !lookup_delete_eq.
  - intros h' Hh. by rewrite lookup_delete_ne.
Qed.

Lemma forget_dlq h rec t :
  forget now h rec t =
  drop_row h (untrack (if_ShardID rec) (if_Partition rec) (if_Offset rec) (release now (if_GroupID rec) h (hide h t))).
Proof.
  unfold forget. set (t1 := hide h t). unfold release.
  change (holder now (drop_row h (untrack (if_ShardID rec) (if_Partition rec) (if_Offset rec) t1)) (if_GroupID rec))
    with (holder now t1 (if_GroupID rec)).
  by case_decide.
Qed.

Lemma ack_represents h rec t ks :
  represents q t ks -> represents q (forget now h rec t) (ack_ks now q h rec ks).
Proof. intros Hrep. by apply release_represents, drop_represents, untrack_represents, hide_represents. Qed.

Lemma reap_dlq_represents h rec t ks :
  represents q t ks -> represents q (forget now h rec t) (reap_dlq_ks now q h rec ks).
Proof.
  intros Hrep. rewrite forget_dlq. by apply drop_represents, untrack_represents, release_represents, hide_represents.
Qed.

Lemma push_represents h t ks :
  represents q t ks ->
  represents q (set_queue (tk_queue t ++ [h]) t) (put now (RedeliverKey q) (VList (tk_queue t ++ [h])) ks).
Proof.
  intros Hrep. apply (write_queue q t ks); [done | | |].
  - by eapply well_typed_put; [exact (rp_typed _ _ _ Hrep) | apply RedeliverKey_family |].
  - intros k Hk. by apply lookup_insert_ne.
  - eapply put_list_full; [exact (rp_queue _ _ _ Hrep) |]. by destruct (tk_queue t).
Qed.

(** The reap's new count, in a row that is there. *)
Lemma bump_represents h rec m t ks :
  represents q t ks -> live_row now t h = Some rec -> hash_at now ks (InFlightKey q h) = Some m -> stored m rec ->
  is_i32 (if_ReceiveCount rec + 1) ->
  represents q (set_rows (alter (fun x => (bump_count rec, x.2)) h (tk_rows t)) t)
    (put now (InFlightKey q h) (VHash (<["receiveCount" := FormatInt (if_ReceiveCount rec + 1)]> m)) ks).
Proof.
  intros Hrep Hlive Hm Hst Hcount. apply (write_rows q t ks) with (h := h); [done | | | |].
  - by eapply well_typed_put; [exact (rp_typed _ _ _ Hrep) | apply InFlightKey_family |].
  - intros k Hk. by apply lookup_insert_ne.
  - unfold live_row in Hlive. pose proof (rp_rows _ _ _ Hrep h) as Hrow.
    destruct (tk_rows t !! h) as [[rec' d]|] eqn:Hr; [| done]. cbn in Hlive. unfold in_time in Hlive. cbn in Hlive.
    destruct (d <? now) eqn:Hd; [done |]. injection Hlive as ->. destruct Hrow as ((Hp & Ho & _) & m' & Hm' & _).
    rewrite lookup_alter_eq, Hr. cbn. split; [done |]. eexists. split; [| by apply stored_bump].
    unfold put. rewrite lookup_insert_eq. unfold live_entry, expired. rewrite Hm'. cbn. by rewrite Hd.
  - intros h' Hh. by rewrite lookup_alter_ne.
Qed.
End Effects.

(** ** Refinement *)

(** Answered at once, with effects on Redis only. *)
Definition answered {A} (w : world) (o : res A * world) : Prop := exists a ks, o = (Ok a, set_redis ks w).

(** A round trip does [step] at some moment: it is answered with the result, or it fails
    and the server has done all of it or nothing; and a calm network answers. *)
Definition refined {A} (q : string) (m : M world A) (step : Z -> tracker -> A * tracker) (w : world) : Prop :=
  forall t, represents q t (w_redis w) ->
  let '(x, w') := m w in
  w_clock w <= w_clock w' /\ (calm w -> answered w (x, w')) /\
  let '(a, t') := step (ms w') t in
  (x = Ok a /\ represents q t' (w_redis w')) \/
  ((exists e, x = Err e) /\ (represents q t (w_redis w') \/ represents q t' (w_redis w'))).

(** At the server there are no failures. *)
Definition does {A} (q : string) (c : Z -> M keyspace A) (step : Z -> tracker -> A * tracker) : Prop :=
  forall now t ks, represents q t ks ->
  exists ks', c now ks = (Ok (fst (step now t)), ks') /\ represents q (snd (step now t)) ks'.

Section Refinement.
Context {R : RedisServer} {RL : RedisLaws R} (q : string).

Lemma answered_rdo {A} (c : Z -> M keyspace A) step t w x w' :
  does q c step -> represents q t (w_redis w) -> rdo c w = (x, w') -> calm w -> answered w (x, w').
Proof.
  intros Hc Hrep E Hw. destruct (Hc (ms w) t _ Hrep) as (ks' & Hrun & _). rewrite (rdo_calm w Hw c _ _ Hrun) in E.
  rewrite <- E. by eexists _, _.
Qed.

Lemma refined_rdo {A} (c : Z -> M keyspace A) step w : does q c step -> refined q (rdo c) step w.
Proof.
  intros Hc t Hrep. destruct (rdo c w) as [x w'] eqn:E. pose proof E as Hrdo. apply rdo_cases in E as [Hclk E].
  split; [done |]. split; [by apply (answered_rdo c step t) |].
  destruct (Hc (ms w') t _ Hrep) as (ks' & Hrun & Hrep'). destruct (step (ms w') t) as [a t']. cbn in Hrun, Hrep'.
  rewrite Hrun in E. destruct E as [[= <- <-] | (e & -> & [-> | ->])]; [by left | right; eauto ..].
Qed.

Lemma refined_wrap {A} p (m : M world A) step w : refined q m step w -> refined q (wrap_err p m) step w.
Proof.
  intros Hm t Hrep. specialize (Hm t Hrep). revert Hm. unfold wrap_err. destruct (m w) as [[a|e] w'];
    intros (Hclk & Hcalm & Hm); (split; [done |]); (split; [intros Hw; destruct (Hcalm Hw) as (b & ks & [= -> ->]); by exists b, ks |]);
    destruct (step (ms w') t) as [a' t']; naive_solver.
Qed.

Lemma refined_now {A} (f : Z -> M world A) step w : refined q (f (w_clock w)) step w -> refined q (Now ≫= f) step w.
Proof. intros Hf t Hrep. rewrite mbind_run. by apply Hf. Qed.

(** A round trip and what the program makes of the answer. *)
Lemma refined_bind {A B} p (c : Z -> M keyspace A) (k : A -> M world B) step w :
  (forall now t ks, represents q t ks ->
     exists a ks', c now ks = (Ok a, ks') /\ represents q (snd (step now t)) ks' /\
       forall w', k a w' = (Ok (fst (step now t)), w')) ->
  refined q (wrap_err p (rdo c) ≫= k) step w.
Proof.
  intros Hc t Hrep. rewrite mbind_run. unfold wrap_err. destruct (rdo c w) as [x w'] eqn:E.
  assert (Hcalm : calm w -> answered w (x, w')).
  { intros Hw. destruct (Hc (ms w) t _ Hrep) as (a & ks' & Hrun & _). rewrite (rdo_calm w Hw c _ _ Hrun) in E.
    rewrite <- E. by eexists _, _. }
  apply rdo_cases in E as [Hclk E]. destruct (Hc (ms w') t _ Hrep) as (a & ks' & Hrun & Hrep' & Hk).
  rewrite Hrun in E. destruct E as [[= <- ->] | (e & -> & Hks)].
  - rewrite Hk. split; [done |]. split; [| destruct (step (ms w') t); by left].
    intros Hw. destruct (Hcalm Hw) as (b & ks & [= _ ->]). by eexists _, _.
  - split; [done |]. split; [intros Hw; by destruct (Hcalm Hw) as (? & ? & [=]) |]. destruct (step (ms w') t). right. split; [by eexists |]. destruct Hks as [-> | ->]; auto.
Qed.

(** *** Commands *)

Lemma pending_add os z o :
  pending_offsets z os -> Z.abs o < 2 ^ 53 -> (forall x, x ∈ os -> Z.abs x < 2 ^ 53) ->
  pending_stands ({[o]} ∪ os) (zset_row (<[FormatInt o := f64_of_int o]> z)).
Proof.
  intros Hos Ho Hb. eexists. split; [done |]. split; [by apply pending_offsets_insert |].
  intros x [->%elem_of_singleton | Hx]%elem_of_union; auto.
Qed.

Lemma does_track id p o :
  Z.abs o < 2 ^ 53 ->
  does q (fun now => cmd_zadd now (PendingKey q id p) (f64_of_int o) (FormatInt o)) (fun _ t => (tt, track id p o t)).
Proof.
  intros Ho now t ks Hrep. destruct (rp_pending _ _ _ Hrep id p) as (z & Hz & Hos & Hb).
  rewrite law_zadd, (zset_row_at _ _ _ _ Hz). eexists. split; [done |].
  apply (write_pending q t ks _ Hrep).
  - by eapply well_typed_put; [exact (rp_typed _ _ _ Hrep) | apply PendingKey_family |].
  - intros k Hk. by apply lookup_insert_ne.
  - erewrite put_zset_full; [by apply pending_add | exact Hz | apply insert_non_empty].
Qed.

Lemma show_represents now h score t ks :
  represents q t ks ->
  represents q (show h score t) (put now (VisIndexKey q) (VZSet (<[h := score]> (tk_visible t))) ks).
Proof.
  intros Hrep. apply (write_visible q t ks _ Hrep).
  - by eapply well_typed_put; [exact (rp_typed _ _ _ Hrep) | apply VisIndexKey_family |].
  - intros k Hk. by apply lookup_insert_ne.
  - eapply put_zset_full; [exact (rp_visible _ _ _ Hrep) | apply insert_non_empty].
Qed.

Lemma does_show h score :
  does q (fun now => cmd_zadd now (VisIndexKey q) score h) (fun _ t => (tt, show h score t)).
Proof.
  intros now t ks Hrep. rewrite law_zadd, (read_visible _ _ _ Hrep). eexists. split; [done |].
  by apply show_represents.
Qed.

(** The transaction of [PutInFlight]. *)
Lemma put_row_represents h rec d t ks m :
  represents q t ks -> inflight_ok rec ->
  represents q (set_rows (<[h := (rec, d)]> (tk_rows t)) t)
    (<[InFlightKey q h := Entry (VHash (hash_set m (inflight_fields rec))) (Some d)]> ks).
Proof.
  intros Hrep Hok. apply (write_rows q t ks _ Hrep) with (h := h).
  - by eapply well_typed_insert; [exact (rp_typed _ _ _ Hrep) | apply InFlightKey_family |].
  - intros k Hk. by apply lookup_insert_ne.
  - rewrite !lookup_insert_eq. split; [done |]. eexists. split; [done |]. apply stored_fields.
  - intros h' Hh. by apply lookup_insert_ne.
Qed.

Lemma does_put h rec s score :
  inflight_ok rec -> 0 <= s ->
  does q (fun now => tx [cmd_hset now (InFlightKey q h) (inflight_fields rec);
                         cmd_expire now (InFlightKey q h) (cli_expire_ms (s * Second + Minute));
                         cmd_zadd now (VisIndexKey q) score h])
    (fun now t => (tt, show h score (set_rows (<[h := (rec, now + (s + 60) * 1000)]> (tk_rows t)) t))).
Proof.
  intros Hok Hs now t ks Hrep.
  assert (Hm : is_Some (hash_at now ks (InFlightKey q h))).
  { eapply hash_at_typed; [exact (rp_typed _ _ _ Hrep) | apply InFlightKey_family | auto]. }
  destruct Hm as [m Hm]. cbn [tx]. rewrite law_hset, Hm. cbv beta iota zeta.
  replace (s * Second + Minute) with ((s + 60) * Second) by (unfold Minute; lia).
  rewrite law_expire, live_put_eq, law_expire_ms by lia. destruct (Z.leb_spec ((s + 60) * 1000) 0); [lia |].
  cbv beta iota zeta. unfold put at 1. rewrite insert_insert_eq.
  pose proof (put_row_represents h rec (now + (s + 60) * 1000) t ks m Hrep Hok) as Hrep1.
  rewrite law_zadd, (read_visible _ _ _ Hrep1). eexists. split; [done |]. by apply show_represents.
Qed.

(** Reading commands. *)
Definition row_hash (now : Z) (h : string) (t : tracker) (m : gmap string string) : Prop :=
  match live_row now t h with Some rec => inflight_ok rec /\ stored m rec | None => m = ∅ end.

Lemma read_hash now h t ks :
  represents q t ks -> exists m, hash_at now ks (InFlightKey q h) = Some m /\ row_hash now h t m.
Proof.
  intros Hrep. pose proof (read_row q t ks Hrep now h) as Hrow. unfold row_hash.
  destruct (live_row now t h); [| by exists ∅]. destruct Hrow as (Hok & m & Hm & Hst). by exists m.
Qed.

Lemma does_exists h :
  does q (fun now => cmd_exists now (InFlightKey q h))
    (fun now t => (match live_row now t h with Some _ => 1 | None => 0 end, t)).
Proof.
  intros now t ks Hrep. exists ks. split; [| exact Hrep]. rewrite law_exists. cbn [fst]. do 2 f_equal.
  pose proof (rp_rows _ _ _ Hrep h) as Hrow. unfold live_row. destruct (tk_rows t !! h) as [[rec d]|]; cbn in *.
  - destruct Hrow as (_ & m & Hm & _). unfold in_time, live, live_entry, expired. rewrite Hm. cbn. by destruct (d <? now).
  - by rewrite live_absent.
Qed.

Lemma does_expired n tm :
  does q (fun now => cmd_zrangebyscore now (VisIndexKey q) 0 tm n)
    (fun _ t => (take n (zset_range (tk_visible t) 0 tm).*1, t)).
Proof.
  intros now t ks Hrep. exists ks. split; [| exact Hrep]. by rewrite law_zrangebyscore, (read_visible _ _ _ Hrep).
Qed.

Lemma does_pop :
  does q (fun now => cmd_lpop now (RedeliverKey q))
    (fun _ t => match tk_queue t with h :: l => (Some h, set_queue l t) | [] => (None, t) end).
Proof.
  intros now t ks Hrep. rewrite law_lpop, (read_queue _ _ _ Hrep). destruct (tk_queue t) as [|h l] eqn:Hl.
  { by exists ks. }
  eexists. split; [done |]. apply (write_queue q t ks _ Hrep).
  - by eapply well_typed_put_list; [exact (rp_typed _ _ _ Hrep) | apply RedeliverKey_family |].
  - intros k Hk. unfold put_list, put. case_decide; [by apply lookup_delete_ne | by apply lookup_insert_ne].
  - eapply put_list_row. exact (rp_queue _ _ _ Hrep).
Qed.

Lemma does_push h :
  does q (fun now => cmd_rpush now (RedeliverKey q) h) (fun _ t => (tt, set_queue (tk_queue t ++ [h]) t)).
Proof.
  intros now t ks Hrep. rewrite law_rpush, (read_queue _ _ _ Hrep). eexists. split; [done |].
  by apply push_represents.
Qed.

Lemma does_lock g h s :
  0 < s ->
  does q (fun now => cmd_setnx now (FIFOLockKey q g) h (cli_nx_ms (s * Second)))
    (fun now t => match holder now t g with
                  | Some _ => (false, t)
                  | None => (true, set_locks (<[g := (h, now + s * 1000)]> (tk_locks t)) t)
                  end).
Proof.
  intros Hs now t ks Hrep. replace (s * Second) with (s * 1000 * Millisecond) by (unfold Second, Millisecond; lia).
  rewrite law_setnx, law_nx_pos by lia. destruct (Z.leb_spec (s * 1000) 0); [lia |].
  rewrite (read_lock _ _ _ Hrep). destruct (holder now t g) as [x|]; cbn; [by exists ks |].
  eexists. split; [done |]. apply (write_locks q t ks _ Hrep) with (x := Some (h, now + s * 1000)).
  - by eapply well_typed_insert; [exact (rp_typed _ _ _ Hrep) | apply FIFOLockKey_family |].
  - intros k Hk. by apply lookup_insert_ne.
  - by rewrite lookup_insert_eq.
Qed.

(** *** Requests *)

Lemma refined_get h w : refined q (GetInFlight q h) (fun now t => (live_row now t h, t)) w.
Proof.
  apply refined_bind. intros now t ks Hrep. destruct (read_hash now h t ks Hrep) as (m & Hm & Hrow).
  exists m, ks. rewrite law_hgetall, Hm. split; [done |]. split; [exact Hrep |]. intros w'. unfold row_hash in Hrow.
  cbn [fst]. destruct (live_row now t h) as [rec|].
  - destruct Hrow as [Hok Hst]. rewrite decide_False by (by eapply stored_nonempty).
    by rewrite (stored_inflight m rec).
  - by rewrite decide_True.
Qed.

Lemma refined_ack h w : refined q (Ack q h) (fun now => spec 0 now (RAck h)) w.
Proof.
  apply refined_bind. intros now t ks Hrep. destruct (read_hash now h t ks Hrep) as (m & Hm & Hrow).
  unfold row_hash in Hrow. cbn [spec]. destruct (live_row now t h) as [rec|].
  - destruct Hrow as [Hok Hst]. exists ["acked"], (ack_ks now q h rec ks). split_and!; [| | done].
    + eapply ack_lua_run; [exact (rp_typed _ _ _ Hrep) | done | done].
    + by apply ack_represents.
  - exists ["not_found"], ks. split_and!; [| exact Hrep | done].
    unfold ack_lua. by rewrite mbind_run, law_hgetall, Hm, Hrow.
Qed.

(** A reap that wins the race for a message. *)
Lemma reap_won_represents now h max t ks m rec :
  represents q t ks -> is_Some (tk_visible t !! h) -> live_row now t h = Some rec ->
  hash_at now ks (InFlightKey q h) = Some m -> stored m rec -> inflight_ok rec -> is_i32 max ->
  exists res ks', reap_lua (InFlightKey q h) (VisIndexKey q) h (FormatInt max) q now ks = (Ok res, ks') /\
    represents q (snd (spec 0 now (RReap h max) t)) ks' /\
    forall w', reap_result_of h res w' = (Ok (fst (spec 0 now (RReap h max) t)), w').
Proof.
  intros Hrep [f Hf] Hlive Hm Hst (Hp & Ho & Hc) Hmax. cbn [spec]. rewrite Hf, Hlive.
  rewrite (reap_lua_run now q h m rec ks (tk_visible t) (tk_queue t) max);
    [| exact (rp_typed _ _ _ Hrep) | exact (read_visible _ _ _ Hrep _) | by eexists | done | done
     | exact (read_queue _ _ _ Hrep _)].
  destruct (Z.leb_spec max (if_ReceiveCount rec)) as [Hle | Hgt]; eexists _, _; (split; [reflexivity |]); split.
  - by apply reap_dlq_represents.
  - intros w'. unfold reap_result_of. simpl. rewrite ParseInt_i32, ParseInt_i64 by done. simpl. by rewrite i32_id.
  - pose proof (release_represents q now (if_GroupID rec) h _ _ (hide_represents q now h t ks Hrep)) as Hrep1.
    set (t1 := release now (if_GroupID rec) h (hide h t)) in *. set (ks1 := release_ks _ _ _ _ _) in *.
    assert (Hl1 : live_row now t1 h = Some rec) by (rewrite <- Hlive; unfold t1, release; by case_decide).
    assert (Hm1 : hash_at now ks1 (InFlightKey q h) = Some m).
    { rewrite <- Hm. apply hash_at_lookup_eq. unfold ks1. by rewrite release_ks_ne, zrem_ks_ne by auto with keys. }
    assert (Hi : is_i32 (if_ReceiveCount rec + 1)) by (unfold is_i32 in *; lia).
    assert (Hq : tk_queue t = tk_queue t1) by (unfold t1, release; by case_decide).
    pose proof (push_represents q now h _ _ (bump_represents q now h rec m t1 ks1 Hrep1 Hl1 Hm1 Hst Hi)) as H.
    unfold requeue, reap_redeliver_ks. cbv zeta. fold t1. fold ks1. cbn [tk_queue set_rows set_queue] in H. by rewrite Hq.
  - intros w'. unfold reap_result_of. simpl. rewrite ParseInt_i32 by (unfold is_i32 in *; lia). simpl.
    by rewrite i32_id by (unfold is_i32 in *; lia).
Qed.

Lemma refined_reap h max w : is_i32 max -> refined q (Reap q h max) (fun now => spec 0 now (RReap h max)) w.
Proof.
  intros Hmax. apply refined_bind. intros now t ks Hrep. destruct (tk_visible t !! h) as [f|] eqn:Hf; cycle 1.
  { exists ["gone"], ks. cbn [spec]. rewrite Hf. split_and!; [| exact Hrep | done]. unfold reap_lua.
    rewrite mbind_run, (zrem_run _ _ _ _ _ (read_visible _ _ _ Hrep now)), Hf. cbn. do 2 f_equal.
    unfold zrem_ks. by rewrite (read_visible _ _ _ Hrep now), Hf. }
  destruct (read_hash now h t ks Hrep) as (m & Hm & Hrow). unfold row_hash in Hrow.
  destruct (live_row now t h) as [rec|] eqn:Hlive; cycle 1.
  - exists ["gone"], (zrem_ks now (VisIndexKey q) h ks). cbn [spec]. rewrite Hf, Hlive.
    split_and!; [| by apply hide_represents | done]. unfold reap_lua.
    rewrite mbind_run, (zrem_run _ _ _ _ _ (read_visible _ _ _ Hrep now)), Hf. cbn [Z.eqb].
    rewrite mbind_run, law_hgetall, (hash_at_lookup_eq now ks), Hm by (apply zrem_ks_ne; auto with keys). by rewrite Hrow.
  - destruct Hrow as [Hok Hst]. by apply (reap_won_represents now h max t ks m rec).
Qed.

Lemma least_spec os : match least os with None => os = ∅ | Some m => m ∈ os /\ forall o, o ∈ os -> m <= o end.
Proof.
  unfold least. destruct (elements os) as [|o l] eqn:E; [by apply elements_empty_inv, leibniz_equiv in E |].
  assert (Hin : forall x, x ∈ os <-> x ∈ o :: l) by (intros x; by rewrite <- E, elem_of_elements).
  setoid_rewrite Hin. clear E Hin. induction l as [|y l [IH1 IH2]]; cbn; [split; [left | set_unfold; naive_solver lia] |].
  split.
  - destruct (Z.min_spec y (foldr Z.min o l)) as [[_ ->] | [_ ->]]; set_solver.
  - intros x Hx. assert (x = y \/ x ∈ o :: l) as [-> | Hx'] by set_solver; [lia |]. specialize (IH2 x Hx'). lia.
Qed.

Lemma least_first z os :
  pending_offsets z os -> (forall o, o ∈ os -> Z.abs o < 2 ^ 53) ->
  match zset_sorted z with [] => least os = None | (_, f) :: _ => least os = Some (i64_of_f64 f) end.
Proof.
  intros Hos Hb. pose proof (pending_offsets_min z os Hos Hb) as Hmin. pose proof (least_spec os) as Hl.
  destruct (zset_sorted z) as [|[m f] l], (least os) as [o|]; try done.
  - subst os. set_solver.
  - destruct Hl as [Ho Hle], Hmin as [Hf Hfle]. f_equal. specialize (Hle _ Hf). specialize (Hfle _ Ho). lia.
  - subst os. set_solver.
Qed.

Lemma refined_least id p w : refined q (MinPending q id p) (fun now => spec 0 now (RLeast id p)) w.
Proof.
  apply refined_bind. intros now t ks Hrep. destruct (rp_pending _ _ _ Hrep id p) as (z & Hz & Hos & Hb).
  rewrite law_zfirst, (zset_row_at _ _ _ _ Hz). eexists _, ks. split; [done |]. split; [exact Hrep |]. intros w'.
  pose proof (least_first z _ Hos Hb) as Hl. cbn [spec fst]. by destruct (zset_sorted z) as [|[m f] l]; rewrite Hl.
Qed.
Lemma serve_refined {A} (r : request A) w :
  admissible r -> refined q (serve q r) (fun now => spec (w_clock w) now r) w.
Proof.
  intros Hadm. destruct r; cbn [serve admissible] in *.
  - by apply refined_wrap, refined_rdo, does_track.
  - destruct Hadm as [Hok Hs]. unfold PutInFlight. apply refined_now. by apply refined_wrap, refined_rdo, does_put.
  - apply refined_get.
  - apply refined_rdo, does_exists.
  - apply refined_rdo, does_show.
  - apply refined_ack.
  - by apply refined_reap.
  - by apply refined_wrap, refined_rdo, does_lock.
  - apply refined_least.
  - apply refined_wrap, refined_rdo, does_push.
  - apply refined_wrap, refined_rdo, does_pop.
  - unfold ExpiredVisIndexEntries. apply refined_now. by apply refined_wrap, refined_rdo, does_expired.
Qed.

(** Without disturbances. *)
Lemma serve_calm {A} (r : request A) w t :
  calm w -> admissible r -> represents q t (w_redis w) ->
  let '(a, t') := spec (w_clock w) (ms w) r t in
  exists ks, serve q r w = (Ok a, set_redis ks w) /\ represents q t' ks.
Proof.
  intros Hw Hadm Hrep. pose proof (serve_refined r w Hadm t Hrep) as H. destruct (serve q r w) as [x w'].
  destruct H as (_ & Hcalm & H). destruct (Hcalm Hw) as (b & ks & [= -> ->]).
  change (ms (set_redis ks w)) with (ms w) in H. destruct (spec _ _ _ _) as [a t']. exists ks.
  destruct H as [[[= ->] Hrep'] | [[e [=]] _]]. by split.
Qed.
End Refinement.


Lemma empty_represents q : represents q empty_tracker ∅.
Proof.
  split; [apply well_typed_empty | done | done | | done | done]. intros id p. exists ∅. split; [done |].
  split; [apply pending_offsets_empty | set_solver].
Qed.

