(* ===== verification/Send.v ===== *)
(** Sending: [internal/core/queue/shard_router.go], [send_message.go] and the producer
    of [internal/kafka/produce.go]. *)

From S2P Require Import Prelude GoNum GoStr Topology Json Keys Redis World Schema Store Scripts.

Local Open Scope Z_scope.

(** ** Data *)

Definition MaxMessageBodyBytes : Z := 256 * 1024.
Definition defaultDedupWindow : Z := 5 * Minute.

Record SendMessageInput : Type := MkSendInput {
  si_QueueName : string;
  si_Body : string;
  si_MessageGroupID : string;
  si_MessageDeduplicationID : string
}.

Record SendMessageOutput : Type := MkSendOutput {
  so_MessageID : string;
  so_SequenceNumber : Z
}.

Section Ops.
Context {R : RedisServer} {K : KafkaServer} {U : UUIDSource}.

(** *** shard_router.go *)

(** The router's [shards]. *)
Definition router_shards (queueName : string) : M world (list Shard) :=
  r ← wrap_err ("read shard map " +:+ queueName +:+ ": ") (GetShardMap queueName);
  match r with
  | Some (s :: shards) => mret (s :: shards)
  | _ => fail (ErrText ("queue " +:+ queueName +:+ " has no shard map yet (not reconciled)"))
  end.

Definition RouteForSend (queueName routingKey : string) : M world Shard :=
  shards ← router_shards queueName;
  match SelectShard (ActiveShards shards) routingKey with
  | Some shard => mret shard
  | None => fail (ErrText ("no active shard covers the routing key for queue " +:+ queueName))
  end.

Definition ConsumableShards (queueName : string) : M world (list Shard) :=
  shards ← router_shards queueName;
  mret (filter (fun s => sh_Phase s <> "Closed") shards).

(** *** produce.go *)

Definition Produce (topic : string) (partition : Z) (key : option string) (value : string)
    : M world Z :=
  wrap_err ("producing to " +:+ topic +:+ "/" +:+ FormatInt partition +:+ ": ")
    (kdo (kgo_produce topic partition key value)).

(** *** send_message.go *)

(** The FIFO deduplication check: whether the message is new. *)
Definition dedup_check (DedupWindow : Z) (meta : QueueMeta) (inp : SendMessageInput)
    : M world bool :=
  if qm_FIFO meta && negb (bool_decide (si_MessageDeduplicationID inp = "")) then
    let window := if DedupWindow <=? 0 then defaultDedupWindow else DedupWindow in
    wrap_err ("send message " +:+ si_QueueName inp +:+ ": ")
      (TryDedup (si_QueueName inp) (si_MessageGroupID inp) (si_MessageDeduplicationID inp) window)
  else mret true.

(** From the routing key on: resolve the shard and produce. *)
Definition send_routed (meta : QueueMeta) (inp : SendMessageInput) : M world SendMessageOutput :=
  routingKey ← (if bool_decide (si_MessageGroupID inp = "") then NewString
                else mret (si_MessageGroupID inp));
  shard ← RouteForSend (si_QueueName inp) routingKey;
  let partition := PartitionWithinShard routingKey (qm_PartitionsPerShard meta) in
  let key := if qm_FIFO meta then Some (si_MessageGroupID inp) else None in
  offset ← wrap_err ("send message " +:+ si_QueueName inp +:+ ": ")
             (Produce (sh_Topic shard) partition key (si_Body inp));
  id ← NewString;
  mret (MkSendOutput id offset).

Definition SendMessage (DedupWindow : Z) (inp : SendMessageInput) : M world SendMessageOutput :=
  let queueName := si_QueueName inp in
  if MaxMessageBodyBytes <? Z.of_nat (String.length (si_Body inp)) then
    fail (ErrText ("message body exceeds " +:+ FormatInt MaxMessageBodyBytes +:+ " bytes"))
  else
    meta ← wrap_err ("send message " +:+ queueName +:+ ": ") (GetQueueMeta queueName);
    match meta with
    | None => fail (ErrText ("queue " +:+ queueName +:+ " not found"))
    | Some meta =>
      if qm_FIFO meta && bool_decide (si_MessageGroupID inp = "") then
        fail (ErrText ("messageGroupId is required for FIFO queue " +:+ queueName))
      else
        fresh ← dedup_check DedupWindow meta inp;
        if negb fresh then mret (MkSendOutput (si_MessageDeduplicationID inp) 0)
        else send_routed meta inp
    end.
End Ops.

(** ** The interface the reaper uses

    [DLQSender] of [internal/core/reaper/reaper.go]: something that can send a message.
    What a sender promises is that it keeps the keyspace typed and touches Redis only at
    deduplication keys. *)
Class Sender : Type := send : SendMessageInput -> M world SendMessageOutput.

Class SenderLaws (S : Sender) : Prop := {
  send_typed i : preserves typed (send i);
  send_frame i k e : ~ of_family FDedup k -> preserves (fun w => w_redis w !! k = e) (send i);
  send_ambient i P : Ambient P -> preserves P (send i)
}.

(** ** Lemmas *)

Section Lemmas.
Context {R : RedisServer} {RL : RedisLaws R} {K : KafkaServer} {KL : KafkaLaws K} {U : UUIDSource}.

Lemma typed_router_shards q : preserves typed (router_shards q).
Proof. unfold router_shards. solve_typed. Qed.

Lemma typed_RouteForSend q k : preserves typed (RouteForSend q k).
Proof. unfold RouteForSend. pose proof (typed_router_shards q). solve_typed. Qed.

Lemma typed_ConsumableShards q : preserves typed (ConsumableShards q).
Proof. unfold ConsumableShards. pose proof (typed_router_shards q). solve_typed. Qed.

Lemma typed_Produce t p k v : preserves typed (Produce t p k v).
Proof. unfold Produce. solve_typed. Qed.

#[local] Hint Resolve typed_RouteForSend typed_Produce : preserve.

Lemma typed_SendMessage d i : preserves typed (SendMessage d i).
Proof. unfold SendMessage, dedup_check, send_routed. cbv zeta. solve_typed. Qed.

Lemma kstate_GetQueueMeta q k : preserves (fun w => w_kafka w = k) (GetQueueMeta q).
Proof. unfold GetQueueMeta. solve_kstate. Qed.

Lemma kstate_TryDedup q g d t k : preserves (fun w => w_kafka w = k) (TryDedup q g d t).
Proof. unfold TryDedup. solve_kstate. Qed.

Lemma kstate_RouteForSend q r k : preserves (fun w => w_kafka w = k) (RouteForSend q r).
Proof. unfold RouteForSend, router_shards, GetShardMap. solve_kstate. Qed.

Lemma kstate_ConsumableShards q k : preserves (fun w => w_kafka w = k) (ConsumableShards q).
Proof. unfold ConsumableShards, router_shards, GetShardMap. solve_kstate. Qed.

(** Redis keys that sending does not touch: all but the deduplication keys. *)
Lemma redis_kdo {A} (c : M kafka A) k e : preserves (fun w => w_redis w !! k = e) (kdo c).
Proof.
  apply preserves_trip; [done | done |]. intros w Hw. unfold kafka_run. by destruct (c _).
Qed.

Lemma redis_NewString k e : preserves (fun w => w_redis w !! k = e) NewString.
Proof. by intros w Hw. Qed.

Lemma frame_SendMessage d i k e :
  ~ of_family FDedup k -> preserves (fun w => w_redis w !! k = e) (SendMessage d i).
Proof.
  intros Hk. assert (forall q g x, k <> DedupKey q g x).
  { intros q g x ->. apply Hk. apply DedupKey_family. }
  unfold SendMessage, dedup_check, send_routed, GetQueueMeta, TryDedup, RouteForSend, router_shards, GetShardMap, Produce.
  cbv zeta. repeat pres_step; auto using redis_kdo, redis_NewString;
    apply (preserves_rdo (fun ks => ks !! k = e)); eauto with frame.
Qed.

Lemma clock_SendMessage d i P : Ambient P -> preserves P (SendMessage d i).
Proof.
  unfold SendMessage, dedup_check, send_routed, GetQueueMeta, TryDedup, RouteForSend, router_shards, GetShardMap, Produce.
  cbv zeta. solve_clock.
Qed.

(** *** Routing in a calm world *)

Context (w : world) (Hcalm : calm w).

Lemma router_shards_calm q s l :
  str_at (ms w) (w_redis w) (ShardMapKey q) = Some (Some s) -> Unmarshal s = Some l -> l <> [] ->
  router_shards q w = (Ok l, w).
Proof.
  intros Hs Hl Hne. unfold router_shards. rewrite mbind_run. unfold wrap_err.
  rewrite (GetShardMap_calm w Hcalm q s Hs), Hl. by destruct l.
Qed.

Lemma RouteForSend_calm q s l key sh :
  str_at (ms w) (w_redis w) (ShardMapKey q) = Some (Some s) -> Unmarshal s = Some l ->
  SelectShard (ActiveShards l) key = Some sh ->
  RouteForSend q key w = (Ok sh, w).
Proof.
  intros Hs Hl Hsel. unfold RouteForSend. rewrite mbind_run, (router_shards_calm q s l); [| done | done |].
  - by rewrite Hsel.
  - by intros ->.
Qed.

Lemma Produce_calm t p k v :
  match kgo_produce t p k v (w_kafka w) with
  | (Ok o, st) => Produce t p k v w = (Ok o, set_kafka st w) /\
                  o = Z.of_nat (length (partition_log (w_kafka w) t p)) /\
                  st = append_record t p (KRecord k v) (w_kafka w)
  | (Err e, st) =>
    Produce t p k v w =
    (Err (ErrWrap ("producing to " +:+ t +:+ "/" +:+ FormatInt p +:+ ": ") e), w)
  end.
Proof.
  pose proof (law_produce t p k v (w_kafka w)) as Hlaw.
  destruct (kgo_produce t p k v (w_kafka w)) as [[o|e] st] eqn:E; unfold Produce, wrap_err;
    rewrite (kdo_calm w Hcalm _ _ _ E).
  - done.
  - subst st. by destruct w.
Qed.
End Lemmas.

#[export] Hint Resolve typed_ConsumableShards typed_SendMessage : preserve.
#[export] Hint Resolve kstate_GetQueueMeta kstate_TryDedup kstate_RouteForSend
  kstate_ConsumableShards : kstate.

(** The message service is a sender. *)
#[export] Instance SendMessage_sender {R : RedisServer} {K : KafkaServer} {U : UUIDSource} : Sender :=
  SendMessage 0.

#[export] Instance SendMessage_sender_laws {R : RedisServer} {RL : RedisLaws R} {K : KafkaServer}
    {U : UUIDSource} : SenderLaws SendMessage_sender.
Proof.
  split; intros; unfold send, SendMessage_sender;
    [apply typed_SendMessage | by apply frame_SendMessage | by apply clock_SendMessage].
Qed.

(** ** What sending does to Kafka *)

Section Sent.
Context {R : RedisServer} {RL : RedisLaws R} {K : KafkaServer} {KL : KafkaLaws K} {U : UUIDSource}.

(** Kafka is as in [st], or one record has been appended to it and, if there is an
    offset to report, it is the record's. *)
Definition one_record (st : kafka) (body : string) (offset : option Z) (st' : kafka) : Prop :=
  (st' = st /\ offset = None) \/
  exists t p k, st' = append_record t p (KRecord k body) st /\
    forall o, offset = Some o -> o = Z.of_nat (length (partition_log st t p)).

Lemma Produce_record st t p k v :
  triple (fun w => w_kafka w = st) (Produce t p k v)
    (fun r w => one_record st v (match r with Ok o => Some o | Err _ => None end) (w_kafka w)).
Proof.
  intros w <-. unfold Produce, wrap_err, kdo, trip, kafka_run, one_record.
  pose proof (law_produce t p k v (w_kafka w)) as Hlaw.
  destruct (w_net w) as [|[d [ | e | e]] evs]; cbn;
    destruct (kgo_produce t p k v (w_kafka w)) as [[o|e'] st']; cbn; naive_solver.
Qed.

Lemma send_routed_record meta i st :
  triple (fun w => w_kafka w = st) (send_routed meta i)
    (fun r w => one_record st (si_Body i)
       (match r with Ok out => Some (so_SequenceNumber out) | Err _ => None end) (w_kafka w)).
Proof.
  unfold send_routed.
  apply triple_bind_preserves; [case_match; solve_kstate | by left |]. intros rk.
  apply triple_bind_preserves; [auto with kstate | by left |]. intros sh. cbv zeta.
  eapply triple_bind.
  - apply triple_wrap. eapply triple_weaken; [apply Produce_record |].
    intros r w H. destruct r as [o|e]; [|exact H].
    exact (H : (fun o w => one_record st (si_Body i) (Some o) (w_kafka w)) o w).
  - intros o w H. exact H.
Qed.
End Sent.

(** ** Properties *)

(** C14. Whatever the network does, one call of [SendMessage] appends at most one record
    to Kafka, with the caller's body; a reported sequence number is that record's
    offset; and a success without a record is a deduplicated send, which returns the
    deduplication id. *)
Theorem SendMessage_at_most_one_record {R : RedisServer} {RL : RedisLaws R} {K : KafkaServer}
    {KL : KafkaLaws K} {U : UUIDSource} d i w :
  let r := fst (SendMessage d i w) in
  let st' := w_kafka (snd (SendMessage d i w)) in
  (st' = w_kafka w /\
   forall out, r = Ok out -> out = MkSendOutput (si_MessageDeduplicationID i) 0) \/
  (exists t p k, st' = append_record t p (KRecord k (si_Body i)) (w_kafka w) /\
     forall out, r = Ok out ->
       so_SequenceNumber out = Z.of_nat (length (partition_log (w_kafka w) t p))).
Proof.
  cbv zeta. set (st := w_kafka w).
  set (Q := fun (r : res SendMessageOutput) w' =>
    (w_kafka w' = st /\ forall out, r = Ok out -> out = MkSendOutput (si_MessageDeduplicationID i) 0) \/
    (exists t p k, w_kafka w' = append_record t p (KRecord k (si_Body i)) st /\
       forall out, r = Ok out -> so_SequenceNumber out = Z.of_nat (length (partition_log st t p)))).
  assert (Herr : forall e w, w_kafka w = st -> Q (Err e) w) by (intros ?? ?; left; naive_solver).
  change (Q (fst (SendMessage d i w)) (snd (SendMessage d i w))).
  enough (H : triple (fun w => w_kafka w = st) (SendMessage d i) Q) by (by apply H).
  unfold SendMessage. cbv zeta. case_match; [by apply triple_fail; auto |].
  apply triple_bind_preserves; [solve_kstate | done |]. intros [meta|]; [| by apply triple_fail; auto].
  case_match; [by apply triple_fail; auto |].
  apply triple_bind_preserves; [unfold dedup_check; solve_kstate | done |]. intros [|]; simpl.
  - eapply triple_weaken; [apply send_routed_record |]. intros r w' [[Hst Ho] | (t & p & k & Hst & Ho)].
    + left. destruct r; [done | naive_solver].
    + right. exists t, p, k. split; [done |]. intros out ->. by apply Ho.
  - apply triple_ret. intros w' Hw'. left. naive_solver.
Qed.

(** ** A queue as its readers see it *)

(** The metadata row of [q] reads as [meta] and its shard map as [shards]. *)
Definition serves (w : world) (q : string) (meta : QueueMeta) (shards : list Shard) : Prop :=
  (exists h, hash_at (ms w) (w_redis w) (QueueMetaKey q) = Some h /\ h <> ∅ /\
     meta_of_hash h = meta) /\
  (exists s, str_at (ms w) (w_redis w) (ShardMapKey q) = Some (Some s) /\
     Unmarshal s = Some shards).

(** Only the two rows matter. *)
Lemma serves_live w w' q meta shards :
  ms w' = ms w ->
  (forall k, ~ of_family FDedup k -> live (ms w) (w_redis w') k = live (ms w) (w_redis w) k) ->
  serves w q meta shards -> serves w' q meta shards.
Proof.
  intros Hms Hlive [(h & Hh & Hne & Hm) (s & Hs & Hl)].
  assert (Hm' : live (ms w) (w_redis w') (QueueMetaKey q) = live (ms w) (w_redis w) (QueueMetaKey q)).
  { apply Hlive. intros Hf. by pose proof (of_family_inj _ _ _ Hf (QueueMetaKey_family q)). }
  assert (Hs' : live (ms w) (w_redis w') (ShardMapKey q) = live (ms w) (w_redis w) (ShardMapKey q)).
  { apply Hlive. intros Hf. by pose proof (of_family_inj _ _ _ Hf (ShardMapKey_family q)). }
  unfold serves, hash_at, str_at in *. rewrite Hms, Hm', Hs'. split; eexists; split_and!; done.
Qed.

(** Sending within the size limit, and with a group if the queue is FIFO. *)
Definition acceptable (meta : QueueMeta) (i : SendMessageInput) : Prop :=
  Z.of_nat (String.length (si_Body i)) <= MaxMessageBodyBytes /\
  (qm_FIFO meta = true -> si_MessageGroupID i <> "").

(** The record a send appends. *)
Definition sent_record (meta : QueueMeta) (i : SendMessageInput) : krecord :=
  KRecord (if qm_FIFO meta then Some (si_MessageGroupID i) else None) (si_Body i).

Section Calm.
Context {R : RedisServer} {RL : RedisLaws R} {K : KafkaServer} {KL : KafkaLaws K} {U : UUIDSource}.
Context (w : world) (Hcalm : calm w).

Lemma SendMessage_served d i meta shards :
  serves w (si_QueueName i) meta shards -> acceptable meta i ->
  SendMessage d i w =
  match dedup_check d meta i w with
  | (Ok true, w1) => send_routed meta i w1
  | (Ok false, w1) => (Ok (MkSendOutput (si_MessageDeduplicationID i) 0), w1)
  | (Err e, w1) => (Err e, w1)
  end.
Proof.
  intros [(h & Hh & Hne & <-) _] [Hsize Hgroup]. unfold SendMessage. cbv zeta.
  destruct (Z.ltb_spec MaxMessageBodyBytes (Z.of_nat (String.length (si_Body i)))); [lia |].
  rewrite mbind_run. unfold wrap_err at 1. rewrite (GetQueueMeta_calm w Hcalm _ h Hh).
  rewrite decide_False by done.
  destruct (qm_FIFO (meta_of_hash h)) eqn:Hf; simpl.
  - rewrite bool_decide_eq_false_2 by auto. rewrite mbind_run.
    by destruct (dedup_check d (meta_of_hash h) i w) as [[[]|e] w1].
  - rewrite mbind_run. by destruct (dedup_check d (meta_of_hash h) i w) as [[[]|e] w1].
Qed.

(** A send with a group goes to the shard and partition of the group. *)
Lemma send_routed_group i meta shards sh :
  serves w (si_QueueName i) meta shards -> si_MessageGroupID i <> "" ->
  SelectShard (ActiveShards shards) (si_MessageGroupID i) = Some sh ->
  let p := PartitionWithinShard (si_MessageGroupID i) (qm_PartitionsPerShard meta) in
  match send_routed meta i w with
  | (Ok out, w') =>
    so_SequenceNumber out = Z.of_nat (length (partition_log (w_kafka w) (sh_Topic sh) p)) /\
    w_kafka w' = append_record (sh_Topic sh) p (sent_record meta i) (w_kafka w) /\
    w_redis w' = w_redis w /\ w_clock w' = w_clock w /\ calm w'
  | (Err _, w') => w' = w
  end.
Proof.
  intros [_ (s & Hs & Hl)] Hg Hsel p. unfold send_routed.
  rewrite bool_decide_eq_false_2, mret_bind, mbind_run by done.
  rewrite (RouteForSend_calm w Hcalm _ s shards _ sh Hs Hl Hsel). cbv zeta. rewrite mbind_run.
  unfold wrap_err. fold p.
  pose proof (Produce_calm w Hcalm (sh_Topic sh) p
    (if qm_FIFO meta then Some (si_MessageGroupID i) else None) (si_Body i)) as Hp.
  destruct (kgo_produce _ _ _ _ _) as [[o|e] st].
  - destruct Hp as (-> & -> & ->). done.
  - by rewrite Hp.
Qed.
End Calm.

(** The log of a partition grows. *)
Definition logs_extend (st st' : kafka) : Prop :=
  forall t p, partition_log st t p `prefix_of` partition_log st' t p.

Lemma partition_log_append t p r st :
  partition_log (append_record t p r st) t p = partition_log st t p ++ [r].
Proof. unfold partition_log at 1, append_record. simpl. by rewrite lookup_insert_eq. Qed.

(** C5. Two messages of one group, without deduplication, sent while the queue is
    described by the same metadata and shard map, land in the same partition of the
    same active shard, in the order they were sent, whatever else was produced in
    between: the partition holds both records, each at its sequence number. *)
Theorem SendMessage_group_order {R : RedisServer} {RL : RedisLaws R} {K : KafkaServer}
    {KL : KafkaLaws K} {U : UUIDSource} d i1 i2 w1 w1' w2 w2' meta shards out1 out2 :
  calm w1 -> calm w2 -> routable shards ->
  serves w1 (si_QueueName i1) meta shards -> serves w2 (si_QueueName i1) meta shards ->
  acceptable meta i1 -> acceptable meta i2 -> si_QueueName i2 = si_QueueName i1 ->
  si_MessageGroupID i1 <> "" -> si_MessageGroupID i2 = si_MessageGroupID i1 ->
  si_MessageDeduplicationID i1 = "" -> si_MessageDeduplicationID i2 = "" ->
  SendMessage d i1 w1 = (Ok out1, w1') -> logs_extend (w_kafka w1') (w_kafka w2) ->
  SendMessage d i2 w2 = (Ok out2, w2') ->
  exists sh p, sh ∈ shards /\ is_active_phase sh = true /\
    let log := partition_log (w_kafka w2') (sh_Topic sh) p in
    log !! Z.to_nat (so_SequenceNumber out1) = Some (sent_record meta i1) /\
    log !! Z.to_nat (so_SequenceNumber out2) = Some (sent_record meta i2) /\
    so_SequenceNumber out1 < so_SequenceNumber out2.
Proof.
  intros Hc1 Hc2 Hrout Hs1 Hs2 Ha1 Ha2 Hq Hg1 Hg2 Hd1 Hd2 Hsend1 Hext Hsend2.
  destruct (SelectShard_active shards (si_MessageGroupID i1) Hrout) as (sh & Hsel & Hin & Hact).
  rewrite (SendMessage_served w1 Hc1 d i1 meta shards) in Hsend1 by done.
  rewrite (SendMessage_served w2 Hc2 d i2 meta shards) in Hsend2 by (rewrite ?Hq; done).
  unfold dedup_check in Hsend1, Hsend2.
  rewrite Hd1, bool_decide_eq_true_2, andb_false_r in Hsend1 by done.
  rewrite Hd2, bool_decide_eq_true_2, andb_false_r in Hsend2 by done. cbn in Hsend1, Hsend2.
  pose proof (send_routed_group w1 Hc1 i1 meta shards sh Hs1 Hg1 Hsel) as H1.
  pose proof (send_routed_group w2 Hc2 i2 meta shards sh) as H2.
  rewrite Hq, Hg2 in H2. specialize (H2 Hs2 Hg1 Hsel). cbv zeta in H1, H2.
  rewrite Hsend1 in H1. rewrite Hsend2 in H2.
  set (p := PartitionWithinShard (si_MessageGroupID i1) (qm_PartitionsPerShard meta)) in *.
  destruct H1 as (-> & Hk1 & _). destruct H2 as (-> & Hk2 & _).
  exists sh, p. split; [done |]. split; [done |]. cbv zeta.
  rewrite Hk2, partition_log_append. destruct (Hext (sh_Topic sh) p) as [rest Hrest].
  rewrite Hk1, partition_log_append in Hrest.
  rewrite !Nat2Z.id. split_and!.
  - rewrite Hrest, <- !app_assoc. apply list_lookup_middle. done.
  - by apply list_lookup_middle.
  - rewrite Hrest, !length_app. simpl. lia.
Qed.

(** A FIFO queue with one shard, as the operator publishes it. *)
Definition orders_meta : QueueMeta :=
  MkQueueMeta true 30 5 "orders-dlq" 6 345600 (1600000000 * Second).
Definition orders_topic : string := "kmsvc.orders.fifo.shard-0".
Definition orders_shards : list Shard := [MkShard "0" orders_topic 0 FullHashRangeEnd "Active"].

Definition orders_world : world :=
  set_kafka (Kafka {[orders_topic := MkTopicConfig 6 3 345600 2]} ∅ ∅)
    (snd (PutShardMap "orders" orders_shards (snd (PutQueueMeta "orders" orders_meta world0)))).

Definition order (dedupID body : string) : SendMessageInput := MkSendInput "orders" body "g1" dedupID.

Lemma orders_world_serves : serves orders_world "orders" orders_meta orders_shards.
Proof.
  split.
  - exists (hash_set ∅ (meta_fields orders_meta (qm_CreatedAt orders_meta))).
    split_and!; [vm_decide | apply hash_set_nonempty | vm_decide].
  - exists (Marshal orders_shards). split; [vm_decide |].
    apply Unmarshal_Marshal_list. apply Forall_singleton. by vm_compute.
Qed.

Lemma orders_shards_routable : routable orders_shards.
Proof.
  intros h Hh. exists (MkShard "0" orders_topic 0 FullHashRangeEnd "Active").
  change (ActiveShards orders_shards) with orders_shards.
  unfold covering, orders_shards. rewrite filter_cons_True; [done |].
  apply in_range_spec. simpl. lia.
Qed.

Lemma SendMessage_group_order_witness :
  let w' := snd (SendMessage 0 (order "" "first") orders_world) in
  exists out1 out2 w'' sh p,
    SendMessage 0 (order "" "first") orders_world = (Ok out1, w') /\
    SendMessage 0 (order "" "second") w' = (Ok out2, w'') /\
    sh ∈ orders_shards /\
    partition_log (w_kafka w'') (sh_Topic sh) p !! Z.to_nat (so_SequenceNumber out1) =
      Some (sent_record orders_meta (order "" "first")) /\
    so_SequenceNumber out1 < so_SequenceNumber out2.
Proof.
  cbv zeta. set (w' := snd (SendMessage 0 (order "" "first") orders_world)).
  set (w'' := snd (SendMessage 0 (order "" "second") w')).
  assert (H1 : SendMessage 0 (order "" "first") orders_world = (Ok (MkSendOutput "uuid-0" 0), w'))
    by (apply run_fst; by vm_compute).
  assert (H2 : SendMessage 0 (order "" "second") w' = (Ok (MkSendOutput "uuid-1" 1), w''))
    by (apply run_fst; by vm_compute).
  assert (Hr : w_redis w' = w_redis orders_world) by vm_decide.
  assert (Hm : ms w' = ms orders_world) by (by vm_compute).
  assert (Hs : serves w' "orders" orders_meta orders_shards)
    by (unfold serves; rewrite Hr, Hm; apply orders_world_serves).
  destruct (SendMessage_group_order 0 (order "" "first") (order "" "second")
              orders_world w' w' w'' orders_meta orders_shards
              (MkSendOutput "uuid-0" 0) (MkSendOutput "uuid-1" 1)
              eq_refl eq_refl orders_shards_routable orders_world_serves Hs)
    as (sh & p & Hin & _ & Hlog & _ & Hlt);
    [split; [by vm_compute | done] | split; [by vm_compute | done] | done | done | done | done | done
    | exact H1 | by intros t q | exact H2 |].
  - exists (MkSendOutput "uuid-0" 0), (MkSendOutput "uuid-1" 1), w'', sh, p.
    split_and!; [exact H1 | exact H2 | exact Hin | exact Hlog | exact Hlt].
Defined.

(** C25. A FIFO send whose deduplication id is already claimed in its group succeeds
    without producing anything: the answer is the deduplication id itself and the
    world is unchanged.  A send with a fresh id claims it for the window; the claim
    is not given back when the send then fails, so that after a refused produce the
    caller's retry is answered with success although the message is in no log. *)
Theorem SendMessage_dedup {R : RedisServer} {RL : RedisLaws R} {K : KafkaServer}
    {KL : KafkaLaws K} {U : UUIDSource} s i w meta shards :
  calm w -> 0 < s -> routable shards ->
  serves w (si_QueueName i) meta shards -> acceptable meta i ->
  qm_FIFO meta = true -> si_MessageDeduplicationID i <> "" ->
  let key := DedupKey (si_QueueName i) (si_MessageGroupID i) (si_MessageDeduplicationID i) in
  let deduplicated := Ok (MkSendOutput (si_MessageDeduplicationID i) 0) in
  (is_Some (live (ms w) (w_redis w) key) -> SendMessage (s * Second) i w = (deduplicated, w)) /\
  (live (ms w) (w_redis w) key = None ->
   let '(r, w1) := SendMessage (s * Second) i w in
   w_redis w1 = <[key := Entry (VStr "1") (Some (ms w + s * 1000))]> (w_redis w) /\
   (is_ok r = false -> w_kafka w1 = w_kafka w /\ SendMessage (s * Second) i w1 = (deduplicated, w1))).
Proof.
  intros Hcalm Hs Hrout Hserves Hacc Hfifo Hid key dd.
  assert (Hms : cli_nx_ms (s * Second) = Some (s * 1000)).
  { replace (s * Second) with (s * 1000 * Millisecond) by (unfold Second, Millisecond; lia).
    apply law_nx_pos. lia. }
  assert (Hwin : (if s * Second <=? 0 then defaultDedupWindow else s * Second) = s * Second)
    by (destruct (Z.leb_spec (s * Second) 0); [unfold Second in *; lia | done]).
  assert (Hcheck : forall w1, calm w1 -> ms w1 = ms w ->
    dedup_check (s * Second) meta i w1 =
    match live (ms w) (w_redis w1) key with
    | Some _ => (Ok false, w1)
    | None => (Ok true, set_redis (<[key := Entry (VStr "1") (Some (ms w + s * 1000))]> (w_redis w1)) w1)
    end).
  { intros w1 Hc1 Hm1. unfold dedup_check. rewrite Hfifo, bool_decide_eq_false_2 by done. simpl.
    rewrite Hwin. unfold wrap_err. rewrite (TryDedup_calm w1 Hc1), law_setnx, Hms, Hm1.
    destruct (Z.leb_spec (s * 1000) 0); [lia |]. fold key.
    destruct (live (ms w) (w_redis w1) key); [by rewrite set_redis_id | done]. }
  split.
  - intros [v Hv]. rewrite (SendMessage_served w Hcalm _ i meta shards Hserves Hacc).
    by rewrite (Hcheck w), Hv.
  - intros Hnone. rewrite (SendMessage_served w Hcalm _ i meta shards Hserves Hacc).
    rewrite (Hcheck w), Hnone by done.
    set (w1 := set_redis _ w).
    assert (Hframe : forall k, ~ of_family FDedup k -> live (ms w) (w_redis w1) k = live (ms w) (w_redis w) k).
    { intros k Hk. apply live_insert_ne. intros <-. apply Hk, DedupKey_family. }
    assert (Hserves1 : serves w1 (si_QueueName i) meta shards) by (by apply (serves_live w)).
    destruct (SelectShard_active shards (si_MessageGroupID i) Hrout) as (sh & Hsel & _ & _).
    pose proof (send_routed_group w1 Hcalm i meta shards sh Hserves1 (proj2 Hacc Hfifo) Hsel) as Hsend.
    cbv zeta in Hsend. destruct (send_routed meta i w1) as [[out|e] w2].
    + by destruct Hsend as (_ & _ & -> & _ & _).
    + subst w2. split; [done |]. intros _. split; [done |].
      rewrite (SendMessage_served w1 Hcalm _ i meta shards Hserves1 Hacc), (Hcheck w1) by done.
      replace (live (ms w) (w_redis w1) key) with (Some (VStr "1")); [done |].
      unfold w1. cbn [w_redis set_redis]. rewrite live_insert_eq. unfold expired. simpl.
      by destruct (Z.ltb_spec (ms w + s * 1000) (ms w)); [lia |].
Qed.

(** The same queue before its topic exists: every produce is refused. *)
Definition no_topic_world : world := set_kafka (Kafka ∅ ∅ ∅) orders_world.

Lemma SendMessage_dedup_witness :
  let w1 := snd (SendMessage (300 * Second) (order "d1" "paid") no_topic_world) in
  is_ok (fst (SendMessage (300 * Second) (order "d1" "paid") no_topic_world)) = false /\
  SendMessage (300 * Second) (order "d1" "paid") w1 = (Ok (MkSendOutput "d1" 0), w1) /\
  k_log (w_kafka w1) = ∅.
Proof.
  destruct (SendMessage_dedup 300 (order "d1" "paid") no_topic_world orders_meta orders_shards)
    as [_ H]; [done | done | apply orders_shards_routable | apply orders_world_serves
              | split; [by vm_compute | done] | done | done |].
  specialize (H ltac:(by vm_compute)). cbv zeta.
  destruct (SendMessage (300 * Second) (order "d1" "paid") no_topic_world) as [r w1] eqn:E.
  assert (Hr : is_ok r = false).
  { change (is_ok (fst (r, w1)) = false). rewrite <- E. by vm_compute. }
  destruct H as [_ H]. destruct (H Hr) as [Hk Hs].
  split; [exact Hr |]. split; [exact Hs |].
  refine (eq_trans (f_equal k_log Hk) _). done.
Defined.

(** The three refusals before any effect. *)
Section Refusals.
Context {R : RedisServer} {RL : RedisLaws R} {K : KafkaServer} {U : UUIDSource} (d : Z) (i : SendMessageInput) (w : world).

Lemma SendMessage_too_long :
  262144 < Z.of_nat (String.length (si_Body i)) ->
  SendMessage d i w = (Err (ErrText "message body exceeds 262144 bytes"), w).
Proof.
  intros Hlen. unfold SendMessage. change MaxMessageBodyBytes with 262144.
  destruct (Z.ltb_spec 262144 (Z.of_nat (String.length (si_Body i)))); [done | lia].
Qed.

Context (Hcalm : calm w) (Hlen : Z.of_nat (String.length (si_Body i)) <= 262144).

Lemma SendMessage_unknown :
  hash_at (ms w) (w_redis w) (QueueMetaKey (si_QueueName i)) = Some ∅ ->
  SendMessage d i w = (Err (ErrText ("queue " +:+ si_QueueName i +:+ " not found")), w).
Proof.
  intros Hnone. unfold SendMessage. change MaxMessageBodyBytes with 262144. cbv zeta.
  destruct (Z.ltb_spec 262144 (Z.of_nat (String.length (si_Body i)))); [lia |].
  rewrite mbind_run. unfold wrap_err at 1. by rewrite (GetQueueMeta_calm w Hcalm _ ∅ Hnone).
Qed.

Lemma SendMessage_ungrouped meta shards :
  serves w (si_QueueName i) meta shards -> qm_FIFO meta = true -> si_MessageGroupID i = "" ->
  SendMessage d i w =
  (Err (ErrText ("messageGroupId is required for FIFO queue " +:+ si_QueueName i)), w).
Proof.
  intros [(h & Hh & Hne & <-) _] Hf Hg. unfold SendMessage. change MaxMessageBodyBytes with 262144. cbv zeta.
  destruct (Z.ltb_spec 262144 (Z.of_nat (String.length (si_Body i)))); [lia |].
  rewrite mbind_run. unfold wrap_err at 1. rewrite (GetQueueMeta_calm w Hcalm _ h Hh).
  by rewrite decide_False, Hf, bool_decide_eq_true_2.
Qed.
End Refusals.

(** What [SendMessage] refuses, it refuses before any effect: a body over 256 KiB
    (whatever the state of the network), a queue without metadata, a FIFO message
    without a group; and a message whose key no active shard covers is refused with
    nothing produced. *)
Theorem SendMessage_rejects {R : RedisServer} {RL : RedisLaws R} {K : KafkaServer}
    {KL : KafkaLaws K} {U : UUIDSource} d i w :
  (262144 < Z.of_nat (String.length (si_Body i)) ->
   SendMessage d i w = (Err (ErrText "message body exceeds 262144 bytes"), w)) /\
  (calm w -> Z.of_nat (String.length (si_Body i)) <= 262144 ->
   (hash_at (ms w) (w_redis w) (QueueMetaKey (si_QueueName i)) = Some ∅ ->
    SendMessage d i w = (Err (ErrText ("queue " +:+ si_QueueName i +:+ " not found")), w)) /\
   (forall meta shards, serves w (si_QueueName i) meta shards ->
    (qm_FIFO meta = true -> si_MessageGroupID i = "" ->
     SendMessage d i w =
     (Err (ErrText ("messageGroupId is required for FIFO queue " +:+ si_QueueName i)), w)) /\
    (qm_FIFO meta = false -> si_MessageGroupID i <> "" -> shards <> [] ->
     SelectShard (ActiveShards shards) (si_MessageGroupID i) = None ->
     SendMessage d i w =
     (Err (ErrText ("no active shard covers the routing key for queue " +:+ si_QueueName i)), w)))).
Proof.
  split; [apply SendMessage_too_long |]. intros Hcalm Hlen. split; [by apply SendMessage_unknown |].
  - intros meta shards Hserves. split.
    + by apply (SendMessage_ungrouped d i w Hcalm Hlen meta shards).
    + intros Hf Hg Hne Hnone.
      rewrite (SendMessage_served w Hcalm d i meta shards Hserves) by (split; [done | congruence]).
      unfold dedup_check, send_routed. rewrite Hf. cbn [andb]. rewrite mret_run.
      rewrite bool_decide_eq_false_2, mret_bind, mbind_run by done.
      destruct Hserves as [_ (s & Hs & Hl)]. unfold RouteForSend.
      by rewrite mbind_run, (router_shards_calm w Hcalm _ s shards), Hnone.
Qed.

Lemma SendMessage_rejects_witness :
  SendMessage 0 (MkSendInput "orders" "x" "" "") orders_world =
    (Err (ErrText "messageGroupId is required for FIFO queue orders"), orders_world) /\
  SendMessage 0 (MkSendInput "nosuch" "x" "" "") orders_world =
    (Err (ErrText "queue nosuch not found"), orders_world).
Proof.
  split.
  - destruct (SendMessage_rejects 0 (MkSendInput "orders" "x" "" "") orders_world) as [_ H].
    destruct (H eq_refl ltac:(by vm_compute)) as [_ H2].
    exact (proj1 (H2 orders_meta orders_shards orders_world_serves) eq_refl eq_refl).
  - destruct (SendMessage_rejects 0 (MkSendInput "nosuch" "x" "" "") orders_world) as [_ H].
    exact (proj1 (H eq_refl ltac:(by vm_compute)) ltac:(by vm_compute)).
Defined.

Lemma SendMessage_at_most_one_record_witness :
  let r := fst (SendMessage 0 (order "" "first") orders_world) in
  let st' := w_kafka (snd (SendMessage 0 (order "" "first") orders_world)) in
  (st' = w_kafka orders_world /\
   forall out, r = Ok out -> out = MkSendOutput "" 0) \/
  (exists t p k, st' = append_record t p (KRecord k "first") (w_kafka orders_world) /\
     forall out, r = Ok out ->
       so_SequenceNumber out = Z.of_nat (length (partition_log (w_kafka orders_world) t p))).
Proof. apply (SendMessage_at_most_one_record 0 (order "" "first") orders_world). Defined.
