(* ===== verification/Receive.v ===== *)
(** Receiving: [internal/core/queue/receive_message.go] and [fifo.go], and the poll of
    [internal/kafka/consume.go].

    The long-poll loop runs on fuel: [receive_loop] gives [None] when it runs out.
    Every iteration that does not return sleeps for the poll interval, so
    [receive_fuel], the number of intervals in the wait time plus two, is always
    enough ([receive_loop_returns]). *)

From S2P Require Import Prelude GoNum GoStr Topology Json Keys Redis World Schema Store Scripts Send.

Local Open Scope Z_scope.

(** ** Data *)

Definition defaultPollInterval : Z := 200 * Millisecond.

Record Message : Type := MkMessage {
  msg_ReceiptHandle : string;
  msg_Body : string;
  msg_ReceiveCount : Z
}.

Record ReceiveMessageInput : Type := MkReceiveInput {
  ri_QueueName : string;
  ri_MaxNumberOfMessages : Z;
  ri_WaitTime : Z;
  ri_VisibilityTimeoutOverride : Z
}.

(** [topicToShardID] *)
Definition topic_to_shard (shards : list Shard) : gmap string string :=
  foldl (fun m sh => <[sh_Topic sh := sh_ID sh]> m) ∅ shards.

(** ** The poll *)

(** kgo's [PollFetches] under a context that ends after [timeout]: what the
    environment has in store, or else the context's error once it has ended. *)
Definition PollFetches (timeout : Z) : M world (list error * list FetchedRecord) := fun w =>
  match w_fetches w with
  | f :: fs => (Ok (f_errors f, f_records f), elapse (Z.min (f_wait f) timeout) (set_fetches fs w))
  | [] => (o ← sleep timeout; mret ([default ErrDeadlineExceeded o], [])) w
  end.

Definition Poll (timeout : Z) : M world (list FetchedRecord) :=
  r ← PollFetches timeout;
  match r with
  | (e :: _, _) => fail (ErrWrap "poll fetches: " e)
  | ([], records) => mret records
  end.

Section Ops.
Context {R : RedisServer} {U : UUIDSource}.

(** *** fifo.go *)

Definition acquireFIFOSlot (queueName groupID receiptHandle : string) (visibilityTimeout : Z)
    : M world bool :=
  wrap_err ("acquire fifo slot " +:+ queueName +:+ "/" +:+ groupID +:+ ": ")
    (AcquireFIFOLock queueName groupID receiptHandle visibilityTimeout).

(** *** receive_message.go *)

Definition newReceiptHandle (shardID : string) (partition offset : Z) : M world string :=
  id ← NewString;
  mret (shardID +:+ ":" +:+ FormatInt partition +:+ ":" +:+ FormatInt offset +:+ ":" +:+ id).

Definition receive_prefix (queueName : string) : string := "receive message " +:+ queueName +:+ ": ".

(** Handing out a handle popped off the redelivery list; [None] stands for
    [Message{}, false, nil]. *)
Definition hand_out_handle (queueName : string) (visTimeout : Z) (handle : string)
    : M world (option Message) :=
  rec ← wrap_err (receive_prefix queueName) (GetInFlight queueName handle);
  match rec with
  | None => mret None
  | Some rec =>
    acquired ← (if bool_decide (if_GroupID rec = "") then mret true
                else acquireFIFOSlot queueName (if_GroupID rec) handle visTimeout);
    if negb acquired then
      _ ← wrap_err (receive_prefix queueName) (PushRedeliverable queueName handle);
      mret None
    else
      _ ← wrap_err (receive_prefix queueName) (ExtendVisibility queueName handle visTimeout);
      mret (Some (MkMessage handle (if_Body rec) (if_ReceiveCount rec)))
  end.

Definition handOutRedeliverable (queueName : string) (visTimeout : Z) : M world (option Message) :=
  popped ← wrap_err (receive_prefix queueName) (PopRedeliverable queueName);
  match popped with
  | None => mret None
  | Some handle => hand_out_handle queueName visTimeout handle
  end.

Definition fresh_record (shardID groupID : string) (rec : FetchedRecord) : InFlightRecord :=
  {| if_ShardID := shardID; if_Topic := rec_Topic rec; if_Partition := rec_Partition rec;
     if_Offset := rec_Offset rec; if_GroupID := groupID; if_DedupID := "";
     if_ReceiveCount := 1; if_Body := rec_Value rec |}.

Definition handOutFresh (meta : QueueMeta) (queueName shardID : string) (rec : FetchedRecord)
    (visTimeout : Z) : M world (option Message) :=
  _ ← wrap_err (receive_prefix queueName)
        (AddPending queueName shardID (rec_Partition rec) (rec_Offset rec));
  receiptHandle ← newReceiptHandle shardID (rec_Partition rec) (rec_Offset rec);
  let groupID := if qm_FIFO meta then default "" (rec_Key rec) else "" in
  _ ← wrap_err (receive_prefix queueName)
        (PutInFlight queueName receiptHandle (fresh_record shardID groupID rec) visTimeout);
  acquired ← (if bool_decide (groupID = "") then mret true
              else acquireFIFOSlot queueName groupID receiptHandle visTimeout);
  if negb acquired then
    _ ← wrap_err (receive_prefix queueName) (PushRedeliverable queueName receiptHandle);
    mret None
  else mret (Some (MkMessage receiptHandle (rec_Value rec) 1)).

(** The two inner loops; [n] is the room left, [max - len(out)]. *)
Fixpoint drain (queueName : string) (visTimeout : Z) (n : nat) : M world (list Message) :=
  match n with
  | O => mret []
  | S n' =>
    handed ← handOutRedeliverable queueName visTimeout;
    match handed with
    | None => mret []
    | Some msg => rest ← drain queueName visTimeout n'; mret (msg :: rest)
    end
  end.

Fixpoint hand_out_records (meta : QueueMeta) (queueName : string) (topics : gmap string string)
    (visTimeout : Z) (n : nat) (records : list FetchedRecord) : M world (list Message) :=
  match records, n with
  | [], _ => mret []
  | _ :: _, O => mret []
  | rec :: records', S n' =>
    match topics !! rec_Topic rec with
    | None => hand_out_records meta queueName topics visTimeout n records'
    | Some shardID =>
      handed ← handOutFresh meta queueName shardID rec visTimeout;
      match handed with
      | Some msg =>
        rest ← hand_out_records meta queueName topics visTimeout n' records';
        mret (msg :: rest)
      | None => hand_out_records meta queueName topics visTimeout n records'
      end
    end
  end.

(** The body of the long-poll loop up to its exit test: the messages in [out]. *)
Definition receive_once (meta : QueueMeta) (queueName : string) (topics : gmap string string)
    (visTimeout interval : Z) (max : nat) : M world (list Message) :=
  out ← drain queueName visTimeout max;
  if Nat.ltb (length out) max then
    r ← attempt (Poll interval);
    cerr ← ctx_Err;
    match r, cerr with
    | Err _, Some ce => fail ce
    | Err e, None =>
      if is_deadline e then mret out else fail (ErrWrap (receive_prefix queueName) e)
    | Ok records, _ =>
      more ← hand_out_records meta queueName topics visTimeout (max - length out) records;
      mret (out ++ more)
    end
  else mret out.

Fixpoint receive_loop (meta : QueueMeta) (queueName : string) (topics : gmap string string)
    (visTimeout interval : Z) (max : nat) (deadline : Z) (fuel : nat) (w : world)
    : option (res (list Message) * world) :=
  match fuel with
  | O => None
  | S fuel' =>
    match receive_once meta queueName topics visTimeout interval max w with
    | (Err e, w1) => Some (Err e, w1)
    | (Ok out, w1) =>
      if Nat.ltb 0 (length out) || (deadline <? w_clock w1) then Some (Ok out, w1)
      else
        match sleep interval w1 with
        | (Ok None, w2) =>
          receive_loop meta queueName topics visTimeout interval max deadline fuel' w2
        | (Ok (Some e), w2) | (Err e, w2) => Some (Err e, w2)
        end
    end
  end.

Definition receive_fuel (waitTime interval : Z) : nat := S (S (Z.to_nat (waitTime / interval))).

(** The parameters the input resolves to. *)
Definition effective_max (inp : ReceiveMessageInput) : nat :=
  let max := ri_MaxNumberOfMessages inp in
  Z.to_nat (if (max <=? 0) || (10 <? max) then 10 else max).

Definition effective_visibility (meta : QueueMeta) (inp : ReceiveMessageInput) : Z :=
  if ri_VisibilityTimeoutOverride inp <=? 0
  then qm_VisibilityTimeoutSeconds meta * Second else ri_VisibilityTimeoutOverride inp.

Definition effective_interval (PollInterval : Z) : Z :=
  if PollInterval <=? 0 then defaultPollInterval else PollInterval.

Definition ReceiveMessage (PollInterval : Z) (inp : ReceiveMessageInput) : M world (list Message) :=
  let queueName := ri_QueueName inp in
  meta ← wrap_err (receive_prefix queueName) (GetQueueMeta queueName);
  match meta with
  | None => fail (ErrText ("queue " +:+ queueName +:+ " not found"))
  | Some meta =>
    let visTimeout := effective_visibility meta inp in
    let max := effective_max inp in
    let interval := effective_interval PollInterval in
    shards ← ConsumableShards queueName;
    now ← Now;
    let deadline := now + ri_WaitTime inp in
    fueled (receive_loop meta queueName (topic_to_shard shards) visTimeout interval max deadline
              (receive_fuel (ri_WaitTime inp) interval))
  end.
End Ops.

(** ** Typing and time *)

Section Kept.
Context {R : RedisServer} {RL : RedisLaws R} {U : UUIDSource}.

Lemma typed_acquireFIFOSlot q g h t : preserves typed (acquireFIFOSlot q g h t).
Proof. unfold acquireFIFOSlot. solve_typed. Qed.

Lemma typed_newReceiptHandle s p o : preserves typed (newReceiptHandle s p o).
Proof. unfold newReceiptHandle. solve_typed. Qed.

#[local] Hint Resolve typed_acquireFIFOSlot typed_newReceiptHandle : preserve.

Lemma typed_handOutRedeliverable q t : preserves typed (handOutRedeliverable q t).
Proof. unfold handOutRedeliverable, hand_out_handle. solve_typed. Qed.

Lemma typed_handOutFresh meta q s rec t : preserves typed (handOutFresh meta q s rec t).
Proof. unfold handOutFresh. cbv zeta. solve_typed. Qed.

#[local] Hint Resolve typed_handOutRedeliverable typed_handOutFresh : preserve.

Lemma typed_drain q t n : preserves typed (drain q t n).
Proof. induction n as [|n IH]; simpl; solve_typed. Qed.

Lemma typed_hand_out_records meta q topics t n l :
  preserves typed (hand_out_records meta q topics t n l).
Proof. revert n. induction l as [|rec l IH]; intros n; simpl; [| destruct n]; solve_typed. Qed.

Lemma typed_PollFetches t : preserves typed (PollFetches t).
Proof.
  intros w Hw. unfold PollFetches. destruct (w_fetches w); [| done].
  by apply (preserves_bind typed (sleep t)); [apply typed_sleep | intros; apply preserves_ret |].
Qed.

#[local] Hint Resolve typed_drain typed_hand_out_records typed_PollFetches : preserve.

Lemma typed_receive_once meta q topics t i n :
  preserves typed (receive_once meta q topics t i n).
Proof. unfold receive_once, Poll. solve_typed. Qed.

Lemma typed_receive_loop meta q topics t i n d fuel w r w' :
  typed w -> receive_loop meta q topics t i n d fuel w = Some (r, w') -> typed w'.
Proof.
  revert w. induction fuel as [|fuel IH]; intros w Hw; [done |]. simpl.
  pose proof (typed_receive_once meta q topics t i n w Hw) as H1.
  destruct (receive_once meta q topics t i n w) as [[out|e] w1]; simpl in H1; [| by intros [= <- <-]].
  destruct (_ || _); [by intros [= <- <-] |].
  pose proof (typed_sleep i w1 H1) as H2. destruct (sleep i w1) as [[[e|]|e] w2]; simpl in H2;
    [by intros [= <- <-] | by apply IH | by intros [= <- <-]].
Qed.

Lemma typed_ReceiveMessage p inp : preserves typed (ReceiveMessage p inp).
Proof.
  unfold ReceiveMessage. cbv zeta. solve_typed. intros w Hw. unfold fueled.
  destruct (receive_loop _ _ _ _ _ _ _ _ w) as [[r w']|] eqn:E; simpl; [| done].
  by eapply typed_receive_loop.
Qed.

Lemma clock_handOutRedeliverable q v P : Ambient P -> preserves P (handOutRedeliverable q v).
Proof.
  unfold handOutRedeliverable, hand_out_handle, PopRedeliverable, GetInFlight, acquireFIFOSlot, AcquireFIFOLock,
    PushRedeliverable, ExtendVisibility. cbv zeta. solve_clock.
Qed.

Lemma clock_handOutFresh meta q s rec v P : Ambient P -> preserves P (handOutFresh meta q s rec v).
Proof.
  unfold handOutFresh, AddPending, newReceiptHandle, PutInFlight, acquireFIFOSlot, AcquireFIFOLock,
    PushRedeliverable. cbv zeta. solve_clock.
Qed.

#[local] Hint Resolve clock_handOutRedeliverable clock_handOutFresh : clock.

Lemma clock_drain q v n P : Ambient P -> preserves P (drain q v n).
Proof. induction n as [|n IH]; simpl; solve_clock. Qed.

Lemma clock_hand_out_records meta q topics v n l P :
  Ambient P -> preserves P (hand_out_records meta q topics v n l).
Proof. revert n. induction l as [|rec l IH]; intros n; simpl; [| destruct n]; solve_clock. Qed.

Lemma clock_PollFetches d P : Ambient P -> preserves P (PollFetches d).
Proof.
  intros AP w Hw. unfold PollFetches.
  destruct (w_fetches w); [| by apply ambient_time, ambient_fetches].
  by apply (preserves_bind P (sleep d)); [apply ambient_sleep | intros; apply preserves_ret |].
Qed.

#[local] Hint Resolve clock_drain clock_hand_out_records clock_PollFetches : clock.

Lemma clock_receive_once meta q topics v i n P :
  Ambient P -> preserves P (receive_once meta q topics v i n).
Proof. unfold receive_once, Poll. solve_clock. Qed.
End Kept.

(** ** The long-poll loop *)

Section Loop.
Context {R : RedisServer} {RL : RedisLaws R} {U : UUIDSource}.
Context (meta : QueueMeta) (q : string) (topics : gmap string string) (v i : Z) (max : nat) (deadline : Z).
Context (Hi : 0 < i).

Lemma sleep_elapses w w' : sleep i w = (Ok None, w') -> w_clock w + i <= w_clock w'.
Proof. unfold sleep. repeat case_match; intros; simplify_eq; simpl; lia. Qed.

Lemma loop_returns fuel w :
  deadline < w_clock w + Z.of_nat fuel * i -> exists r w', receive_loop meta q topics v i max deadline (S fuel) w = Some (r, w').
Proof.
  revert w. induction fuel as [|fuel IH]; intros w Hd; cbn [receive_loop];
    pose proof (clock_receive_once meta q topics v i max (after (w_clock w)) _ w (Z.le_refl _)) as Hc;
    unfold after in Hc; destruct (receive_once meta q topics v i max w) as [[out|e] w1];
    simpl in Hc; try by eexists _, _.
  - destruct (Z.ltb_spec deadline (w_clock w1)); [| lia]. rewrite orb_true_r. by eexists _, _.
  - destruct (_ || _); [by eexists _, _ |].
    destruct (sleep i w1) as [[[e|]|e] w2] eqn:Es; [by eexists _, _ | | by eexists _, _].
    apply sleep_elapses in Es. apply IH. lia.
Qed.

Lemma loop_more fuel fuel' w r :
  receive_loop meta q topics v i max deadline fuel w = Some r -> (fuel <= fuel')%nat ->
  receive_loop meta q topics v i max deadline fuel' w = Some r.
Proof.
  revert fuel' w. induction fuel as [|fuel IH]; intros fuel' w; [done |].
  destruct fuel' as [|fuel']; [lia |]. cbn [receive_loop]. intros H Hle.
  destruct (receive_once meta q topics v i max w) as [[out|e] w1]; [| done].
  destruct (_ || _); [done |]. destruct (sleep i w1) as [[[e|]|e] w2]; [done | | done].
  apply IH; [done | lia].
Qed.

(** An answer without messages comes after the deadline; and no answer exceeds what
    one iteration can yield. *)
Lemma loop_result P fuel w r w' :
  (forall w, match receive_once meta q topics v i max w with (Ok out, _) => P out | _ => True end) ->
  receive_loop meta q topics v i max deadline fuel w = Some (r, w') ->
  match r with Ok out => P out /\ (out = [] -> deadline < w_clock w') | Err _ => True end.
Proof.
  intros HP. revert w. induction fuel as [|fuel IH]; intros w; [done |]. cbn [receive_loop].
  specialize (HP w). destruct (receive_once meta q topics v i max w) as [[out|e] w1];
    [| by intros [= <- <-]].
  destruct (_ || _) eqn:Eb.
  - intros [= <- <-]. split; [done |]. intros ->. simpl in Eb. lia.
  - destruct (sleep i w1) as [[[e|]|e] w2]; [by intros [= <- <-] | apply IH | by intros [= <- <-]].
Qed.
End Loop.

Lemma effective_interval_pos p : 0 < effective_interval p.
Proof. unfold effective_interval, defaultPollInterval, Millisecond. zbool; lia. Qed.

Lemma effective_max_range inp : (1 <= effective_max inp <= 10)%nat.
Proof. unfold effective_max. cbv zeta. destruct (_ || _) eqn:E; lia. Qed.

Section Bounds.
Context {R : RedisServer} {RL : RedisLaws R} {U : UUIDSource}.

Definition at_most (n : nat) (r : res (list Message)) (w : world) : Prop :=
  match r with Ok out => (length out <= n)%nat | Err _ => True end.

Lemma always {A} (m : M world A) : preserves (fun _ => True) m.
Proof. by intros w _. Qed.

Lemma drain_bound q v n : triple (fun _ => True) (drain q v n) (at_most n).
Proof.
  induction n as [|n IH]; simpl; [apply triple_ret; simpl; lia |].
  apply triple_bind_preserves; [apply always | done |].
  intros [msg|]; [| apply triple_ret; simpl; lia].
  eapply triple_bind; [exact IH |]. intros rest. apply triple_ret. simpl. lia.
Qed.

Lemma hand_out_records_bound meta q topics v n l :
  triple (fun _ => True) (hand_out_records meta q topics v n l) (at_most n).
Proof.
  revert n. induction l as [|rec l IH]; intros n; simpl; [apply triple_ret; simpl; lia |].
  destruct n as [|n]; [apply triple_ret; simpl; lia |]. destruct (topics !! rec_Topic rec); [| apply IH].
  apply triple_bind_preserves; [apply always | done |]. intros [msg|]; [| apply IH].
  eapply triple_bind; [apply IH |]. intros rest. apply triple_ret. simpl. lia.
Qed.

Lemma receive_once_bound meta q topics v i n :
  triple (fun _ => True) (receive_once meta q topics v i n) (at_most n).
Proof.
  unfold receive_once. eapply triple_bind; [apply drain_bound |]. intros out.
  destruct (Nat.ltb_spec (length out) n) as [Hlt|]; [| by apply triple_ret].
  apply triple_bind_preserves; [intros ? H; exact H | done |]. intros r.
  apply triple_bind_preserves; [intros ? H; exact H | done |]. intros cerr.
  assert (Hmore : forall records, triple (fun w => at_most n (Ok out) w)
    (more ← hand_out_records meta q topics v (n - length out) records; mret (out ++ more)) (at_most n)).
  { intros records w _. rewrite mbind_run.
    pose proof (hand_out_records_bound meta q topics v (n - length out) records w I) as H.
    destruct (hand_out_records _ _ _ _ _ _ w) as [[more|e] w1]; simpl in *; [| done].
    rewrite length_app. lia. }
  destruct r as [records|e], cerr as [ce|]; [apply Hmore | apply Hmore | by apply triple_fail |].
  destruct (is_deadline e); [by apply triple_ret | by apply triple_fail].
Qed.
End Bounds.

(** ** Properties of the long poll *)

(** C23. The long-poll loop always returns: with [receive_fuel] iterations, and in every
    world — whatever the polls return and however slow or lossy the network is — it
    ends, and more fuel changes nothing. *)
Theorem receive_loop_returns {R : RedisServer} {RL : RedisLaws R} {U : UUIDSource}
    meta q topics v p max wait w fuel :
  (receive_fuel wait (effective_interval p) <= fuel)%nat ->
  exists r w',
    receive_loop meta q topics v (effective_interval p) max (w_clock w + wait)
      (receive_fuel wait (effective_interval p)) w = Some (r, w') /\
    receive_loop meta q topics v (effective_interval p) max (w_clock w + wait) fuel w = Some (r, w').
Proof.
  intros Hfuel. pose proof (effective_interval_pos p) as Hi.
  destruct (loop_returns meta q topics v (effective_interval p) max (w_clock w + wait) Hi
              (S (Z.to_nat (wait / effective_interval p))) w) as (r & w' & Hr).
  { pose proof (Z.mod_pos_bound wait (effective_interval p) Hi).
    pose proof (Z.div_mod wait (effective_interval p)). nia. }
  exists r, w'. split; [exact Hr |]. by eapply loop_more.
Qed.

Lemma receive_loop_returns_witness :
  exists r w', receive_loop orders_meta "orders" ∅ Second (effective_interval 0) 10
    (w_clock world0 + Second) 7 world0 = Some (r, w').
Proof.
  destruct (receive_loop_returns orders_meta "orders" ∅ Second 0 10 Second world0 7)
    as (r & w' & _ & H); [by vm_compute |]. eauto.
Defined.

Lemma clock_ConsumableShards {R : RedisServer} q P : Ambient P -> preserves P (ConsumableShards q).
Proof. unfold ConsumableShards, router_shards, GetShardMap. solve_clock. Qed.

Lemma clock_GetQueueMeta {R : RedisServer} q P : Ambient P -> preserves P (GetQueueMeta q).
Proof. unfold GetQueueMeta. solve_clock. Qed.

#[export] Hint Resolve clock_ConsumableShards clock_GetQueueMeta : clock.


(** ** Handing a message out *)

(** A message in flight under the handle [h]: its record is stored, it becomes
    visible again at [score], and its offset is pending. *)
Definition tracked (w : world) (q h : string) (rec : InFlightRecord) (score : Z) : Prop :=
  (exists m, hash_at (ms w) (w_redis w) (InFlightKey q h) = Some m /\ stored m rec) /\
  (exists z, zset_at (ms w) (w_redis w) (VisIndexKey q) = Some z /\ z !! h = Some score) /\
  (exists z, zset_at (ms w) (w_redis w) (rec_pending_key q rec) = Some z /\
     z !! FormatInt (if_Offset rec) = Some (f64_of_int (if_Offset rec))).

(** Tracking reads three keys. *)
Lemma tracked_frame w w' q h rec score :
  ms w' = ms w ->
  (forall k, k = InFlightKey q h \/ k = VisIndexKey q \/ k = rec_pending_key q rec ->
     w_redis w' !! k = w_redis w !! k) ->
  tracked w q h rec score -> tracked w' q h rec score.
Proof.
  intros Hms Hk ((m & Hm & Hst) & (zv & Hzv & Hh) & (zp & Hzp & Ho)). unfold tracked. rewrite Hms.
  split_and!; eexists; (split; [| done]).
  - by rewrite (hash_at_lookup_eq _ (w_redis w)) by auto.
  - by rewrite (zset_at_lookup_eq _ (w_redis w)) by auto.
  - by rewrite (zset_at_lookup_eq _ (w_redis w)) by auto.
Qed.

(** The handle a fresh delivery gets. *)
Definition receipt_handle {U : UUIDSource} (w : world) (shardID : string) (rec : FetchedRecord) : string :=
  shardID +:+ ":" +:+ FormatInt (rec_Partition rec) +:+ ":" +:+ FormatInt (rec_Offset rec) +:+ ":" +:+
  uuid_at (w_uuid w).

Definition group_of (meta : QueueMeta) (rec : FetchedRecord) : string :=
  if qm_FIFO meta then default "" (rec_Key rec) else "".

(** When a message handed out now for [s] seconds becomes visible again. *)
Definition visible_at (w : world) (s : Z) : Z := f64_of_int (UnixMilli (w_clock w + s * Second)).

Section HandOut.
Context {R : RedisServer} {RL : RedisLaws R} {U : UUIDSource}.

(** Taking the group's slot in a calm world. *)
Lemma acquireFIFOSlot_calm w q g h s :
  calm w -> 0 < s ->
  acquireFIFOSlot q g h (s * Second) w =
  match live (ms w) (w_redis w) (FIFOLockKey q g) with
  | Some _ => (Ok false, w)
  | None => (Ok true, set_redis (<[FIFOLockKey q g := Entry (VStr h) (Some (ms w + s * 1000))]>
                                   (w_redis w)) w)
  end.
Proof.
  intros Hcalm Hs. unfold acquireFIFOSlot, wrap_err.
  rewrite (AcquireFIFOLock_calm w Hcalm q g h s Hs). by destruct (live _ _ _).
Qed.

Lemma ExtendVisibility_calm w q h s v z :
  calm w -> live (ms w) (w_redis w) (InFlightKey q h) = Some v ->
  zset_at (ms w) (w_redis w) (VisIndexKey q) = Some z ->
  ExtendVisibility q h (s * Second) w =
  (Ok true, set_redis (put (ms w) (VisIndexKey q) (VZSet (<[h := visible_at w s]> z)) (w_redis w)) w).
Proof.
  intros Hcalm Hv Hz. unfold ExtendVisibility. rewrite mbind_run. unfold wrap_err at 1.
  rewrite (rdo_calm w Hcalm _ (Ok 1) (w_redis w)) by (by rewrite law_exists, Hv).
  rewrite set_redis_id. cbn [Z.eqb]. rewrite mbind_run. cbn [Now gets]. cbv zeta.
  rewrite mbind_run. unfold wrap_err.
  erewrite rdo_calm; [| done | rewrite law_zadd, Hz; reflexivity]. done.
Qed.

(** What tracking a fresh message writes: its offset, its record, its place in the
    visibility index. *)
Definition fresh_ks (now : Z) (q h : string) (rec : InFlightRecord) (e : entry) (score : Z)
    (zp zv : gmap string Z) (ks : keyspace) : keyspace :=
  put now (VisIndexKey q) (VZSet (<[h := score]> zv))
    (<[InFlightKey q h := e]>
       (put now (rec_pending_key q rec)
          (VZSet (<[FormatInt (if_Offset rec) := f64_of_int (if_Offset rec)]> zp)) ks)).

Lemma fresh_ks_frame now q h rec e score zp zv ks k :
  k <> InFlightKey q h -> k <> VisIndexKey q -> k <> rec_pending_key q rec ->
  fresh_ks now q h rec e score zp zv ks !! k = ks !! k.
Proof. intros H1 H2 H3. unfold fresh_ks, put. by rewrite !lookup_insert_ne. Qed.

(** The message is tracked by it. *)
Lemma fresh_ks_tracked w q h rec e m score zp zv ks :
  w_redis w = fresh_ks (ms w) q h rec e score zp zv ks ->
  e_val e = VHash m -> expired (ms w) e = false -> stored m rec -> tracked w q h rec score.
Proof.
  destruct e as [v d]. intros Hw He Hexp Hst. cbn in He. subst v.
  unfold tracked. rewrite Hw. unfold fresh_ks. split_and!.
  - exists m. split; [| done]. unfold hash_at. rewrite live_put_ne by auto with keys.
    by rewrite live_insert_eq, Hexp.
  - eexists. split; [unfold zset_at; rewrite live_put_eq; reflexivity |]. apply lookup_insert_eq.
  - eexists. split; [| apply lookup_insert_eq]. unfold zset_at.
    rewrite live_put_ne, live_insert_ne by (unfold rec_pending_key; auto with keys). by rewrite live_put_eq.
Qed.

(** And messages tracked before stay tracked. *)
Lemma fresh_ks_others w w' q h rec e score zp zv h0 rec0 score0 :
  ms w' = ms w -> w_redis w' = fresh_ks (ms w) q h rec e score zp zv (w_redis w) ->
  zset_at (ms w) (w_redis w) (rec_pending_key q rec) = Some zp ->
  zset_at (ms w) (w_redis w) (VisIndexKey q) = Some zv ->
  h0 <> h -> tracked w q h0 rec0 score0 -> tracked w' q h0 rec0 score0.
Proof.
  intros Hms Hw Hzp Hzv Hne ((m0 & Hm0 & Hst0) & (zv0 & Hzv0 & Hh0) & (zp0 & Hzp0 & Ho0)).
  assert (Hkey : InFlightKey q h0 <> InFlightKey q h) by (by intros E%InFlightKey_inj).
  unfold tracked. rewrite Hms, Hw. unfold fresh_ks. rewrite Hzv0 in Hzv. injection Hzv as ->. split_and!.
  - exists m0. split; [| done]. unfold hash_at in *.
    by rewrite live_put_ne, live_insert_ne, live_put_ne by (unfold rec_pending_key; auto with keys).
  - eexists. unfold zset_at. rewrite live_put_eq. split; [reflexivity |]. by rewrite lookup_insert_ne.
  - unfold zset_at in *. rewrite live_put_ne, live_insert_ne by (unfold rec_pending_key; auto with keys).
    destruct (decide (rec_pending_key q rec0 = rec_pending_key q rec)) as [E | Hpk].
    + rewrite E, live_put_eq. eexists. split; [reflexivity |]. rewrite E, Hzp in Hzp0. injection Hzp0 as ->.
      destruct (decide (if_Offset rec0 = if_Offset rec)) as [-> | Hoff]; [apply lookup_insert_eq |].
      rewrite lookup_insert_ne; [done |]. by intros E'%FormatInt_inj.
    + rewrite live_put_ne by done. by exists zp0.
Qed.

(** Everything up to the group's slot: the message is tracked, and no key but its
    own three changes. *)
Lemma handOutFresh_tracked w meta q shardID rec s :
  calm w -> typed w -> 0 < s ->
  let h := receipt_handle w shardID rec in
  let g := group_of meta rec in
  let rec' := fresh_record shardID g rec in
  exists w2, calm w2 /\ ms w2 = ms w /\ w_kafka w2 = w_kafka w /\ typed w2 /\
    tracked w2 q h rec' (visible_at w s) /\
    (forall h0 rec0 score, h0 <> h -> tracked w q h0 rec0 score -> tracked w2 q h0 rec0 score) /\
    w_clock w2 = w_clock w /\ w_uuid w2 = S (w_uuid w) /\
    (forall k, k <> InFlightKey q h -> k <> VisIndexKey q -> k <> rec_pending_key q rec' ->
       w_redis w2 !! k = w_redis w !! k) /\
    handOutFresh meta q shardID rec (s * Second) w =
    (acquired ← (if bool_decide (g = "") then mret true else acquireFIFOSlot q g h (s * Second));
     if negb acquired then
       _ ← wrap_err (receive_prefix q) (PushRedeliverable q h); mret None
     else mret (Some (MkMessage h (rec_Value rec) 1))) w2.
Proof.
  intros Hcalm Htyped Hs h g rec'.
  set (pk := rec_pending_key q rec').
  destruct (zset_at_typed (ms w) _ Htyped pk FPending) as [zp Hzp]; [apply PendingKey_family | tauto |].
  pose proof (AddPending_calm w Hcalm q shardID (rec_Partition rec) (rec_Offset rec) zp Hzp) as Hadd.
  set (ks1 := put _ _ _ _) in Hadd.
  set (w1 := set_uuid (S (w_uuid w)) (set_redis ks1 w)).
  assert (Htyped1 : typed w1).
  { pose proof (typed_AddPending q shardID (rec_Partition rec) (rec_Offset rec) w Htyped) as H.
    by rewrite Hadd in H. }
  destruct (hash_at_typed (ms w1) _ Htyped1 (InFlightKey q h) FInFlight) as [m Hm];
    [apply InFlightKey_family | tauto |].
  destruct (zset_at_typed (ms w1) _ Htyped1 (VisIndexKey q) FVisIndex) as [zv Hzv];
    [apply VisIndexKey_family | tauto |].
  destruct (PutInFlight_calm w1 Hcalm q h rec' s m zv ltac:(lia) Hm Hzv) as (ks2 & Hput & Hks2).
  set (e := Entry _ _) in Hks2. change (ks2 = fresh_ks (ms w) q h rec' e (visible_at w s) zp zv (w_redis w)) in Hks2.
  assert (Hzv0 : zset_at (ms w) (w_redis w) (VisIndexKey q) = Some zv).
  { rewrite <- Hzv. apply zset_at_lookup_eq. unfold w1, ks1, put. cbn [w_redis set_uuid set_redis].
    by rewrite lookup_insert_ne by (unfold pk, rec_pending_key; auto with keys). }
  exists (set_redis ks2 w1).
  assert (Htyped2 : typed (set_redis ks2 w1)).
  { pose proof (typed_PutInFlight q h rec' (s * Second) w1 Htyped1) as H. by rewrite Hput in H. }
  split_and!; [done | done | done | done | | | done | done | |].
  - eapply fresh_ks_tracked; [exact Hks2 | done | | apply stored_fields].
    apply Z.ltb_ge. cbn [e_exp e]. change (ms (set_redis ks2 w1)) with (ms w1). lia.
  - intros h0 rec0 score. by eapply fresh_ks_others.
  - intros k Hk1 Hk2 Hk3. cbn [w_redis set_redis]. rewrite Hks2. by apply fresh_ks_frame.
  - unfold handOutFresh. rewrite mbind_run. unfold wrap_err at 1. rewrite Hadd.
    rewrite mbind_run. unfold newReceiptHandle. cbn [NewString].
    change ((id ← NewString; _) (set_redis ks1 w)) with (Ok h, w1). cbv beta iota zeta.
    fold (group_of meta rec). fold g. rewrite mbind_run. unfold wrap_err at 1.
    fold rec'. rewrite Hput. done.
Qed.
End HandOut.

(** C20. A record polled from Kafka is tracked first: its record, its visibility entry and
    its pending offset are in place whatever happens next.  It is then handed out,
    with receive count 1, unless its FIFO group has a message in flight; in that case
    it is parked at the end of the redelivery list and the holder keeps the group.  A
    message handed out holds its group. *)
Theorem handOutFresh_spec {R : RedisServer} {RL : RedisLaws R} {U : UUIDSource}
    w meta q shardID rec s l :
  calm w -> typed w -> 0 < s ->
  list_at (ms w) (w_redis w) (RedeliverKey q) = Some l ->
  let h := receipt_handle w shardID rec in
  let g := group_of meta rec in
  let lock w := live (ms w) (w_redis w) (FIFOLockKey q g) in
  exists w', calm w' /\ typed w' /\
    tracked w' q h (fresh_record shardID g rec) (visible_at w s) /\
    ((g = "" \/ lock w = None) ->
     handOutFresh meta q shardID rec (s * Second) w = (Ok (Some (MkMessage h (rec_Value rec) 1)), w') /\
     (g <> "" -> lock w' = Some (VStr h))) /\
    (g <> "" -> is_Some (lock w) ->
     handOutFresh meta q shardID rec (s * Second) w = (Ok None, w') /\
     list_at (ms w) (w_redis w') (RedeliverKey q) = Some (l ++ [h]) /\ lock w' = lock w).
Proof.
  intros Hcalm Htyped Hs Hl h g lock.
  destruct (handOutFresh_tracked w meta q shardID rec s Hcalm Htyped Hs)
    as (w2 & Hc2 & Hm2 & _ & Ht2 & Htr & _ & _ & _ & Hframe & Hrun).
  fold h g in Htr, Hframe, Hrun. rewrite Hrun.
  set (rec' := fresh_record shardID g rec) in *.
  assert (Hlock2 : lock w2 = lock w).
  { unfold lock. rewrite Hm2. apply live_lookup_eq, Hframe; unfold rec_pending_key; auto with keys. }
  destruct (decide (g = "")) as [Hg | Hg].
  { exists w2. rewrite bool_decide_eq_true_2 by done. split_and!; done. }
  rewrite bool_decide_eq_false_2 by done. rewrite mbind_run, (acquireFIFOSlot_calm w2 q g h s Hc2 Hs).
  change (live (ms w2) (w_redis w2) (FIFOLockKey q g)) with (lock w2). rewrite Hlock2.
  destruct (lock w) as [v|] eqn:Hv; cbv beta iota; cbn [negb].
  - assert (Hl2 : list_at (ms w2) (w_redis w2) (RedeliverKey q) = Some l).
    { rewrite Hm2, <- Hl. apply list_at_lookup_eq, Hframe; unfold rec_pending_key; auto with keys. }
    rewrite mbind_run. unfold wrap_err. rewrite (PushRedeliverable_calm w2 Hc2 q h l Hl2).
    exists (set_redis (put (ms w2) (RedeliverKey q) (VList (l ++ [h])) (w_redis w2)) w2).
    split_and!; [exact Hc2 | | | by intros [|] | ].
    + unfold typed. cbn [w_redis set_redis]. apply (well_typed_put _ _ _ _ FRedeliver); auto with keys; done.
    + apply (tracked_frame w2); [done | | done].
      intros k [-> | [-> | ->]]; cbn [w_redis set_redis]; unfold put; apply lookup_insert_ne;
        unfold rec_pending_key; auto with keys.
    + intros _ _. split; [reflexivity |]. split.
      * unfold list_at. cbn [w_redis set_redis]. rewrite Hm2, live_put_eq. done.
      * rewrite <- Hlock2. unfold lock. cbn [w_redis set_redis].
        change (ms (set_redis _ w2)) with (ms w2). apply live_put_ne. auto with keys.
  - exists (set_redis (<[FIFOLockKey q g := Entry (VStr h) (Some (ms w2 + s * 1000))]> (w_redis w2)) w2).
    split_and!; [exact Hc2 | | | | by intros _ [? ?]].
    + unfold typed. cbn [w_redis set_redis]. apply (well_typed_insert _ _ _ _ FFIFOLock); auto with keys; done.
    + apply (tracked_frame w2); [done | | done].
      intros k [-> | [-> | ->]]; cbn [w_redis set_redis]; apply lookup_insert_ne;
        unfold rec_pending_key; auto with keys.
    + intros _. split; [reflexivity |]. intros _. unfold lock. cbn [w_redis set_redis].
      change (ms (set_redis _ w2)) with (ms w2). rewrite live_insert_eq.
      unfold expired. cbn [e_exp]. by destruct (Z.ltb_spec (ms w2 + s * 1000) (ms w2)); [lia |].
Qed.

(** Two records of one group on the same partition. *)
Definition order_record (o : Z) (body : string) : FetchedRecord :=
  MkRecord orders_topic 2 o (Some "g1") body.

Lemma orders_world_typed : typed orders_world.
Proof.
  apply (typed_PutShardMap "orders" orders_shards), (typed_PutQueueMeta "orders" orders_meta),
    well_typed_empty.
Qed.

Lemma handOutFresh_spec_witness :
  exists w', handOutFresh orders_meta "orders" "0" (order_record 0 "first") (30 * Second) orders_world =
    (Ok (Some (MkMessage "0:2:0:uuid-0" "first" 1)), w') /\
  exists w'', handOutFresh orders_meta "orders" "0" (order_record 1 "second") (30 * Second) w' =
    (Ok None, w'') /\ list_at (ms w') (w_redis w'') (RedeliverKey "orders") = Some ["0:2:1:uuid-1"].
Proof.
  destruct (handOutFresh_spec orders_world orders_meta "orders" "0" (order_record 0 "first") 30 [])
    as (w' & Hc & Ht & _ & H & _); [done | apply orders_world_typed | done | by vm_compute |].
  destruct H as [Hrun _]; [right; by vm_compute |].
  assert (Hw' : w' = snd (handOutFresh orders_meta "orders" "0" (order_record 0 "first")
                            (30 * Second) orders_world)) by (by rewrite Hrun).
  exists w'. split; [refine (eq_trans Hrun _); by vm_compute |].
  destruct (handOutFresh_spec w' orders_meta "orders" "0" (order_record 1 "second") 30 [])
    as (w'' & _ & _ & _ & _ & H); [exact Hc | exact Ht | done | subst w'; by vm_compute |].
  destruct H as (Hrun2 & Hl & _); [done | subst w'; eexists; by vm_compute |].
  exists w''. split; [exact Hrun2 |]. refine (eq_trans Hl _). subst w'. by vm_compute.
Defined.

Section Redeliver.
Context {R : RedisServer} {RL : RedisLaws R}.
Context (w : world) (q h : string) (s : Z) (Hcalm : calm w) (Htyped : typed w) (Hs : 0 < s).

Lemma hand_out_handle_gone :
  hash_at (ms w) (w_redis w) (InFlightKey q h) = Some ∅ ->
  hand_out_handle q (s * Second) h w = (Ok None, w).
Proof.
  intros Hm. unfold hand_out_handle. rewrite mbind_run. unfold wrap_err at 1.
  by rewrite (GetInFlight_calm w Hcalm q h ∅ Hm).
Qed.

Context (m : gmap string string) (rec : InFlightRecord).
Context (Hm : hash_at (ms w) (w_redis w) (InFlightKey q h) = Some m) (Hst : stored m rec)
  (Hok : inflight_ok rec).

Lemma hand_out_handle_read :
  hand_out_handle q (s * Second) h w =
  (acquired ← (if bool_decide (if_GroupID rec = "") then mret true
               else acquireFIFOSlot q (if_GroupID rec) h (s * Second));
   if negb acquired then
     _ ← wrap_err (receive_prefix q) (PushRedeliverable q h); mret None
   else
     _ ← wrap_err (receive_prefix q) (ExtendVisibility q h (s * Second));
     mret (Some (MkMessage h (if_Body rec) (if_ReceiveCount rec)))) w.
Proof.
  unfold hand_out_handle. rewrite mbind_run. unfold wrap_err at 1.
  rewrite (GetInFlight_calm w Hcalm q h m Hm).
  rewrite decide_False by (by eapply stored_nonempty). by rewrite (stored_inflight m rec).
Qed.

(** The record is live, so its visibility can be extended. *)
Lemma extend_stored w1 :
  calm w1 -> typed w1 -> ms w1 = ms w -> w_clock w1 = w_clock w ->
  w_redis w1 !! InFlightKey q h = w_redis w !! InFlightKey q h ->
  exists z, ExtendVisibility q h (s * Second) w1 =
    (Ok true, set_redis (put (ms w) (VisIndexKey q) (VZSet (<[h := visible_at w s]> z)) (w_redis w1)) w1).
Proof.
  intros Hc1 Ht1 Hms Hcl Hk.
  destruct (zset_at_typed (ms w1) _ Ht1 (VisIndexKey q) FVisIndex) as [z Hz];
    [apply VisIndexKey_family | tauto |].
  exists z. assert (Hv : live (ms w1) (w_redis w1) (InFlightKey q h) = Some (VHash m)).
  { rewrite Hms, (live_lookup_eq (ms w) (w_redis w)) by done.
    unfold hash_at in Hm. destruct (live (ms w) (w_redis w) (InFlightKey q h)) as [[]|]; simplify_eq; try done.
    by pose proof (stored_nonempty ∅ rec Hst). }
  rewrite (ExtendVisibility_calm w1 q h s _ z Hc1 Hv Hz). unfold visible_at. by rewrite Hcl, Hms.
Qed.



Lemma hand_out_handle_parked l :
  if_GroupID rec <> "" -> is_Some (live (ms w) (w_redis w) (FIFOLockKey q (if_GroupID rec))) ->
  list_at (ms w) (w_redis w) (RedeliverKey q) = Some l ->
  exists w', hand_out_handle q (s * Second) h w = (Ok None, w') /\
    list_at (ms w) (w_redis w') (RedeliverKey q) = Some (l ++ [h]) /\
    forall k, k <> RedeliverKey q -> w_redis w' !! k = w_redis w !! k.
Proof.
  intros Hg [v Hv] Hl. rewrite hand_out_handle_read, bool_decide_eq_false_2 by done.
  rewrite mbind_run, (acquireFIFOSlot_calm w q _ h s Hcalm Hs), Hv. cbn [negb].
  rewrite mbind_run. unfold wrap_err. rewrite (PushRedeliverable_calm w Hcalm q h l Hl).
  eexists. split; [reflexivity |]. cbn [w_redis set_redis]. split.
  - unfold list_at. by rewrite live_put_eq.
  - intros k Hk. unfold put. by apply lookup_insert_ne.
Qed.

Lemma hand_out_handle_given :
  (if_GroupID rec = "" \/ live (ms w) (w_redis w) (FIFOLockKey q (if_GroupID rec)) = None) ->
  exists w', hand_out_handle q (s * Second) h w =
      (Ok (Some (MkMessage h (if_Body rec) (if_ReceiveCount rec))), w') /\
    (exists z, zset_at (ms w) (w_redis w') (VisIndexKey q) = Some z /\ z !! h = Some (visible_at w s)) /\
    (if_GroupID rec <> "" -> live (ms w) (w_redis w') (FIFOLockKey q (if_GroupID rec)) = Some (VStr h)) /\
    (forall k, k <> VisIndexKey q -> k <> FIFOLockKey q (if_GroupID rec) -> w_redis w' !! k = w_redis w !! k).
Proof.
  intros Hfree. rewrite hand_out_handle_read.
  set (g := if_GroupID rec) in *. set (key := FIFOLockKey q g) in *.
  set (w1 := if decide (g = "") then w
             else set_redis (<[key := Entry (VStr h) (Some (ms w + s * 1000))]> (w_redis w)) w).
  assert (Hacq : (if bool_decide (g = "") then mret true else acquireFIFOSlot q g h (s * Second)) w = (Ok true, w1)).
  { unfold w1. case_decide as Hg; [by rewrite bool_decide_eq_true_2 |].
    rewrite bool_decide_eq_false_2, (acquireFIFOSlot_calm w q _ h s Hcalm Hs) by done.
    destruct Hfree as [? | Hn]; [done |]. unfold key in Hn. by rewrite Hn. }
  rewrite mbind_run, Hacq. cbn [negb]. rewrite mbind_run. unfold wrap_err.
  assert (Hw1 : calm w1 /\ typed w1 /\ ms w1 = ms w /\ w_clock w1 = w_clock w /\
                forall k, k <> key -> w_redis w1 !! k = w_redis w !! k).
  { unfold w1. case_decide; [done |]. split_and!; [done | | done | done |].
    - unfold typed. cbn [w_redis set_redis].
      apply (well_typed_insert _ _ _ _ FFIFOLock); [done | apply FIFOLockKey_family | done].
    - intros k Hk. by apply lookup_insert_ne. }
  destruct Hw1 as (Hc1 & Ht1 & Hms1 & Hcl1 & Hfr1).
  destruct (extend_stored w1 Hc1 Ht1 Hms1 Hcl1) as [z Hz];
    [apply Hfr1; unfold key; auto with keys |]. rewrite Hz.
  eexists. split; [reflexivity |]. cbn [w_redis set_redis]. split_and!.
  - eexists. split; [unfold zset_at; rewrite live_put_eq; reflexivity | apply lookup_insert_eq].
  - intros Hg. rewrite live_put_ne by (unfold key; auto with keys). unfold w1.
    rewrite decide_False by done. cbn [w_redis set_redis]. rewrite live_insert_eq.
    unfold expired. cbn [e_exp]. by destruct (Z.ltb_spec (ms w + s * 1000) (ms w)); [lia |].
  - intros k Hk1 Hk2. unfold put. rewrite lookup_insert_ne by done. by apply Hfr1.
Qed.
End Redeliver.

(** C21. [handOutRedeliverable] takes the head of the redelivery list.  An empty list, and
    a handle whose record is gone, yield nothing.  A record whose group has a message
    in flight goes back to the end of the list.  Otherwise the stored message is handed
    out with its stored receive count, becomes invisible for the timeout, and holds its
    group. *)
Theorem handOutRedeliverable_spec {R : RedisServer} {RL : RedisLaws R} w q s :
  calm w -> typed w -> 0 < s ->
  (list_at (ms w) (w_redis w) (RedeliverKey q) = Some [] ->
   handOutRedeliverable q (s * Second) w = (Ok None, w)) /\
  (forall h l, list_at (ms w) (w_redis w) (RedeliverKey q) = Some (h :: l) ->
   (hash_at (ms w) (w_redis w) (InFlightKey q h) = Some ∅ ->
    exists w', handOutRedeliverable q (s * Second) w = (Ok None, w') /\
      list_at (ms w) (w_redis w') (RedeliverKey q) = Some l) /\
   (forall m rec, hash_at (ms w) (w_redis w) (InFlightKey q h) = Some m -> stored m rec ->
    inflight_ok rec ->
    let lock w' := live (ms w) (w_redis w') (FIFOLockKey q (if_GroupID rec)) in
    (if_GroupID rec <> "" -> is_Some (lock w) ->
     exists w', handOutRedeliverable q (s * Second) w = (Ok None, w') /\
       list_at (ms w) (w_redis w') (RedeliverKey q) = Some (l ++ [h]) /\ lock w' = lock w) /\
    ((if_GroupID rec = "" \/ lock w = None) ->
     exists w', handOutRedeliverable q (s * Second) w =
         (Ok (Some (MkMessage h (if_Body rec) (if_ReceiveCount rec))), w') /\
       list_at (ms w) (w_redis w') (RedeliverKey q) = Some l /\
       w_redis w' !! InFlightKey q h = w_redis w !! InFlightKey q h /\
       (exists z, zset_at (ms w) (w_redis w') (VisIndexKey q) = Some z /\ z !! h = Some (visible_at w s)) /\
       (if_GroupID rec <> "" -> lock w' = Some (VStr h))))).
Proof.
  intros Hcalm Htyped Hs. split.
  { intros Hl. unfold handOutRedeliverable. rewrite mbind_run. unfold wrap_err at 1.
    by rewrite (PopRedeliverable_calm w Hcalm q [] Hl). }
  intros h l Hl. set (w1 := set_redis (put_list (ms w) (RedeliverKey q) l (w_redis w)) w).
  assert (Hrun : handOutRedeliverable q (s * Second) w = hand_out_handle q (s * Second) h w1).
  { unfold handOutRedeliverable. rewrite mbind_run. unfold wrap_err at 1.
    by rewrite (PopRedeliverable_calm w Hcalm q (h :: l) Hl). }
  assert (Hframe : forall k, k <> RedeliverKey q -> w_redis w1 !! k = w_redis w !! k).
  { intros k Hk. unfold w1, put_list, put. cbn [w_redis set_redis].
    case_decide; [by apply lookup_delete_ne | by apply lookup_insert_ne]. }
  assert (Hl1 : list_at (ms w1) (w_redis w1) (RedeliverKey q) = Some l) by apply list_at_put_list.
  assert (Hhash : hash_at (ms w1) (w_redis w1) (InFlightKey q h) =
                  hash_at (ms w) (w_redis w) (InFlightKey q h))
    by (apply hash_at_lookup_eq, Hframe; auto with keys).
  assert (Ht1 : typed w1)
    by (apply (well_typed_put_list _ _ _ _ FRedeliver); auto with keys; done).
  rewrite Hrun. split.
  { intros Hgone. exists w1. rewrite (hand_out_handle_gone w1) by (done || by rewrite Hhash). done. }
  intros m rec Hm Hst Hok lock. rewrite <- Hhash in Hm.
  assert (Hlock : lock w1 = lock w) by (apply live_lookup_eq, Hframe; auto with keys).
  split.
  - intros Hg Hheld. destruct (hand_out_handle_parked w1 q h s Hcalm Hs m rec Hm Hst Hok l Hg)
      as (w' & Hw' & Hl' & Hfr'); [by rewrite <- Hlock in Hheld | done |].
    exists w'. split; [done |]. split; [done |]. rewrite <- Hlock. apply live_lookup_eq, Hfr'. auto with keys.
  - intros Hfree. destruct (hand_out_handle_given w1 q h s Hcalm Ht1 Hs m rec Hm Hst Hok)
      as (w' & Hw' & Hz' & Hlock' & Hfr'); [by rewrite <- Hlock in Hfree |].
    exists w'. split; [done |]. split_and!; [| | done | done].
    + rewrite <- Hl1. apply list_at_lookup_eq, Hfr'; auto with keys.
    + rewrite <- (Hframe (InFlightKey q h)) by auto with keys. apply Hfr'; auto with keys.
Qed.

(** The message of [sample_world] after the reaper has queued it again. *)
Definition requeued_world : world :=
  set_redis (<[RedeliverKey "orders" := Entry (VList ["rh-1"]) None]>
               (delete (FIFOLockKey "orders" "g1") (w_redis sample_world))) sample_world.

Lemma requeued_world_typed : typed requeued_world.
Proof.
  apply (well_typed_insert _ _ _ _ FRedeliver); [| apply RedeliverKey_family | done].
  apply well_typed_delete, sample_world_typed.
Qed.

Lemma handOutRedeliverable_spec_witness :
  exists w', handOutRedeliverable "orders" (30 * Second) requeued_world =
    (Ok (Some (MkMessage "rh-1" "hello" 1)), w') /\
    live (ms requeued_world) (w_redis w') (FIFOLockKey "orders" "g1") = Some (VStr "rh-1").
Proof.
  destruct (handOutRedeliverable_spec requeued_world "orders" 30) as [_ H];
    [done | apply requeued_world_typed | done |].
  destruct (H "rh-1" [] ltac:(by vm_compute)) as [_ H2].
  destruct (H2 sample_hash sample_record ltac:(vm_decide) sample_hash_stored
              ltac:(by vm_compute)) as [_ H3].
  destruct H3 as (w' & Hw' & _ & _ & _ & Hlock); [right; by vm_compute |].
  exists w'. split; [exact Hw' | by apply Hlock].
Defined.

(** ** Losing the surplus of a poll *)

(** Records that a poll returned beyond the room left are dropped: they are neither
    handed out, nor tracked, nor kept for the next call, and since the poll has moved
    the consumer past them they are not fetched again. *)
Theorem poll_surplus_dropped {R : RedisServer} {U : UUIDSource} meta q topics v recs surplus n w out w' :
  hand_out_records meta q topics v n recs w = (Ok out, w') -> length out = n ->
  hand_out_records meta q topics v n (recs ++ surplus) w = (Ok out, w').
Proof.
  revert n w out. induction recs as [|rec recs IH]; intros n w out.
  - cbn [hand_out_records app]. intros [= <- <-]. simpl. intros <-. by destruct surplus.
  - cbn [hand_out_records app]. destruct n as [|n]; [done |].
    destruct (topics !! rec_Topic rec) as [s|]; [| by apply IH].
    rewrite !mbind_run. destruct (handOutFresh meta q s rec v w) as [[[msg|]|e] w1]; [| by apply IH | done].
    rewrite !mbind_run. destruct (hand_out_records meta q topics v n recs w1) as [[rest|e] w2] eqn:E; [| done].
    intros [= <- <-] Hlen. simpl in Hlen. by rewrite (IH n w1 rest E ltac:(lia)).
Qed.

(** Two records in one poll, room for one. *)
Definition surplus_world : world :=
  set_fetches [Fetch 0 [] [order_record 0 "first"; order_record 1 "second"]] orders_world.

Definition receive_one : ReceiveMessageInput := MkReceiveInput "orders" 1 0 0.

Lemma poll_surplus_dropped_witness :
  let hand n recs := hand_out_records orders_meta "orders" (topic_to_shard orders_shards)
                       (30 * Second) n recs orders_world in
  hand 1%nat [order_record 0 "first"; order_record 1 "second"] =
  hand 1%nat [order_record 0 "first"].
Proof.
  cbv zeta.
  set (one := hand_out_records orders_meta "orders" (topic_to_shard orders_shards) (30 * Second) 1
                [order_record 0 "first"] orders_world).
  assert (H : one = (Ok [MkMessage "0:2:0:uuid-0" "first" 1], snd one)).
  { refine (run_fst (hand_out_records orders_meta "orders" (topic_to_shard orders_shards) (30 * Second) 1
              [order_record 0 "first"]) orders_world _ _). by vm_compute. }
  refine (eq_trans (poll_surplus_dropped orders_meta "orders" (topic_to_shard orders_shards)
    (30 * Second) [order_record 0 "first"] [order_record 1 "second"] 1 orders_world _ (snd one) H _) _);
    [done | by symmetry].
Defined.

