(* ===== verification/Delete.v ===== *)
(** Acknowledging: [internal/core/queue/delete_message.go] and
    [change_visibility.go], with [CommitOffset] of [internal/kafka/admin.go]. *)

From S2P Require Import Prelude GoNum GoStr Topology Json Keys Redis World Schema Store Scripts Send Receive.

Local Open Scope Z_scope.

Section Ops.
Context {R : RedisServer} {K : KafkaServer}.

(** [Admin.CommitOffset]: kadm reports a failed request and a refused commit alike. *)
Definition CommitOffset (group topic : string) (partition offset : Z) : M world unit :=
  wrap_err ("commit offset " +:+ group +:+ "/" +:+ topic +:+ "/" +:+ FormatInt partition +:+ ": ")
    (kdo (kadm_commit group topic partition offset)).

(** [committer] is false when the service has no [Committer]. *)
Definition advanceWatermark (committer : bool) (queueName : string) (rec : InFlightRecord)
    : M world unit :=
  let prefix := "advance watermark " +:+ queueName +:+ ": " in
  minOffset ← wrap_err prefix (MinPending queueName (if_ShardID rec) (if_Partition rec));
  match minOffset with
  | None => mret tt
  | Some minOffset =>
    _ ← wrap_err prefix
          (SetWatermark queueName (if_ShardID rec) (if_Partition rec) (i64 (minOffset - 1)));
    if committer then
      wrap_err prefix
        (CommitOffset (ConsumerGroup queueName) (if_Topic rec) (if_Partition rec) minOffset)
    else mret tt
  end.

Definition DeleteMessage (committer : bool) (queueName receiptHandle : string) : M world unit :=
  let prefix := "delete message " +:+ queueName +:+ ": " in
  rec ← wrap_err prefix (GetInFlight queueName receiptHandle);
  match rec with
  | None => mret tt
  | Some rec =>
    outcome ← wrap_err prefix (Ack queueName receiptHandle);
    if decide (outcome = AckOutcomeAcked) then advanceWatermark committer queueName rec
    else mret tt
  end.

Definition ChangeMessageVisibility (queueName receiptHandle : string) (newTimeout : Z)
    : M world unit :=
  ok ← wrap_err ("change visibility " +:+ queueName +:+ ": ")
         (ExtendVisibility queueName receiptHandle newTimeout);
  if (ok : bool) then mret tt
  else fail (ErrText "receipt handle not found or already expired").
End Ops.

(** ** Lemmas *)

Section Lemmas.
Context {R : RedisServer} {RL : RedisLaws R} {K : KafkaServer} {KL : KafkaLaws K}.

Lemma typed_DeleteMessage b q h : preserves typed (DeleteMessage b q h).
Proof. unfold DeleteMessage, advanceWatermark, CommitOffset. cbv zeta. solve_typed. Qed.

Lemma typed_ChangeMessageVisibility q h t : preserves typed (ChangeMessageVisibility q h t).
Proof. unfold ChangeMessageVisibility. solve_typed. Qed.

Lemma clock_DeleteMessage b q h P : Ambient P -> preserves P (DeleteMessage b q h).
Proof.
  unfold DeleteMessage, advanceWatermark, CommitOffset, GetInFlight, Ack, MinPending, SetWatermark.
  cbv zeta. solve_clock.
Qed.

(** A commit leaves Kafka alone or moves one committed offset. *)
Lemma CommitOffset_run g t p o st ks :
  triple (fun w => w_kafka w = st /\ w_redis w = ks) (CommitOffset g t p o)
    (fun _ w => (w_kafka w = st \/ w_kafka w = set_commit g t p o st) /\ w_redis w = ks).
Proof.
  intros w [<- <-]. unfold CommitOffset, wrap_err, kdo, trip, kafka_run.
  pose proof (law_commit g t p o (w_kafka w)) as Hlaw.
  destruct (w_net w) as [|[d [ | e | e]] evs]; cbn;
    destruct (kadm_commit g t p o (w_kafka w)) as [[|e'] st']; cbn; naive_solver.
Qed.

(** What [MinPending] reported was the minimum when the server looked, and it only
    looked. *)
Lemma MinPending_run q s p st ks :
  triple (fun w => w_kafka w = st /\ w_redis w = ks) (MinPending q s p)
    (fun r w => w_kafka w = st /\ w_redis w = ks /\
       forall o, r = Ok (Some o) ->
         exists now z m f l, zset_at now ks (PendingKey q s p) = Some z /\
           zset_sorted z = (m, f) :: l /\ o = i64_of_f64 f).
Proof.
  intros w [<- <-]. unfold MinPending. rewrite mbind_run. unfold wrap_err, rdo, trip, redis_run.
  assert (Hrun : forall now, cmd_zfirst now (PendingKey q s p) (w_redis w) =
    (match zset_at now (w_redis w) (PendingKey q s p) with
     | Some z => Ok (take 1 (zset_sorted z)) | None => Err wrong_type end, w_redis w))
    by (intros now; rewrite law_zfirst; by destruct (zset_at _ _ _)).
  destruct (w_net w) as [|[d [ | e | e]] evs]; cbn; rewrite ?Hrun; cbn; try done;
    (destruct (zset_at _ _ _) as [z|] eqn:Ez; cbn; [| done]);
    (destruct (zset_sorted z) as [|[m f] l] eqn:El; cbn; split_and!; [done | done | naive_solver |
       done | done | intros o [= <-]; eauto 10]) || done.
Qed.
End Lemmas.

#[export] Hint Resolve typed_DeleteMessage typed_ChangeMessageVisibility : preserve.

(** ** Commits are safe *)

(** [o] is the least offset pending for the partition of [rec] in [w]. *)
Definition least_pending (w : world) (q : string) (rec : InFlightRecord) (o : Z) : Prop :=
  exists now z, zset_at now (w_redis w) (rec_pending_key q rec) = Some z /\
    forall os, pending_offsets z os -> (forall o', o' ∈ os -> Z.abs o' < 2 ^ 53) ->
      o ∈ os /\ forall o', o' ∈ os -> o <= o'.

(** Kafka is as in [st], or the committed offset of a partition of [q] has moved to
    the least offset still pending there. *)
Definition safe_commit (st : kafka) (q : string) (w : world) : Prop :=
  w_kafka w = st \/
  exists rec o, w_kafka w = set_commit (ConsumerGroup q) (if_Topic rec) (if_Partition rec) o st /\
    least_pending w q rec o.

Section Safe.
Context {R : RedisServer} {RL : RedisLaws R} {K : KafkaServer} {KL : KafkaLaws K}.

(** The watermark write reaches one key, and not Kafka. *)
Lemma SetWatermark_run q s p o w :
  w_kafka (snd (SetWatermark q s p o w)) = w_kafka w /\
  forall k, k <> WatermarkKey q s p -> w_redis (snd (SetWatermark q s p o w)) !! k = w_redis w !! k.
Proof.
  split.
  - assert (H : preserves (fun w' => w_kafka w' = w_kafka w) (SetWatermark q s p o))
      by (unfold SetWatermark; cbv zeta; solve_kstate). by apply H.
  - intros k Hk. unfold SetWatermark. cbv zeta.
    apply (preserves_wrap (fun w' => w_redis w' !! k = w_redis w !! k)); [| done].
    apply (preserves_rdo (fun ks => ks !! k = w_redis w !! k)). intros t. by apply frame_set.
Qed.

Lemma advanceWatermark_safe b q rec w :
  safe_commit (w_kafka w) q (snd (advanceWatermark b q rec w)).
Proof.
  unfold advanceWatermark. cbv zeta. rewrite mbind_run. unfold wrap_err at 1.
  pose proof (MinPending_run q (if_ShardID rec) (if_Partition rec) (w_kafka w) (w_redis w) w (conj eq_refl eq_refl))
    as (Hk1 & Hr1 & Hmin).
  destruct (MinPending q (if_ShardID rec) (if_Partition rec) w) as [[[o|]|e] w1]; cbn [fst snd] in *;
    [| by left | by left].
  destruct (Hmin o eq_refl) as (now & z & m & f & l & Hz & Hsorted & ->).
  set (o := i64_of_f64 f) in *. rewrite mbind_run. unfold wrap_err at 1.
  pose proof (SetWatermark_run q (if_ShardID rec) (if_Partition rec) (i64 (o - 1)) w1) as [Hk2 Hr2].
  destruct (SetWatermark _ _ _ _ w1) as [[[]|e] w2]; cbn [fst snd] in *; [| left; congruence].
  destruct b; [| left; simpl; congruence]. unfold wrap_err.
  pose proof (CommitOffset_run (ConsumerGroup q) (if_Topic rec) (if_Partition rec) o
                (w_kafka w2) (w_redis w2) w2 (conj eq_refl eq_refl)) as [Hk3 Hr3].
  destruct (CommitOffset _ _ _ _ w2) as [r3 w3]; cbn [fst snd] in *.
  assert (Hgoal : safe_commit (w_kafka w) q w3); [| by destruct r3].
  rewrite Hk2, Hk1 in Hk3. destruct Hk3 as [Hk3 | Hk3]; [by left |]. right. exists rec, o. split; [done |].
  exists now, z. rewrite Hr3. split.
  - rewrite <- Hz. apply zset_at_lookup_eq. rewrite Hr2, Hr1 by (unfold rec_pending_key; auto with keys). done.
  - intros os Hos Hb. pose proof (pending_offsets_min z os Hos Hb) as Hleast. by rewrite Hsorted in Hleast.
Qed.
End Safe.

(** C6. Whatever the network does, the only commit [DeleteMessage] ever makes moves the
    consumer group of the queue to the least offset still pending on the partition, so
    a consumer that restarts from it misses no message that was received and not
    acknowledged. *)
Theorem DeleteMessage_commit_safe {R : RedisServer} {RL : RedisLaws R} {K : KafkaServer}
    {KL : KafkaLaws K} b q h w :
  safe_commit (w_kafka w) q (snd (DeleteMessage b q h w)).
Proof.
  unfold DeleteMessage. cbv zeta. rewrite mbind_run. unfold wrap_err at 1.
  assert (Hget : preserves (fun w' => w_kafka w' = w_kafka w) (GetInFlight q h))
    by (unfold GetInFlight; solve_kstate). specialize (Hget w eq_refl).
  destruct (GetInFlight q h w) as [[[rec|]|e] w1]; cbn [fst snd] in *; [| by left | by left].
  rewrite mbind_run. unfold wrap_err.
  assert (Hack : preserves (fun w' => w_kafka w' = w_kafka w) (Ack q h))
    by (unfold Ack; solve_kstate). specialize (Hack w1 Hget).
  destruct (Ack q h w1) as [[o|e] w2]; cbn [fst snd] in *; [| by left].
  case_decide; [| by left]. rewrite <- Hack. apply advanceWatermark_safe.
Qed.

Lemma DeleteMessage_commit_safe_witness :
  let w' := snd (DeleteMessage true "orders" "rh-1" sample_world) in
  safe_commit (w_kafka sample_world) "orders" w' /\
  k_commits (w_kafka w') !! (ConsumerGroup "orders", if_Topic sample_record, 2) = Some 43.
Proof. split; [apply DeleteMessage_commit_safe | vm_decide]. Defined.

(** ** Acknowledging in a calm world *)

Section Acks.
Context {R : RedisServer} {RL : RedisLaws R} {K : KafkaServer}.

(** What is left to do once the message has been acknowledged. *)
Lemma DeleteMessage_acks b w q h m rec :
  calm w -> typed w ->
  hash_at (ms w) (w_redis w) (InFlightKey q h) = Some m -> stored m rec -> inflight_ok rec ->
  DeleteMessage b q h w = advanceWatermark b q rec (set_redis (ack_ks (ms w) q h rec (w_redis w)) w).
Proof.
  intros Hcalm Htyped Hm Hst Hok. unfold DeleteMessage. cbv zeta. rewrite mbind_run. unfold wrap_err at 1.
  rewrite (GetInFlight_calm w Hcalm q h m Hm), decide_False by (by eapply stored_nonempty).
  rewrite (stored_inflight m rec Hok Hst), mbind_run. unfold wrap_err.
  by rewrite (Ack_calm w Hcalm Htyped q h m rec Hm Hst).
Qed.

(** Advancing the watermark writes its row, and no other. *)
Lemma frame_advanceWatermark b q rec k v :
  k <> WatermarkKey q (if_ShardID rec) (if_Partition rec) ->
  preserves (fun w => w_redis w !! k = v) (advanceWatermark b q rec).
Proof.
  intros Hk. unfold advanceWatermark, MinPending, SetWatermark, CommitOffset. cbv zeta.
  repeat pres_step; try apply redis_kdo;
    (apply (preserves_rdo (fun ks => ks !! k = v)); intros t; by auto with frame).
Qed.
End Acks.



(** Deleting twice, or deleting a handle that was never issued or has expired,
    succeeds and changes nothing. *)
Theorem DeleteMessage_idempotent {R : RedisServer} {RL : RedisLaws R} {K : KafkaServer} b q h w :
  calm w -> hash_at (ms w) (w_redis w) (InFlightKey q h) = Some ∅ ->
  DeleteMessage b q h w = (Ok tt, w).
Proof.
  intros Hcalm Hm. unfold DeleteMessage. cbv zeta. rewrite mbind_run. unfold wrap_err at 1.
  by rewrite (GetInFlight_calm w Hcalm q h ∅ Hm).
Qed.

Lemma DeleteMessage_idempotent_witness :
  let w' := snd (DeleteMessage true "orders" "rh-1" sample_world) in
  DeleteMessage true "orders" "rh-1" w' = (Ok tt, w').
Proof.
  apply (DeleteMessage_idempotent true "orders" "rh-1" (snd (DeleteMessage true "orders" "rh-1" sample_world)));
    [done | vm_decide].
Defined.

(** Changing the visibility of a message in flight moves its entry in the visibility
    index to now plus the timeout, and changes nothing else: not the receive count, not
    the record's own time to live, not the group lock.  A handle that is not in flight
    is refused. *)
Theorem ChangeMessageVisibility_spec {R : RedisServer} {RL : RedisLaws R} w q h s z :
  calm w -> zset_at (ms w) (w_redis w) (VisIndexKey q) = Some z ->
  (live (ms w) (w_redis w) (InFlightKey q h) = None ->
   ChangeMessageVisibility q h (s * Second) w =
   (Err (ErrText "receipt handle not found or already expired"), w)) /\
  (is_Some (live (ms w) (w_redis w) (InFlightKey q h)) ->
   exists w', ChangeMessageVisibility q h (s * Second) w = (Ok tt, w') /\
     zset_at (ms w) (w_redis w') (VisIndexKey q) = Some (<[h := visible_at w s]> z) /\
     w_kafka w' = w_kafka w /\
     forall k, k <> VisIndexKey q -> w_redis w' !! k = w_redis w !! k).
Proof.
  intros Hcalm Hz. unfold ChangeMessageVisibility. split.
  - intros Hnone. rewrite mbind_run. unfold wrap_err, ExtendVisibility. rewrite mbind_run.
    unfold wrap_err. rewrite (rdo_calm w Hcalm _ (Ok 0) (w_redis w)) by (by rewrite law_exists, Hnone).
    by rewrite set_redis_id.
  - intros [v Hv]. rewrite mbind_run. unfold wrap_err.
    rewrite (ExtendVisibility_calm w q h s v z Hcalm Hv Hz). eexists. split; [reflexivity |].
    cbn [w_redis set_redis]. split_and!; [| done |].
    + unfold zset_at. by rewrite live_put_eq.
    + intros k Hk. unfold put. by apply lookup_insert_ne.
Qed.

Lemma ChangeMessageVisibility_spec_witness :
  exists w', ChangeMessageVisibility "orders" "rh-1" (600 * Second) sample_world = (Ok tt, w') /\
    w_redis w' !! InFlightKey "orders" "rh-1" = w_redis sample_world !! InFlightKey "orders" "rh-1".
Proof.
  destruct (ChangeMessageVisibility_spec sample_world "orders" "rh-1" 600
              {["rh-1" := ms world0 + 30000]}) as [_ H]; [done | vm_decide |].
  destruct H as (w' & Hw' & _ & _ & Hk); [eexists; by vm_compute |].
  exists w'. split; [exact Hw' | by apply Hk].
Defined.

(** ** The surplus of a poll, end to end

    A consumer asks for one message while the poll returns two; it acknowledges what it
    got, receives the next batch and acknowledges its first message. *)
Definition surplus_script : M world (list string * list string) :=
  a ← ReceiveMessage 0 (MkReceiveInput "orders" 1 0 0);
  _ ← mapM (fun m => DeleteMessage true "orders" (msg_ReceiptHandle m)) a;
  b ← ReceiveMessage 0 (MkReceiveInput "orders" 10 0 0);
  _ ← mapM (fun m => DeleteMessage true "orders" (msg_ReceiptHandle m)) b;
  mret (msg_Body <$> a, msg_Body <$> b).

Definition surplus_start : world :=
  set_fetches [Fetch 0 [] [order_record 0 "first"; order_record 1 "second"];
               Fetch 0 [] [order_record 2 "third"; order_record 3 "fourth"]] orders_world.

(** The second message is lost: it was never handed out, it is not on the redelivery
    list, it is not pending — and the offset committed for its partition is past it. *)
Theorem poll_surplus_lost :
  exists w', surplus_script surplus_start = (Ok (["first"], ["third"]), w') /\
    list_at (ms w') (w_redis w') (RedeliverKey "orders") = Some ["0:2:3:uuid-2"] /\
    zset_at (ms w') (w_redis w') (PendingKey "orders" "0" 2) = Some {["3" := 3]} /\
    k_commits (w_kafka w') !! (ConsumerGroup "orders", orders_topic, 2) = Some 3.
Proof.
  exists (snd (surplus_script surplus_start)). split_and!; [apply run_fst; by vm_compute | vm_decide | vm_decide | vm_decide].
Qed.
