(* ===== verification/Sweep.v ===== *)
(** Redelivery and dead-lettering: [internal/core/reaper/reaper.go].

    [Sweep] returns a count together with an error, so its result is the pair.  The
    ticker loop [Run] has no end of its own: it runs on fuel, and ends, with enough of
    it, when its context does. *)

From S2P Require Import Prelude GoNum GoStr Topology Json Keys Redis World Schema Store Scripts Send Receive.

Local Open Scope Z_scope.

Definition defaultSweepInterval : Z := 5 * Second.
Definition sweepBatchSize : nat := 100.

Section Ops.
Context {R : RedisServer} {SD : Sender}.

(** [sender] is false when the reaper has no [DLQSender]. *)
Definition routeToDLQ (sender : bool) (meta : QueueMeta) (result : ReapResult) : M world unit :=
  if bool_decide (qm_DLQQueueName meta = "") || negb sender then mret tt
  else
    _ ← send (MkSendInput (qm_DLQQueueName meta) (rr_Body result) (rr_GroupID result) "");
    mret tt.

(** The loop over the expired handles, with [swept] counted so far. *)
Fixpoint sweep_handles (sender : bool) (queueName : string) (meta : QueueMeta) (swept : Z)
    (handles : list string) : M world (Z * option error) :=
  match handles with
  | [] => mret (swept, None)
  | handle :: rest =>
    let failed e := mret (swept, Some (ErrWrap ("reaper sweep " +:+ queueName +:+ ": ") e)) in
    result ← attempt (Reap queueName handle (qm_MaxReceiveCount meta));
    match result with
    | Err e => failed e
    | Ok result =>
      match rr_Outcome result with
      | ReapOutcomeGone => sweep_handles sender queueName meta swept rest
      | ReapOutcomeDLQ =>
        routed ← attempt (routeToDLQ sender meta result);
        match routed with
        | Err e => failed e
        | Ok _ => sweep_handles sender queueName meta (swept + 1) rest
        end
      | ReapOutcomeRedeliver => sweep_handles sender queueName meta (swept + 1) rest
      end
    end
  end.

Definition Sweep (sender : bool) (queueName : string) : M world (Z * option error) :=
  let failed e := mret (0, Some (ErrWrap ("reaper sweep " +:+ queueName +:+ ": ") e)) in
  meta ← attempt (GetQueueMeta queueName);
  match meta with
  | Err e => failed e
  | Ok None => mret (0, None)
  | Ok (Some meta) =>
    handles ← attempt (ExpiredVisIndexEntries queueName sweepBatchSize);
    match handles with
    | Err e => failed e
    | Ok handles => sweep_handles sender queueName meta 0 handles
    end
  end.

(** [time.NewTicker(interval)] started at [base]: the channel holds at most one tick,
    so after a receive at [last] the next tick is the first multiple of the interval
    after it, at once if that has passed. *)
Definition next_tick (base interval last : Z) : Z := base + interval * ((last - base) / interval + 1).

(** The loop of [Run]; the result is the errors reported to [onSweepError]. *)
Fixpoint run_loop (sender : bool) (queueName : string) (base interval last : Z) (fuel : nat)
    (w : world) : option (list error * world) :=
  match fuel with
  | O => None
  | S fuel' =>
    match sleep (next_tick base interval last - w_clock w) w with
    | (Ok None, w1) =>
      match Sweep sender queueName w1 with
      | (Ok (_, e), w2) =>
        match run_loop sender queueName base interval (w_clock w1) fuel' w2 with
        | Some (es, w3) => Some (option_list e ++ es, w3)
        | None => None
        end
      | (Err _, w2) => Some ([], w2)
      end
    | (_, w1) => Some ([], w1)
    end
  end.

Definition Run (sender : bool) (Interval : Z) (queueName : string) (fuel : nat) (w : world)
    : option (list error * world) :=
  let interval := if Interval <=? 0 then defaultSweepInterval else Interval in
  run_loop sender queueName (w_clock w) interval (w_clock w) fuel w.
End Ops.

(** ** Typing and time *)

Section Kept.
Context {R : RedisServer} {RL : RedisLaws R} {SD : Sender} {SL : SenderLaws SD}.

Lemma typed_routeToDLQ b meta r : preserves typed (routeToDLQ b meta r).
Proof. unfold routeToDLQ. pose proof send_typed. solve_typed. Qed.

Lemma typed_sweep_handles b q meta n l : preserves typed (sweep_handles b q meta n l).
Proof. revert n. pose proof typed_routeToDLQ. induction l as [|h l IH]; intros n; simpl; solve_typed. Qed.

Lemma typed_Sweep b q : preserves typed (Sweep b q).
Proof. unfold Sweep. cbv zeta. pose proof typed_sweep_handles. solve_typed. Qed.

Lemma clock_Reap q h n P : Ambient P -> preserves P (Reap q h n).
Proof. unfold Reap, reap_result_of. cbv zeta. solve_clock. Qed.

Lemma clock_routeToDLQ b meta r P : Ambient P -> preserves P (routeToDLQ b meta r).
Proof. unfold routeToDLQ. pose proof send_ambient. solve_clock. Qed.

#[local] Hint Resolve clock_Reap clock_routeToDLQ : clock.

Lemma clock_sweep_handles b q meta n l P : Ambient P -> preserves P (sweep_handles b q meta n l).
Proof. revert n. induction l as [|h l IH]; intros n; simpl; solve_clock. Qed.

#[local] Hint Resolve clock_sweep_handles : clock.

Lemma clock_Sweep b q P : Ambient P -> preserves P (Sweep b q).
Proof. unfold Sweep, ExpiredVisIndexEntries. cbv zeta. solve_clock. Qed.
End Kept.

(** ** The loop *)

Section Loop.
Context {R : RedisServer} {RL : RedisLaws R} {SD : Sender} {SL : SenderLaws SD}.

(** The sweep reports its errors in its result. *)
Lemma sweep_handles_ok b q meta n l w : exists x w', sweep_handles b q meta n l w = (Ok x, w').
Proof.
  revert n w. induction l as [|h l IH]; intros n w; simpl; [by eexists _, _ |].
  rewrite mbind_run. unfold attempt. destruct (Reap _ _ _ w) as [[r|e] w1]; [| by eexists _, _].
  destruct (rr_Outcome r); [apply IH | | apply IH].
  rewrite mbind_run. destruct (routeToDLQ _ _ _ w1) as [[[]|e] w2]; [apply IH | by eexists _, _].
Qed.

Lemma Sweep_ok b q w : exists x w', Sweep b q w = (Ok x, w').
Proof.
  unfold Sweep. cbv zeta. rewrite mbind_run. unfold attempt at 1.
  destruct (GetQueueMeta q w) as [[[meta|]|e] w1]; [| by eexists _, _ | by eexists _, _].
  rewrite mbind_run. unfold attempt. destruct (ExpiredVisIndexEntries _ _ w1) as [[l|e] w2];
    [apply sweep_handles_ok | by eexists _, _].
Qed.

Context (b : bool) (q : string) (base i : Z) (Hi : 0 < i).

Lemma next_tick_after last : last < next_tick base i last <= last + i.
Proof.
  unfold next_tick. pose proof (Z.mod_pos_bound (last - base) i Hi).
  pose proof (Z.div_mod (last - base) i). nia.
Qed.

(** Each tick received moves the next one at least an interval further. *)
Lemma next_tick_step last last' :
  next_tick base i last <= last' -> next_tick base i last + i <= next_tick base i last'.
Proof.
  unfold next_tick. intros H.
  assert ((last - base) / i + 1 <= (last' - base) / i) by (apply Z.div_le_lower_bound; lia). nia.
Qed.

Lemma run_loop_S last fuel w :
  run_loop b q base i last (S fuel) w =
  match sleep (next_tick base i last - w_clock w) w with
  | (Ok None, w1) =>
    match Sweep b q w1 with
    | (Ok (_, e), w2) =>
      match run_loop b q base i (w_clock w1) fuel w2 with
      | Some (es, w3) => Some (option_list e ++ es, w3)
      | None => None
      end
    | (Err _, w2) => Some ([], w2)
    end
  | (_, w1) => Some ([], w1)
  end.
Proof. done. Qed.

(** The context ends at [t]: so does the loop, whatever the sweeps do. *)
Lemma run_loop_ends t e fuel last w :
  w_cancel w = Some (t, e) -> t <= next_tick base i last + Z.of_nat fuel * i ->
  exists es w', run_loop b q base i last (S fuel) w = Some (es, w').
Proof.
  revert last w. induction fuel as [|fuel IH]; intros last w Hc Ht; rewrite run_loop_S; unfold sleep; rewrite Hc;
    match goal with |- context [if ?c then _ else _] => destruct c eqn:Ec end; try (by eexists _, _); [lia |].
  set (w1 := elapse _ w). destruct (Sweep_ok b q w1) as ([n err] & w2 & Hsw). rewrite Hsw.
  assert (Hc2 : w_cancel w2 = Some (t, e)).
  { pose proof (clock_Sweep b q (fun w => w_cancel w = Some (t, e)) _ w1 Hc) as H. by rewrite Hsw in H. }
  destruct (IH (w_clock w1) w2 Hc2) as (es & w' & Hr).
  - pose proof (next_tick_step last (w_clock w1)). unfold w1 in *. simpl in *. lia.
  - rewrite Hr. by eexists _, _.
Qed.

Lemma run_loop_more fuel fuel' last w r :
  run_loop b q base i last fuel w = Some r -> (fuel <= fuel')%nat ->
  run_loop b q base i last fuel' w = Some r.
Proof.
  revert fuel' last w r. induction fuel as [|fuel IH]; intros fuel' last w r; [done |].
  destruct fuel' as [|fuel']; [lia |]. cbn [run_loop]. intros H Hle.
  destruct (sleep _ w) as [[[e|]|e] w1]; [done | | done].
  destruct (Sweep b q w1) as [[[n e]|e] w2]; [| done].
  destruct (run_loop b q base i (w_clock w1) fuel w2) as [[es w3]|] eqn:E; [| done].
  by rewrite (IH fuel' _ _ _ E ltac:(lia)).
Qed.
End Loop.

(** ** Properties *)



(** ** One sweep in a calm world *)

(** A handle the sweep can meet: its record has expired, or is a well-formed one. *)
Definition reapable (w : world) (q h : string) : Prop :=
  exists m, hash_at (ms w) (w_redis w) (InFlightKey q h) = Some m /\
    (m = ∅ \/ exists rec, stored m rec /\ inflight_ok rec).

(** Its record has not expired. *)
Definition present (w : world) (q h : string) : Prop :=
  hash_at (ms w) (w_redis w) (InFlightKey q h) <> Some ∅.

#[export] Instance present_dec w q h : Decision (present w q h).
Proof. unfold present. apply _. Defined.

(** What the sweep makes of a present message: dead at the maximum, or queued with one
    more delivery on its count. *)
Definition reaped (w w' : world) (q h : string) (max : Z) : Prop :=
  forall m rec, hash_at (ms w) (w_redis w) (InFlightKey q h) = Some m -> stored m rec ->
    if max <=? if_ReceiveCount rec then w_redis w' !! InFlightKey q h = None
    else exists m', hash_at (ms w) (w_redis w') (InFlightKey q h) = Some m' /\
           stored m' (bump_count rec) /\
           exists l, list_at (ms w) (w_redis w') (RedeliverKey q) = Some l /\ h ∈ l.

Section CalmSweep.
Context {R : RedisServer} {RL : RedisLaws R} {SD : Sender}.
Context (q : string) (meta : QueueMeta) (b : bool).
Context (Hmax : is_i32 (qm_MaxReceiveCount meta)).
Context (Hnodlq : qm_DLQQueueName meta = "" \/ b = false).

Lemma no_dlq_route r w : routeToDLQ b meta r w = (Ok tt, w).
Proof.
  unfold routeToDLQ. destruct Hnodlq as [-> | ->]; [by rewrite bool_decide_eq_true_2 |].
  by rewrite orb_true_r.
Qed.

Lemma stored_det m r1 r2 : stored m r1 -> stored m r2 -> inflight_ok r1 -> r1 = r2.
Proof.
  intros H1 H2 Hok. apply stored_lookup in H1 as (A1 & A2 & A3 & A4 & A5 & A6 & A7 & A8).
  apply stored_lookup in H2 as (B1 & B2 & B3 & B4 & B5 & B6 & B7 & B8).
  destruct r1, r2; simpl in *; simplify_eq.
  repeat match goal with H : FormatInt _ = FormatInt _ |- _ => apply FormatInt_inj in H end. congruence.
Qed.

(** One reap: what it leaves behind for the rest of the sweep. *)
Lemma reap_step w h z l :
  calm w -> typed w -> zset_at (ms w) (w_redis w) (VisIndexKey q) = Some z -> is_Some (z !! h) ->
  list_at (ms w) (w_redis w) (RedeliverKey q) = Some l -> reapable w q h ->
  exists r w1 l', Reap q h (qm_MaxReceiveCount meta) w = (Ok r, w1) /\
    (rr_Outcome r = ReapOutcomeGone <-> ~ present w q h) /\
    calm w1 /\ ms w1 = ms w /\
    zset_at (ms w) (w_redis w1) (VisIndexKey q) = Some (delete h z) /\
    list_at (ms w) (w_redis w1) (RedeliverKey q) = Some (l ++ l') /\
    reaped w w1 q h (qm_MaxReceiveCount meta) /\
    (forall h', h' <> h -> w_redis w1 !! InFlightKey q h' = w_redis w !! InFlightKey q h').
Proof.
  intros Hcalm Htyped Hz Hh Hl (m & Hm & Hcase). set (max := qm_MaxReceiveCount meta) in *.
  assert (Hother : forall h', h' <> h -> InFlightKey q h' <> InFlightKey q h)
    by (intros h' Hne E; by apply InFlightKey_inj in E).
  destruct Hcase as [-> | (rec & Hst & Hok)].
  { eexists _, _, []. split; [by eapply Reap_calm_expired |]. cbn [w_redis set_redis].
    split; [split; [intros _ Hp; by apply Hp | done] |]. split; [done |]. split; [done |].
    rewrite zset_at_zrem, Hz, app_nil_r. split; [done |].
    split; [rewrite <- Hl; apply list_at_lookup_eq, zrem_ks_ne; auto with keys |].
    split; [| intros h' Hne; apply zrem_ks_ne; auto with keys].
    intros m' rec Hm' Hst. rewrite Hm in Hm'. simplify_eq. by apply stored_nonempty in Hst. }
  assert (Hpres : present w q h).
  { unfold present. rewrite Hm. intros [= E]. by apply (stored_nonempty m rec). }
  rewrite (Reap_calm_won w Hcalm Htyped q h max z m rec l) by done.
  destruct (Z.leb_spec max (if_ReceiveCount rec)) as [Hle | Hlt].
  - destruct (reap_dlq_ks_spec (ms w) q h rec (w_redis w)) as (Hgone & Hvis & _ & _ & Hfr).
    rewrite Hz in Hvis. eexists _, _, []. split; [reflexivity |]. cbn [w_redis set_redis].
    split; [split; [done | by intros Hn; destruct (Hn Hpres)] |].
    split; [done |]. split; [done |]. split; [exact Hvis |]. rewrite app_nil_r. split.
    { rewrite <- Hl. apply list_at_lookup_eq, Hfr. unfold message_keys, rec_pending_key.
      rewrite !not_elem_of_cons. split_and!; auto with keys. apply not_elem_of_nil. }
    split.
    + intros m' rec' Hm' Hst'. rewrite Hm in Hm'. simplify_eq.
      rewrite <- (stored_det m' rec rec') by done. fold max. by destruct (Z.leb_spec max (if_ReceiveCount rec)); [| lia].
    + intros h' Hne. apply Hfr. unfold message_keys, rec_pending_key. rewrite !not_elem_of_cons.
      split_and!; auto with keys. apply not_elem_of_nil.
  - destruct (reap_redeliver_ks_spec (ms w) q h rec m l (w_redis w)) as (Hrec & Hvis & Hlist & _ & Hfr).
    rewrite Hz in Hvis. eexists _, _, [h]. split; [reflexivity |]. cbn [w_redis set_redis].
    split; [split; [done | by intros Hn; destruct (Hn Hpres)] |].
    split; [done |]. split; [done |]. split; [exact Hvis |]. split; [exact Hlist |]. split.
    + intros m' rec' Hm' Hst'. rewrite Hm in Hm'. simplify_eq.
      rewrite <- (stored_det m' rec rec') by done. fold max.
      destruct (Z.leb_spec max (if_ReceiveCount rec)); [lia |]. eexists. split.
      * unfold hash_at, live, live_entry. cbn [w_redis set_redis]. rewrite Hrec.
        unfold live_entry. destruct (w_redis w !! InFlightKey q h) as [[v x]|] eqn:E; [| done]. simpl.
        destruct (expired (ms w) (Entry v x)) eqn:Ex; simpl; [done |].
        unfold expired in *. simpl in *. by rewrite Ex.
      * split; [by apply stored_bump |]. exists (l ++ [h]). split; [exact Hlist |]. set_solver.
    + intros h' Hne. apply Hfr. rewrite !not_elem_of_cons. split_and!; auto with keys. apply not_elem_of_nil.
Qed.
(** Later reaps of other handles keep what a reap left behind. *)
Lemma reaped_later w w1 w2 h max l l' :
  reaped w w1 q h max -> ms w1 = ms w ->
  w_redis w2 !! InFlightKey q h = w_redis w1 !! InFlightKey q h ->
  list_at (ms w) (w_redis w1) (RedeliverKey q) = Some l ->
  list_at (ms w) (w_redis w2) (RedeliverKey q) = Some (l ++ l') ->
  reaped w w2 q h max.
Proof.
  intros Hr Hms Hk Hl1 Hl2 m rec Hm Hst. specialize (Hr m rec Hm Hst).
  destruct (max <=? if_ReceiveCount rec); [congruence |].
  destruct Hr as (m' & Hm' & Hst' & l0 & Hl0 & Hin). exists m'.
  rewrite (hash_at_lookup_eq (ms w) (w_redis w1)) by done. split; [done |]. split; [done |].
  exists (l ++ l'). split; [done |]. simplify_eq. set_solver.
Qed.

(** What depends on one in-flight key only. *)
Lemma reapable_frame w w1 h :
  ms w1 = ms w -> w_redis w1 !! InFlightKey q h = w_redis w !! InFlightKey q h ->
  hash_at (ms w1) (w_redis w1) (InFlightKey q h) = hash_at (ms w) (w_redis w) (InFlightKey q h).
Proof. intros -> Hk. by apply hash_at_lookup_eq. Qed.

Lemma sweep_run hs n w z l :
  calm w -> typed w -> NoDup hs ->
  zset_at (ms w) (w_redis w) (VisIndexKey q) = Some z -> (forall h, h ∈ hs -> is_Some (z !! h)) ->
  list_at (ms w) (w_redis w) (RedeliverKey q) = Some l -> (forall h, h ∈ hs -> reapable w q h) ->
  exists w' l',
    sweep_handles b q meta n hs w = (Ok (n + Z.of_nat (length (filter (present w q) hs)), None), w') /\
    ms w' = ms w /\
    zset_at (ms w) (w_redis w') (VisIndexKey q) = Some (foldr delete z hs) /\
    list_at (ms w) (w_redis w') (RedeliverKey q) = Some (l ++ l') /\
    (forall h, h ∈ hs -> reaped w w' q h (qm_MaxReceiveCount meta)) /\
    (forall h, h ∉ hs -> w_redis w' !! InFlightKey q h = w_redis w !! InFlightKey q h).
Proof.
  revert n w z l. induction hs as [|h hs IH]; intros n w z l Hcalm Htyped Hnd Hz Hin Hl Hok.
  { exists w, []. rewrite app_nil_r, Z.add_0_r. split_and!; try done. set_solver. }
  apply NoDup_cons in Hnd as [Hnotin Hnd].
  destruct (reap_step w h z l) as (r & w1 & l1 & Hrun & Hgone & Hc1 & Hm1 & Hz1 & Hl1 & Hr1 & Hfr1);
    [done | done | done | set_solver | done | set_solver |].
  assert (Ht1 : typed w1) by (pose proof (typed_Reap q h (qm_MaxReceiveCount meta) w Htyped) as H; by rewrite Hrun in H).
  assert (Hsame : forall h', h' ∈ hs -> hash_at (ms w1) (w_redis w1) (InFlightKey q h') =
                                       hash_at (ms w) (w_redis w) (InFlightKey q h')).
  { intros h' Hh'. apply reapable_frame; [done |]. apply Hfr1. set_solver. }
  set (n1 := if decide (present w q h) then n + 1 else n).
  destruct (IH n1 w1 (delete h z) (l ++ l1)) as (w' & l' & Hrun' & Hm' & Hz' & Hl' & Hr' & Hfr').
  - done.
  - done.
  - done.
  - by rewrite Hm1.
  - intros h' Hh'. rewrite lookup_delete_ne by set_solver. set_solver.
  - by rewrite Hm1.
  - intros h' Hh'. unfold reapable. rewrite Hsame by done. apply Hok. by right.
  - exists w', (l1 ++ l')%list. rewrite Hm1 in *. rewrite app_assoc. split_and!; try done.
    + cbn [sweep_handles]. rewrite mbind_run. unfold attempt at 1. rewrite Hrun.
      assert (Hnext : sweep_handles b q meta n1 hs w1 =
        (Ok (n + Z.of_nat (length (filter (present w q) (h :: hs))), None), w')).
      { rewrite Hrun'. do 3 f_equal. unfold n1. rewrite filter_cons.
        rewrite (list_filter_local (present w1 q) (present w q) hs).
        - case_decide; simpl length; lia.
        - intros h' Hh'. unfold present. by rewrite Hm1, Hsame. }
      unfold n1 in Hnext. destruct (rr_Outcome r) eqn:Eo.
      * rewrite decide_False in Hnext by (by apply Hgone). exact Hnext.
      * rewrite decide_True in Hnext by (apply dec_stable; intros H; by apply Hgone in H).
        rewrite mbind_run. unfold attempt. rewrite no_dlq_route. exact Hnext.
      * rewrite decide_True in Hnext by (apply dec_stable; intros H; by apply Hgone in H). exact Hnext.
    + rewrite Hz'. simpl. by rewrite delete_foldr_delete.
    + intros h' Hh'. apply elem_of_cons in Hh' as [-> | Hh'].
      * by apply (reaped_later w w1 w' h _ (l ++ l1) l'); [done | done | apply Hfr' | done |].
      * intros m rec Hm Hst. rewrite <- (Hsame h' Hh') in Hm. specialize (Hr' h' Hh' m rec).
        rewrite Hm1 in Hr'. exact (Hr' Hm Hst).
    + intros h' Hh'. rewrite Hfr', Hfr1 by set_solver. done.
Qed.
End CalmSweep.

Lemma zset_range_NoDup z x y : NoDup (zset_range z x y).*1.
Proof.
  apply NoDup_fmap_2_strong.
  - intros [m1 s1] [m2 s2] H1 H2 Heq. simpl in Heq. subst m2.
    apply elem_of_zset_range in H1 as [H1 _]. apply elem_of_zset_range in H2 as [H2 _]. congruence.
  - unfold zset_range. apply NoDup_filter. unfold zset_sorted.
    rewrite (merge_sort_Permutation zle). apply NoDup_map_to_list.
Qed.

(** C19. One sweep of a queue without a dead-letter queue, when at most a batch of handles
    has expired: it counts the expired messages whose record is still there, reports no
    error, and leaves no expired handle in the index.  Each of these messages is gone if
    its receive count had reached the maximum, and otherwise is on the redelivery list
    with its count incremented.  Messages that have not expired are untouched. *)
Theorem Sweep_spec {R : RedisServer} {RL : RedisLaws R} {SD : Sender} b q w hm meta z l :
  calm w -> typed w ->
  hash_at (ms w) (w_redis w) (QueueMetaKey q) = Some hm -> hm <> ∅ -> meta_of_hash hm = meta ->
  is_i32 (qm_MaxReceiveCount meta) -> (qm_DLQQueueName meta = "" \/ b = false) ->
  zset_at (ms w) (w_redis w) (VisIndexKey q) = Some z ->
  list_at (ms w) (w_redis w) (RedeliverKey q) = Some l ->
  let due := (zset_range z 0 (ms w)).*1 in
  (length due <= sweepBatchSize)%nat -> (forall h, h ∈ due -> reapable w q h) ->
  exists w' z', Sweep b q w = (Ok (Z.of_nat (length (filter (present w q) due)), None), w') /\
    zset_at (ms w) (w_redis w') (VisIndexKey q) = Some z' /\
    (forall h s, z' !! h = Some s <-> z !! h = Some s /\ ~ 0 <= s <= ms w) /\
    (forall h, h ∈ due -> reaped w w' q h (qm_MaxReceiveCount meta)) /\
    (forall h, h ∉ due -> w_redis w' !! InFlightKey q h = w_redis w !! InFlightKey q h).
Proof.
  intros Hcalm Htyped Hhm Hne Hmeta Hmax Hnodlq Hz Hl due Hlen Hok.
  destruct (sweep_run q meta b Hmax Hnodlq due 0 w z l) as (w' & l' & Hrun & _ & Hz' & _ & Hr & Hfr);
    [done | done | apply zset_range_NoDup | done | | done | done |].
  { intros h Hh. apply list_elem_of_fmap in Hh as ([h' s] & -> & Hin).
    apply elem_of_zset_range in Hin as [Hin _]. by eexists. }
  exists w', (foldr delete z due). split_and!; [| exact Hz' | | exact Hr | exact Hfr].
  - unfold Sweep. cbv zeta. rewrite mbind_run. unfold attempt at 1.
    rewrite (GetQueueMeta_calm w Hcalm q hm Hhm), decide_False, Hmeta by done.
    rewrite mbind_run. unfold attempt.
    rewrite (ExpiredVisIndexEntries_calm w Hcalm q sweepBatchSize z Hz).
    rewrite take_ge by exact Hlen. exact Hrun.
  - intros h s. destruct (decide (h ∈ due)) as [Hin | Hnot].
    + rewrite lookup_foldr_delete by done. split; [done |]. intros [Hzs Hs]. exfalso.
      apply list_elem_of_fmap in Hin as ([h' s'] & -> & Hin).
      apply elem_of_zset_range in Hin as [Hzs' Hr']. cbn [fst] in *. rewrite Hzs' in Hzs. injection Hzs as ->. by apply Hs.
    + rewrite lookup_foldr_delete_not_elem_of by done. split; [| tauto]. intros Hzs. split; [done |].
      intros Hs. apply Hnot, list_elem_of_fmap. exists (h, s). split; [done |]. by apply elem_of_zset_range.
Qed.

(** [sample_world] with its queue's metadata, once the message's visibility has passed. *)
Definition sweep_meta : QueueMeta := MkQueueMeta true 30 5 "" 6 345600 (1600000000 * Second).

Definition sweep_world : world :=
  elapse (31 * Second) (snd (PutQueueMeta "orders" sweep_meta sample_world)).

Lemma sweep_meta_max : is_i32 (qm_MaxReceiveCount sweep_meta).
Proof. by vm_compute. Qed.

Lemma sweep_world_typed : typed sweep_world.
Proof.
  unfold sweep_world. apply typed_elapse. apply typed_PutQueueMeta. apply sample_world_typed.
Qed.

Lemma sweep_world_reapable : reapable sweep_world "orders" "rh-1".
Proof.
  exists sample_hash. split; [vm_decide |]. right. exists sample_record.
  split; [apply sample_hash_stored | by vm_compute].
Qed.

Lemma Sweep_spec_witness :
  exists w', Sweep true "orders" sweep_world = (Ok (1, None), w') /\
    reaped sweep_world w' "orders" "rh-1" 5.
Proof.
  assert (Hz : zset_at (ms sweep_world) (w_redis sweep_world) (VisIndexKey "orders") =
               Some {["rh-1" := ms world0 + 30000]}) by vm_decide.
  assert (Hdue : (zset_range {["rh-1" := ms world0 + 30000]} 0 (ms sweep_world)).*1 = ["rh-1"])
    by vm_decide.
  assert (Hone : length (filter (present sweep_world "orders") ["rh-1"]) = 1%nat).
  { rewrite filter_cons_True; [done |]. unfold present.
    assert (hash_at (ms sweep_world) (w_redis sweep_world) (InFlightKey "orders" "rh-1") = Some sample_hash)
      as -> by vm_decide.
    intros E. injection E as E. by apply (stored_nonempty _ _ sample_hash_stored). }
  destruct (Sweep_spec true "orders" sweep_world
              (hash_set ∅ (meta_fields sweep_meta (qm_CreatedAt sweep_meta))) sweep_meta
              {["rh-1" := ms world0 + 30000]} [])
    as (w' & z' & Hrun & _ & _ & Hr & _).
  - done.
  - apply sweep_world_typed.
  - vm_decide.
  - apply hash_set_nonempty.
  - vm_decide.
  - apply sweep_meta_max.
  - by left.
  - exact Hz.
  - vm_decide.
  - rewrite Hdue. by apply Nat.leb_le.
  - rewrite Hdue. intros h Hh. apply list_elem_of_singleton in Hh as ->. apply sweep_world_reapable.
  - rewrite Hdue in Hrun, Hr. exists w'. split; [| apply Hr; by left].
    rewrite Hone in Hrun. exact Hrun.
Defined.


(** The dead-letter queue does not exist: the send fails. *)
Definition dlq_meta : QueueMeta := MkQueueMeta true 30 1 "orders-dlq" 6 345600 (1600000000 * Second).

