(* ===== verification/Flow.v ===== *)
(** Whole paths through the message plane: a message from the send to the
    acknowledgement, and what the pieces together do to the order of a FIFO group. *)

From S2P Require Import Prelude GoNum GoStr Topology Json Keys Redis World Schema Store Scripts Send Receive Delete Sweep.
From Stdlib Require Import Ascii.

Local Open Scope Z_scope.

Lemma elapse_0 w : elapse 0 w = w.
Proof. destruct w. unfold elapse, set_clock. simpl. f_equal. lia. Qed.

(** ** Distinct handles *)

Section Handles.
Context {U : UUIDSource}.

(** The handle of the [n]-th UUID for a record of the shard [id]. *)
Definition handle_at (id : string) (p o : Z) (n : nat) : string :=
  id +:+ ":" +:+ FormatInt p +:+ ":" +:+ FormatInt o +:+ ":" +:+ uuid_at n.

(** Handles handed out so far by a process that has drawn [n] UUIDs. *)
Definition issued (n : nat) (h : string) : Prop :=
  exists id p o i, has_char ":"%char id = false /\ (i < n)%nat /\ h = handle_at id p o i.

Context (Huuid : forall n m, uuid_at n = uuid_at m -> n = m).

Lemma handle_at_uuid id1 p1 o1 n1 id2 p2 o2 n2 :
  has_char ":"%char id1 = false -> has_char ":"%char id2 = false ->
  handle_at id1 p1 o1 n1 = handle_at id2 p2 o2 n2 -> n1 = n2.
Proof.
  intros H1 H2. unfold handle_at. rewrite !string_app_cons, !string_app_nil_l. intros E.
  apply app_sep_inj in E as [_ E]; [| done | done].
  apply app_sep_inj in E as [_ E]; [| apply FormatInt_no_colon | apply FormatInt_no_colon].
  apply app_sep_inj in E as [_ E]; [| apply FormatInt_no_colon | apply FormatInt_no_colon].
  by apply Huuid.
Qed.

(** A new handle is none of those issued before. *)
Lemma issued_ne n h id p o : issued n h -> has_char ":"%char id = false -> h <> handle_at id p o n.
Proof. intros (id' & p' & o' & i & Hid' & Hi & ->) Hid E. apply handle_at_uuid in E; [lia | done | done]. Qed.

Lemma issued_S n h : issued n h -> issued (S n) h.
Proof. intros (id & p & o & i & ? & ? & ?). exists id, p, o, i. split_and!; [done | lia | done]. Qed.

Lemma issued_new n id p o : has_char ":"%char id = false -> issued (S n) (handle_at id p o n).
Proof. intros H. exists id, p, o, n. split_and!; [done | lia | done]. Qed.
End Handles.

(** ** Receiving from a standard queue *)

(** [m] is the delivery of [rec], and is tracked until [s] seconds from now. *)
Definition delivered (w : world) (q : string) (topics : gmap string string) (s : Z)
    (rec : FetchedRecord) (m : Message) : Prop :=
  msg_Body m = rec_Value rec /\ msg_ReceiveCount m = 1 /\
  exists id, topics !! rec_Topic rec = Some id /\
    tracked w q (msg_ReceiptHandle m) (fresh_record id "" rec) (visible_at w s).

Section Deliver.
Context {R : RedisServer} {RL : RedisLaws R} {U : UUIDSource}.
Context (Huuid : forall n m, uuid_at n = uuid_at m -> n = m).
Context (meta : QueueMeta) (q : string) (topics : gmap string string) (s : Z).
Context (Hstd : qm_FIFO meta = false) (Hs : 0 < s).
Context (Hids : forall t id, topics !! t = Some id -> has_char ":"%char id = false).

(** What a stretch of the work leaves alone: the clock, Kafka, and every message
    already tracked under a handle that was already issued. *)
Definition carries (w w' : world) : Prop :=
  calm w' /\ typed w' /\ w_clock w' = w_clock w /\ w_kafka w' = w_kafka w /\
  (forall h, issued (w_uuid w) h -> issued (w_uuid w') h) /\
  (forall h rec score, issued (w_uuid w) h -> tracked w q h rec score -> tracked w' q h rec score).

Lemma carries_trans w1 w2 w3 : carries w1 w2 -> carries w2 w3 -> carries w1 w3.
Proof.
  intros (_ & _ & Hc1 & Hk1 & Hi1 & Ht1) (Hc & Ht & Hc2 & Hk2 & Hi2 & Ht2).
  split_and!; [done | done | congruence | congruence | auto |]. intros h rec score Hi Htr. by apply Ht2, Ht1; auto.
Qed.

Lemma delivered_carried w w' rec m :
  carries w w' -> issued (w_uuid w) (msg_ReceiptHandle m) ->
  delivered w q topics s rec m -> delivered w' q topics s rec m.
Proof.
  intros (_ & _ & Hc & _ & _ & Ht) Hi (Hb & Hn & id & Hid & Htr). split_and!; [done | done |].
  exists id. split; [done |]. unfold visible_at. rewrite Hc. by apply Ht.
Qed.

(** One record of a standard queue is always handed out. *)
Lemma handOutFresh_standard w rec id :
  calm w -> typed w -> topics !! rec_Topic rec = Some id ->
  exists m w', handOutFresh meta q id rec (s * Second) w = (Ok (Some m), w') /\
    carries w w' /\ delivered w' q topics s rec m /\
    ~ issued (w_uuid w) (msg_ReceiptHandle m) /\ issued (w_uuid w') (msg_ReceiptHandle m).
Proof.
  intros Hcalm Htyped Hid. pose proof (Hids _ _ Hid) as Hcolon.
  destruct (handOutFresh_tracked w meta q id rec s Hcalm Htyped Hs)
    as (w' & Hc & Hms & Hk & Ht & Htr & Hothers & Hclock & Hu & _ & Hrun).
  change (receipt_handle w id rec) with (handle_at id (rec_Partition rec) (rec_Offset rec) (w_uuid w)) in *.
  set (h := handle_at _ _ _ _) in *.
  assert (Hg : group_of meta rec = "") by (unfold group_of; by rewrite Hstd). rewrite Hg in *.
  exists (MkMessage h (rec_Value rec) 1), w'. split_and!; [exact Hrun | | | |].
  - split_and!; [done | done | done | done | rewrite Hu; apply issued_S |].
    intros h0 rec0 score Hi. apply Hothers. by apply (issued_ne Huuid (w_uuid w)).
  - split_and!; [done | done |]. exists id. split; [done |]. unfold visible_at in *. by rewrite Hclock.
  - intros Hi. by apply (issued_ne Huuid _ _ _ _ _ Hi Hcolon (eq_refl h)).
  - rewrite Hu. by apply issued_new.
Qed.

(** The records loop hands out all of them, in order, under distinct handles. *)
Lemma hand_out_records_all recs n w :
  calm w -> typed w -> (length recs <= n)%nat ->
  (forall rec, rec ∈ recs -> is_Some (topics !! rec_Topic rec)) ->
  exists msgs w', hand_out_records meta q topics (s * Second) n recs w = (Ok msgs, w') /\
    carries w w' /\ Forall2 (delivered w' q topics s) recs msgs /\
    NoDup (msg_ReceiptHandle <$> msgs) /\
    (forall m, m ∈ msgs -> ~ issued (w_uuid w) (msg_ReceiptHandle m)).
Proof.
  revert n w. induction recs as [|rec recs IH]; intros n w Hcalm Htyped Hlen Htop.
  { exists [], w. split_and!; [done | | constructor | constructor | intros m Hm; by apply elem_of_nil in Hm].
    by split_and!. }
  destruct n as [|n]; [simpl in Hlen; lia |].
  destruct (Htop rec ltac:(set_solver)) as [id Hid].
  destruct (handOutFresh_standard w rec id Hcalm Htyped Hid) as (m & w1 & Hrun & Hcar & Hdel & Hnew & Hiss).
  destruct (IH n w1) as (msgs & w' & Hrest & Hcar' & Hall & Hnd & Hnews);
    [apply Hcar | apply Hcar | simpl in Hlen; lia | intros; apply Htop; set_solver |].
  exists (m :: msgs), w'. cbn [hand_out_records]. rewrite Hid, mbind_run, Hrun, mbind_run, Hrest.
  split_and!; [done | by eapply carries_trans | | |].
  - constructor; [by eapply delivered_carried | done].
  - rewrite fmap_cons. constructor; [| done]. rewrite list_elem_of_fmap. intros (m' & E & Hm').
    apply (Hnews m' Hm'). by rewrite <- E.
  - intros m' [-> | Hm']%elem_of_cons; [done |]. intros Hi. apply (Hnews m' Hm').
    destruct Hcar as (_ & _ & _ & _ & Hi' & _). by apply Hi'.
Qed.
End Deliver.

(** A topic of the map is resolved to a shard of the map. *)
Lemma topic_to_shard_spec shards t :
  (is_Some (topic_to_shard shards !! t) <-> t ∈ sh_Topic <$> shards) /\
  (forall id, topic_to_shard shards !! t = Some id -> exists sh, sh ∈ shards /\ sh_Topic sh = t /\ sh_ID sh = id).
Proof.
  unfold topic_to_shard. induction shards as [|sh shards IH] using rev_ind.
  { split; [| done]. simpl. rewrite lookup_empty. split; [by intros [? ?] | by intros ?%elem_of_nil]. }
  destruct IH as [IH1 IH2]. rewrite foldl_snoc, fmap_app. split.
  - rewrite elem_of_app, <- IH1, lookup_insert_is_Some. simpl. rewrite list_elem_of_singleton.
    destruct (decide (sh_Topic sh = t)); naive_solver.
  - intros id. rewrite lookup_insert_Some. intros [[<- <-] | [Hne Hid]].
    + exists sh. split_and!; [set_solver | done | done].
    + destruct (IH2 id Hid) as (sh' & ? & ? & ?). exists sh'. split_and!; [set_solver | done | done].
Qed.

Section Receiving.
Context {R : RedisServer} {RL : RedisLaws R} {U : UUIDSource}.
Context (Huuid : forall n m, uuid_at n = uuid_at m -> n = m).

(** The topics that the shard map lists for consumption, with their shards' ids. *)
Definition consumed_topics (shards : list Shard) : gmap string string :=
  topic_to_shard (filter (fun sh => sh_Phase sh <> "Closed") shards).

(** One iteration with an empty redelivery list: the records of the next poll. *)
Lemma receive_once_fresh w meta q topics s interval max recs fs :
  calm w -> typed w -> qm_FIFO meta = false -> 0 < s -> 0 <= interval ->
  (forall t id, topics !! t = Some id -> has_char ":"%char id = false) ->
  list_at (ms w) (w_redis w) (RedeliverKey q) = Some [] ->
  w_fetches w = Fetch 0 [] recs :: fs -> (0 < max)%nat -> (length recs <= max)%nat ->
  (forall rec, rec ∈ recs -> is_Some (topics !! rec_Topic rec)) ->
  exists msgs w', receive_once meta q topics (s * Second) interval max w = (Ok msgs, w') /\
    carries q (set_fetches fs w) w' /\ Forall2 (delivered w' q topics s) recs msgs /\
    NoDup (msg_ReceiptHandle <$> msgs).
Proof.
  intros Hcalm Htyped Hstd Hs Hint Hids Hl Hf Hmax Hlen Htop.
  destruct (hand_out_records_all Huuid meta q topics s Hstd Hs Hids recs (max - 0) (set_fetches fs w))
    as (msgs & w' & Hrun & Hcar & Hall & Hnd & _); [done | done | lia | done |].
  exists msgs, w'. split_and!; [| done | done | done]. unfold receive_once. rewrite mbind_run.
  assert (Hdrain : drain q (s * Second) max w = (Ok [], w)).
  { destruct max as [|max]; [lia |]. cbn [drain]. unfold handOutRedeliverable. rewrite !mbind_run.
    unfold wrap_err. by rewrite (PopRedeliverable_calm w Hcalm q [] Hl). }
  rewrite Hdrain. cbn [length]. destruct (Nat.ltb_spec 0 max); [| lia]. rewrite mbind_run.
  unfold attempt, Poll. rewrite mbind_run. unfold PollFetches. rewrite Hf. cbn [f_errors f_records f_wait].
  rewrite Z.min_l, elapse_0 by lia. cbn [mret M_ret]. rewrite mbind_run. cbn [ctx_Err gets].
  rewrite mbind_run, Hrun. done.
Qed.

Lemma ReceiveMessage_run w interval inp meta shards s recs fs :
  let q := ri_QueueName inp in
  calm w -> typed w -> serves w q meta shards -> qm_FIFO meta = false -> shards <> [] ->
  Forall (fun sh => has_char ":"%char (sh_ID sh) = false) shards ->
  effective_visibility meta inp = s * Second -> 0 < s ->
  list_at (ms w) (w_redis w) (RedeliverKey q) = Some [] ->
  w_fetches w = Fetch 0 [] recs :: fs -> recs <> [] -> (length recs <= effective_max inp)%nat ->
  (forall rec, rec ∈ recs -> exists sh, sh ∈ shards /\ sh_Phase sh <> "Closed" /\ sh_Topic sh = rec_Topic rec) ->
  exists msgs w', ReceiveMessage interval inp w = (Ok msgs, w') /\
    carries q (set_fetches fs w) w' /\
    Forall2 (delivered w' q (consumed_topics shards) s) recs msgs /\ NoDup (msg_ReceiptHandle <$> msgs).
Proof.
  intros q Hcalm Htyped Hserves Hstd Hne Hids Hvis Hs Hl Hf Hrecs Hlen Htop.
  set (topics := consumed_topics shards).
  assert (Hcolon : forall t id, topics !! t = Some id -> has_char ":"%char id = false).
  { intros t id Hid. apply topic_to_shard_spec in Hid as (sh & [_ Hsh]%list_elem_of_filter & _ & <-).
    by apply (proj1 (Forall_forall _ _) Hids). }
  assert (Hknown : forall rec, rec ∈ recs -> is_Some (topics !! rec_Topic rec)).
  { intros rec Hrec. apply topic_to_shard_spec. destruct (Htop rec Hrec) as (sh & Hsh & Hph & <-).
    apply list_elem_of_fmap. exists sh. split; [done |]. by apply list_elem_of_filter. }
  pose proof (effective_interval_pos interval) as Hint.
  destruct (receive_once_fresh w meta q topics s (effective_interval interval) (effective_max inp) recs fs)
    as (msgs & w' & Hrun & Hcar & Hall & Hnd); try done; [lia | destruct recs; simpl in *; [done | lia] |].
  exists msgs, w'. split_and!; [| done | done | done].
  destruct Hserves as [(h & Hh & Hhne & Hm) (str & Hstr & Hu)].
  unfold ReceiveMessage. fold q. cbv zeta. rewrite mbind_run. unfold wrap_err at 1.
  rewrite (GetQueueMeta_calm w Hcalm q h Hh), decide_False, Hm, Hvis by done.
  rewrite mbind_run. unfold ConsumableShards. rewrite mbind_run.
  rewrite (router_shards_calm w Hcalm q str shards Hstr Hu Hne). cbn [mret M_ret]. rewrite mbind_run.
  cbn [Now gets]. unfold fueled, receive_fuel. cbn [receive_loop].
  fold (consumed_topics shards). fold topics. rewrite Hrun.
  destruct msgs as [|m msgs]; [by apply Forall2_nil_inv_r in Hall |]. done.
Qed.

(** C17. A receive from a standard queue with nothing to redeliver returns the records of
    its poll, all of them and in order, each with its body, under distinct handles and
    with receive count 1; and each is tracked from then on: its record, its visibility
    entry for the timeout asked for and its pending offset are in Redis. *)
Theorem ReceiveMessage_delivers w interval inp meta shards s recs fs :
  let q := ri_QueueName inp in
  calm w -> typed w -> serves w q meta shards -> qm_FIFO meta = false -> shards <> [] ->
  Forall (fun sh => has_char ":"%char (sh_ID sh) = false) shards ->
  effective_visibility meta inp = s * Second -> 0 < s ->
  list_at (ms w) (w_redis w) (RedeliverKey q) = Some [] ->
  w_fetches w = Fetch 0 [] recs :: fs -> recs <> [] -> (length recs <= effective_max inp)%nat ->
  (forall rec, rec ∈ recs -> exists sh, sh ∈ shards /\ sh_Phase sh <> "Closed" /\ sh_Topic sh = rec_Topic rec) ->
  exists msgs w', ReceiveMessage interval inp w = (Ok msgs, w') /\
    carries q (set_fetches fs w) w' /\
    Forall2 (delivered w' q (consumed_topics shards) s) recs msgs /\ NoDup (msg_ReceiptHandle <$> msgs).
Proof. apply ReceiveMessage_run. Qed.
End Receiving.

(** ** From the send to the acknowledgement *)

(** The message [h] of [rec] has left every structure it was tracked in. *)
Definition untracked (now : Z) (ks : keyspace) (q h : string) (rec : InFlightRecord) : Prop :=
  ks !! InFlightKey q h = None /\
  (exists z, zset_at now ks (VisIndexKey q) = Some z /\ z !! h = None) /\
  (exists z, zset_at now ks (rec_pending_key q rec) = Some z /\ z !! FormatInt (if_Offset rec) = None).

Lemma DeleteMessage_untracks {R : RedisServer} {RL : RedisLaws R} {K : KafkaServer} b q h rec score w :
  calm w -> typed w -> inflight_ok rec -> tracked w q h rec score ->
  untracked (ms w) (w_redis (snd (DeleteMessage b q h w))) q h rec.
Proof.
  intros Hcalm Htyped Hok ((m & Hm & Hst) & (zv & Hzv & _) & (zp & Hzp & _)).
  rewrite (DeleteMessage_acks b w q h m rec Hcalm Htyped Hm Hst Hok).
  destruct (ack_ks_spec (ms w) q h rec (w_redis w)) as (Hgone & Hvis & Hpend & _ & _).
  rewrite Hzv in Hvis. rewrite Hzp in Hpend. set (ks := ack_ks (ms w) q h rec (w_redis w)) in *.
  set (w' := snd (advanceWatermark b q rec (set_redis ks w))).
  assert (Hk : forall k, k <> WatermarkKey q (if_ShardID rec) (if_Partition rec) -> w_redis w' !! k = ks !! k).
  { intros k Hk. by apply (frame_advanceWatermark b q rec k (ks !! k) Hk). }
  assert (Hp : rec_pending_key q rec <> WatermarkKey q (if_ShardID rec) (if_Partition rec))
    by (unfold rec_pending_key; auto with keys).
  split_and!.
  - by rewrite Hk by auto with keys.
  - exists (delete h zv). split; [| apply lookup_delete_eq].
    etrans; [| exact Hvis]. apply zset_at_lookup_eq, Hk. auto with keys.
  - exists (delete (FormatInt (if_Offset rec)) zp). split; [| apply lookup_delete_eq].
    etrans; [| exact Hpend]. by apply zset_at_lookup_eq, Hk.
Qed.

(** The record at offset [o] of a partition, as a consumer gets it. *)
Definition fetched (st : kafka) (t : string) (p o : Z) : option FetchedRecord :=
  (fun r => MkRecord t p o (kr_key r) (kr_value r)) <$> partition_log st t p !! Z.to_nat o.

Lemma send_routed_calm {R : RedisServer} {RL : RedisLaws R} {K : KafkaServer} {KL : KafkaLaws K} {U : UUIDSource}
    i meta shards w out w' :
  calm w -> serves w (si_QueueName i) meta shards -> routable shards ->
  send_routed meta i w = (Ok out, w') ->
  exists sh p, sh ∈ shards /\ is_active_phase sh = true /\ is_i32 p /\
    so_SequenceNumber out = Z.of_nat (length (partition_log (w_kafka w) (sh_Topic sh) p)) /\
    w_kafka w' = append_record (sh_Topic sh) p (sent_record meta i) (w_kafka w) /\
    w_redis w' = w_redis w /\ w_clock w' = w_clock w /\ calm w'.
Proof.
  intros Hcalm [(hm & _ & _ & Hm) (str & Hstr & Hu)] Hrout. unfold send_routed. rewrite mbind_run.
  set (first := if bool_decide (si_MessageGroupID i = "") then NewString else mret (si_MessageGroupID i)).
  assert (Hfirst : exists key n, first w = (Ok key, set_uuid n w)).
  { unfold first. case_bool_decide; [by eexists _, _ | exists (si_MessageGroupID i), (w_uuid w); by destruct w]. }
  destruct Hfirst as (key & n & ->). set (w1 := set_uuid n w). rewrite mbind_run.
  destruct (SelectShard_active shards key Hrout) as (sh & Hsel & Hin & Hact).
  rewrite (RouteForSend_calm w1 Hcalm _ str shards key sh Hstr Hu Hsel). cbv zeta. rewrite mbind_run. unfold wrap_err.
  set (p := PartitionWithinShard key (qm_PartitionsPerShard meta)).
  pose proof (Produce_calm w1 Hcalm (sh_Topic sh) p (if qm_FIFO meta then Some (si_MessageGroupID i) else None)
                (si_Body i)) as Hp.
  destruct (kgo_produce _ _ _ _ _) as [[o|e] st]; [| by rewrite Hp].
  destruct Hp as (-> & -> & ->). intros [= <- <-]. exists sh, p. split_and!; done || apply i32_range.
Qed.

(** C15. The life of a message on a standard queue.  What a send reports is where the
    message is: the partition of an active shard holds it at the sequence number that was
    returned.  When the consumer's next poll brings that record, a receive returns exactly
    this message, with its body and receive count 1, and tracks it; and once its handle is
    deleted, the record, its visibility entry and its pending offset are gone. *)
Theorem message_lifecycle {R : RedisServer} {RL : RedisLaws R} {K : KafkaServer} {KL : KafkaLaws K} {U : UUIDSource}
    w d i out w1 meta shards :
  let q := si_QueueName i in
  (forall n m, uuid_at n = uuid_at m -> n = m) ->
  calm w -> typed w -> serves w q meta shards -> routable shards ->
  Forall (fun sh => has_char ":"%char (sh_ID sh) = false) shards ->
  qm_FIFO meta = false -> acceptable meta i ->
  list_at (ms w) (w_redis w) (RedeliverKey q) = Some [] ->
  SendMessage d i w = (Ok out, w1) -> is_i64 (so_SequenceNumber out) ->
  exists sh p rec, sh ∈ shards /\ is_active_phase sh = true /\
    fetched (w_kafka w1) (sh_Topic sh) p (so_SequenceNumber out) = Some rec /\ rec_Value rec = si_Body i /\
    forall inp s interval fs b,
      ri_QueueName inp = q -> effective_visibility meta inp = s * Second -> 0 < s ->
      exists h w3 rec', ReceiveMessage interval inp (set_fetches (Fetch 0 [] [rec] :: fs) w1) =
          (Ok [MkMessage h (si_Body i) 1], w3) /\
        tracked w3 q h rec' (visible_at w3 s) /\
        untracked (ms w3) (w_redis (snd (DeleteMessage b q h w3))) q h rec'.
Proof.
  intros q Huuid Hcalm Htyped Hserves Hrout Hids Hstd Hacc Hl Hsend Hoff.
  rewrite (SendMessage_served w Hcalm d i meta shards Hserves Hacc) in Hsend.
  unfold dedup_check in Hsend. rewrite Hstd in Hsend. cbn in Hsend.
  destruct (send_routed_calm i meta shards w out w1 Hcalm Hserves Hrout Hsend)
    as (sh & p & Hsh & Hact & Hp & Hseq & Hk & Hr & Hc & Hcalm1).
  set (rec := MkRecord (sh_Topic sh) p (so_SequenceNumber out) None (si_Body i)).
  exists sh, p, rec. split_and!; [done | done | | done |].
  { unfold fetched. rewrite Hk, partition_log_append, Hseq, Nat2Z.id, list_lookup_middle by done.
    unfold rec, sent_record. by rewrite Hstd, Hseq. }
  intros inp s interval fs b Hq Hvis Hs. set (w2 := set_fetches _ w1).
  assert (Hms : ms w2 = ms w) by (unfold ms; simpl; by rewrite Hc).
  destruct (ReceiveMessage_run Huuid w2 interval inp meta shards s [rec] fs) as (msgs & w3 & Hrun & Hcar & Hall & _).
  all: try done.
  - unfold typed, w2. cbn [w_redis set_fetches]. by rewrite Hr.
  - unfold serves. rewrite Hms. unfold w2. cbn [w_redis set_fetches]. rewrite Hr, Hq. exact Hserves.
  - by intros ->; apply elem_of_nil in Hsh.
  - rewrite Hms, Hq. unfold w2. cbn [w_redis set_fetches]. by rewrite Hr.
  - pose proof (effective_max_range inp). simpl. lia.
  - intros rec0 ->%list_elem_of_singleton. exists sh. split_and!; [done | | done].
    intros E. unfold is_active_phase in Hact. rewrite E in Hact. done.
  - apply Forall2_cons_inv_l in Hall as (m & msgs' & (Hb & Hn & id & _ & Htr) & Hnil & ->).
    apply Forall2_nil_inv_l in Hnil as ->. destruct m as [h body n]. cbn in *. subst body n.
    destruct Hcar as (Hcalm3 & Htyped3 & _). rewrite Hq in *.
    exists h, w3, (fresh_record id "" rec). split_and!; [exact Hrun | exact Htr |].
    by eapply DeleteMessage_untracks.
Qed.

(** ** A standard queue *)

Definition mail_meta : QueueMeta := MkQueueMeta false 30 5 "" 6 345600 (1600000000 * Second).
Definition mail_topic : string := "kmsvc.mail.shard-0".
Definition mail_shards : list Shard := [MkShard "0" mail_topic 0 FullHashRangeEnd "Active"].

Definition mail_world : world :=
  set_kafka (Kafka {[mail_topic := MkTopicConfig 6 3 345600 2]} ∅ ∅)
    (snd (PutShardMap "mail" mail_shards (snd (PutQueueMeta "mail" mail_meta world0)))).

Lemma SeqUUID_inj n m : uuid_at n = uuid_at m -> n = m.
Proof. intros E. apply string_app_inj_l, FormatInt_inj in E. lia. Qed.

Lemma mail_world_serves : serves mail_world "mail" mail_meta mail_shards.
Proof.
  split.
  - exists (hash_set ∅ (meta_fields mail_meta (qm_CreatedAt mail_meta))).
    split_and!; [vm_decide | apply hash_set_nonempty | vm_decide].
  - exists (Marshal mail_shards). split; [vm_decide |].
    apply Unmarshal_Marshal_list. apply Forall_singleton. by vm_compute.
Qed.

Lemma mail_shards_routable : routable mail_shards.
Proof.
  intros h Hh. eexists. change (ActiveShards mail_shards) with mail_shards.
  unfold covering, mail_shards. rewrite filter_cons_True; [reflexivity |].
  apply in_range_spec. simpl. lia.
Qed.

Lemma mail_world_typed : typed mail_world.
Proof.
  apply (typed_PutShardMap "mail" mail_shards), (typed_PutQueueMeta "mail" mail_meta), well_typed_empty.
Qed.

Definition two_records : list FetchedRecord :=
  [MkRecord mail_topic 1 0 None "first"; MkRecord mail_topic 4 0 None "second"].

Lemma ReceiveMessage_delivers_witness :
  exists msgs w', ReceiveMessage 0 (MkReceiveInput "mail" 10 0 0)
      (set_fetches [Fetch 0 [] two_records] mail_world) = (Ok msgs, w') /\
    Forall2 (delivered w' "mail" (consumed_topics mail_shards) 30) two_records msgs.
Proof.
  destruct (ReceiveMessage_delivers SeqUUID_inj (set_fetches [Fetch 0 [] two_records] mail_world) 0
              (MkReceiveInput "mail" 10 0 0) mail_meta mail_shards 30 two_records [])
    as (msgs & w' & Hrun & _ & Hall & _).
  - done.
  - apply mail_world_typed.
  - apply mail_world_serves.
  - done.
  - done.
  - by apply Forall_singleton.
  - done.
  - done.
  - vm_decide.
  - done.
  - done.
  - vm_compute. lia.
  - intros rec Hrec. exists (MkShard "0" mail_topic 0 FullHashRangeEnd "Active").
    split_and!; [by left | done |]. unfold two_records in Hrec. set_unfold. by destruct_or! Hrec; subst.
  - exists msgs, w'. split; [exact Hrun | exact Hall].
Defined.

Lemma message_lifecycle_witness :
  let i := MkSendInput "mail" "hello" "" "" in
  let w1 := snd (SendMessage 0 i mail_world) in
  exists sh p rec, sh ∈ mail_shards /\ fetched (w_kafka w1) (sh_Topic sh) p 0 = Some rec /\
    exists h w3, ReceiveMessage 0 (MkReceiveInput "mail" 1 0 0) (set_fetches [Fetch 0 [] [rec]] w1) =
      (Ok [MkMessage h "hello" 1], w3).
Proof.
  cbv zeta. set (w1 := snd (SendMessage 0 (MkSendInput "mail" "hello" "" "") mail_world)).
  assert (Hsend : SendMessage 0 (MkSendInput "mail" "hello" "" "") mail_world = (Ok (MkSendOutput "uuid-1" 0), w1))
    by (apply run_fst; vm_compute; reflexivity).
  destruct (message_lifecycle mail_world 0 (MkSendInput "mail" "hello" "" "") (MkSendOutput "uuid-1" 0) w1
              mail_meta mail_shards SeqUUID_inj)
    as (sh & p & rec & Hsh & _ & Hrec & _ & Hrest).
  - done.
  - apply mail_world_typed.
  - apply mail_world_serves.
  - apply mail_shards_routable.
  - by apply Forall_singleton.
  - done.
  - by split.
  - vm_decide.
  - exact Hsend.
  - unfold is_i64. simpl. lia.
  - exists sh, p, rec. split; [exact Hsh |]. split; [exact Hrec |].
    destruct (Hrest (MkReceiveInput "mail" 1 0 0) 30 0 [] true) as (h & w3 & rec' & Hrun & _); [done | done | done |].
    exists h, w3. exact Hrun.
Defined.

(** ** The order of a FIFO group

    Two messages of one group arrive in one poll; the consumer gets the first, and does
    not acknowledge it before its visibility timeout of 30 seconds is over.  The reaper
    then sweeps once, and the consumer asks again. *)
Definition summary (m : Message) : string * Z := (msg_Body m, msg_ReceiveCount m).

Definition fifo_script : M world (list (string * Z) * Z * list (string * Z)) :=
  a ← ReceiveMessage 0 (MkReceiveInput "orders" 10 0 0);
  _ ← sleep (31 * Second);
  swept ← Sweep true "orders";
  b ← ReceiveMessage 0 (MkReceiveInput "orders" 10 0 0);
  mret (summary <$> a, fst swept, summary <$> b).

Definition fifo_start (max : Z) : world :=
  set_fetches [Fetch 0 [] [order_record 0 "first"; order_record 1 "second"]]
    (snd (PutQueueMeta "orders" (MkQueueMeta true 30 max "" 6 345600 (1600000000 * Second)) orders_world)).

