(* ===== verification/Interleave.v ===== *)
(** Interleaving.  The other files give the meaning of an operation run on its own: a
    function of the world.  Here an operation is a program whose round trips are the
    atomic steps, and processes that run such programs take turns.  [run] gives back the
    function, so a program is tied to the operation it stands for by an equation.

    Invariants of all interleavings are proved by rely and guarantee: each process shows
    that its own steps keep the invariant and stay within its guarantee, from assertions
    that the other processes' guarantees cannot break.  Invariant and assertions may
    speak of a ghost value that the steps carry along. *)

From S2P Require Import Prelude.

(** ** Programs *)

Inductive prog (W A : Type) : Type :=
| Done (r : res A)
| Act (X : Type) (a : M W X) (k : res X -> prog W A).
Arguments Done {W A} r.
Arguments Act {W A} X a k.

Fixpoint run {W A} (p : prog W A) : M W A := fun w =>
  match p with
  | Done r => (r, w)
  | Act X a k => let '(r, w') := a w in run (k r) w'
  end.

(** One atomic step. *)
Definition act {W A} (a : M W A) : prog W A := Act A a Done.

Fixpoint bind_prog {W A B} (f : A -> prog W B) (p : prog W A) : prog W B :=
  match p with
  | Done (Ok a) => f a
  | Done (Err e) => Done (Err e)
  | Act X a k => Act X a (fun r => bind_prog f (k r))
  end.

#[export] Instance prog_ret {W} : MRet (prog W) := fun A a => Done (Ok a).
#[export] Instance prog_bind {W} : MBind (prog W) := fun A B f p => bind_prog f p.

Fixpoint wrap_prog {W A} (prefix : string) (p : prog W A) : prog W A :=
  match p with
  | Done (Ok a) => Done (Ok a)
  | Done (Err e) => Done (Err (ErrWrap prefix e))
  | Act X a k => Act X a (fun r => wrap_prog prefix (k r))
  end.

Section Run.
Context {W A B : Type}.

Lemma run_act (a : M W A) w : run (act a) w = a w.
Proof. simpl. by destruct (a w). Qed.

Lemma run_ret (a : A) (w : W) : run (mret a) w = (Ok a, w).
Proof. done. Qed.

Lemma run_bind (p : prog W A) (f : A -> prog W B) w : run (p ≫= f) w = (run p ≫= (fun a => run (f a))) w.
Proof.
  unfold mbind, prog_bind. revert w. induction p as [[a|e] | X a k IH]; intros w; [done | done |].
  cbn [bind_prog run]. unfold M_bind. cbn [run]. destruct (a w) as [r w']. apply IH.
Qed.

Lemma run_wrap s (p : prog W A) w : run (wrap_prog s p) w = wrap_err s (run p) w.
Proof.
  unfold wrap_err. revert w. induction p as [[a|e] | X a k IH]; intros w; [done | done |].
  cbn [wrap_prog run]. destruct (a w) as [r w']. apply IH.
Qed.
End Run.

(** Every atomic step of a program, whatever the earlier ones answered, is a [Q]. *)
Fixpoint every_step {W A} (Q : forall X, M W X -> Prop) (p : prog W A) : Prop :=
  match p with Done _ => True | Act X a k => Q X a /\ forall r, every_step Q (k r) end.

Section EveryStep.
Context {W A B : Type} (Q : forall X, M W X -> Prop).

Lemma every_step_bind (p : prog W A) (f : A -> prog W B) :
  every_step Q p -> (forall a, every_step Q (f a)) -> every_step Q (p ≫= f).
Proof.
  intros Hp Hf. unfold mbind, prog_bind. induction p as [[a|e] | X a k IH]; [apply Hf | done |].
  split; [apply Hp |]. intros r. apply IH, Hp.
Qed.

Lemma every_step_wrap s (p : prog W A) : every_step Q p -> every_step Q (wrap_prog s p).
Proof.
  intros Hp. induction p as [[a|e] | X a k IH]; [done | done |]. split; [apply Hp |]. intros r. apply IH, Hp.
Qed.

Lemma every_step_act (a : M W A) : Q A a -> every_step Q (act a).
Proof. by split. Qed.
End EveryStep.

(** To show that a program runs as a function does, step by step. *)
Lemma bind_ext {W A B} (m m' : M W A) (f f' : A -> M W B) w :
  m w = m' w -> (forall a w, f a w = f' a w) -> (m ≫= f) w = (m' ≫= f') w.
Proof. intros Hm Hf. rewrite !mbind_run, Hm. destruct (m' w) as [[a|e] w']; [apply Hf | done]. Qed.

Lemma run_wrap_act {W A} s (m : M W A) w : run (wrap_prog s (act m)) w = wrap_err s m w.
Proof. rewrite run_wrap. unfold wrap_err. by rewrite run_act. Qed.

Ltac run_step :=
  lazymatch goal with
  | |- run (mbind _ _) _ = _ => rewrite run_bind; apply bind_ext; [| intros]
  | |- run (wrap_prog _ (act _)) _ = _ => apply run_wrap_act
  | |- run (act _) _ = _ => apply run_act
  | |- run (mret _) _ = _ => reflexivity
  | |- run (Done _) _ = _ => reflexivity
  | |- run (if ?b then _ else _) _ = _ => destruct b
  | |- run (match ?b with _ => _ end) _ = _ => destruct b
  end.

(** ** Pools of processes *)

Section Pools.
Context {W A : Type} (drift : W -> W -> Prop).

Notation pool := (list (prog W A)).

(** A process takes one step, or the rest of the world moves. *)
Inductive istep : W * pool -> W * pool -> Prop :=
| istep_act w ps i X a k :
    ps !! i = Some (Act X a k) -> istep (w, ps) (snd (a w), <[i := k (fst (a w))]> ps)
| istep_drift w w' ps : drift w w' -> istep (w, ps) (w', ps).

(** Running a schedule: the processes that take a step, in order. *)
Fixpoint schedule (order : list nat) (s : W * pool) : W * pool :=
  match order with
  | [] => s
  | i :: order =>
    match snd s !! i with
    | Some (Act X a k) => let '(r, w') := a (fst s) in schedule order (w', <[i := k r]> (snd s))
    | _ => schedule order s
    end
  end.

Lemma schedule_steps order s : rtc istep s (schedule order s).
Proof.
  revert s. induction order as [|i order IH]; intros [w ps]; cbn [schedule fst snd]; [constructor |].
  destruct (ps !! i) as [[r | X a k]|] eqn:E; [apply IH | | apply IH].
  eapply rtc_l; [by apply (istep_act w ps i X a k) |]. destruct (a w) as [r w']. apply IH.
Qed.

End Pools.

(** ** Rely and guarantee *)

Section RelyGuarantee.
Context {W G : Type} (I : G -> W -> Prop).

Definition assertion : Type := G -> W -> Prop.
Definition action : Type := G -> W -> G -> W -> Prop.

(** [rely] steps from the invariant to the invariant keep [P]. *)
Definition stable (rely : action) (P : assertion) : Prop :=
  forall g w g' w', I g w -> rely g w g' w' -> I g' w' -> P g w -> P g' w'.

(** From [P], every step of the program is a [guar] step that keeps the invariant,
    whatever [rely] steps come in between; and at the end [Q] holds. *)
Fixpoint safe {A} (rely guar : action) (P : assertion) (p : prog W A) (Q : res A -> assertion) : Prop :=
  match p with
  | Done r => forall g w, I g w -> P g w -> Q r g w
  | Act X a k => exists P' : res X -> assertion, (forall r, stable rely (P' r)) /\
      (forall g w, I g w -> P g w -> exists g', guar g w g' (snd (a w)) /\ I g' (snd (a w)) /\
         P' (fst (a w)) g' (snd (a w))) /\
      forall r, safe rely guar (P' r) (k r) Q
  end.

Section Rules.
Context (rely guar : action).

Lemma safe_pre {A} (P P' : assertion) (p : prog W A) Q :
  (forall g w, I g w -> P g w -> P' g w) -> safe rely guar P' p Q -> safe rely guar P p Q.
Proof.
  intros HP. destruct p as [r | X a k]; simpl; [by eauto |]. intros (P0 & H1 & H2 & H3). exists P0. naive_solver.
Qed.

Lemma safe_post {A} (P : assertion) (p : prog W A) (Q Q' : res A -> assertion) :
  safe rely guar P p Q -> (forall r g w, Q r g w -> Q' r g w) -> safe rely guar P p Q'.
Proof.
  intros Hp HQ. revert P Hp. induction p as [r | X a k IH]; intros P Hp; simpl in *; [by eauto |].
  destruct Hp as (P0 & H1 & H2 & H3). exists P0. split_and!; [done | done |]. intros r. by apply IH.
Qed.

Lemma safe_act {A} (P : assertion) (a : M W A) (Q : res A -> assertion) :
  (forall r, stable rely (Q r)) ->
  (forall g w, I g w -> P g w -> exists g', guar g w g' (snd (a w)) /\ I g' (snd (a w)) /\
     Q (fst (a w)) g' (snd (a w))) ->
  safe rely guar P (act a) Q.
Proof. intros Hs Ha. exists Q. split_and!; [done | done |]. intros r g w _ HQ. exact HQ. Qed.

Lemma safe_ret {A} (P : assertion) (a : A) (Q : res A -> assertion) :
  (forall g w, I g w -> P g w -> Q (Ok a) g w) -> safe rely guar P (mret a) Q.
Proof. done. Qed.

Lemma safe_bind {A B} (P : assertion) (p : prog W A) (f : A -> prog W B) (P' : A -> assertion)
    (Q : res B -> assertion) :
  safe rely guar P p (fun r => match r with Ok a => P' a | Err e => Q (Err e) end) ->
  (forall a, safe rely guar (P' a) (f a) Q) ->
  safe rely guar P (p ≫= f) Q.
Proof.
  unfold mbind, prog_bind. revert P. induction p as [[a|e] | X a k IH]; intros P Hp Hf.
  - by eapply safe_pre; [exact Hp | apply Hf].
  - exact Hp.
  - destruct Hp as (P0 & H1 & H2 & H3). exists P0. split_and!; [done | done |]. intros r. by apply IH.
Qed.

Lemma safe_wrap {A} s (P : assertion) (p : prog W A) (Q : res A -> assertion) :
  safe rely guar P p (fun r => match r with Ok a => Q (Ok a) | Err e => Q (Err (ErrWrap s e)) end) ->
  safe rely guar P (wrap_prog s p) Q.
Proof.
  revert P. induction p as [[a|e] | X a k IH]; intros P Hp; [done | done |].
  destruct Hp as (P0 & H1 & H2 & H3). exists P0. split_and!; [done | done |]. intros r. by apply IH.
Qed.
End Rules.

(** Every process of the pool is safe, from an assertion of its own, and ends as it
    promises. *)
Definition pool_safe {A} (rely guar : nat -> action) (Q : nat -> res A -> assertion) (g : G) (w : W)
    (ps : list (prog W A)) : Prop :=
  forall i p, ps !! i = Some p ->
    exists P, stable (rely i) P /\ P g w /\ safe (rely i) (guar i) P p (Q i).

Lemma pool_done {A} rely guar (Q : nat -> res A -> assertion) g w ps i r :
  pool_safe rely guar Q g w ps -> I g w -> ps !! i = Some (Done r) -> Q i r g w.
Proof. intros Hps Hg Hi. destruct (Hps i _ Hi) as (P & _ & HP & Hsafe). by apply Hsafe. Qed.

(** Processes that respect each other's relies keep the invariant in every
    interleaving, where the ghost value may follow the rest of the world. *)
Lemma pool_invariant_ghost {A} (drift : W -> W -> Prop) (rely guar : nat -> action) (Q : nat -> res A -> assertion) :
  (forall i j g w g' w', i <> j -> guar j g w g' w' -> rely i g w g' w') ->
  (forall g w w', I g w -> drift w w' -> exists g', I g' w' /\ forall i, rely i g w g' w') ->
  forall s s', rtc (istep drift) s s' ->
  forall g, I g (fst s) -> pool_safe rely guar Q g (fst s) (snd s) ->
  exists g', I g' (fst s') /\ pool_safe rely guar Q g' (fst s') (snd s').
Proof.
  intros Hcompat Hdrift s s' Hsteps. induction Hsteps as [s | s s1 s' Hstep _ IH]; intros g Hg Hps; [by exists g |].
  destruct Hstep as [w ps i X a k Hi | w w' ps Hd]; cbn [fst snd] in *.
  - destruct (Hps i _ Hi) as (P & _ & HP & (P' & Hst & Ha & Hk)).
    destruct (Ha g w Hg HP) as (g' & Hguar & Hg' & HP'). apply (IH g' Hg').
    intros j p Hj. destruct (decide (j = i)) as [-> | Hne].
    + rewrite list_lookup_insert_eq in Hj by (by eapply lookup_lt_Some). injection Hj as <-. eauto.
    + rewrite list_lookup_insert_ne in Hj by done. destruct (Hps j p Hj) as (Pj & Hstj & HPj & Hsafe).
      exists Pj. split_and!; [done | | done].
      by apply (Hstj g w g' (snd (a w))); [| apply (Hcompat j i) | |].
  - destruct (Hdrift g w w' Hg Hd) as (g' & Hg' & Hrely). apply (IH g' Hg').
    intros j p Hj. destruct (Hps j p Hj) as (Pj & Hstj & HPj & Hsafe).
    exists Pj. split_and!; [done | by apply (Hstj g w g' w') | done].
Qed.

Lemma pool_invariant {A} (drift : W -> W -> Prop) (rely guar : nat -> action) (Q : nat -> res A -> assertion) :
  (forall i j g w g' w', i <> j -> guar j g w g' w' -> rely i g w g' w') ->
  (forall g w w', I g w -> drift w w' -> I g w' /\ forall i, rely i g w g w') ->
  forall s s', rtc (istep drift) s s' ->
  forall g, I g (fst s) -> pool_safe rely guar Q g (fst s) (snd s) ->
  exists g', I g' (fst s') /\ pool_safe rely guar Q g' (fst s') (snd s').
Proof.
  intros Hcompat Hdrift. apply pool_invariant_ghost; [done |]. intros g w w' Hg Hd. exists g. by apply Hdrift.
Qed.
End RelyGuarantee.
