(* ===== verification/Claims.v ===== *)
(** Claims: what a SET NX with a time to live gives its winner.

    Deduplication ids and the locks of FIFO groups are both claimed this way.  A key that
    is held until some moment refuses every other claim up to then, whatever goes by in
    the meantime.  [idle] are the steps of other operations that leave a claim, and what
    goes with it, alone. *)

From S2P Require Import Prelude GoNum GoStr Redis World Schema Store.

Local Open Scope Z_scope.

(** Time passes, and keys disappear whose deadline is over. *)
Definition lapses (w w' : world) : Prop :=
  w_kafka w' = w_kafka w /\ w_clock w <= w_clock w' /\
  forall k, w_redis w' !! k = w_redis w !! k \/
    (w_redis w' !! k = None /\ exists e, w_redis w !! k = Some e /\ expired (ms w') e = true).

(** The key is there with a value of which [P] holds, and stays for as long as it is before
    [until]. *)
Definition held (P : rval -> Prop) (until : Z) (k : string) (w : world) : Prop :=
  exists v e, w_redis w !! k = Some (Entry v e) /\ P v /\ match e with None => True | Some d => until <= d end.

Lemma held_live P until k w now : held P until k w -> now <= until -> is_Some (live now (w_redis w) k).
Proof.
  intros (v & e & Hv & _ & He) Hnow. exists v. unfold live, live_entry, expired. rewrite Hv. cbn.
  destruct e as [d|]; [| done]. by destruct (Z.ltb_spec d now); [lia |].
Qed.

(** A step that leaves every such entry alone leaves the key held. *)
Lemma held_kept P until k w w' :
  (forall v e, P v -> w_redis w !! k = Some (Entry v e) -> w_redis w' !! k = Some (Entry v e)) ->
  held P until k w -> held P until k w'.
Proof. intros Hk (v & e & Hv & HP & He). exists v, e. split; [by apply Hk | done]. Qed.

Lemma held_frame P until k w w' : w_redis w' !! k = w_redis w !! k -> held P until k w -> held P until k w'.
Proof. intros Hk. apply held_kept. intros v e _. by rewrite Hk. Qed.

Lemma held_lapses P until k w w' : lapses w w' -> ms w' <= until -> held P until k w -> held P until k w'.
Proof.
  intros (_ & _ & Hrows) Hms Hh. destruct (Hrows k) as [Hk | [_ (e & He & Hexp)]]; [by eapply held_frame |].
  destruct Hh as (v & d & Hv & _ & Hd). rewrite Hv in He. injection He as <-. unfold expired in Hexp. cbn in Hexp.
  destruct d as [d|]; [apply Z.ltb_lt in Hexp; lia | done].
Qed.

(** What can come of a claim: nothing changes, and then it was not won; or the key was
    free and is now held for the time to live, whatever the client was told. *)
Lemma setnx_cases {R : RedisServer} {RL : RedisLaws R} k v s w :
  0 < s ->
  let '(r, w') := rdo (fun t => cmd_setnx t k v (cli_nx_ms (s * Second))) w in
  w_clock w <= w_clock w' /\ w_kafka w' = w_kafka w /\
  ((w_redis w' = w_redis w /\ r <> Ok true) \/
   (live (ms w') (w_redis w) k = None /\
    w_redis w' = <[k := Entry (VStr v) (Some (ms w' + s * 1000))]> (w_redis w))).
Proof.
  intros Hs. pose proof (kafka_rdo (fun t => cmd_setnx t k v (cli_nx_ms (s * Second))) (w_kafka w) w eq_refl) as Hk.
  destruct (rdo _ w) as [r w'] eqn:E. cbn in Hk. apply rdo_cases in E as [Hclk E]. split; [done |]. split; [done |].
  replace (s * Second) with (s * 1000 * Millisecond) in E by (unfold Second, Millisecond; lia).
  rewrite law_setnx, law_nx_pos in E by lia. destruct (Z.leb_spec (s * 1000) 0); [lia |].
  destruct (live (ms w') (w_redis w) k) as [x|]; cbn in E.
  - left. destruct E as [E | (e & -> & [E | E])]; [by injection E as <- <- | done | done].
  - destruct E as [E | (e & -> & [E | E])]; [right | left | right]; [by injection E as _ <- | done | done].
Qed.

(** Held from now on for [s] seconds. *)
Lemma held_insert (P : rval -> Prop) until k v s w w' :
  w_redis w' = <[k := Entry (VStr v) (Some (ms w' + s * 1000))]> (w_redis w) -> until <= ms w' + s * 1000 -> P (VStr v) ->
  held P until k w'.
Proof. intros Hw Hle HP. exists (VStr v), (Some (ms w' + s * 1000)). by rewrite Hw, lookup_insert_eq. Qed.

(** ** Steps beside the claim

    A step is idle when the clock does not run backwards and everything that [Kept] names
    is left as it is. *)
Section Idle.
Context (Kept : (world -> Prop) -> Prop).

Definition idle {A} (a : M world A) : Prop :=
  (forall t, preserves (after t) a) /\ forall P, Kept P -> preserves P a.

Lemma idle_clock {A} (a : M world A) w : idle a -> w_clock w <= w_clock (snd (a w)).
Proof. intros [Hclk _]. apply (Hclk (w_clock w) w). apply Z.le_refl. Qed.

Lemma idle_bind {A B} (m : M world A) (f : A -> M world B) : idle m -> (forall a, idle (f a)) -> idle (m ≫= f).
Proof.
  intros [H1 H2] Hf. split; [intros t | intros P HP]; apply preserves_bind; auto; intros a; destruct (Hf a); auto.
Qed.

Lemma idle_wrap {A} p (m : M world A) : idle m -> idle (wrap_err p m).
Proof. intros [H1 H2]. split; intros; apply preserves_wrap; auto. Qed.

Lemma idle_pure {A} (f : world -> res A) : idle (fun w => (f w, w)).
Proof. split; unfold preserves; by intros. Qed.

Lemma idle_rdo {A} (c : Z -> M keyspace A) : (forall P, Kept P -> preserves P (rdo c)) -> idle (rdo c).
Proof. intros Hc. split; [intros t; apply ambient_rdo, _ | exact Hc]. Qed.

Lemma idle_NewString {U : UUIDSource} :
  (forall P n w, Kept P -> P w -> P (set_uuid n w)) -> idle NewString.
Proof. intros HK. split; [intros t; apply ambient_NewString, _ |]. intros P HP w Hw. exact (HK P _ w HP Hw). Qed.
End Idle.

Ltac solve_idle :=
  repeat lazymatch goal with
  | |- forall _, _ => intro
  | |- idle _ (mbind _ _) => apply idle_bind
  | |- idle _ (wrap_err _ _) => apply idle_wrap
  | |- idle _ (mret ?r) => apply (idle_pure _ (fun _ => Ok r))
  | |- idle _ (fail ?e) => apply (idle_pure _ (fun _ => Err e))
  | |- idle _ Now => apply (idle_pure _ (fun w => Ok (w_clock w)))
  | |- idle _ (if ?b then _ else _) => destruct b
  | |- idle _ (match ?b with _ => _ end) => destruct b
  end.
