(* ===== verification/Concurrent.v ===== *)
(** Requests in parallel: any number of acknowledgements and reaps, and a receive,
    interleaved at the granularity of round trips.

    The theorem is about one partition of one queue: the offset committed to Kafka never
    passes an offset that is pending in Redis, so a consumer that restarts from the commit
    misses nothing that was received and not acknowledged.  It holds with one receive at a
    time; with two, a commit can pass a record that one of them has polled and not yet
    tracked. *)

From S2P Require Import Prelude GoNum GoStr Topology Json Keys Redis World Schema Store Scripts Send Receive Delete Sweep Flow Interleave.

Local Open Scope Z_scope.

(** ** The operations as programs *)

Section Programs.
Context {R : RedisServer} {K : KafkaServer} {U : UUIDSource}.

Definition advanceWatermark_prog (committer : bool) (queueName : string) (rec : InFlightRecord) : prog world unit :=
  let prefix := "advance watermark " +:+ queueName +:+ ": " in
  minOffset ← wrap_prog prefix (act (MinPending queueName (if_ShardID rec) (if_Partition rec)));
  match minOffset with
  | None => mret tt
  | Some minOffset =>
    _ ← wrap_prog prefix
          (act (SetWatermark queueName (if_ShardID rec) (if_Partition rec) (i64 (minOffset - 1))));
    if committer then
      wrap_prog prefix (act (CommitOffset (ConsumerGroup queueName) (if_Topic rec) (if_Partition rec) minOffset))
    else mret tt
  end.

Definition DeleteMessage_prog (committer : bool) (queueName receiptHandle : string) : prog world unit :=
  let prefix := "delete message " +:+ queueName +:+ ": " in
  rec ← wrap_prog prefix (act (GetInFlight queueName receiptHandle));
  match rec with
  | None => mret tt
  | Some rec =>
    outcome ← wrap_prog prefix (act (Ack queueName receiptHandle));
    if decide (outcome = AckOutcomeAcked) then advanceWatermark_prog committer queueName rec
    else mret tt
  end.

Definition handOutFresh_prog (meta : QueueMeta) (queueName shardID : string) (rec : FetchedRecord)
    (visTimeout : Z) : prog world (option Message) :=
  _ ← wrap_prog (receive_prefix queueName)
        (act (AddPending queueName shardID (rec_Partition rec) (rec_Offset rec)));
  receiptHandle ← act (newReceiptHandle shardID (rec_Partition rec) (rec_Offset rec));
  let groupID := if qm_FIFO meta then default "" (rec_Key rec) else "" in
  _ ← wrap_prog (receive_prefix queueName)
        (act (PutInFlight queueName receiptHandle (fresh_record shardID groupID rec) visTimeout));
  acquired ← (if bool_decide (groupID = "") then mret true
              else act (acquireFIFOSlot queueName groupID receiptHandle visTimeout));
  if negb acquired then
    _ ← wrap_prog (receive_prefix queueName) (act (PushRedeliverable queueName receiptHandle));
    mret None
  else mret (Some (MkMessage receiptHandle (rec_Value rec) 1)).

Definition ExtendVisibility_prog (queue receiptHandle : string) (newTimeout : Z) : prog world bool :=
  let prefix := "extend visibility " +:+ receiptHandle +:+ ": " in
  exists_ ← wrap_prog prefix (act (rdo (fun t => cmd_exists t (InFlightKey queue receiptHandle))));
  if exists_ =? 0 then mret false
  else
    now ← act Now;
    _ ← wrap_prog prefix
          (act (rdo (fun t => cmd_zadd t (VisIndexKey queue) (f64_of_int (UnixMilli (now + newTimeout))) receiptHandle)));
    mret true.

Definition hand_out_handle_prog (queueName : string) (visTimeout : Z) (handle : string)
    : prog world (option Message) :=
  rec ← wrap_prog (receive_prefix queueName) (act (GetInFlight queueName handle));
  match rec with
  | None => mret None
  | Some rec =>
    acquired ← (if bool_decide (if_GroupID rec = "") then mret true
                else act (acquireFIFOSlot queueName (if_GroupID rec) handle visTimeout));
    if negb acquired then
      _ ← wrap_prog (receive_prefix queueName) (act (PushRedeliverable queueName handle));
      mret None
    else
      _ ← wrap_prog (receive_prefix queueName) (ExtendVisibility_prog queueName handle visTimeout);
      mret (Some (MkMessage handle (if_Body rec) (if_ReceiveCount rec)))
  end.

Definition handOutRedeliverable_prog (queueName : string) (visTimeout : Z) : prog world (option Message) :=
  popped ← wrap_prog (receive_prefix queueName) (act (PopRedeliverable queueName));
  match popped with
  | None => mret None
  | Some handle => hand_out_handle_prog queueName visTimeout handle
  end.

Fixpoint drain_prog (queueName : string) (visTimeout : Z) (n : nat) : prog world (list Message) :=
  match n with
  | O => mret []
  | S n' =>
    handed ← handOutRedeliverable_prog queueName visTimeout;
    match handed with
    | None => mret []
    | Some msg => rest ← drain_prog queueName visTimeout n'; mret (msg :: rest)
    end
  end.

Fixpoint hand_out_records_prog (meta : QueueMeta) (queueName : string) (topics : gmap string string)
    (visTimeout : Z) (n : nat) (records : list FetchedRecord) : prog world (list Message) :=
  match records, n with
  | [], _ => mret []
  | _ :: _, O => mret []
  | rec :: records', S n' =>
    match topics !! rec_Topic rec with
    | None => hand_out_records_prog meta queueName topics visTimeout n records'
    | Some shardID =>
      handed ← handOutFresh_prog meta queueName shardID rec visTimeout;
      match handed with
      | Some msg =>
        rest ← hand_out_records_prog meta queueName topics visTimeout n' records';
        mret (msg :: rest)
      | None => hand_out_records_prog meta queueName topics visTimeout n records'
      end
    end
  end.
End Programs.

(** *** They run as the operations *)

Section Runs.
Context {R : RedisServer} {K : KafkaServer} {U : UUIDSource}.

Lemma run_DeleteMessage b q h w : run (DeleteMessage_prog b q h) w = DeleteMessage b q h w.
Proof. unfold DeleteMessage_prog, DeleteMessage, advanceWatermark_prog, advanceWatermark. cbv zeta. repeat run_step. Qed.

Lemma run_handOutFresh meta q id rec v w : run (handOutFresh_prog meta q id rec v) w = handOutFresh meta q id rec v w.
Proof. unfold handOutFresh_prog, handOutFresh. cbv zeta. repeat run_step. Qed.

Lemma run_ExtendVisibility q h v w : run (ExtendVisibility_prog q h v) w = ExtendVisibility q h v w.
Proof. unfold ExtendVisibility_prog, ExtendVisibility. cbv zeta. repeat run_step. Qed.

Lemma run_wrap_ext {A} s (p : prog world A) m w : run p w = m w -> run (wrap_prog s p) w = wrap_err s m w.
Proof. intros H. rewrite run_wrap. unfold wrap_err. by rewrite H. Qed.

Lemma run_hand_out_handle q v h w : run (hand_out_handle_prog q v h) w = hand_out_handle q v h w.
Proof.
  unfold hand_out_handle_prog, hand_out_handle. cbv zeta.
  repeat first [run_step | apply run_wrap_ext, run_ExtendVisibility].
Qed.

Lemma run_handOutRedeliverable q v w : run (handOutRedeliverable_prog q v) w = handOutRedeliverable q v w.
Proof. unfold handOutRedeliverable_prog, handOutRedeliverable. repeat run_step. apply run_hand_out_handle. Qed.

Lemma run_drain q v n w : run (drain_prog q v n) w = drain q v n w.
Proof.
  revert w. induction n as [|n IH]; intros w; [done |]. cbn [drain_prog drain].
  rewrite run_bind. apply bind_ext; [apply run_handOutRedeliverable |]. intros [msg|] w'; [| done].
  rewrite run_bind. apply bind_ext; [apply IH | done].
Qed.

Lemma run_hand_out_records meta q topics v n recs w :
  run (hand_out_records_prog meta q topics v n recs) w = hand_out_records meta q topics v n recs w.
Proof.
  revert n w. induction recs as [|rec recs IH]; intros n w; [done |]. destruct n as [|n]; [done |].
  cbn [hand_out_records_prog hand_out_records]. destruct (topics !! rec_Topic rec); [| apply IH].
  rewrite run_bind. apply bind_ext; [apply run_handOutFresh |]. intros [msg|] w'; [| apply IH].
  rewrite run_bind. apply bind_ext; [apply IH | done].
Qed.
End Runs.

(** ** What is kept in Redis *)

Section Partition.
Context (q id t : string) (p : Z).

Notation key := (PendingKey q id p).

(** The partition's pending set is a row without deadline that holds offsets from [lo]
    up to but not including [hw]. *)
Definition pending_within (lo hw : Z) (ks : keyspace) : Prop :=
  match ks !! key with
  | None => True
  | Some (Entry (VZSet z) None) => exists os, pending_offsets z os /\ forall o, o ∈ os -> lo <= o < hw
  | Some _ => False
  end.

(** Records of the partition's topic and number are those whose pending set is this one. *)
Definition coherent_record (rec : InFlightRecord) : Prop :=
  if_Topic rec = t -> if_Partition rec = p -> rec_pending_key q rec = key.

Definition coherent (ks : keyspace) : Prop :=
  forall h m d, ks !! InFlightKey q h = Some (Entry (VHash m) d) -> coherent_record (inflight_of_hash m).

Definition kept (lo hw : Z) (ks : keyspace) : Prop := pending_within lo hw ks /\ coherent ks.

(** Only these rows matter. *)
Definition watched (k : string) : Prop := k = key \/ exists h, k = InFlightKey q h.

Lemma kept_frame lo hw ks ks' : (forall k, watched k -> ks' !! k = ks !! k) -> kept lo hw ks -> kept lo hw ks'.
Proof.
  intros Hk [Hp Hc]. split.
  - unfold pending_within. rewrite Hk by (by left). exact Hp.
  - intros h m d. rewrite Hk by (right; by exists h). apply Hc.
Qed.

Lemma kept_by_frame {A} lo hw (c : M keyspace A) :
  (forall k e, watched k -> preserves (fun ks => ks !! k = e) c) -> preserves (kept lo hw) c.
Proof. intros Hc ks Hks. apply (kept_frame lo hw ks); [| done]. intros k Hk. by apply (Hc k (ks !! k) Hk). Qed.

(** A key of another family is not watched. *)
Lemma watched_ne f k k' : of_family f k' -> f <> FPending -> f <> FInFlight -> watched k -> k <> k'.
Proof. intros Hf H1 H2 [-> | [h ->]]; eapply of_family_ne; eauto with keys; done. Qed.

Lemma pending_within_mono lo hw hw' ks : hw <= hw' -> pending_within lo hw ks -> pending_within lo hw' ks.
Proof.
  intros Hle. unfold pending_within. destruct (ks !! key) as [[[] []]|]; try done.
  intros (os & Hos & Hb). exists os. split; [done |]. intros o Ho. specialize (Hb o Ho). lia.
Qed.

(** The set as Redis reads it. *)
Lemma pending_within_zset now lo hw ks :
  pending_within lo hw ks ->
  exists z os, zset_at now ks key = Some z /\ pending_offsets z os /\ (forall o, o ∈ os -> lo <= o < hw) /\
    live_entry now ks key ≫= e_exp = None.
Proof.
  unfold pending_within, zset_at, live, live_entry. destruct (ks !! key) as [[[] []]|]; try done.
  - intros (os & Hos & Hb). exists z, os. by split_and!.
  - intros _. exists ∅, ∅. split_and!; [done | apply pending_offsets_empty | set_solver | done].
Qed.

(** Writing the set back with fewer or with admissible offsets. *)
Lemma pending_within_put now lo hw ks z os :
  pending_offsets z os -> (forall o, o ∈ os -> lo <= o < hw) ->
  live_entry now ks key ≫= e_exp = None -> pending_within lo hw (put now key (VZSet z) ks).
Proof. intros Hos Hb Hd. unfold pending_within, put. rewrite lookup_insert_eq, Hd. by exists os. Qed.

Lemma coherent_other ks ks' k : (forall h, k <> InFlightKey q h) -> (forall k', k' <> k -> ks' !! k' = ks !! k') ->
  coherent ks -> coherent ks'.
Proof. intros Hk Hks Hc h m d. rewrite Hks by (by intros E; apply (Hk h)). apply Hc. Qed.

Section Commands.
Context {R : RedisServer} {RL : RedisLaws R}.

Lemma pending_not_inflight s p' h : PendingKey q s p' <> InFlightKey q h.
Proof. auto with keys. Qed.

Lemma kept_zrem now k m lo hw f :
  of_family f k -> f = FPending \/ f = FVisIndex -> preserves (kept lo hw) (cmd_zrem now k m).
Proof.
  intros Hf Hff. destruct (decide (k = key)) as [-> | Hne].
  - intros ks [Hp Hc]. rewrite law_zrem.
    destruct (pending_within_zset now lo hw ks Hp) as (z & os & Hz & Hos & Hb & Hd). rewrite Hz.
    destruct (z !! m) as [s|] eqn:Hm; [| done]. simpl. apply Hos in Hm as (o & Ho & -> & _). split.
    + unfold put_zset. case_decide.
      * unfold pending_within. by rewrite lookup_delete_eq.
      * eapply pending_within_put; [by apply pending_offsets_delete | set_solver | done].
    + eapply (coherent_other ks); [intros h; apply pending_not_inflight | | done].
      intros k' Hk'. unfold put_zset, put. case_decide; [by rewrite lookup_delete_ne | by rewrite lookup_insert_ne].
  - apply kept_by_frame. intros k' e Hk'. apply frame_zrem.
    destruct Hk' as [-> | [h ->]]; [done |].
    destruct Hff as [-> | ->]; eapply of_family_ne; eauto with keys; done.
Qed.

Lemma kept_del_inflight now h lo hw : preserves (kept lo hw) (cmd_del now (InFlightKey q h)).
Proof.
  intros ks [Hp Hc]. rewrite law_del. split; simpl.
  - unfold pending_within. rewrite lookup_delete_ne by auto with keys. exact Hp.
  - intros h' m d. rewrite lookup_delete_Some. intros [_ Hm]. by eapply Hc.
Qed.

(** HSET on a message's row, when the row is coherent afterwards. *)
Lemma kept_hset_inflight now h fs lo hw :
  (forall ks m, coherent ks -> hash_at now ks (InFlightKey q h) = Some m ->
     coherent_record (inflight_of_hash (hash_set m fs))) ->
  preserves (kept lo hw) (cmd_hset now (InFlightKey q h) fs).
Proof.
  intros Hfs ks [Hp Hc]. rewrite law_hset. destruct (hash_at now ks (InFlightKey q h)) as [m|] eqn:Hm; [| done].
  split; simpl; unfold put.
  - unfold pending_within. rewrite lookup_insert_ne by auto with keys. exact Hp.
  - intros h' m' d. rewrite lookup_insert_Some. intros [[_ [= <- _]] | [_ Hm']]; [by eapply Hfs | by eapply Hc].
Qed.

(** The reaper's update of the receive count does not touch where the message is from. *)
Lemma kept_hset_count now h n lo hw :
  t <> "" -> preserves (kept lo hw) (cmd_hset now (InFlightKey q h) [("receiveCount", n)]).
Proof.
  intros Ht. apply kept_hset_inflight. intros ks m Hc Hm. unfold hash_at, live, live_entry in Hm.
  assert (Hsame : coherent_record (inflight_of_hash m)).
  { destruct (ks !! InFlightKey q h) as [[v d]|] eqn:E; simpl in Hm.
    - destruct (expired now (Entry v d)); simpl in Hm; [| destruct v; try done].
      + injection Hm as <-. intros Hx. by contradict Ht.
      + injection Hm as <-. by eapply Hc.
    - injection Hm as <-. intros Hx. by contradict Ht. }
  unfold coherent_record, rec_pending_key, inflight_of_hash, hash_set, int_field, field in *. simpl in *. by look_fields.
Qed.

(** A fresh record is written over whatever the row held. *)
Lemma kept_hset_record now h rec lo hw :
  inflight_ok rec -> coherent_record rec ->
  preserves (kept lo hw) (cmd_hset now (InFlightKey q h) (inflight_fields rec)).
Proof. intros Hok Hrec. apply kept_hset_inflight. intros ks m _ _. by rewrite inflight_of_fields. Qed.

Lemma kept_expire_inflight now h n lo hw : preserves (kept lo hw) (cmd_expire now (InFlightKey q h) n).
Proof.
  intros ks [Hp Hc]. rewrite law_expire. unfold live, live_entry. simpl.
  destruct (ks !! InFlightKey q h) as [e|] eqn:E; [| done]. destruct (expired now e); [done |]. simpl.
  split.
  - unfold pending_within. destruct (n <=? 0); [rewrite lookup_delete_ne by auto with keys |
      rewrite lookup_insert_ne by auto with keys]; exact Hp.
  - destruct (n <=? 0); intros h' m d.
    + rewrite lookup_delete_Some. intros [_ Hm]. by eapply Hc.
    + rewrite lookup_insert_Some. intros [[Hk [= Hv _]] | [_ Hm]]; [| by eapply Hc].
      apply InFlightKey_inj in Hk as <-. destruct e as [v d']. simpl in Hv. subst v. by eapply Hc.
Qed.

Lemma kept_lua_field m f lo hw : preserves (kept lo hw) (lua_field m f).
Proof. unfold lua_field. destruct (m !! f); auto with preserve. Qed.

Lemma kept_release_lock now h m lo hw : preserves (kept lo hw) (lua_release_lock now q h m).
Proof.
  unfold lua_release_lock. cbv zeta. destruct (m !! "groupId") as [g|]; [| apply preserves_ret].
  case_decide; [apply preserves_ret |].
  change ("kmsvc:fifo_lock:" +:+ q +:+ ":" +:+ g) with (FIFOLockKey q g).
  repeat pres_step; apply kept_by_frame; intros k0 e0 Hk0;
    [apply frame_get | apply frame_del; by eapply watched_ne; [apply FIFOLockKey_family | ..]].
Qed.

Lemma kept_hgetall now k lo hw : preserves (kept lo hw) (cmd_hgetall now k).
Proof. apply kept_by_frame. intros k' e _. apply frame_hgetall. Qed.

Lemma kept_rpush now h lo hw : preserves (kept lo hw) (cmd_rpush now (RedeliverKey q) h).
Proof.
  apply kept_by_frame. intros k e Hk. apply frame_rpush. by eapply watched_ne; [apply RedeliverKey_family | ..].
Qed.

Lemma kept_ack_lua now h lo hw : preserves (kept lo hw) (ack_lua (InFlightKey q h) (VisIndexKey q) h q now).
Proof.
  unfold ack_lua. cbv zeta.
  repeat pres_step; first [apply kept_hgetall | apply kept_lua_field | apply kept_del_inflight | apply kept_release_lock
    | eapply kept_zrem; [eauto with keys | by auto]].
Qed.

Lemma kept_reap_lua now h max lo hw :
  t <> "" -> preserves (kept lo hw) (reap_lua (InFlightKey q h) (VisIndexKey q) h max q now).
Proof.
  intros Ht. unfold reap_lua. cbv zeta. change ("kmsvc:redeliver:" +:+ q) with (RedeliverKey q).
  repeat pres_step; first [apply kept_hgetall | apply kept_lua_field | apply kept_del_inflight | apply kept_release_lock
    | by apply kept_hset_count | apply kept_rpush | eapply kept_zrem; [eauto with keys | by auto]].
Qed.
End Commands.

(** ** The invariant *)

Definition committed (w : world) : Z := default 0 (k_commits (w_kafka w) !! (ConsumerGroup q, t, p)).

(** The ghost [hw] is above every offset that has been pending. *)
Definition commit_inv (hw : Z) (w : world) : Prop :=
  kept (committed w) hw (w_redis w) /\ 0 <= committed w <= hw /\ hw <= 2 ^ 53.

(** What a receive may do: raise [hw], and add offsets from [hw] on. *)
Definition grows : action (W := world) (G := Z) := fun g w g' w' =>
  g <= g' /\ forall lo, lo <= g -> pending_within lo g (w_redis w) -> pending_within lo g' (w_redis w').

(** What an acknowledgement may do: no new offsets. *)
Definition tame : action (W := world) (G := Z) := fun g w g' w' =>
  g' = g /\ forall lo, lo <= g -> pending_within lo g (w_redis w) -> pending_within lo g (w_redis w').

(** What a receive relies on: the others leave [hw] alone. *)
Definition steady : action (W := world) (G := Z) := fun g _ g' _ => g' = g.

Lemma tame_grows g w g' w' : tame g w g' w' -> grows g w g' w'.
Proof. intros [-> H]. split; [lia | exact H]. Qed.

(** Time passes and keys with a deadline disappear. *)
Definition drifts (w w' : world) : Prop := w_kafka w' = w_kafka w /\ w_redis w' ⊆ w_redis w.

Lemma pending_within_sub lo hw ks ks' : ks' ⊆ ks -> pending_within lo hw ks -> pending_within lo hw ks'.
Proof.
  intros Hsub Hp. unfold pending_within in *. destruct (ks' !! key) as [e|] eqn:E; [| done].
  by rewrite (lookup_weaken _ _ _ _ E Hsub) in Hp.
Qed.

Lemma drifts_inv g w w' : commit_inv g w -> drifts w w' -> commit_inv g w' /\ tame g w g w'.
Proof.
  intros ([Hp Hc] & Hcom & Hg) [Hk Hsub]. unfold commit_inv, committed in *. rewrite Hk. split.
  - split; [| lia]. split; [by eapply pending_within_sub |].
    intros h m d Hm. apply (Hc h m d). by eapply lookup_weaken.
  - split; [done |]. intros lo _. by apply pending_within_sub.
Qed.

(** Actions that leave Kafka alone and add nothing. *)
Definition quiet {A} (a : M world A) : Prop :=
  (forall k, preserves (fun w => w_kafka w = k) a) /\
  forall lo hw, preserves (fun w => kept lo hw (w_redis w)) a.

Lemma quiet_step {A} (a : M world A) g w :
  quiet a -> commit_inv g w -> tame g w g (snd (a w)) /\ commit_inv g (snd (a w)).
Proof.
  intros [Hk Hkept] (Hp & Hcom & Hg). specialize (Hk (w_kafka w) w eq_refl). split.
  - split; [done |]. intros lo _ Hlo. apply (Hkept lo g w). split; [done | apply Hp].
  - unfold commit_inv, committed in *. rewrite Hk. split; [| done]. by apply (Hkept _ g w).
Qed.

Lemma quiet_rdo {A} (c : Z -> M keyspace A) : (forall now lo hw, preserves (kept lo hw) (c now)) -> quiet (rdo c).
Proof. intros Hc. split; [intros k; apply kafka_rdo |]. intros lo hw. apply preserves_rdo. intros now. apply Hc. Qed.

Lemma quiet_bind {A B} (m : M world A) (f : A -> M world B) : quiet m -> (forall a, quiet (f a)) -> quiet (m ≫= f).
Proof. intros [H1 H2] Hf. split; intros; apply preserves_bind; auto; intros a; apply (Hf a). Qed.

Lemma quiet_wrap {A} s (m : M world A) : quiet m -> quiet (wrap_err s m).
Proof. intros [H1 H2]. split; intros; apply preserves_wrap; auto. Qed.

Lemma quiet_ret {A} (r : A) : quiet (mret r : M world A).
Proof. split; intros; apply preserves_ret. Qed.

Lemma quiet_gets {A} (f : world -> A) : quiet (gets f).
Proof. split; intros; apply preserves_gets. Qed.

Lemma quiet_fail {A} e : quiet (fail e : M world A).
Proof. split; intros; apply preserves_fail. Qed.

Ltac quiet_step_tac :=
  lazymatch goal with
  | |- forall _, _ => intro
  | |- quiet Now => apply quiet_gets
  | |- quiet (mbind _ _) => apply quiet_bind
  | |- quiet (wrap_err _ _) => apply quiet_wrap
  | |- quiet (mret _) => apply quiet_ret
  | |- quiet (fail _) => apply quiet_fail
  | |- quiet (rdo _) => apply quiet_rdo
  | |- quiet (if ?b then _ else _) => destruct b
  | |- quiet (match ?b with _ => _ end) => destruct b
  end.

Section Actions.
Context {R : RedisServer} {RL : RedisLaws R} {K : KafkaServer} {KL : KafkaLaws K} {U : UUIDSource}.

Lemma quiet_GetInFlight h : quiet (GetInFlight q h).
Proof. unfold GetInFlight. repeat quiet_step_tac. apply kept_hgetall. Qed.

Lemma quiet_Ack h : quiet (Ack q h).
Proof. unfold Ack. repeat quiet_step_tac. apply kept_ack_lua. Qed.

Lemma quiet_Reap h max : t <> "" -> quiet (Reap q h max).
Proof. intros Ht. unfold Reap, reap_result_of. cbv zeta. repeat quiet_step_tac. by apply kept_reap_lua. Qed.

Lemma quiet_MinPending s p' : quiet (MinPending q s p').
Proof.
  unfold MinPending. repeat quiet_step_tac. apply kept_by_frame. intros k e _. apply frame_zfirst.
Qed.

Lemma quiet_SetWatermark s p' o : quiet (SetWatermark q s p' o).
Proof.
  unfold SetWatermark. cbv zeta. repeat quiet_step_tac. apply kept_by_frame. intros k e Hk. apply frame_set.
  by eapply watched_ne; [apply WatermarkKey_family | ..].
Qed.

Lemma quiet_newReceiptHandle s p' o : quiet (newReceiptHandle s p' o).
Proof. unfold newReceiptHandle. repeat quiet_step_tac. split; intros; by intros w Hw. Qed.

Lemma quiet_PutInFlight h rec v : inflight_ok rec -> coherent_record rec -> quiet (PutInFlight q h rec v).
Proof.
  intros Hok Hrec. unfold PutInFlight. cbv zeta. repeat quiet_step_tac. apply preserves_tx.
  apply Forall_cons; split; [| apply Forall_cons; split; [| apply Forall_singleton]].
  - by apply kept_hset_record.
  - apply kept_expire_inflight.
  - apply kept_by_frame. intros k e Hk. apply frame_zadd. by eapply watched_ne; [apply VisIndexKey_family | ..].
Qed.

Lemma quiet_acquireFIFOSlot g h v : quiet (acquireFIFOSlot q g h v).
Proof.
  unfold acquireFIFOSlot, AcquireFIFOLock. repeat quiet_step_tac. apply kept_by_frame. intros k e Hk.
  apply frame_setnx. by eapply watched_ne; [apply FIFOLockKey_family | ..].
Qed.

Lemma quiet_PushRedeliverable h : quiet (PushRedeliverable q h).
Proof. unfold PushRedeliverable. repeat quiet_step_tac. apply kept_rpush. Qed.

Lemma quiet_PopRedeliverable : quiet (PopRedeliverable q).
Proof.
  unfold PopRedeliverable. repeat quiet_step_tac. apply kept_by_frame. intros k e Hk. apply frame_lpop.
  by eapply watched_ne; [apply RedeliverKey_family | ..].
Qed.

(** Programs of quiet steps. *)
Notation quiet_prog := (every_step (fun _ => quiet)).

Lemma quiet_drain v n : quiet_prog (drain_prog q v n).
Proof.
  assert (Hx : forall h, quiet_prog (ExtendVisibility_prog q h v)).
  { intros h. unfold ExtendVisibility_prog. cbv zeta. apply every_step_bind.
    - apply every_step_wrap, every_step_act, quiet_rdo. intros. apply kept_by_frame. intros k e _. apply frame_exists.
    - intros x. destruct (x =? 0); [done |]. apply every_step_bind; [apply every_step_act, quiet_gets |].
      intros now. apply every_step_bind; [| done]. apply every_step_wrap, every_step_act, quiet_rdo. intros.
      apply kept_by_frame. intros k e Hk. apply frame_zadd. by eapply watched_ne; [apply VisIndexKey_family | ..]. }
  induction n as [|n IH]; [done |]. cbn [drain_prog]. apply every_step_bind; [| intros [msg|]; [| done]].
  - apply every_step_bind; [apply every_step_wrap, every_step_act, quiet_PopRedeliverable |].
    intros [h|]; [| done]. apply every_step_bind; [apply every_step_wrap, every_step_act, quiet_GetInFlight |].
    intros [rec|]; [| done]. apply every_step_bind.
    { destruct (bool_decide _); [done | apply every_step_act, quiet_acquireFIFOSlot]. }
    intros [|]; cbn [negb]; apply every_step_bind; try done; apply every_step_wrap;
      [apply Hx | apply every_step_act, quiet_PushRedeliverable].
  - by apply every_step_bind.
Qed.

(** What the acknowledgement learns from the server. *)
Lemma GetInFlight_coherent h g w :
  commit_inv g w ->
  match fst (GetInFlight q h w) with Ok (Some rec) => t <> "" -> coherent_record rec | _ => True end.
Proof.
  intros ([_ Hc] & _). unfold GetInFlight. rewrite mbind_run. unfold wrap_err.
  destruct (rdo _ w) as [r w'] eqn:E. apply rdo_cases in E as [_ [E | (e & -> & _)]]; [| done].
  rewrite law_hgetall in E. destruct (hash_at _ _ _) as [m|] eqn:Hm; [| by injection E as <-].
  injection E as <- _. cbn [fst]. case_decide as Hne; [done |]. cbn. intros Ht.
  unfold hash_at, live, live_entry in Hm. destruct (w_redis w !! InFlightKey q h) as [[x d]|] eqn:Ex;
    cbn in Hm; [| by injection Hm as <-].
  destruct (expired _ _); cbn in Hm; [by injection Hm as <- |]. destruct x; try done. injection Hm as <-. by eapply Hc.
Qed.

(** The least pending offset is a bound on all of them, and stays one. *)
Definition bound (o : Z) : assertion (W := world) (G := Z) := fun g w =>
  0 <= o <= g /\ pending_within o g (w_redis w).

Lemma bound_stable o : stable commit_inv grows (bound o).
Proof. intros g w g' w' _ [Hle Hp] _ [Ho Hb]. split; [lia | apply Hp; [lia | done]]. Qed.

Lemma MinPending_bound g w :
  commit_inv g w ->
  match fst (MinPending q id p w) with Ok (Some o) => bound o g (snd (MinPending q id p w)) | _ => True end.
Proof.
  intros ([Hp _] & Hcom & Hg).
  pose proof (MinPending_run q id p (w_kafka w) (w_redis w) w (conj eq_refl eq_refl)) as (_ & Hr & Hmin).
  destruct (MinPending q id p w) as [[[o|]|e] w1]; cbn [fst snd] in *; try done.
  destruct (Hmin o eq_refl) as (now & z & m & f & l & Hz & Hsorted & ->).
  destruct (pending_within_zset now _ _ _ Hp) as (z' & os & Hz' & Hos & Hb & Hd).
  rewrite Hz in Hz'. injection Hz' as <-.
  assert (Hlim : forall o, o ∈ os -> Z.abs o < 2 ^ 53) by (intros o Ho; specialize (Hb o Ho); lia).
  pose proof (pending_offsets_min z os Hos Hlim) as Hleast. rewrite Hsorted in Hleast.
  destruct Hleast as [Ho Hleast]. pose proof (Hb _ Ho). unfold bound. rewrite Hr. split; [lia |].
  unfold pending_within in *. unfold zset_at, live, live_entry in Hz.
  destruct (w_redis w !! key) as [[[| | |z'] [d|]]|]; try done.
  injection Hz as <-. exists os. split; [done |]. intros o' Ho'. split; [by apply Hleast | by apply Hb].
Qed.

(** A commit at a bound. *)
Lemma CommitOffset_step g w t' p' o :
  commit_inv g w -> (t' = t -> p' = p -> bound o g w) ->
  tame g w g (snd (CommitOffset (ConsumerGroup q) t' p' o w)) /\
  commit_inv g (snd (CommitOffset (ConsumerGroup q) t' p' o w)).
Proof.
  intros Hinv Hb. pose proof Hinv as ([Hp Hc] & Hcom & Hg).
  destruct (CommitOffset_run (ConsumerGroup q) t' p' o (w_kafka w) (w_redis w) w (conj eq_refl eq_refl)) as [Hk Hr].
  destruct (CommitOffset _ _ _ _ w) as [r w']. cbn [snd] in *. unfold tame, commit_inv, committed, kept in *.
  rewrite Hr. split; [done |]. destruct Hk as [-> | ->]; [done |].
  unfold set_commit. cbn [k_commits].
  destruct (decide ((ConsumerGroup q, t', p') = (ConsumerGroup q, t, p))) as [E | Hne].
  - injection E as -> ->. rewrite lookup_insert_eq. destruct (Hb eq_refl eq_refl) as [Ho Hpo]. by split.
  - by rewrite lookup_insert_ne.
Qed.

(** Adding an offset to the partition raises the ghost bound past it. *)
Lemma AddPending_here g w s p' o :
  PendingKey q s p' = key -> commit_inv g w -> g <= o < 2 ^ 53 ->
  grows g w (o + 1) (snd (AddPending q s p' o w)) /\ commit_inv (o + 1) (snd (AddPending q s p' o w)).
Proof.
  intros Hkey Hinv Ho. pose proof Hinv as ([Hp Hc] & Hcom & Hg).
  assert (Hstep : forall lo now, lo <= g -> pending_within lo g (w_redis w) ->
            kept lo (o + 1) (snd (cmd_zadd now key (f64_of_int o) (FormatInt o) (w_redis w)))).
  { intros lo now Hlo Hpl. rewrite law_zadd.
    destruct (pending_within_zset now _ _ _ Hpl) as (z & os & Hz & Hos & Hb & Hd). rewrite Hz. cbn [snd]. split.
    - eapply pending_within_put; [by apply pending_offsets_insert | | done].
      intros o' [->%elem_of_singleton | Ho']%elem_of_union; [lia |]. specialize (Hb o' Ho'). lia.
    - eapply (coherent_other (w_redis w)); [intros h; apply pending_not_inflight | | done].
      intros k' Hk'. unfold put. by rewrite lookup_insert_ne. }
  assert (Hmono : forall lo, lo <= g -> pending_within lo g (w_redis w) -> kept lo (o + 1) (w_redis w))
    by (intros lo _ Hpl; split; [eapply pending_within_mono; [| done]; lia | done]).
  assert (Hk : w_kafka (snd (AddPending q s p' o w)) = w_kafka w).
  { assert (H : preserves (fun w' => w_kafka w' = w_kafka w) (AddPending q s p' o))
      by (unfold AddPending; cbv zeta; solve_kstate). by apply H. }
  assert (Hkept : forall lo, lo <= g -> pending_within lo g (w_redis w) ->
            kept lo (o + 1) (w_redis (snd (AddPending q s p' o w)))).
  { intros lo Hlo Hpl. unfold AddPending. cbv zeta. rewrite Hkey. unfold wrap_err.
    destruct (rdo _ w) as [r w'] eqn:E.
    assert (Hw' : kept lo (o + 1) (w_redis w')); [| by destruct r].
    apply rdo_cases in E as [_ [E | (e & _ & [-> | ->])]].
    - pose proof (Hstep lo (ms w') Hlo Hpl) as H. by rewrite E in H.
    - by apply Hmono.
    - by apply Hstep. }
  split; [split; [lia |]; intros lo Hlo Hpl; by apply Hkept |].
  unfold commit_inv, committed in *. rewrite Hk. split; [apply Hkept; [lia | done] | lia].
Qed.

Lemma quiet_AddPending s p' o : PendingKey q s p' <> key -> quiet (AddPending q s p' o).
Proof.
  intros Hne. unfold AddPending. cbv zeta. repeat quiet_step_tac. apply kept_by_frame. intros k e [-> | [h ->]];
    apply frame_zadd; [done | auto with keys].
Qed.

(** ** The programs are safe *)

Notation ack_safe := (safe commit_inv grows tame).
Notation receive_safe := (safe commit_inv steady grows).

Definition anything : assertion (W := world) (G := Z) := fun _ _ => True.

Lemma pure_stable (r : action (W := world) (G := Z)) (P : Prop) : stable commit_inv r (fun _ _ => P).
Proof. by intros g w g' w'. Qed.

(** An acknowledgement's quiet step, with what it learns. *)
Lemma ack_safe_quiet {A} (P : assertion) (a : M world A) (Q : res A -> assertion) :
  quiet a -> (forall r, stable commit_inv grows (Q r)) ->
  (forall g w, commit_inv g w -> P g w -> Q (fst (a w)) g (snd (a w))) -> ack_safe P (act a) Q.
Proof.
  intros Ha Hs HQ. apply safe_act; [done |]. intros g w Hinv HP. exists g.
  destruct (quiet_step a g w Ha Hinv). auto.
Qed.

Lemma ack_safe_quiet_any {A} (P : Prop) (a : M world A) : quiet a -> ack_safe (fun _ _ => P) (act a) (fun _ _ _ => P).
Proof. intros Ha. apply ack_safe_quiet; [done | intros r; apply pure_stable | done]. Qed.

Lemma advanceWatermark_ack_safe b rec :
  ack_safe (fun _ _ => coherent_record rec) (advanceWatermark_prog b q rec) (fun _ => anything).
Proof.
  set (B o g w := if_Topic rec = t -> if_Partition rec = p -> bound o g w).
  assert (HB : forall o, stable commit_inv grows (B o)).
  { intros o g w g' w' Hg Hgrow Hg' HP Ht Hp. by apply (bound_stable o g w g' w' Hg Hgrow Hg'), HP. }
  unfold advanceWatermark_prog. cbv zeta.
  apply safe_bind with (P' := fun r => match r with Some o => B o | None => anything end).
  - apply safe_wrap, ack_safe_quiet; [apply quiet_MinPending | |].
    + intros [[o|]|e]; [apply HB | apply pure_stable ..].
    + intros g w Hinv Hrec. destruct (fst _) as [[o|]|e] eqn:E; try done. intros Ht Hp.
      pose proof (MinPending_bound g w Hinv) as H. unfold MinPending in *.
      change (PendingKey q (if_ShardID rec) (if_Partition rec)) with (rec_pending_key q rec) in *.
      rewrite (Hrec Ht Hp) in *. by rewrite E in H.
  - intros [o|]; [| by apply safe_ret].
    apply safe_bind with (P' := fun _ => B o).
    + apply safe_wrap, ack_safe_quiet; [apply quiet_SetWatermark | by intros [] |].
      intros g w Hinv HP. assert (H : B o g (snd (SetWatermark q (if_ShardID rec) (if_Partition rec) (i64 (o - 1)) w))).
      { intros Ht Hp. eapply bound_stable; [exact Hinv | | | by apply HP].
        - apply tame_grows. by apply (quiet_step _ g w (quiet_SetWatermark _ _ _)).
        - by apply (quiet_step _ g w (quiet_SetWatermark _ _ _)). }
      by destruct (fst _).
    + intros _. destruct b; [| by apply safe_ret]. apply safe_wrap, safe_act; [by intros [] |].
      intros g w Hinv HP. exists g. destruct (CommitOffset_step g w (if_Topic rec) (if_Partition rec) o Hinv HP).
      split_and!; [done | done |]. by destruct (fst _).
Qed.

Lemma DeleteMessage_ack_safe b h :
  t <> "" -> ack_safe anything (DeleteMessage_prog b q h) (fun _ => anything).
Proof.
  intros Ht. unfold DeleteMessage_prog. cbv zeta.
  apply safe_bind with (P' := fun r _ _ => match r with Some rec => coherent_record rec | None => True end).
  - apply safe_wrap, ack_safe_quiet; [apply quiet_GetInFlight | intros []; apply pure_stable |].
    intros g w Hinv _. pose proof (GetInFlight_coherent h g w Hinv) as H. destruct (fst _) as [[rec|]|e]; auto.
  - intros [rec|]; [| by apply safe_ret].
    apply safe_bind with (P' := fun _ _ _ => coherent_record rec).
    + apply safe_wrap. eapply ack_safe_quiet; [apply quiet_Ack | intros []; apply pure_stable |].
      intros g w _ Hrec. by destruct (fst _).
    + intros o. destruct (decide (o = AckOutcomeAcked)); [| by apply safe_ret].
      apply advanceWatermark_ack_safe.
Qed.

Lemma quiet_prog_ack_safe {A} (pr : prog world A) : quiet_prog pr -> ack_safe anything pr (fun _ => anything).
Proof.
  induction pr as [r | X a k IH]; [done |]. intros [Ha Hk]. exists (fun _ => anything).
  split; [intros r; apply pure_stable |]. split; [| intros r; by apply IH].
  intros g w Hinv _. exists g. destruct (quiet_step a g w Ha Hinv). split; [done |]. by split.
Qed.

(** The records a poll returned, in order: those of the partition have offsets from [g]
    on, increasing; the others belong to another pending set. *)
Fixpoint ahead (topics : gmap string string) (g : Z) (recs : list FetchedRecord) : Prop :=
  match recs with
  | [] => True
  | rec :: recs =>
    is_i32 (rec_Partition rec) /\ is_i64 (rec_Offset rec) /\
    match topics !! rec_Topic rec with
    | None => ahead topics g recs
    | Some s =>
      (PendingKey q s (rec_Partition rec) = key /\ g <= rec_Offset rec < 2 ^ 53 /\
         ahead topics (rec_Offset rec + 1) recs) \/
      (PendingKey q s (rec_Partition rec) <> key /\ (rec_Topic rec <> t \/ rec_Partition rec <> p) /\
         ahead topics g recs)
    end
  end.

Definition below (n : Z) : assertion (W := world) (G := Z) := fun g _ => g <= n.

Lemma below_stable n : stable commit_inv steady (below n).
Proof. by intros g w g' w' _ -> _. Qed.

Lemma receive_safe_quiet {A} n (a : M world A) : quiet a -> receive_safe (below n) (act a) (fun _ => below n).
Proof.
  intros Ha. apply safe_act; [intros r; apply below_stable |]. intros g w Hinv Hn. exists g.
  destruct (quiet_step a g w Ha Hinv). split_and!; [by apply tame_grows | done | done].
Qed.

Lemma receive_safe_act {A} s n (a : M world A) :
  quiet a -> receive_safe (below n) (wrap_prog s (act a)) (fun r => match r with Ok _ => below n | Err _ => anything end).
Proof.
  intros Ha. apply safe_wrap, safe_act; [intros []; [apply below_stable | apply pure_stable] |].
  intros g w Hinv Hn. exists g. destruct (quiet_step a g w Ha Hinv).
  split_and!; [by apply tame_grows | done | by destruct (fst _)].
Qed.

Lemma quiet_prog_receive_safe {A} n (pr : prog world A) :
  quiet_prog pr -> receive_safe (below n) pr (fun _ => below n).
Proof.
  induction pr as [r | X a k IH]; [by intros _ g w _ Hn |]. intros [Ha Hk]. exists (fun _ => below n).
  split; [intros r; apply below_stable |]. split; [| intros r; by apply IH].
  intros g w Hinv Hn. exists g. destruct (quiet_step a g w Ha Hinv).
  split; [by apply tame_grows |]. by split.
Qed.

Lemma AddPending_receive_safe pre s p' o n n' :
  (PendingKey q s p' = key /\ n <= o < 2 ^ 53 /\ n' = o + 1) \/ (PendingKey q s p' <> key /\ n' = n) ->
  receive_safe (below n) (wrap_prog pre (act (AddPending q s p' o)))
    (fun r => match r with Ok _ => below n' | Err _ => anything end).
Proof.
  intros [(Hkey & Ho & ->) | [Hkey ->]]; [| by apply receive_safe_act, quiet_AddPending].
  apply safe_wrap, safe_act; [intros []; [apply below_stable | apply pure_stable] |].
  intros g w Hinv Hn. unfold below in Hn. exists (o + 1).
  destruct (AddPending_here g w s p' o Hkey Hinv) as [H1 H2]; [lia |].
  split_and!; [done | done |]. destruct (fst _); unfold below, anything; auto with lia.
Qed.

Lemma handOutFresh_receive_safe meta s rec v n n' :
  is_i32 (rec_Partition rec) -> is_i64 (rec_Offset rec) ->
  (PendingKey q s (rec_Partition rec) = key /\ n <= rec_Offset rec < 2 ^ 53 /\ n' = rec_Offset rec + 1) \/
  (PendingKey q s (rec_Partition rec) <> key /\ (rec_Topic rec <> t \/ rec_Partition rec <> p) /\ n' = n) ->
  receive_safe (below n) (handOutFresh_prog meta q s rec v) (fun r => match r with Ok _ => below n' | Err _ => anything end).
Proof.
  intros Hp Ho Hcase. unfold handOutFresh_prog. cbv zeta.
  apply safe_bind with (P' := fun _ => below n'); [apply AddPending_receive_safe; destruct Hcase as [| (H1 & _ & H3)]; auto |]. intros _.
  apply safe_bind with (P' := fun _ => below n').
  { eapply safe_post; [apply receive_safe_quiet, quiet_newReceiptHandle | by intros [] g w H]. }
  intros h. apply safe_bind with (P' := fun _ => below n').
  { eapply safe_post; [apply receive_safe_act, quiet_PutInFlight | by intros [] g w H].
    - by split_and!.
    - intros Ht Hpp. cbn in *. unfold rec_pending_key. cbn. naive_solver. }
  intros _. apply safe_bind with (P' := fun _ => below n').
  { destruct (bool_decide _); [by apply safe_ret |].
    eapply safe_post; [apply receive_safe_quiet, quiet_acquireFIFOSlot | by intros [] g w H]. }
  intros [|]; cbn [negb]; [by apply safe_ret |].
  apply safe_bind with (P' := fun _ => below n'); [| by intros; apply safe_ret].
  eapply safe_post; [apply receive_safe_act, quiet_PushRedeliverable | by intros [] g w H].
Qed.

Lemma hand_out_records_receive_safe meta topics v m recs n :
  ahead topics n recs -> receive_safe (below n) (hand_out_records_prog meta q topics v m recs) (fun _ => anything).
Proof.
  revert m n. induction recs as [|rec recs IH]; intros m n Hahead; [done |]. destruct m as [|m]; [done |].
  cbn [hand_out_records_prog ahead] in *. destruct Hahead as (Hp & Ho & Hahead).
  destruct (topics !! rec_Topic rec) as [s|]; [| by apply IH].
  assert (exists n', ahead topics n' recs /\
    ((PendingKey q s (rec_Partition rec) = key /\ n <= rec_Offset rec < 2 ^ 53 /\ n' = rec_Offset rec + 1) \/
     (PendingKey q s (rec_Partition rec) <> key /\ (rec_Topic rec <> t \/ rec_Partition rec <> p) /\ n' = n)))
    as (n' & Hahead' & Hcase)
    by (destruct Hahead as [(? & ? & ?) | (? & ? & ?)]; eexists; split; eauto 6).
  apply safe_bind with (P' := fun _ => below n').
  - eapply safe_post; [by apply handOutFresh_receive_safe | by intros [] g w H].
  - intros [msg|]; [| by apply IH].
    apply safe_bind with (P' := fun _ => anything); [| by intros; apply safe_ret].
    eapply safe_post; [by apply IH | by intros [] g w H].
Qed.

(** The processes that may run beside a receive: acknowledgements, reaps, and receives
    that only hand out what is queued for redelivery. *)
Inductive bystander : prog world unit -> Prop :=
| by_delete b h : bystander (DeleteMessage_prog b q h)
| by_reap h max : bystander (_ ← act (Reap q h max); mret tt)
| by_drain v n : bystander (_ ← drain_prog q v n; mret tt).

(** A receive: what is queued for redelivery, then the records that the poll returned. *)
Definition receiver (meta : QueueMeta) (topics : gmap string string) (v : Z) (m : nat)
    (recs : list FetchedRecord) : prog world unit :=
  out ← drain_prog q v m;
  _ ← hand_out_records_prog meta q topics v (m - length out) recs;
  mret tt.

Lemma receiver_safe meta topics v m recs n :
  ahead topics n recs -> receive_safe (below n) (receiver meta topics v m recs) (fun _ => anything).
Proof.
  intros H. apply safe_bind with (P' := fun _ => below n).
  { eapply safe_post; [apply quiet_prog_receive_safe, quiet_drain | by intros [] g w ?]. }
  intros out. apply safe_bind with (P' := fun _ => anything); [| by intros].
  eapply safe_post; [by apply hand_out_records_receive_safe | by intros [] g w ?].
Qed.

Lemma bystander_safe pr : t <> "" -> bystander pr -> ack_safe anything pr (fun _ => anything).
Proof.
  intros Ht []; [by apply DeleteMessage_ack_safe | |]; apply quiet_prog_ack_safe, every_step_bind; try done.
  - by apply every_step_act, quiet_Reap.
  - apply quiet_drain.
Qed.

(** The receive is process 0. *)
Definition rely_of (i : nat) : action := if decide (i = 0%nat) then steady else grows.
Definition guar_of (i : nat) : action := if decide (i = 0%nat) then grows else tame.

Lemma guar_rely i j g w g' w' : i <> j -> guar_of j g w g' w' -> rely_of i g w g' w'.
Proof.
  intros Hne. unfold guar_of, rely_of. destruct (decide (j = 0%nat)) as [-> | Hj].
  - by rewrite decide_False by done.
  - intros H. destruct (decide (i = 0%nat)); [apply H | by apply tame_grows].
Qed.

Lemma drift_rely g w w' : commit_inv g w -> drifts w w' -> commit_inv g w' /\ forall i, rely_of i g w g w'.
Proof.
  intros Hinv Hd. destruct (drifts_inv g w w' Hinv Hd) as [Hinv' Htame]. split; [done |].
  intros i. unfold rely_of. case_decide; [done | by apply tame_grows].
Qed.

Lemma pool_keeps_inv meta topics v m recs others g w s :
  t <> "" -> commit_inv g w -> ahead topics g recs -> Forall bystander others ->
  rtc (istep drifts) (w, receiver meta topics v m recs :: others) s ->
  exists g', commit_inv g' (fst s).
Proof.
  intros Ht Hinv Hahead Hothers Hsteps.
  destruct (pool_invariant commit_inv drifts rely_of guar_of (fun _ _ => anything) guar_rely drift_rely _ _ Hsteps g Hinv)
    as (g' & Hg' & _); [| by exists g'].
  intros [|i] pr Hi; cbn in Hi.
  - injection Hi as <-. exists (below g). split_and!; [apply below_stable | unfold below; cbn; lia |].
    by apply receiver_safe.
  - exists anything. split_and!; [apply pure_stable | done |]. apply bystander_safe; [done |].
    by eapply Forall_lookup_1.
Qed.

(** ** Commits are safe in every interleaving *)

Definition is_pending (w : world) (o : Z) : Prop :=
  exists z d, w_redis w !! key = Some (Entry (VZSet z) d) /\ FormatInt o ∈ dom z.

Lemma commit_inv_bound g w o : commit_inv g w -> is_pending w o -> committed w <= o.
Proof.
  intros ([Hp _] & _) (z & d & Hz & Ho). unfold pending_within in Hp. rewrite Hz in Hp. destruct d; [done |].
  destruct Hp as (os & Hos & Hb). apply elem_of_dom in Ho as [f Hf]. apply Hos in Hf as (o' & Ho' & E & _).
  apply FormatInt_inj in E as <-. by apply Hb.
Qed.
End Actions.
End Partition.

(** C7. However acknowledgements, reaps and redeliveries of a queue interleave with each
    other and with a receive, round trip by round trip, with requests and answers lost at
    will and keys expiring in between: the offset committed for a partition is never past
    an offset pending there.  The poll's records of the partition come in order, after everything
    that has been pending. *)
Theorem concurrent_commits_safe {R : RedisServer} {RL : RedisLaws R} {K : KafkaServer} {KL : KafkaLaws K}
    {U : UUIDSource} q id t p meta topics v m recs others hw w s :
  t <> "" -> commit_inv q id t p hw w -> ahead q id t p topics hw recs -> Forall (bystander q) others ->
  rtc (istep drifts) (w, receiver q meta topics v m recs :: others) s ->
  forall o, is_pending q id p (fst s) o -> committed q t p (fst s) <= o.
Proof.
  intros Ht Hinv Hahead Hothers Hsteps o Ho.
  destruct (pool_keeps_inv q id t p meta topics v m recs others hw w s) as [g Hg]; [done .. |].
  by eapply commit_inv_bound.
Qed.

(** A start for examples: nothing in Redis and no commit in Kafka. *)
Definition plain_meta : QueueMeta := MkQueueMeta false 30 5 "" 6 345600 0.
Definition plain_topics : gmap string string := {[orders_topic := "0"]}.
Definition receive_of (recs : list FetchedRecord) : prog world unit :=
  receiver "orders" plain_meta plain_topics (30 * Second) 10 recs.
Definition delete_of (h : string) : prog world unit := DeleteMessage_prog true "orders" h.

(** Three messages arrive; while the third is written the first two are acknowledged at
    the same time, and the second acknowledgement is the first to commit. *)
Definition busy_order : list nat :=
  [0; 0; 0; 0; 0; 0; 0; 1; 0; 2; 1; 2; 1; 2; 0; 2; 2; 1; 1; 0]%nat.

Definition busy_pool : list (prog world unit) :=
  [receive_of [order_record 0 "a"; order_record 1 "b"; order_record 2 "c"];
   delete_of "0:2:0:uuid-0"; delete_of "0:2:1:uuid-1"].

Lemma concurrent_commits_safe_witness :
  let s := schedule busy_order (world0, busy_pool) in
  committed "orders" orders_topic 2 (fst s) = 2 /\
  forall o, is_pending "orders" "0" 2 (fst s) o -> committed "orders" orders_topic 2 (fst s) <= o.
Proof.
  cbv zeta. split; [vm_decide |].
  apply (concurrent_commits_safe "orders" "0" orders_topic 2 plain_meta plain_topics (30 * Second) 10
           [order_record 0 "a"; order_record 1 "b"; order_record 2 "c"]
           [delete_of "0:2:0:uuid-0"; delete_of "0:2:1:uuid-1"] 0 world0).
  - done.
  - split; [by split | split; vm_decide].
  - cbn [ahead]. unfold is_i32, is_i64, plain_topics. cbn [order_record rec_Topic rec_Partition rec_Offset].
    rewrite lookup_singleton_eq. repeat lazymatch goal with |- _ /\ _ => split | |- _ \/ _ => left end; lia || done.
  - by repeat constructor.
  - apply schedule_steps.
Defined.

(** With two receives at a time the guarantee is gone: one has polled the first
    record and not tracked it yet, the other tracks the next two, the consumer
    acknowledges the first of those, and the commit passes the record the slow receive
    is about to hand out. *)
Theorem commit_passes_polled :
  let pool := [receive_of [order_record 0 "a"]; receive_of [order_record 1 "b"; order_record 2 "c"];
               delete_of "0:2:1:uuid-0"] in
  let s := schedule [0; 1; 1; 1; 1; 1; 1; 1; 2; 2; 2; 2; 2; 0]%nat (world0, pool) in
  committed "orders" orders_topic 2 (fst s) = 2 /\ is_pending "orders" "0" 2 (fst s) 0.
Proof.
  cbv zeta. split; [vm_decide |]. eexists _, _. split; [by vm_compute | vm_decide].
Qed.
