(* ===== verification/Dedup.v ===== *)
(** Deduplication under concurrency: any number of sends with the same deduplication id,
    interleaved round trip by round trip.

    The first SET NX claims the id; a send may produce when its own SET NX was answered
    with true.  The ghost value remembers who has claimed the id and whether the record
    has been produced.  The claim lasts for the deduplication window, so the theorem is
    about interleavings that end within it. *)

From S2P Require Import Prelude GoNum GoStr Topology Json Keys Redis World Schema Store Send Interleave Claims.

Local Open Scope Z_scope.

(** ** The operation as a program *)

Section Programs.
Context {R : RedisServer} {K : KafkaServer} {U : UUIDSource}.

Definition dedup_check_prog (DedupWindow : Z) (meta : QueueMeta) (inp : SendMessageInput) : prog world bool :=
  if qm_FIFO meta && negb (bool_decide (si_MessageDeduplicationID inp = "")) then
    let window := if DedupWindow <=? 0 then defaultDedupWindow else DedupWindow in
    wrap_prog ("send message " +:+ si_QueueName inp +:+ ": ")
      (act (TryDedup (si_QueueName inp) (si_MessageGroupID inp) (si_MessageDeduplicationID inp) window))
  else mret true.

Definition send_routed_prog (meta : QueueMeta) (inp : SendMessageInput) : prog world SendMessageOutput :=
  routingKey ← (if bool_decide (si_MessageGroupID inp = "") then act NewString
                else mret (si_MessageGroupID inp));
  shard ← act (RouteForSend (si_QueueName inp) routingKey);
  let partition := PartitionWithinShard routingKey (qm_PartitionsPerShard meta) in
  let key := if qm_FIFO meta then Some (si_MessageGroupID inp) else None in
  offset ← wrap_prog ("send message " +:+ si_QueueName inp +:+ ": ")
             (act (Produce (sh_Topic shard) partition key (si_Body inp)));
  id ← act NewString;
  mret (MkSendOutput id offset).

Definition SendMessage_prog (DedupWindow : Z) (inp : SendMessageInput) : prog world SendMessageOutput :=
  let queueName := si_QueueName inp in
  if MaxMessageBodyBytes <? Z.of_nat (String.length (si_Body inp)) then
    Done (Err (ErrText ("message body exceeds " +:+ FormatInt MaxMessageBodyBytes +:+ " bytes")))
  else
    meta ← wrap_prog ("send message " +:+ queueName +:+ ": ") (act (GetQueueMeta queueName));
    match meta with
    | None => Done (Err (ErrText ("queue " +:+ queueName +:+ " not found")))
    | Some meta =>
      if qm_FIFO meta && bool_decide (si_MessageGroupID inp = "") then
        Done (Err (ErrText ("messageGroupId is required for FIFO queue " +:+ queueName)))
      else
        fresh ← dedup_check_prog DedupWindow meta inp;
        if negb fresh then mret (MkSendOutput (si_MessageDeduplicationID inp) 0)
        else send_routed_prog meta inp
    end.

Lemma run_SendMessage d i w : run (SendMessage_prog d i) w = SendMessage d i w.
Proof.
  unfold SendMessage_prog, SendMessage, dedup_check_prog, dedup_check, send_routed_prog, send_routed. cbv zeta.
  repeat run_step.
Qed.
End Programs.

(** ** The claim *)

Section Claim.
Context (q g d : string) (s t0 : Z) (st0 : kafka) (bodies : list string).

Notation key := (DedupKey q g d).

(** The claim lasts at least until here. *)
Definition horizon : Z := t0 + s * 1000.

Notation claimed := (held (fun _ => True) horizon key).

Definition unsent (w : world) : Prop := k_log (w_kafka w) = k_log st0.

(** One record, with the body of one of the sends. *)
Definition sent (w : world) : Prop :=
  exists t p r, k_log (w_kafka w) = k_log (append_record t p r st0) /\ kr_value r ∈ bodies.

Definition fifo_queue (w : world) : Prop :=
  forall m e, w_redis w !! QueueMetaKey q = Some (Entry (VHash m) e) -> field m "fifo" = "1".

(** Who has claimed the id, and whether it has produced. *)
Definition claim : Type := option (nat * bool).

Definition holds (c : claim) (w : world) : Prop :=
  fifo_queue w /\
  match c with
  | None => unsent w
  | Some (_, false) => claimed w /\ unsent w
  | Some (_, true) => claimed w /\ sent w
  end.

Definition dedup_inv (c : claim) (w : world) : Prop := t0 <= ms w /\ (ms w <= horizon -> holds c w).

(** A process leaves the others' claims alone. *)
Definition others_kept (i : nat) : action (W := world) (G := claim) := fun c w c' w' =>
  w_clock w <= w_clock w' /\ forall j b, j <> i -> c = Some (j, b) -> c' = Some (j, b).
Definition own_kept (i : nat) : action (W := world) (G := claim) := fun c w c' w' =>
  w_clock w <= w_clock w' /\ forall b, c = Some (i, b) -> c' = Some (i, b).

Definition owns (i : nat) : assertion (W := world) (G := claim) := fun c w =>
  ms w <= horizon -> c = Some (i, false).

Lemma owns_stable i : stable dedup_inv (own_kept i) (owns i).
Proof. intros c w c' w' _ [Hclk Hown] _ HP Hms. apply ms_mono in Hclk. apply Hown, HP. lia. Qed.

Lemma lapses_inv c w w' : dedup_inv c w -> lapses w w' -> dedup_inv c w' /\ forall i, own_kept i c w c w'.
Proof.
  intros [Ht Hholds] Hlapses. pose proof Hlapses as (Hk & Hclk & Hrows). pose proof (ms_mono _ _ Hclk) as Hms.
  split; [| done]. split; [lia |]. intros Hle. destruct (Hholds ltac:(lia)) as [Hq Hc]. split.
  - intros m e Hm. apply (Hq m e). destruct (Hrows (QueueMetaKey q)) as [<- | [E _]]; [done | congruence].
  - pose proof (held_lapses (fun _ => True) horizon key w w' Hlapses Hle) as Hcl.
    unfold unsent, sent in *. rewrite Hk. destruct c as [[j []]|]; naive_solver.
Qed.

(** What an idle step leaves alone: Kafka, the claim, and the queue's row. *)
Inductive dedup_kept : (world -> Prop) -> Prop :=
| kept_kafka k : dedup_kept (fun w => w_kafka w = k)
| kept_row k e : k = key \/ k = QueueMetaKey q -> dedup_kept (fun w => w_redis w !! k = e).

Notation idle := (idle dedup_kept).

Lemma idle_step {A} (a : M world A) c w :
  idle a -> dedup_inv c w -> w_clock w <= w_clock (snd (a w)) /\ dedup_inv c (snd (a w)).
Proof.
  intros Ha [Ht Hholds]. pose proof (idle_clock _ a w Ha) as Hc. destruct Ha as [_ Ha].
  pose proof (Ha _ (kept_kafka _) w eq_refl) as Hk'. pose proof (Ha _ (kept_row key _ ltac:(by left)) w eq_refl) as Hr1.
  pose proof (Ha _ (kept_row (QueueMetaKey q) _ ltac:(by right)) w eq_refl) as Hr2. cbn beta in *.
  split; [done |]. pose proof (ms_mono _ _ Hc). split; [lia |]. intros Hle.
  destruct (Hholds ltac:(lia)) as [Hq Hcl]. split; [intros m e; rewrite Hr2; apply Hq |].
  unfold unsent, sent, held in *. by rewrite Hk', Hr1.
Qed.

Section Steps.
Context {R : RedisServer} {RL : RedisLaws R} {K : KafkaServer} {KL : KafkaLaws K} {U : UUIDSource}.
Context (Hs : 0 < s).

Lemma dedup_idle_rdo {A} (c : Z -> M keyspace A) :
  (forall now k e, preserves (fun ks => ks !! k = e) (c now)) -> idle (rdo c).
Proof.
  intros Hc. apply idle_rdo. intros P [k | k e _]; [apply kafka_rdo |].
  by apply (preserves_rdo (fun ks => ks !! k = e)).
Qed.

Lemma dedup_idle_NewString : idle NewString.
Proof. apply idle_NewString. by intros P n w []. Qed.

Lemma idle_GetQueueMeta q' : idle (GetQueueMeta q').
Proof. unfold GetQueueMeta. solve_idle. apply dedup_idle_rdo. intros. apply frame_hgetall. Qed.

Lemma idle_RouteForSend q' k : idle (RouteForSend q' k).
Proof. unfold RouteForSend, router_shards, GetShardMap. solve_idle. apply dedup_idle_rdo. intros. apply frame_get. Qed.

(** What the queue's row says. *)
Lemma GetQueueMeta_fifo c w :
  dedup_inv c w ->
  match fst (GetQueueMeta q w) with
  | Ok (Some meta) => ms (snd (GetQueueMeta q w)) <= horizon -> qm_FIFO meta = true
  | _ => True
  end.
Proof.
  intros [_ Hholds]. unfold GetQueueMeta. rewrite mbind_run. unfold wrap_err.
  destruct (rdo _ w) as [r w'] eqn:E. apply rdo_cases in E as [Hclk [E | (e & -> & _)]]; [| done].
  rewrite law_hgetall in E. destruct (hash_at _ _ _) as [m|] eqn:Hm; [| by injection E as <-].
  injection E as <- _. cbn [fst snd]. case_decide as Hne; [done |]. cbn. apply ms_mono in Hclk. intros Hle.
  destruct (Hholds ltac:(lia)) as [Hq _]. unfold hash_at, live, live_entry in Hm.
  destruct (w_redis w !! QueueMetaKey q) as [[v x]|] eqn:Ex; cbn in Hm; [| by injection Hm as <-].
  destruct (expired _ _); cbn in Hm; [by injection Hm as <- |]. destruct v; try done. injection Hm as <-.
  apply bool_decide_eq_true_2. by eapply Hq.
Qed.

(** The claim: at most one SET NX is answered with true in time. *)
Lemma TryDedup_step i c w :
  let w' := snd (TryDedup q g d (s * Second) w) in
  dedup_inv c w ->
  exists c', others_kept i c w c' w' /\ dedup_inv c' w' /\
    (fst (TryDedup q g d (s * Second) w) = Ok true -> owns i c' w').
Proof.
  intros w' [Ht Hholds]. subst w'. unfold TryDedup, wrap_err.
  pose proof (setnx_cases key "1" s w Hs) as Hcases. destruct (rdo _ w) as [r w'].
  destruct Hcases as (Hclk & Hk & Hcases). pose proof (ms_mono _ _ Hclk) as Hms.
  set (w2 := match r with Ok a => (Ok a, w') | Err e => _ end). assert (Hw2 : snd w2 = w') by (by destruct r).
  assert (Hr2 : fst w2 = Ok true -> r = Ok true) by (by destruct r). rewrite Hw2. clearbody w2.
  destruct Hcases as [[Hrd Hlost] | [Hfree Hrd]].
  - exists c. split; [by split |]. split; [| intros Hok; by apply Hr2 in Hok].
    split; [lia |]. intros Hle. destruct (Hholds ltac:(lia)) as [Hq Hc].
    split; [intros m e; rewrite Hrd; apply Hq |]. unfold unsent, sent, held in *. by rewrite Hk, Hrd.
  - destruct (decide (ms w' <= horizon)) as [Hle | Hgt]; cycle 1.
    { exists c. split; [by split |]. split; [split; lia |]. intros _ Hle. lia. }
    destruct (Hholds ltac:(lia)) as [Hq Hc].
    assert (c = None) as ->.
    { destruct c as [[j b]|]; [| done]. assert (Hcl : claimed w) by (destruct b; apply Hc).
      destruct (held_live (fun _ => True) horizon key w (ms w') Hcl Hle) as [v Hv]. congruence. }
    exists (Some (i, false)). split; [by split |]. split; [| done]. split; [lia |]. intros _. split; [| split].
    + intros m e. rewrite Hrd, lookup_insert_ne by auto with keys. apply Hq.
    + eapply held_insert; [exact Hrd | unfold horizon; lia | done].
    + unfold unsent. by rewrite Hk.
Qed.

(** What can come of a produce: the record is appended or the log is as it was. *)
Lemma Produce_cases t p k v w :
  let w' := snd (Produce t p k v w) in
  w_clock w <= w_clock w' /\ w_redis w' = w_redis w /\
  (w_kafka w' = w_kafka w \/ w_kafka w' = append_record t p (KRecord k v) (w_kafka w)).
Proof.
  cbv zeta. unfold Produce, wrap_err, kdo, trip, kafka_run. pose proof (law_produce t p k v (w_kafka w)) as Hlaw.
  destruct (w_net w) as [|[x [ | e | e]] evs]; cbn;
    destruct (kgo_produce t p k v (w_kafka w)) as [[o|e'] st]; cbn; (split; [lia |]); naive_solver.
Qed.

(** Producing: only by the owner, and only once. *)
Lemma Produce_step i c w t p k v :
  let w' := snd (Produce t p k v w) in
  v ∈ bodies -> dedup_inv c w -> owns i c w ->
  exists c', others_kept i c w c' w' /\ dedup_inv c' w'.
Proof.
  intros w' Hv [Ht Hholds] Hown. destruct (Produce_cases t p k v w) as (Hclk & Hrd & Hk). fold w' in Hclk, Hrd, Hk.
  pose proof (ms_mono _ _ Hclk) as Hms. unfold owns in Hown.
  destruct (decide (ms w' <= horizon)) as [Hle | Hgt]; [| exists c; split; [by split | split; lia]].
  destruct (Hholds ltac:(lia)) as [Hq Hc]. rewrite (Hown ltac:(lia)) in *. destruct Hc as [Hcl Hun].
  assert (Hq' : fifo_queue w') by (intros m e; rewrite Hrd; apply Hq).
  assert (Hcl' : claimed w') by (unfold held; by rewrite Hrd).
  destruct Hk as [Hk | Hk].
  - exists (Some (i, false)). split; [by split |]. split; [lia |]. intros _. split; [done |]. split; [done |].
    unfold unsent. by rewrite Hk.
  - exists (Some (i, true)). split; [split; [done | by intros j b ? [= ->]] |]. split; [lia |]. intros _.
    split; [done |]. split; [done |]. exists t, p, (KRecord k v). split; [| done].
    rewrite Hk. unfold append_record, partition_log. cbn. by rewrite Hun.
Qed.

(** ** The program *)

Notation send_safe i := (safe dedup_inv (own_kept i) (others_kept i)).

Definition anything : assertion (W := world) (G := claim) := fun _ _ => True.

(** Something that need only hold in time. *)
Definition in_time (P : Prop) : assertion (W := world) (G := claim) := fun _ w => ms w <= horizon -> P.

Lemma in_time_stable i P : stable dedup_inv (own_kept i) (in_time P).
Proof. intros c w c' w' _ [Hclk _] _ HP Hle. apply ms_mono in Hclk. apply HP. lia. Qed.

Lemma anything_stable i : stable dedup_inv (own_kept i) anything.
Proof. done. Qed.

Lemma own_of_idle i c w w' : w_clock w <= w_clock w' -> owns i c w -> owns i c w'.
Proof. intros Hclk HP Hle. apply ms_mono in Hclk. apply HP. lia. Qed.

(** An idle step on the way of the owner. *)
Lemma idle_owner_safe {A} i (a : M world A) : idle a -> send_safe i (owns i) (act a) (fun _ => owns i).
Proof.
  intros Ha. apply safe_act; [intros; apply owns_stable |]. intros c w Hinv HP. exists c.
  destruct (idle_step a c w Ha Hinv). split; [by split |]. split; [done |]. by eapply own_of_idle.
Qed.

Lemma send_routed_safe i meta inp :
  si_Body inp ∈ bodies -> send_safe i (owns i) (send_routed_prog meta inp) (fun _ => anything).
Proof.
  intros Hb. unfold send_routed_prog. cbv zeta. apply safe_bind with (P' := fun _ => owns i).
  { destruct (bool_decide _); [| by apply safe_ret].
    eapply safe_post; [apply idle_owner_safe, dedup_idle_NewString | by intros []]. }
  intros rk. apply safe_bind with (P' := fun _ => owns i).
  { eapply safe_post; [apply idle_owner_safe, idle_RouteForSend | by intros []]. }
  intros sh. apply safe_bind with (P' := fun _ => anything).
  - apply safe_wrap, safe_act; [intros []; apply anything_stable |]. intros c w Hinv HP.
    destruct (Produce_step i c w (sh_Topic sh) (PartitionWithinShard rk (qm_PartitionsPerShard meta))
                (if qm_FIFO meta then Some (si_MessageGroupID inp) else None) (si_Body inp) Hb Hinv HP)
      as (c' & H1 & H2).
    exists c'. split; [done |]. split; [done |]. by destruct (fst _).
  - intros o. apply safe_bind with (P' := fun _ => anything); [| by intros; apply safe_ret].
    apply safe_act; [intros []; apply anything_stable |]. intros c w Hinv _. exists c.
    destruct (idle_step _ c w dedup_idle_NewString Hinv). split; [by split |]. split; [done |]. by destruct (fst _).
Qed.

Lemma SendMessage_safe i inp :
  si_QueueName inp = q -> si_MessageGroupID inp = g -> si_MessageDeduplicationID inp = d -> d <> "" ->
  si_Body inp ∈ bodies ->
  send_safe i anything (SendMessage_prog (s * Second) inp) (fun _ => anything).
Proof.
  intros Hq Hg Hd Hne Hb. unfold SendMessage_prog. cbv zeta. rewrite Hq. destruct (_ <? _); [done |].
  apply safe_bind with (P' := fun r => match r with Some meta => in_time (qm_FIFO meta = true) | None => anything end).
  { apply safe_wrap, safe_act.
    - intros [[meta|]|e]; [apply in_time_stable | apply anything_stable ..].
    - intros c w Hinv _. exists c. destruct (idle_step _ c w (idle_GetQueueMeta q) Hinv).
      split; [by split |]. split; [done |]. pose proof (GetQueueMeta_fifo c w Hinv) as Hfifo.
      destruct (fst _) as [[meta|]|e]; try done. }
  intros [meta|]; [| done]. destruct (_ && _); [done |].
  apply safe_bind with (P' := fun fresh : bool => if fresh then owns i else anything).
  - unfold dedup_check_prog. rewrite Hq, Hg, Hd, (bool_decide_eq_false_2 (d = "")), andb_true_r by done. cbv zeta.
    assert (Hwin : (if s * Second <=? 0 then defaultDedupWindow else s * Second) = s * Second)
      by (destruct (Z.leb_spec (s * Second) 0); [unfold Second in *; lia | done]).
    rewrite Hwin. destruct (qm_FIFO meta).
    + apply safe_wrap, safe_act; [intros [[]|]; [apply owns_stable | apply anything_stable ..] |].
      intros c w Hinv _. destruct (TryDedup_step i c w Hinv) as (c' & H1 & H2 & H3). exists c'.
      split; [done |]. split; [done |]. destruct (fst _) as [[]|]; [by apply H3 | done ..].
    + apply safe_ret. intros c w _ HP Hle. by specialize (HP Hle).
  - intros []; cbn [negb]; [| by apply safe_ret]. by apply send_routed_safe.
Qed.
End Steps.
End Claim.

(** ** At most one record *)

(** C9. Of any number of sends to a FIFO queue with the same group and deduplication id,
    however their round trips interleave and whatever is lost on the way, at most one
    produces a record within the deduplication window, and it produces one. *)
Theorem concurrent_dedup {R : RedisServer} {RL : RedisLaws R} {K : KafkaServer} {KL : KafkaLaws K} {U : UUIDSource}
    q g d s w inps st :
  0 < s -> d <> "" -> fifo_queue q w ->
  Forall (fun inp => si_QueueName inp = q /\ si_MessageGroupID inp = g /\ si_MessageDeduplicationID inp = d) inps ->
  rtc (istep lapses) (w, SendMessage_prog (s * Second) <$> inps) st ->
  ms (fst st) <= ms w + s * 1000 ->
  k_log (w_kafka (fst st)) = k_log (w_kafka w) \/
  exists t p r, k_log (w_kafka (fst st)) = k_log (append_record t p r (w_kafka w)) /\ kr_value r ∈ si_Body <$> inps.
Proof.
  intros Hs Hd Hq Hinps Hsteps Hms.
  set (I := dedup_inv q g d s (ms w) (w_kafka w) (si_Body <$> inps)).
  assert (Hinit : I None w) by (split; [lia |]; by intros _).
  destruct (pool_invariant (A := SendMessageOutput) I lapses own_kept others_kept (fun _ _ => anything)) with (3 := Hsteps) (g := None : claim)
    as (c & [_ Hholds] & _); [| | exact Hinit | |].
  - intros i j c w1 c' w2 Hne [Hclk Hkept]. split; [done |]. intros b. by apply Hkept.
  - intros c w1 w2. apply lapses_inv.
  - intros i pr Hi. cbn in Hi. rewrite list_lookup_fmap in Hi.
    destruct (inps !! i) as [inp|] eqn:Hinp; [| done]. injection Hi as <-.
    pose proof (Forall_lookup_1 _ _ _ _ Hinps Hinp) as (Hq' & Hg' & Hd').
    exists anything. split; [done |]. split; [done |].
    apply (SendMessage_safe q g d s (ms w) (w_kafka w) (si_Body <$> inps)); try done.
    apply list_elem_of_fmap. exists inp. split; [done |]. by eapply list_elem_of_lookup_2.
  - destruct (Hholds Hms) as [_ Hc]. destruct c as [[j []]|]; [right; apply Hc | left; apply Hc | left; apply Hc].
Qed.

(** Two sends of the same id at the same time: the second is answered while the first is
    still routing, and one record is produced. *)
Definition twin_sends : list (prog world SendMessageOutput) :=
  SendMessage_prog (300 * Second) <$> [order "d1" "paid"; order "d1" "paid again"].

Lemma concurrent_dedup_witness :
  let st := schedule [0; 1; 0; 1; 0; 0; 0]%nat (orders_world, twin_sends) in
  snd st !! 0%nat = Some (Done (Ok (MkSendOutput "uuid-0" 0))) /\
  snd st !! 1%nat = Some (Done (Ok (MkSendOutput "d1" 0))) /\
  (k_log (w_kafka (fst st)) = k_log (w_kafka orders_world) \/
   exists t p r, k_log (w_kafka (fst st)) = k_log (append_record t p r (w_kafka orders_world)) /\
     kr_value r ∈ ["paid"; "paid again"]).
Proof.
  cbv zeta. split; [by vm_compute |]. split; [by vm_compute |].
  apply (concurrent_dedup "orders" "g1" "d1" 300 orders_world
           [order "d1" "paid"; order "d1" "paid again"]).
  - done.
  - done.
  - intros m e Hm.
    assert (Hrow : (fun v => match e_val v with VHash m => bool_decide (field m "fifo" = "1") | _ => false end) <$>
              w_redis orders_world !! QueueMetaKey "orders" = Some true) by vm_decide.
    rewrite Hm in Hrow. cbn in Hrow. injection Hrow as Hrow. by apply bool_decide_eq_true in Hrow.
  - by repeat constructor.
  - apply schedule_steps.
  - by vm_compute.
Defined.
