(* ===== verification/FifoLock.v ===== *)
(** FIFO groups under concurrency: any number of receives that try to hand out messages of
    one group, fresh ones and redelivered ones, with acknowledgements and reaps of other
    messages, interleaved round trip by round trip.

    The lock of the group is a claim ([Claims]); the ghost value is its winner among the
    receives.  Both Lua scripts release the lock of a message's group, but only when it
    holds the message's own handle; [others] are the handles of the messages that are
    acknowledged or reaped, and the lock never holds one of them. *)

From S2P Require Import Prelude GoNum GoStr Topology Json Keys Redis World Schema Store Scripts Send Receive Delete Interleave Claims Concurrent.

Local Open Scope Z_scope.

Section Group.
Context (q gid : string) (hs others : list string) (s t0 : Z).

Notation lock := (FIFOLockKey q gid).

(** The least visibility timeout of the receives, from the start. *)
Definition horizon : Z := t0 + s * 1000.

(** The records of the handles [hs] are of this group. *)
Definition rows_of_group (ks : keyspace) : Prop :=
  forall h m e, h ∈ hs -> ks !! InFlightKey q h = Some (Entry (VHash m) e) -> field m "groupId" = gid.

(** What the lock holds while it is claimed: no handle of the other messages. *)
Definition not_others (v : rval) : Prop := forall h, h ∈ others -> v <> VStr h.

Definition lock_inv (c : option nat) (w : world) : Prop :=
  t0 <= ms w /\ rows_of_group (w_redis w) /\ (ms w <= horizon -> is_Some c -> held not_others horizon lock w).

Definition others_kept (i : nat) : action (W := world) (G := option nat) := fun c w c' w' =>
  w_clock w <= w_clock w' /\ forall j, j <> i -> c = Some j -> c' = Some j.
Definition own_kept (i : nat) : action (W := world) (G := option nat) := fun c w c' w' =>
  w_clock w <= w_clock w' /\ (c = Some i -> c' = Some i).

Definition owns (i : nat) : assertion (W := world) (G := option nat) := fun c w => ms w <= horizon -> c = Some i.

Lemma lock_owner_stable i : stable lock_inv (own_kept i) (owns i).
Proof. intros c w c' w' _ [Hclk Hown] _ HP Hms. apply ms_mono in Hclk. apply Hown, HP. lia. Qed.

Definition anything : assertion (W := world) (G := option nat) := fun _ _ => True.

Lemma lock_pure_stable i (P : Prop) : stable lock_inv (own_kept i) (fun _ _ => P).
Proof. by intros c w c' w'. Qed.

Lemma rows_frame ks ks' :
  (forall h, h ∈ hs -> ks' !! InFlightKey q h = ks !! InFlightKey q h) -> rows_of_group ks -> rows_of_group ks'.
Proof. intros Hk Hr h m e Hh. rewrite Hk by done. by apply Hr. Qed.

Lemma lapses_lock_inv c w w' : lock_inv c w -> lapses w w' -> lock_inv c w' /\ forall i, own_kept i c w c w'.
Proof.
  intros (Ht & Hrows & Hlock) Hlapses. pose proof Hlapses as (Hk & Hclk & Hl). pose proof (ms_mono _ _ Hclk).
  split; [| done]. split; [lia |]. split.
  - intros h m e Hh Hm. apply (Hrows h m e Hh). destruct (Hl (InFlightKey q h)) as [<- | [E _]]; [done | congruence].
  - intros Hle Hc. eapply held_lapses; [done | done | apply Hlock; [lia | done]].
Qed.

(** What an idle step leaves alone: the claimed lock, and whose the records are. *)
Inductive lock_kept : (world -> Prop) -> Prop :=
| kept_lock v e : not_others v -> lock_kept (fun w => w_redis w !! lock = Some (Entry v e))
| kept_rows : lock_kept (fun w => rows_of_group (w_redis w)).

Notation idle := (idle lock_kept).

Lemma lock_idle_step {A} (a : M world A) c w :
  idle a -> lock_inv c w -> w_clock w <= w_clock (snd (a w)) /\ lock_inv c (snd (a w)).
Proof.
  intros Ha (Ht & Hr & Hlock). pose proof (idle_clock _ a w Ha) as Hc. destruct Ha as [_ Ha].
  pose proof (Ha _ kept_rows w Hr) as Hr'. cbn beta in *. pose proof (ms_mono _ _ Hc).
  split; [done |]. split; [lia |]. split; [done |]. intros Hle Hs. apply (held_kept _ _ _ w); [| apply Hlock; [lia | done]].
  intros v e Hv. by apply (Ha _ (kept_lock v e Hv) w).
Qed.

Lemma lock_idle_NewString {U : UUIDSource} : idle NewString.
Proof. apply idle_NewString. by intros P n w []. Qed.

Lemma rows_by_frame {A} (c : M keyspace A) :
  (forall h e, h ∈ hs -> preserves (fun ks => ks !! InFlightKey q h = e) c) -> preserves rows_of_group c.
Proof. intros Hc ks Hks. apply (rows_frame ks); [| done]. intros h Hh. by apply (Hc h (ks !! InFlightKey q h)). Qed.

(** Server-side programs that do so, and the keys they leave alone. *)
Definition spares {A} (c : M keyspace A) : Prop :=
  (forall v e, not_others v -> preserves (fun ks => ks !! lock = Some (Entry v e)) c) /\ preserves rows_of_group c.

Definition spared (k : string) : Prop := k = lock \/ exists h, h ∈ hs /\ k = InFlightKey q h.

Lemma spares_by_frame {A} (c : M keyspace A) :
  (forall k e, spared k -> preserves (fun ks => ks !! k = e) c) -> spares c.
Proof.
  intros Hc. split; [intros v e _; apply Hc; by left |]. apply rows_by_frame. intros h e Hh. apply Hc. right. by exists h.
Qed.

Lemma spares_ret {A} (a : A) : spares (mret a).
Proof. apply spares_by_frame. intros. apply preserves_ret. Qed.

Lemma spares_fail {A} e : spares (fail (A := A) e).
Proof. apply spares_by_frame. intros. apply preserves_fail. Qed.

Lemma spares_bind {A B} (c : M keyspace A) (f : A -> M keyspace B) :
  spares c -> (forall a, spares (f a)) -> spares (c ≫= f).
Proof.
  intros [H1 H2] Hf. split; [intros v e Hv |]; apply preserves_bind; auto; intros a; by apply (Hf a).
Qed.

Lemma spared_ne f k k' : of_family f k' -> f <> FFIFOLock -> f <> FInFlight -> spared k -> k <> k'.
Proof. intros Hf H1 H2 [-> | (h & _ & ->)]; eapply of_family_ne; eauto with keys; done. Qed.

Lemma spares_rdo {A} (c : Z -> M keyspace A) : (forall now, spares (c now)) -> idle (rdo c).
Proof.
  intros Hc. apply idle_rdo. intros P [v e Hv |].
  - apply (preserves_rdo (fun ks => ks !! lock = Some (Entry v e))). intros now. by apply (Hc now).
  - apply preserves_rdo. intros now. apply (Hc now).
Qed.

Ltac spare_step :=
  lazymatch goal with
  | |- forall _, _ => intro
  | |- spares (mbind _ _) => apply spares_bind
  | |- spares (mret _) => apply spares_ret
  | |- spares (fail _) => apply spares_fail
  | |- spares (if ?b then _ else _) => destruct b
  | |- spares (match ?b with _ => _ end) => destruct b
  end.

Section Steps.
Context {R : RedisServer} {RL : RedisLaws R} {K : KafkaServer} {KL : KafkaLaws K} {U : UUIDSource}.
Context (Hgid : gid <> "").

(** A command on one key of another family. *)
Lemma idle_frame {A} k f (c : Z -> M keyspace A) :
  of_family f k -> f <> FFIFOLock -> f <> FInFlight ->
  (forall now k' e, k' <> k -> preserves (fun ks => ks !! k' = e) (c now)) -> idle (rdo c).
Proof.
  intros Hk H1 H2 Hc. apply spares_rdo. intros now. apply spares_by_frame. intros k' e Hk'. apply Hc. by eapply spared_ne.
Qed.

Lemma idle_AddPending id p o : idle (AddPending q id p o).
Proof. apply idle_wrap. eapply idle_frame; [apply PendingKey_family | done | done |]. intros. by apply frame_zadd. Qed.

Lemma idle_newReceiptHandle id p o : idle (newReceiptHandle id p o).
Proof. apply idle_bind; [apply lock_idle_NewString | solve_idle]. Qed.

Lemma idle_PushRedeliverable h : idle (PushRedeliverable q h).
Proof. apply idle_wrap. eapply idle_frame; [apply RedeliverKey_family | done | done |]. intros. by apply frame_rpush. Qed.

Lemma idle_GetInFlight h : idle (GetInFlight q h).
Proof.
  unfold GetInFlight. solve_idle. apply spares_rdo. intros now. apply spares_by_frame. intros. apply frame_hgetall.
Qed.

(** Writing a record of the group. *)
Lemma rows_hset now h rec :
  if_GroupID rec = gid -> preserves rows_of_group (cmd_hset now (InFlightKey q h) (inflight_fields rec)).
Proof.
  intros Hg ks Hks. rewrite law_hset. destruct (hash_at now ks (InFlightKey q h)) as [m|] eqn:Hm; [| done].
  intros h' m' e Hh'. cbn. unfold put. rewrite lookup_insert_Some. intros [[_ [= <- _]] | [_ Hm']]; [| by eapply Hks].
  unfold field, hash_set, inflight_fields. cbn. by look_fields.
Qed.

Lemma rows_expire now h n : preserves rows_of_group (cmd_expire now (InFlightKey q h) n).
Proof.
  intros ks Hks. rewrite law_expire. unfold live, live_entry. cbn.
  destruct (ks !! InFlightKey q h) as [e|] eqn:E; [| done]. destruct (expired now e); [done |]. cbn.
  destruct (n <=? 0); intros h' m x Hh'.
  - rewrite lookup_delete_Some. intros [_ Hm]. by eapply Hks.
  - rewrite lookup_insert_Some. intros [[Hk [= Hv _]] | [_ Hm]]; [| by eapply Hks].
    apply InFlightKey_inj in Hk as <-. destruct e as [v d]. cbn in Hv. subst v. by eapply Hks.
Qed.

Lemma idle_PutInFlight h rec v : if_GroupID rec = gid -> idle (PutInFlight q h rec v).
Proof.
  intros Hg. unfold PutInFlight. cbv zeta. solve_idle. apply spares_rdo. intros now. split.
  - intros x e _. apply preserves_tx. repeat (apply Forall_cons; split); [apply frame_hset | apply frame_expire | apply frame_zadd | done]; auto with keys.
  - apply preserves_tx. repeat (apply Forall_cons; split); [by apply rows_hset | apply rows_expire | | done].
    apply rows_by_frame. intros h' e _. apply frame_zadd. auto with keys.
Qed.

(** The scripts, run on one of the other messages. *)
Section Scripts.
Context (h : string) (Hother : h ∈ others) (Hhs : h ∉ hs).

Lemma spares_release_lock now m : spares (lua_release_lock now q h m).
Proof.
  unfold lua_release_lock. cbv zeta. destruct (m !! "groupId") as [g|]; [| apply spares_ret].
  case_decide; [apply spares_ret |]. change ("kmsvc:fifo_lock:" +:+ q +:+ ":" +:+ g) with (FIFOLockKey q g).
  split; [intros v e Hv | apply rows_by_frame; intros h' e _]; intros ks Hks; rewrite mbind_run, law_get;
    (destruct (str_at _ _ _) as [o|] eqn:Ho; [| done]); (case_decide as Heq; [subst o | done]); rewrite law_del; cbn;
    [| rewrite lookup_delete_ne by auto with keys; exact Hks].
  rewrite lookup_delete_ne; [exact Hks |]. intros Hg%FIFOLockKey_inj. subst g.
  unfold str_at, live, live_entry in Ho. rewrite Hks in Ho. cbn in Ho. destruct (expired _ _); [done |].
  cbn in Ho. destruct v; try done. injection Ho as ->. by apply (Hv h).
Qed.

Lemma spares_hgetall now k : spares (cmd_hgetall now k).
Proof. apply spares_by_frame. intros. apply frame_hgetall. Qed.

Lemma spares_lua_field m f : spares (lua_field m f).
Proof. unfold lua_field. by repeat spare_step. Qed.

Lemma spares_zrem now k m f : of_family f k -> f = FPending \/ f = FVisIndex -> spares (cmd_zrem now k m).
Proof.
  intros Hf Hff. apply spares_by_frame. intros k' e Hk. apply frame_zrem.
  eapply spared_ne; [exact Hf | | | exact Hk]; by destruct Hff as [-> | ->].
Qed.

Lemma spared_row k : spared k -> k <> InFlightKey q h.
Proof. intros [-> | (h' & Hh' & ->)]; [auto with keys |]. by intros ->%InFlightKey_inj. Qed.

Lemma spares_ack_lua now : spares (ack_lua (InFlightKey q h) (VisIndexKey q) h q now).
Proof.
  unfold ack_lua. cbv zeta. repeat spare_step;
    first [apply spares_hgetall | apply spares_lua_field | apply spares_release_lock
      | eapply spares_zrem; [eauto with keys | by auto]
      | apply spares_by_frame; intros k e Hk; apply frame_del; by apply spared_row].
Qed.

Lemma spares_reap_lua now max : spares (reap_lua (InFlightKey q h) (VisIndexKey q) h max q now).
Proof.
  unfold reap_lua. cbv zeta. change ("kmsvc:redeliver:" +:+ q) with (RedeliverKey q). repeat spare_step;
    first [apply spares_hgetall | apply spares_lua_field | apply spares_release_lock
      | eapply spares_zrem; [eauto with keys | by auto]
      | apply spares_by_frame; intros k e Hk; apply frame_del; by apply spared_row
      | apply spares_by_frame; intros k e Hk; apply frame_hset; by apply spared_row
      | apply spares_by_frame; intros k e Hk; apply frame_rpush; by eapply spared_ne; [apply RedeliverKey_family | ..]].
Qed.

Lemma idle_Ack : idle (Ack q h).
Proof.
  unfold Ack. solve_idle. apply spares_rdo, spares_ack_lua.
Qed.

Lemma idle_Reap max : idle (Reap q h max).
Proof.
  unfold Reap, reap_result_of. cbv zeta. solve_idle. apply spares_rdo. intros. apply spares_reap_lua.
Qed.
End Scripts.

(** The record of a handle, read in the middle of the others' steps. *)
Lemma GetInFlight_group h c w :
  h ∈ hs -> lock_inv c w -> match fst (GetInFlight q h w) with Ok (Some rec) => if_GroupID rec = gid | _ => True end.
Proof.
  intros Hh (_ & Hrows & _). unfold GetInFlight. rewrite mbind_run. unfold wrap_err.
  destruct (rdo _ w) as [r w'] eqn:E. apply rdo_cases in E as [_ [E | (e & -> & _)]]; [| done].
  rewrite law_hgetall in E. destruct (hash_at _ _ _) as [m|] eqn:Hm; [| by injection E as <-].
  injection E as <- _. cbn [fst]. case_decide as Hne; [done |]. cbn.
  unfold hash_at, live, live_entry in Hm. destruct (w_redis w !! InFlightKey q h) as [[x d]|] eqn:Ex;
    cbn in Hm; [| by injection Hm as <-].
  destruct (expired _ _); cbn in Hm; [by injection Hm as <- |]. destruct x; try done. injection Hm as <-. by eapply Hrows.
Qed.

(** The lock: at most one SET NX is answered with true in time. *)
Lemma acquire_step i v h c w :
  0 < s <= v -> h ∉ others ->
  let w' := snd (acquireFIFOSlot q gid h (v * Second) w) in
  lock_inv c w ->
  exists c', others_kept i c w c' w' /\ lock_inv c' w' /\
    (fst (acquireFIFOSlot q gid h (v * Second) w) = Ok true -> owns i c' w').
Proof.
  intros Hs Hh w' (Ht & Hrows & Hlock). subst w'. unfold acquireFIFOSlot, AcquireFIFOLock, wrap_err.
  pose proof (setnx_cases lock h v w ltac:(lia)) as Hcases. destruct (rdo _ w) as [r w'].
  destruct Hcases as (Hclk & _ & Hcases). pose proof (ms_mono _ _ Hclk) as Hms.
  set (w2 := match match r with Ok a => _ | Err e => _ end with (Ok a, w'') => (Ok a, w'') | (Err e, w'') => _ end).
  assert (Hw2 : snd w2 = w') by (by destruct r). assert (Hr2 : fst w2 = Ok true -> r = Ok true) by (by destruct r).
  rewrite Hw2. clearbody w2. destruct Hcases as [[Hrd Hlost] | [Hfree Hrd]].
  - exists c. split; [by split |]. split; [| intros Hok; by apply Hr2 in Hok].
    split; [lia |]. unfold held in *. rewrite Hrd. split; [done |]. intros. apply Hlock; [lia | done].
  - assert (Hrows' : rows_of_group (w_redis w')).
    { rewrite Hrd. apply (rows_frame (w_redis w)); [| done]. intros h' _. by rewrite lookup_insert_ne by auto with keys. }
    destruct (decide (ms w' <= horizon)) as [Hle | Hgt]; cycle 1.
    { exists c. split; [by split |]. split; [split; [lia |]; split; [done |]; lia |]. intros _ Hle. lia. }
    assert (c = None) as ->.
    { destruct c as [j|]; [| done]. destruct (held_live not_others horizon lock w (ms w')) as [x Hx]; [apply Hlock; [lia | done] | done |].
      congruence. }
    exists (Some i). split; [by split |]. split; [| done]. split; [lia |]. split; [done |]. intros _ _.
    eapply held_insert; [exact Hrd | unfold horizon; lia |]. intros h' Hh' [= <-]. done.
Qed.

(** ** The programs *)

Notation group_safe i := (safe lock_inv (own_kept i) (others_kept i)).

(** Who hands out a message owns the lock. *)
Definition handed (i : nat) (r : res (option Message)) : assertion (W := world) (G := option nat) :=
  match r with Ok (Some _) => owns i | _ => anything end.

Lemma lock_idle_safe {A} i (P : Prop) (a : M world A) :
  idle a -> group_safe i (fun _ _ => P) (act a) (fun _ _ _ => P).
Proof.
  intros Ha. apply safe_act; [intros; apply lock_pure_stable |]. intros c w Hinv HP. exists c.
  destruct (lock_idle_step a c w Ha Hinv). split; [by split |]. by split.
Qed.

Lemma lock_owner_safe {A} i (a : M world A) : idle a -> group_safe i (owns i) (act a) (fun _ => owns i).
Proof.
  intros Ha. apply safe_act; [intros; apply lock_owner_stable |]. intros c w Hinv HP. exists c.
  destruct (lock_idle_step a c w Ha Hinv) as [Hclk Hinv']. split; [by split |]. split; [done |].
  intros Hle. apply ms_mono in Hclk. apply HP. lia.
Qed.

Lemma idle_prog_step {A} i p (P : Prop) (a : M world A) :
  idle a -> group_safe i (fun _ _ => P) (wrap_prog p (act a)) (fun r _ _ => P).
Proof. intros Ha. apply safe_wrap. eapply safe_post; [by apply lock_idle_safe | by intros []]. Qed.

(** Acquiring, and what follows. *)
Lemma acquire_safe i v h (P : Prop) :
  0 < s <= v -> (P -> h ∉ others) ->
  group_safe i (fun _ _ => P) (act (acquireFIFOSlot q gid h (v * Second)))
    (fun r => match r with Ok true => owns i | _ => anything end).
Proof.
  intros Hs Hh. apply safe_act; [intros [[]|]; [apply lock_owner_stable | apply (lock_pure_stable i True) ..] |].
  intros c w Hinv HP. destruct (acquire_step i v h c w Hs (Hh HP) Hinv) as (c' & H1 & H2 & H3). exists c'.
  split; [done |]. split; [done |]. destruct (fst _) as [[]|]; [by apply H3 | done ..].
Qed.

Lemma push_safe i p h : group_safe i anything (_ ← wrap_prog p (act (PushRedeliverable q h)); mret None) (handed i).
Proof.
  apply safe_bind with (P' := fun _ => anything); [| by intros].
  eapply safe_post; [apply (idle_prog_step i p True), idle_PushRedeliverable | by intros []].
Qed.

(** The handles a delivery of [rec] can get. *)
Definition new_handles (id : string) (rec : FetchedRecord) : Prop :=
  forall u, id +:+ ":" +:+ FormatInt (rec_Partition rec) +:+ ":" +:+ FormatInt (rec_Offset rec) +:+ ":" +:+ u ∉ others.

Lemma handOutFresh_safe i meta id rec v :
  0 < s <= v -> qm_FIFO meta = true -> default "" (rec_Key rec) = gid -> new_handles id rec ->
  group_safe i anything (handOutFresh_prog meta q id rec (v * Second)) (handed i).
Proof.
  intros Hs Hfifo Hkey Hnew. unfold handOutFresh_prog. cbv zeta. rewrite Hfifo, Hkey, bool_decide_eq_false_2 by done.
  apply safe_bind with (P' := fun _ => anything).
  { eapply safe_post; [apply (idle_prog_step i _ True), idle_AddPending | by intros []]. }
  intros _. apply safe_bind with (P' := fun h _ _ => h ∉ others).
  { apply safe_act; [intros []; apply lock_pure_stable |]. intros c w Hinv _. exists c.
    destruct (lock_idle_step _ c w (idle_newReceiptHandle id (rec_Partition rec) (rec_Offset rec)) Hinv).
    split; [by split |]. split; [done |]. apply Hnew. }
  intros h. apply safe_bind with (P' := fun _ _ _ => h ∉ others).
  { eapply safe_post; [apply (idle_prog_step i _ (h ∉ others)); by apply idle_PutInFlight | by intros []]. }
  intros _. apply safe_bind with (P' := fun acquired : bool => if acquired then owns i else anything).
  { eapply safe_post; [by apply (acquire_safe i v h (h ∉ others)) | by intros [[]|]]. }
  intros []; cbn [negb]; [by apply safe_ret | apply push_safe].
Qed.

Lemma ExtendVisibility_safe i h v : group_safe i (owns i) (ExtendVisibility_prog q h v) (fun _ => owns i).
Proof.
  unfold ExtendVisibility_prog. cbv zeta. apply safe_bind with (P' := fun _ => owns i).
  - apply safe_wrap. eapply safe_post; [apply lock_owner_safe | by intros []].
    apply spares_rdo. intros now. apply spares_by_frame. intros. apply frame_exists.
  - intros x. destruct (x =? 0); [by apply safe_ret |]. apply safe_bind with (P' := fun _ => owns i).
    { eapply safe_post; [apply lock_owner_safe; solve_idle | by intros []]. }
    intros now. apply safe_bind with (P' := fun _ => owns i); [| by intros; apply safe_ret].
    apply safe_wrap. eapply safe_post; [apply lock_owner_safe | by intros []].
    eapply idle_frame; [apply VisIndexKey_family | done | done |]. intros. by apply frame_zadd.
Qed.

Lemma hand_out_handle_safe i h v :
  h ∈ hs -> h ∉ others -> 0 < s <= v -> group_safe i anything (hand_out_handle_prog q (v * Second) h) (handed i).
Proof.
  intros Hh Ho Hs. unfold hand_out_handle_prog.
  apply safe_bind with (P' := fun r _ _ => match r with Some rec => if_GroupID rec = gid | None => True end).
  { apply safe_wrap, safe_act; [intros []; apply lock_pure_stable |]. intros c w Hinv _. exists c.
    pose proof (GetInFlight_group h c w Hh Hinv) as Hg. destruct (lock_idle_step _ c w (idle_GetInFlight h) Hinv).
    split; [by split |]. split; [done |]. destruct (fst _) as [[rec|]|e]; done. }
  intros [rec|]; [| by apply safe_ret].
  apply safe_bind with (P' := fun acquired : bool => if acquired then owns i else anything).
  - destruct (decide (if_GroupID rec = gid)) as [E | E]; cycle 1.
    { destruct (bool_decide _).
      - apply safe_ret. intros c w _ HP. by contradict E.
      - apply safe_act; [intros [[]|]; [apply lock_owner_stable | apply (lock_pure_stable i True) ..] |]. intros c w _ HP. by contradict E. }
    rewrite E, bool_decide_eq_false_2 by done.
    eapply safe_post; [by apply (acquire_safe i v h (gid = gid)) | by intros [[]|]].
  - intros []; cbn [negb]; [| apply push_safe].
    apply safe_bind with (P' := fun _ => owns i); [| by intros; apply safe_ret].
    apply safe_wrap. eapply safe_post; [apply ExtendVisibility_safe | by intros []].
Qed.
(** Acknowledgements and reaps of other messages. *)
Lemma idle_MinPending id p : idle (MinPending q id p).
Proof.
  unfold MinPending. solve_idle. apply spares_rdo. intros. apply spares_by_frame. intros. apply frame_zfirst.
Qed.

Lemma idle_SetWatermark id p o : idle (SetWatermark q id p o).
Proof. apply idle_wrap. eapply idle_frame; [apply WatermarkKey_family | done | done |]. intros. by apply frame_set. Qed.

Lemma idle_CommitOffset g t p o : idle (CommitOffset g t p o).
Proof.
  split; [intros x; unfold CommitOffset; solve_clock |]. intros P HP w Hw.
  pose proof (CommitOffset_run g t p o (w_kafka w) (w_redis w) w (conj eq_refl eq_refl)) as [_ Hr].
  destruct HP; cbn beta in *; by rewrite Hr.
Qed.

Lemma idle_DeleteMessage b h : h ∈ others -> h ∉ hs -> every_step (fun _ => idle) (DeleteMessage_prog b q h).
Proof.
  intros Ho Hh. unfold DeleteMessage_prog, advanceWatermark_prog. cbv zeta.
  apply every_step_bind; [apply every_step_wrap, every_step_act, idle_GetInFlight |]. intros [rec|]; [| done].
  apply every_step_bind; [by apply every_step_wrap, every_step_act, idle_Ack |]. intros o. case_decide; [| done].
  apply every_step_bind; [apply every_step_wrap, every_step_act, idle_MinPending |]. intros [m|]; [| done].
  apply every_step_bind; [apply every_step_wrap, every_step_act, idle_SetWatermark |]. intros _.
  destruct b; [| done]. apply every_step_wrap, every_step_act, idle_CommitOffset.
Qed.

Lemma idle_prog_safe {A} i (pr : prog world A) :
  every_step (fun _ => idle) pr -> group_safe i anything pr (fun _ => anything).
Proof.
  induction pr as [r | X a k IH]; [done |]. intros [Ha Hk]. exists (fun _ => anything).
  split; [intros r; apply (lock_pure_stable i True) |]. split; [| intros r; by apply IH].
  intros c w Hinv _. exists c. destruct (lock_idle_step a c w Ha Hinv). by split; [split |].
Qed.
End Steps.
End Group.

(** ** At most one message of a group *)

(** Receives of the group, with visibility timeouts of at least [s] seconds: of a fresh
    record, and of one of the handles [hs] that were popped off the redelivery list; and
    acknowledgements and reaps of the messages [others], of this group or not, which are
    none of the former. *)
Inductive group_process {R : RedisServer} {K : KafkaServer} {U : UUIDSource}
    (q gid : string) (hs others : list string) (s : Z) : prog world (option Message) -> Prop :=
| out_fresh meta id rec v : s <= v -> qm_FIFO meta = true -> default "" (rec_Key rec) = gid -> new_handles others id rec ->
    group_process q gid hs others s (handOutFresh_prog meta q id rec (v * Second))
| out_again h v : s <= v -> h ∈ hs -> h ∉ others ->
    group_process q gid hs others s (hand_out_handle_prog q (v * Second) h)
| other_delete b h : h ∈ others -> h ∉ hs ->
    group_process q gid hs others s (_ ← DeleteMessage_prog b q h; mret None)
| other_reap h max : h ∈ others -> h ∉ hs ->
    group_process q gid hs others s (_ ← act (Reap q h max); mret None).


(** A fresh message of the group and a redelivered one, at the same time, while the one
    that is parked between them is acknowledged: the second to ask for the lock parks its
    message. *)
Definition group_pool : list (prog world (option Message)) :=
  [handOutFresh_prog orders_meta "orders" "0" (order_record 2 "third") (30 * Second);
   hand_out_handle_prog "orders" (45 * Second) "0:2:0:uuid-0";
   _ ← DeleteMessage_prog true "orders" "0:2:1:uuid-1"; mret None].

(** The first message has been received, the second has been parked, and the lock is
    over. *)
Definition redelivery_world : world :=
  let w1 := snd (handOutFresh orders_meta "orders" "0" (order_record 0 "first") (30 * Second) orders_world) in
  let w2 := snd (handOutFresh orders_meta "orders" "0" (order_record 1 "second") (30 * Second) w1) in
  set_redis (delete (FIFOLockKey "orders" "g1") (w_redis w2)) w2.

Definition group_order : list nat := [0; 1; 2; 0; 0; 2; 1; 0; 1; 1; 1; 0; 2; 2; 2]%nat.

