(* ===== verification/Custody.v ===== *)
(** Who has a message: in every interleaving of receives, acknowledgements, reaps and
    visibility extensions, a message whose record is live is in the visibility index, on
    the redelivery list, or in the hands of one receive that popped it off that list.

    The requests are those of [Tracker]; the ghost value is the tracker that Redis stands
    for, with what each process has in its hands.  A receive that fails with a message in
    its hands drops it for good ([popped_message_lost]). *)

From S2P Require Import Prelude GoNum GoStr Topology Json Keys Redis World Schema Store Scripts Tracker Send Receive Delete Interleave Claims Concurrent.

Local Open Scope Z_scope.

(** ** Messages in sight *)

Notation hands := (gmap nat string).

Definition shown (t : tracker) (h : string) : Prop := is_Some (tk_visible t !! h) \/ h ∈ tk_queue t.

(** The processes that receive. *)
Section Hands.
Context (receives : nat -> Prop).

Definition in_sight (hs : hands) (t : tracker) (h : string) : Prop :=
  shown t h \/ exists i, receives i /\ hs !! i = Some h.

Definition accounted (hs : hands) (now : Z) (t : tracker) : Prop :=
  forall h, is_Some (live_row now t h) -> in_sight hs t h.

(** Only a pop takes a message out of sight. *)
Definition pops {A} (r : request A) : bool := match r with RPop => true | _ => false end.

Lemma live_row_later now now' t h : now <= now' -> is_Some (live_row now' t h) -> is_Some (live_row now t h).
Proof.
  intros Hle. unfold live_row, in_time. destruct (tk_rows t !! h) as [[rec d]|]; cbn; [| done].
  destruct (Z.ltb_spec d now'), (Z.ltb_spec d now); try done; lia || by intros [].
Qed.

Lemma accounted_later hs now now' t : now <= now' -> accounted hs now t -> accounted hs now' t.
Proof. intros Hle Ha h Hh. apply Ha. by eapply live_row_later. Qed.

(** Steps on the tracker, one at a time. *)
Lemma accounted_rows hs now t t' :
  tk_rows t' = tk_rows t -> (forall h, is_Some (live_row now t h) -> shown t h -> shown t' h) ->
  accounted hs now t -> accounted hs now t'.
Proof.
  intros Hr Hs Ha h Hh. unfold live_row in *. rewrite Hr in Hh. destruct (Ha h Hh); [left; by apply Hs | by right].
Qed.

Lemma release_fields now g h t :
  tk_rows (release now g h t) = tk_rows t /\ tk_visible (release now g h t) = tk_visible t /\
  tk_queue (release now g h t) = tk_queue t.
Proof. unfold release. by case_decide. Qed.

Lemma shown_hide t h h' : h' <> h -> shown t h' -> shown (hide h t) h'.
Proof. intros Hne [Hv | Hq]; [left; cbn; by rewrite lookup_delete_ne | by right]. Qed.

Lemma shown_show t h score h' : shown t h' \/ h' = h -> shown (show h score t) h'.
Proof.
  intros H. destruct (decide (h' = h)) as [-> | Hne]; [left; cbn; by rewrite lookup_insert_eq |].
  destruct H as [[Hv | Hq] | ?]; [left; cbn; by rewrite lookup_insert_ne | by right | done].
Qed.

Lemma shown_push t h h' : shown t h' \/ h' = h -> shown (set_queue (tk_queue t ++ [h]) t) h'.
Proof. unfold shown. cbn. rewrite elem_of_app, list_elem_of_singleton. tauto. Qed.

(** A message that is dropped needs no place. *)
Lemma accounted_forget hs now h rec t : accounted hs now t -> accounted hs now (forget now h rec t).
Proof.
  intros Ha h' Hh'. unfold forget in *.
  destruct (release_fields now (if_GroupID rec) h
              (drop_row h (untrack (if_ShardID rec) (if_Partition rec) (if_Offset rec) (hide h t)))) as (Hr & Hv & Hq).
  unfold live_row, in_sight, shown in *. rewrite Hr in Hh'. rewrite Hv, Hq. cbn in *.
  destruct (decide (h' = h)) as [-> | Hne]; [rewrite lookup_delete_eq in Hh'; by destruct Hh' |].
  rewrite lookup_delete_ne in Hh' by done. rewrite lookup_delete_ne by done. by apply Ha.
Qed.

Lemma accounted_requeue hs now h rec t : accounted hs now t -> accounted hs now (requeue now h rec t).
Proof.
  intros Ha h' Hh'. unfold requeue in *. destruct (release_fields now (if_GroupID rec) h (hide h t)) as (Hr & Hv & Hq).
  cbv zeta in *. unfold live_row, in_sight, shown in *. cbn in *. rewrite Hr in Hh'. rewrite Hv, Hq. cbn in *.
  rewrite elem_of_app, list_elem_of_singleton.
  destruct (decide (h' = h)) as [-> | Hne]; [by left; right; right |].
  rewrite lookup_alter_ne in Hh' by done. rewrite lookup_delete_ne by done. destruct (Ha h' Hh') as [[H | H] | H]; auto.
Qed.

Lemma accounted_spec hs at_ now {A} (r : request A) t :
  pops r = false -> accounted hs now t -> accounted hs now (snd (spec at_ now r t)).
Proof.
  intros Hr Ha. destruct r; cbn [spec snd]; try exact Ha; try done.
  - intros h' Hh'. unfold live_row in Hh'. cbn in Hh'. destruct (decide (h' = h)) as [-> | Hne].
    + left. apply shown_show. by right.
    + rewrite lookup_insert_ne in Hh' by done. destruct (Ha h' Hh') as [H | H]; [left | by right].
      apply shown_show. by left.
  - apply (accounted_rows hs now t); [done | | done]. intros h' _ H. apply shown_show. by left.
  - destruct (live_row now t h); [by apply accounted_forget | done].
  - destruct (tk_visible t !! h) as [f|]; [| done]. destruct (live_row now t h) as [rec|] eqn:Hrow.
    + destruct (max <=? _); [by apply accounted_forget | by apply accounted_requeue].
    + apply (accounted_rows hs now t); [done | | done]. intros h' Hh'. apply shown_hide. intros ->.
      rewrite Hrow in Hh'. by destruct Hh'.
  - by destruct (holder now t g).
  - apply (accounted_rows hs now t); [done | | done]. intros h' _ H. apply shown_push. by left.
Qed.

(** Hands are emptied of a message that is shown, or has no live record. *)
Lemma accounted_put_down hs now t i h :
  accounted hs now t -> hs !! i = Some h -> (is_Some (live_row now t h) -> shown t h) -> accounted (delete i hs) now t.
Proof.
  intros Ha Hi Hh h' Hh'. destruct (Ha h' Hh') as [H | (j & Hr & Hj)]; [by left |].
  destruct (decide (j = i)) as [-> | Hne]; [left; replace h' with h in * by congruence; auto |].
  right. exists j. split; [done |]. by rewrite lookup_delete_ne.
Qed.

Lemma accounted_take hs now t i h l :
  receives i -> accounted hs now t -> hs !! i = None -> tk_queue t = h :: l -> accounted (<[i := h]> hs) now (set_queue l t).
Proof.
  intros Hr Ha Hi Hq h' Hh'. destruct (Ha h' Hh') as [[H | H] | (j & Hj & Hh)].
  - left. by left.
  - rewrite Hq, elem_of_cons in H. destruct H as [-> | H]; [right; exists i; by rewrite lookup_insert_eq | left; by right].
  - right. exists j. rewrite lookup_insert_ne by congruence. done.
Qed.

(** ** Time goes by *)

Definition keep {A} (P : string -> Prop) `{!forall k, Decision (P k)} (m : gmap string A) : gmap string A :=
  filter (fun x => P x.1) m.

Lemma keep_lookup {A} (m : gmap string A) (P : string -> Prop) `{!forall k, Decision (P k)} k :
  keep P m !! k = if decide (P k) then m !! k else None.
Proof.
  unfold keep. apply option_eq. intros x. rewrite map_lookup_filter_Some. case_decide; naive_solver.
Qed.

(** Records and locks that are still there; nothing else can expire. *)
Definition lapse (q : string) (ks : keyspace) (t : tracker) : tracker :=
  set_rows (keep (fun h => is_Some (ks !! InFlightKey q h)) (tk_rows t))
    (set_locks (keep (fun g => is_Some (ks !! FIFOLockKey q g)) (tk_locks t)) t).

(** Keys whose deadline is over disappear; those without one stay. *)
Section Lapse.
Context (q : string) (t : tracker) (w w' : world) (Hrep : represents q t (w_redis w)) (Hlapses : lapses w w').

Lemma lapses_row k : w_redis w' !! k = w_redis w !! k \/ w_redis w' !! k = None.
Proof. destruct Hlapses as (_ & _ & H). destruct (H k) as [E | [E _]]; auto. Qed.

Lemma lapses_lasting k e : w_redis w !! k = Some e -> e_exp e = None -> w_redis w' !! k = w_redis w !! k.
Proof.
  intros He Hexp. destruct Hlapses as (_ & _ & H). destruct (H k) as [E | [_ (e' & He' & Hexpired)]]; [done |].
  rewrite He in He'. injection He' as <-. unfold expired in Hexpired. by rewrite Hexp in Hexpired.
Qed.

Lemma lapses_absent k : w_redis w !! k = None -> w_redis w' !! k = w_redis w !! k.
Proof. intros E. destruct (lapses_row k) as [E' | E']; [done | by rewrite E, E']. Qed.

Lemma lapses_zset k z : w_redis w !! k = zset_row z -> w_redis w' !! k = zset_row z.
Proof.
  intros Hk. rewrite <- Hk. unfold zset_row in Hk. case_decide; [by apply lapses_absent | by eapply lapses_lasting].
Qed.

Lemma lapses_list k l : w_redis w !! k = list_row l -> w_redis w' !! k = list_row l.
Proof.
  intros Hk. rewrite <- Hk. unfold list_row in Hk. case_decide; [by apply lapses_absent | by eapply lapses_lasting].
Qed.

Lemma lapses_represents : represents q (lapse q (w_redis w') t) (w_redis w').
Proof.
  split; unfold lapse; cbn [tk_rows tk_visible tk_pending tk_locks tk_queue set_rows set_locks].
  - intros k e f He. destruct (lapses_row k) as [E | E]; [| congruence]. rewrite E in He. by apply (rp_typed _ _ _ Hrep).
  - intros h. pose proof (rp_rows _ _ _ Hrep h) as Hrow.
    rewrite keep_lookup.
    case_decide as Hs; [| by apply eq_None_not_Some in Hs].
    destruct (lapses_row (InFlightKey q h)) as [E | E]; [by rewrite E | rewrite E in Hs; by destruct Hs].
  - apply lapses_zset. exact (rp_visible _ _ _ Hrep).
  - intros id p. destruct (rp_pending _ _ _ Hrep id p) as (z & Hz & H). exists z. split; [by apply lapses_zset | exact H].
  - intros g. rewrite keep_lookup.
    case_decide as Hs; [| by apply eq_None_not_Some in Hs].
    destruct (lapses_row (FIFOLockKey q g)) as [E | E]; [| rewrite E in Hs; by destruct Hs].
    rewrite E. exact (rp_locks _ _ _ Hrep g).
  - apply lapses_list. exact (rp_queue _ _ _ Hrep).
Qed.
End Lapse.

Lemma accounted_lapse q ks hs now t : accounted hs now t -> accounted hs now (lapse q ks t).
Proof.
  intros Ha h Hh. apply Ha. unfold live_row, lapse in *. cbn in *.
  rewrite keep_lookup in Hh.
  by case_decide; [| destruct Hh].
Qed.

(** ** The invariant of a pool *)

Section Custody.
Context (q : string).

(** The ghost value: the tracker, and what each process has in its hands. *)
Definition custody (g : tracker * hands) (w : world) : Prop :=
  represents q g.1 (w_redis w) /\ accounted g.2 (ms w) g.1.

Definition own_hand (i : nat) : action (W := world) (G := tracker * hands) := fun g _ g' _ => g'.2 !! i = g.2 !! i.
Definition other_hands (i : nat) : action (W := world) (G := tracker * hands) := fun g _ g' _ =>
  forall j, j <> i -> g'.2 !! j = g.2 !! j.

Definition holds (i : nat) (x : option string) : assertion (W := world) (G := tracker * hands) := fun g _ => g.2 !! i = x.

Lemma holds_stable i x : stable custody (own_hand i) (holds i x).
Proof. intros g w g' w' _ Hown _. unfold holds. by rewrite Hown. Qed.

Definition any_hand : assertion (W := world) (G := tracker * hands) := fun _ _ => True.

Lemma any_hand_stable i : stable custody (own_hand i) any_hand.
Proof. by intros g w g' w'. Qed.

#[local] Hint Resolve holds_stable any_hand_stable : core.

Lemma custody_lapses g w w' : custody g w -> lapses w w' -> custody (lapse q (w_redis w') g.1, g.2) w'.
Proof.
  intros [Hrep Ha] Hl. split; [by eapply lapses_represents |]. apply accounted_lapse.
  destruct Hl as (_ & Hclk & _). by apply (accounted_later _ (ms w)); [apply ms_mono |].
Qed.

Notation custody_safe i := (safe custody (own_hand i) (other_hands i)).

(** Steps on other rows. *)
Definition aside {A} (a : M world A) : Prop :=
  forall w, w_clock w <= w_clock (snd (a w)) /\
    forall t, represents q t (w_redis w) -> represents q t (w_redis (snd (a w))).

Section Requests.
Context {R : RedisServer} {RL : RedisLaws R}.

(** What a request does to the invariant, as [tracker_refines] has it. *)
Lemma custody_request {A} (r : request A) g w :
  custody g w -> admissible r ->
  let '(x, w') := serve q r w in
  let '(a, t') := spec (w_clock w) (ms w') r g.1 in
  ms w <= ms w' /\ accounted g.2 (ms w') g.1 /\
  ((x = Ok a /\ represents q t' (w_redis w')) \/
   ((exists e, x = Err e) /\ (represents q g.1 (w_redis w') \/ represents q t' (w_redis w')))).
Proof.
  intros [Hrep Ha] Hadm. pose proof (serve_refined q r w Hadm g.1 Hrep) as H. destruct (serve q r w) as [x w'].
  destruct H as (Hclk & _ & H). pose proof (ms_mono _ _ Hclk) as Hms. destruct (spec _ _ _ _) as [a t'].
  split; [done |]. split; [by eapply accounted_later | done].
Qed.

(** Requests that leave the hands alone. *)
Definition fine {A} (a : M world A) : Prop :=
  (exists r : request A, admissible r /\ pops r = false /\ forall w, snd (a w) = snd (serve q r w)) \/ aside a.

Lemma fine_custody {A} (a : M world A) g w :
  fine a -> custody g w -> exists t', custody (t', g.2) (snd (a w)).
Proof.
  intros [(r & Hadm & Hpop & Hserve) | Haside] Hg.
  - rewrite Hserve. pose proof (custody_request r g w Hg Hadm) as H. destruct (serve q r w) as [x w'].
    pose proof (accounted_spec g.2 (w_clock w) (ms w') r g.1 Hpop) as Hspec.
    destruct (spec _ _ _ _) as [a' t']. destruct H as (_ & Ha & [[_ Hrep] | [_ [Hrep | Hrep]]]); cbn in *;
      [exists t' | exists g.1 | exists t']; (split; [exact Hrep |]); cbn; auto.
  - destruct Hg as [Hrep Ha], (Haside w) as [Hclk Hkeep]. exists g.1. split; [by apply Hkeep |].
    by apply (accounted_later _ (ms w)); [apply ms_mono |].
Qed.

Lemma fine_safe {A} i x (a : M world A) : fine a -> custody_safe i (holds i x) (act a) (fun _ => holds i x).
Proof.
  intros Ha. apply safe_act; [auto |]. intros g w Hg Hx. destruct (fine_custody a g w Ha Hg) as [t' Ht'].
  exists (t', g.2). by split.
Qed.

Lemma fine_prog_safe {A} i x (p : prog world A) :
  every_step (fun _ => fine) p -> custody_safe i (holds i x) p (fun _ => holds i x).
Proof.
  induction p as [r | X a k IH]; [by intros _ g w _ |]. intros [Ha Hk]. exists (fun _ => holds i x).
  split; [auto |]. split; [| intros r; by apply IH]. intros g w Hg Hx.
  destruct (fine_custody a g w Ha Hg) as [t' Ht']. exists (t', g.2). by split.
Qed.

(** Requests after which the message in hand is accounted for: it is shown, or it is known
    to have no record. *)
Definition settles {A} (r : request A) (h : string) (ok : A -> bool) : Prop :=
  forall at_ now t, let '(a, t') := spec at_ now r t in
  ok a = true -> is_Some (live_row now t' h) -> shown t' h.

Definition put_down {A} (i : nat) (h : string) (ok : A -> bool) (x : res A) : assertion (W := world) (G := tracker * hands) :=
  match x with Ok a => holds i (if ok a then None else Some h) | Err _ => any_hand end.

Lemma settle_safe {A} i (r : request A) h ok (a : M world A) :
  (forall w, a w = serve q r w) -> admissible r -> pops r = false -> settles r h ok ->
  custody_safe i (holds i (Some h)) (act a) (put_down i h ok).
Proof.
  intros Hserve Hadm Hpop Hset. apply safe_act; [intros []; cbn; auto |]. intros g w Hg Hi. rewrite Hserve.
  pose proof (custody_request r g w Hg Hadm) as H. destruct (serve q r w) as [x w'].
  pose proof (accounted_spec g.2 (w_clock w) (ms w') r g.1 Hpop) as Hspec.
  specialize (Hset (w_clock w) (ms w') g.1). destruct (spec _ _ _ _) as [b t']. cbn in *.
  destruct H as (_ & Ha & [[-> Hrep] | [[e ->] [Hrep | Hrep]]]);
    [| exists (g.1, g.2); by split | exists (t', g.2); split; [done |]; split; [split; [exact Hrep | by apply Hspec] | done]].
  cbn. destruct (ok b) eqn:Hok.
  - exists (t', delete i g.2). split; [intros j Hj; by apply lookup_delete_ne |].
    split; [split; [exact Hrep |] | by apply lookup_delete_eq].
    apply (accounted_put_down _ _ _ _ h); [by apply Hspec | exact Hi | by apply Hset].
  - exists (t', g.2). split; [done |]. split; [split; [exact Hrep | by apply Hspec] | done].
Qed.

(** Taking a message off the list, whatever the caller gets to know of it. *)
Definition taken (i : nat) (x : res (option string)) : assertion (W := world) (G := tracker * hands) :=
  match x with Ok o => holds i o | Err _ => any_hand end.

Lemma pop_safe i : receives i -> custody_safe i (holds i None) (act (PopRedeliverable q)) (taken i).
Proof.
  intros Hreceives. apply safe_act; [intros []; cbn; auto |]. intros g w Hg Hi.
  change (PopRedeliverable q) with (serve q RPop).
  pose proof (custody_request RPop g w Hg I) as H. destruct (serve q RPop w) as [x w']. cbn [spec snd fst] in *.
  destruct (tk_queue g.1) as [|h l] eqn:Hq; destruct H as (_ & Ha & H).
  - exists (g.1, g.2). split; [done |]. destruct H as [[-> Hrep] | [[e ->] [Hrep | Hrep]]]; by (split; [split |]).
  - destruct H as [[-> Hrep] | [[e ->] [Hrep | Hrep]]]; [| exists (g.1, g.2); by (split; [| split; [split |]]) |].
    all: exists (set_queue l g.1, <[i := h]> g.2); split; [intros j Hj; by apply lookup_insert_ne |];
      (split; [split; [exact Hrep | by apply accounted_take] |]); cbn; first [apply lookup_insert_eq | done].
Qed.

Lemma settle_wrap_safe {A} s i (r : request A) h ok (a : M world A) :
  (forall w, a w = serve q r w) -> admissible r -> pops r = false -> settles r h ok ->
  custody_safe i (holds i (Some h)) (wrap_prog s (act a)) (put_down i h ok).
Proof. intros. apply safe_wrap. eapply safe_post; [by eapply settle_safe | by intros []]. Qed.

Lemma settles_get h : settles (RGet h) h (fun x => match x with None => true | Some _ => false end).
Proof. intros at_ now t. cbn. destruct (live_row now t h); [done | by intros _ []]. Qed.

Lemma settles_exists h : settles (RExists h) h (fun x => x =? 0).
Proof. intros at_ now t. cbn. destruct (live_row now t h); [done | by intros _ []]. Qed.

Lemma settles_show h tm : settles (RShow h tm) h (fun _ => true).
Proof. intros at_ now t _ _. apply shown_show. by right. Qed.

Lemma settles_push h : settles (RPush h) h (fun _ => true).
Proof. intros at_ now t _ _. apply shown_push. by right. Qed.

(** ** The programs *)

(** A receive ends well with nothing in its hands. *)
Definition empty_handed {A} (i : nat) (x : res A) : assertion (W := world) (G := tracker * hands) :=
  match x with Ok _ => holds i None | Err _ => any_hand end.

Lemma empty_handed_wrap {A} i s (p : prog world A) P :
  custody_safe i P p (empty_handed i) -> custody_safe i P (wrap_prog s p) (empty_handed i).
Proof. intros H. apply safe_wrap. eapply safe_post; [exact H | by intros []]. Qed.

(** A step, and what follows with the hands as they are then. *)
Lemma empty_handed_bind {A B} i P (p : prog world A) (P' : A -> _) (f : A -> prog world B) :
  custody_safe i P p (fun x => match x with Ok a => P' a | Err _ => any_hand end) ->
  (forall a, custody_safe i (P' a) (f a) (empty_handed i)) -> custody_safe i P (p ≫= f) (empty_handed i).
Proof. intros Hp Hf. by apply safe_bind with (P' := P'); [exact Hp |]. Qed.

Lemma fine_request {A} (r : request A) (a : M world A) :
  admissible r -> pops r = false -> (forall w, snd (a w) = snd (serve q r w)) -> fine a.
Proof. intros. left. by exists r. Qed.

Lemma fine_acquire g h v : 0 < v -> fine (acquireFIFOSlot q g h (v * Second)).
Proof.
  intros Hv. apply (fine_request (RLock g h v)); [done | done |]. intros w. unfold acquireFIFOSlot, wrap_err at 1.
  cbn [serve]. by destruct (AcquireFIFOLock _ _ _ _ w) as [[]].
Qed.

(** Steps that make no request of the rows. *)
Lemma aside_state {A} (a : M world A) :
  (forall w, w_clock w <= w_clock (snd (a w)) /\ w_redis (snd (a w)) = w_redis w) -> aside a.
Proof. intros Ha w. destruct (Ha w) as [Hclk Hr]. split; [done |]. intros t. by rewrite Hr. Qed.

Lemma fine_Now : fine Now.
Proof. right. apply aside_state. intros w. split; [apply Z.le_refl | done]. Qed.

Lemma fine_newReceiptHandle {U : UUIDSource} id p o : fine (newReceiptHandle id p o).
Proof. right. apply aside_state. intros w. split; [apply Z.le_refl | done]. Qed.

Lemma fine_CommitOffset {K : KafkaServer} {KL : KafkaLaws K} g t p o : fine (CommitOffset g t p o).
Proof.
  right. apply aside_state. intros w. split.
  - assert (Hclk : forall x, preserves (after x) (CommitOffset g t p o)) by (intros x; unfold CommitOffset; solve_clock).
    apply (Hclk (w_clock w) w). apply Z.le_refl.
  - apply (CommitOffset_run g t p o (w_kafka w) (w_redis w) w (conj eq_refl eq_refl)).
Qed.

Lemma fine_SetWatermark id p o : fine (SetWatermark q id p o).
Proof.
  right. intros w. split.
  - assert (Hclk : forall x, preserves (after x) (SetWatermark q id p o)) by (intros x; unfold SetWatermark; cbv zeta; solve_clock).
    apply (Hclk (w_clock w) w). apply Z.le_refl.
  - intros t Hrep. apply (represents_beside q _ (w_redis w) _ FWatermark Hrep).
    + apply (typed_SetWatermark q id p o w). exact (rp_typed _ _ _ Hrep).
    + set_solver.
    + intros k g Hg Hne. unfold SetWatermark. cbv zeta.
      refine (preserves_wrap (fun w' => w_redis w' !! k = w_redis w !! k) _ _ _ w eq_refl).
      apply (preserves_rdo (fun ks => ks !! k = w_redis w !! k)). intros now. apply frame_set.
      eapply of_family_ne; [exact Hg | apply WatermarkKey_family | exact Hne].
Qed.

Lemma fine_wrapped {A} s (a : M world A) : fine a -> every_step (fun _ => fine) (wrap_prog s (act a)).
Proof. intros Ha. by apply every_step_wrap, every_step_act. Qed.

Lemma fine_serve {A} (r : request A) : admissible r -> pops r = false -> fine (serve q r).
Proof. intros. by apply (fine_request r). Qed.

Notation fine_prog := (every_step (fun _ => fine)).

Lemma fine_ExtendVisibility h v : fine_prog (ExtendVisibility_prog q h v).
Proof.
  unfold ExtendVisibility_prog. cbv zeta. apply every_step_bind; [by apply fine_wrapped, (fine_serve (RExists h)) |].
  intros x. destruct (x =? 0); [done |]. apply every_step_bind; [apply every_step_act, fine_Now |]. intros now.
  apply every_step_bind; [by apply fine_wrapped, (fine_serve (RShow h (now + v))) | done].
Qed.

Lemma fine_DeleteMessage {K : KafkaServer} {KL : KafkaLaws K} b h : fine_prog (DeleteMessage_prog b q h).
Proof.
  unfold DeleteMessage_prog, advanceWatermark_prog. cbv zeta.
  apply every_step_bind; [by apply fine_wrapped, (fine_serve (RGet h)) |]. intros [rec|]; [| done].
  apply every_step_bind; [by apply fine_wrapped, (fine_serve (RAck h)) |]. intros o. case_decide; [| done].
  apply every_step_bind; [by apply fine_wrapped, (fine_serve (RLeast _ _)) |]. intros [m|]; [| done].
  apply every_step_bind; [apply fine_wrapped, fine_SetWatermark |]. intros _.
  destruct b; [apply fine_wrapped, fine_CommitOffset | done].
Qed.

(** What the broker's records satisfy. *)
Definition fetched_ok (rec : FetchedRecord) : Prop := is_i32 (rec_Partition rec) /\ 0 <= rec_Offset rec < 2 ^ 53.

Lemma fine_handOutFresh {U : UUIDSource} meta id rec v :
  0 < v -> fetched_ok rec -> fine_prog (handOutFresh_prog meta q id rec (v * Second)).
Proof.
  intros Hv [Hp Ho]. unfold handOutFresh_prog. cbv zeta.
  apply every_step_bind; [apply fine_wrapped, (fine_serve (RTrack id _ _)); [cbn; lia | done] |]. intros _.
  apply every_step_bind; [apply every_step_act, fine_newReceiptHandle |]. intros h.
  apply every_step_bind.
  { apply fine_wrapped, (fine_serve (RPut h _ v)); [| done].
    split; [| lia]. unfold inflight_ok, is_i64, is_i32 in *. cbn. lia. }
  intros _. apply every_step_bind; [case_bool_decide; [done | by apply every_step_act, fine_acquire] |]. intros a.
  destruct (negb a); [| done]. apply every_step_bind; [by apply fine_wrapped, (fine_serve (RPush h)) | done].
Qed.

Lemma fine_hand_out_records {U : UUIDSource} meta topics v n recs :
  0 < v -> Forall fetched_ok recs -> fine_prog (hand_out_records_prog meta q topics (v * Second) n recs).
Proof.
  intros Hv Hrecs. revert n. induction Hrecs as [|rec recs Hrec Hrecs IH]; intros n; [done |].
  destruct n as [|n]; [done |]. cbn [hand_out_records_prog]. destruct (topics !! rec_Topic rec); [| apply IH].
  apply every_step_bind; [by apply fine_handOutFresh |]. intros [m|]; [| apply IH].
  apply every_step_bind; [apply IH | done].
Qed.

(** A fine program keeps the hands, and a receive that is done with a message has none. *)
Lemma fine_prog_empty_handed {A} i (p : prog world A) :
  fine_prog p -> custody_safe i (holds i None) p (empty_handed i).
Proof. intros Hp. eapply safe_post; [by apply fine_prog_safe | by intros []]. Qed.

Lemma fine_step {A} i x s (a : M world A) :
  fine a -> custody_safe i (holds i x) (wrap_prog s (act a)) (fun r => match r with Ok _ => holds i x | Err _ => any_hand end).
Proof. intros Ha. apply safe_wrap. eapply safe_post; [by apply fine_safe | by intros []]. Qed.

Lemma extend_in_hand i h v : custody_safe i (holds i (Some h)) (ExtendVisibility_prog q h v) (empty_handed i).
Proof.
  unfold ExtendVisibility_prog. cbv zeta. eapply empty_handed_bind.
  { eapply safe_post; [by apply settle_wrap_safe with (r := RExists h) (ok := fun x => x =? 0); [| | | apply settles_exists] |].
    intros x g w H. exact H. }
  intros x. cbv beta iota delta [put_down]. destruct (x =? 0); [by apply safe_ret |]. eapply empty_handed_bind with (P' := fun _ => holds i (Some h)).
  { eapply safe_post; [apply fine_safe, fine_Now | by intros []]. }
  intros now. eapply empty_handed_bind.
  { eapply safe_post; [by apply settle_wrap_safe with (r := RShow h (now + v)) (ok := fun _ => true); [| | | apply settles_show] |].
    intros x0 g w H. exact H. }
  intros []. by apply safe_ret.
Qed.

Lemma hand_out_in_hand i h v :
  0 < v -> custody_safe i (holds i (Some h)) (hand_out_handle_prog q (v * Second) h) (empty_handed i).
Proof.
  intros Hv. unfold hand_out_handle_prog. eapply empty_handed_bind.
  { eapply safe_post; [by apply settle_wrap_safe with (r := RGet h); [| | | apply settles_get] |]. intros x g w H. exact H. }
  intros [rec|]; cbv beta iota delta [put_down]; [| by apply safe_ret]. eapply empty_handed_bind with (P' := fun _ => holds i (Some h)).
  { case_bool_decide; [by apply safe_ret |]. eapply safe_post; [by apply fine_safe, fine_acquire | by intros []]. }
  intros []; cbn [negb].
  - apply empty_handed_bind with (P' := fun _ => holds i None); [| by intros; apply safe_ret].
    eapply safe_post; [apply empty_handed_wrap, extend_in_hand | by intros []].
  - eapply empty_handed_bind.
    { eapply safe_post; [by apply settle_wrap_safe with (r := RPush h) (ok := fun _ => true); [| | | apply settles_push] |].
      intros x g w H. exact H. }
    intros []. by apply safe_ret.
Qed.

Lemma drain_empty_handed i v n : receives i -> 0 < v -> custody_safe i (holds i None) (drain_prog q (v * Second) n) (empty_handed i).
Proof.
  intros Hi Hv. induction n as [|n IH]; [by apply safe_ret |]. cbn [drain_prog].
  apply empty_handed_bind with (P' := fun _ => holds i None).
  - unfold handOutRedeliverable_prog. apply safe_bind with (P' := fun o => holds i o).
    { apply safe_wrap. eapply safe_post; [by apply pop_safe | by intros []]. }
    intros [h|]; [| by apply safe_ret]. eapply safe_post; [by apply hand_out_in_hand | by intros []].
  - intros [m|]; [| by apply safe_ret]. apply empty_handed_bind with (P' := fun _ => holds i None); [| by intros; apply safe_ret].
    eapply safe_post; [exact IH | by intros []].
Qed.

Lemma receiver_empty_handed {U : UUIDSource} i meta topics v m recs :
  receives i -> 0 < v -> Forall fetched_ok recs ->
  custody_safe i (holds i None) (receiver q meta topics (v * Second) m recs) (empty_handed i).
Proof.
  intros Hi Hv Hrecs. unfold receiver. apply empty_handed_bind with (P' := fun _ => holds i None).
  { eapply safe_post; [by apply drain_empty_handed | by intros []]. }
  intros out. apply fine_prog_empty_handed. apply every_step_bind; [by apply fine_hand_out_records | done].
Qed.
End Requests.
End Custody.
End Hands.

(** ** Nothing is lost while receives end well *)

(** What may run beside the receives: acknowledgements, reaps, visibility extensions. *)
Inductive tracker_process {R : RedisServer} {K : KafkaServer} (q : string) : prog world unit -> Prop :=
| run_delete b h : tracker_process q (DeleteMessage_prog b q h)
| run_reap h max : is_i32 max -> tracker_process q (_ ← act (Reap q h max); mret tt)
| run_extend h v : tracker_process q (_ ← ExtendVisibility_prog q h v; mret tt).

Inductive receive_process {R : RedisServer} {U : UUIDSource} (q : string) : prog world unit -> Prop :=
| receive_run meta topics v m recs : 0 < v -> Forall fetched_ok recs ->
    receive_process q (receiver q meta topics (v * Second) m recs).

Lemma process_safe {R : RedisServer} {RL : RedisLaws R} {K : KafkaServer} {KL : KafkaLaws K} {U : UUIDSource}
    q (receives : nat -> Prop) i pr :
  tracker_process q pr \/ receive_process q pr /\ receives i ->
  safe (custody receives q) (own_hand i) (other_hands i) (holds i None) pr (empty_handed i).
Proof.
  intros [Hpr | [[] Hi]]; [| by apply receiver_empty_handed]. apply (fine_prog_empty_handed receives q). destruct Hpr.
  - by apply fine_DeleteMessage.
  - by apply every_step_bind; [by apply every_step_act, (fine_serve q (RReap h max)) | done].
  - by apply every_step_bind; [apply fine_ExtendVisibility | done].
Qed.


(** A message is received, its visibility runs out and it is put back, and another receive
    hands it out again: when all have ended, it is in the visibility index. *)
Definition returned_pool : list (prog world unit) :=
  [receive_of [order_record 0 "a"]; _ ← act (Reap "orders" "0:2:0:uuid-0" 5); mret tt; receive_of []].
Definition returned_order : list nat := [0; 0; 0; 0; 1; 2; 2; 2; 2; 2; 2]%nat.


(** ** A receive that fails drops its message *)

(** Requests that show the message themselves: a delivery under its handle, and a holder of
    the handle that extends its visibility. *)
Definition shows {A} (h : string) (r : request A) : bool :=
  match r with
  | RPut h' _ _ | RShow h' _ | RPush h' => bool_decide (h' = h)
  | _ => false
  end.

(** Steps of a queue but those. *)
Inductive elsewhere (q h : string) : tracker -> tracker -> Prop :=
| elsewhere_request A (r : request A) at_ now t : shows h r = false -> elsewhere q h t (snd (spec at_ now r t))
| elsewhere_lapse ks t : elsewhere q h t (lapse q ks t).

Lemma not_shown_release now g h' t h : ~ shown t h -> ~ shown (release now g h' t) h.
Proof. destruct (release_fields now g h' t) as (_ & Hv & Hq). unfold shown. by rewrite Hv, Hq. Qed.

Lemma not_shown_hide h' t h : ~ shown t h -> ~ shown (hide h' t) h.
Proof.
  intros Hno [Hv | Hq]; apply Hno; [left | by right]. cbn in Hv.
  destruct (decide (h' = h)) as [-> | Hne]; [rewrite lookup_delete_eq in Hv; by destruct Hv |].
  by rewrite lookup_delete_ne in Hv.
Qed.

Lemma not_shown_show h' score t h : h' <> h -> ~ shown t h -> ~ shown (show h' score t) h.
Proof. intros Hne Hno [Hv | Hq]; apply Hno; [left | by right]. cbn in Hv. by rewrite lookup_insert_ne in Hv. Qed.

Lemma not_shown_push h' t h : h' <> h -> ~ shown t h -> ~ shown (set_queue (tk_queue t ++ [h']) t) h.
Proof.
  intros Hne Hno [Hv | Hq]; apply Hno; [by left |]. cbn in Hq. rewrite elem_of_app, list_elem_of_singleton in Hq.
  destruct Hq as [Hq | ->]; [by right | done].
Qed.

Lemma not_shown_requeue now h' rec t h : h' <> h -> ~ shown t h -> ~ shown (requeue now h' rec t) h.
Proof.
  intros Hne Hno. unfold requeue. cbv zeta. set (t1 := release _ _ _ _).
  apply (not_shown_push h' (set_rows _ t1)); [done |]. change (~ shown t1 h). by apply not_shown_release, not_shown_hide.
Qed.

Lemma not_shown_forget now h' rec t h : ~ shown t h -> ~ shown (forget now h' rec t) h.
Proof. intros Hno. unfold forget. apply not_shown_release. change (~ shown (hide h' t) h). by apply not_shown_hide. Qed.

Lemma elsewhere_not_shown q h t t' : elsewhere q h t t' -> ~ shown t h -> ~ shown t' h.
Proof.
  intros [A r at_ now t0 Hr | ks t0] Hno; [| exact Hno].
  destruct r; cbn [spec snd shows] in *; try exact Hno; try (apply bool_decide_eq_false in Hr).
  - by apply not_shown_show.
  - by apply not_shown_show.
  - destruct (live_row now t0 h0); [by apply not_shown_forget | exact Hno].
  - destruct (tk_visible t0 !! h0) as [f|] eqn:Hf; [| exact Hno]. destruct (live_row now t0 h0) as [rec|].
    + destruct (max <=? _); [by apply not_shown_forget |]. apply not_shown_requeue; [| done].
      intros ->. apply Hno. left. by eexists.
    + by apply not_shown_hide.
  - by destruct (holder now t0 g).
  - by apply not_shown_push.
  - destruct (tk_queue t0) as [|h1 l] eqn:Hq; [exact Hno |]. intros [Hv | Hl]; apply Hno; [by left |].
    right. rewrite Hq. by apply elem_of_cons; right.
Qed.

Lemma elsewhere_stays q h t t' : rtc (elsewhere q h) t t' -> ~ shown t h -> ~ shown t' h.
Proof. induction 1; eauto using elsewhere_not_shown. Qed.

(** What is not shown is neither swept nor received. *)
Lemma not_shown_unseen h t :
  ~ shown t h -> (forall at_ now n, h ∉ fst (spec at_ now (RExpired n) t)) /\ forall at_ now, fst (spec at_ now RPop t) <> Some h.
Proof.
  intros Hno. split.
  - intros at_ now n Hin. apply Hno. left. cbn in Hin. apply elem_of_take in Hin as (i & Hi & _).
    apply list_elem_of_lookup_2 in Hi. apply list_elem_of_fmap in Hi as ([m f] & -> & Hm).
    apply elem_of_zset_range in Hm as [Hm _]. by eexists.
  - intros at_ now. cbn. destruct (tk_queue t) as [|h1 l] eqn:Hq; [done |]. cbn. intros [= ->]. apply Hno. right.
    rewrite Hq. by left.
Qed.

(** The pop goes through and the next request does not. *)
Lemma popped_then_lost {R : RedisServer} {RL : RedisLaws R} q v t h l d1 d2 e rest w :
  represents q t (w_redis w) -> tk_queue t = h :: l ->
  w_net w = Event d1 Delivered :: Event d2 (RequestLost e) :: rest ->
  let '(x, w') := handOutRedeliverable q v w in
  (exists e', x = Err e') /\ represents q (set_queue l t) (w_redis w').
Proof.
  intros Hrep Hq Hnet. set (w1 := elapse d1 (set_net (Event d2 (RequestLost e) :: rest) w)).
  assert (Hr1 : w_redis w1 = w_redis w) by done.
  destruct (does_pop q (ms w1) t (w_redis w) Hrep) as (ks & Hrun & Hrep'). rewrite Hq in Hrun, Hrep'. cbn in Hrun, Hrep'.
  unfold handOutRedeliverable. rewrite mbind_run. unfold wrap_err at 1, PopRedeliverable. unfold wrap_err at 1.
  unfold rdo at 1, trip. rewrite Hnet. cbn [ev_wait ev_verdict]. fold w1. unfold redis_run at 1.
  change (UnixMilli (w_clock w1)) with (ms w1). rewrite Hr1, Hrun. cbv beta iota.
  unfold hand_out_handle. rewrite mbind_run. unfold wrap_err at 1, GetInFlight. rewrite mbind_run. unfold wrap_err at 1.
  unfold rdo at 1, trip. cbn. split; [by eexists | exact Hrep'].
Qed.


(** A message that waits to be delivered again. *)
Definition parked_rows : keyspace :=
  put 0 (RedeliverKey "orders") (VList ["rh-1"])
    (<[InFlightKey "orders" "rh-1" := Entry (VHash (hash_set ∅ (inflight_fields sample_record))) (Some 1800000000000)]> ∅).
Definition parked : tracker :=
  set_queue ["rh-1"] (set_rows (<["rh-1" := (sample_record, 1800000000000)]> ∅) empty_tracker).

Lemma parked_represents : represents "orders" parked parked_rows.
Proof.
  assert (Hok : inflight_ok sample_record) by (by vm_compute).
  pose proof (put_row_represents "orders" "rh-1" sample_record 1800000000000 empty_tracker ∅ ∅ (empty_represents "orders") Hok) as H1.
  pose proof (push_represents "orders" 0 "rh-1" _ _ H1) as H2. exact H2.
Qed.

