(* ===== verification/Cycle.v ===== *)
(** Round and round: a message that is received and not acknowledged in time is swept and
    received again, as the requests of [Tracker] have it. *)

From S2P Require Import Prelude GoNum GoStr Topology Json Keys Redis World Schema Store Scripts Tracker Send Receive Sweep Flow.

Local Open Scope Z_scope.

(** The next delivery of a message, as its record has it. *)
Definition delivery (now : Z) (t : tracker) (h : string) : Message :=
  match live_row now t h with
  | Some rec => MkMessage h (if_Body rec) (if_ReceiveCount rec)
  | None => MkMessage h "" 0
  end.

Lemma release_no_group now h t : release now "" h t = t.
Proof. unfold release. by rewrite decide_False by (by intros [? _]). Qed.

Lemma live_row_requeue now h rec t h' :
  live_row now t h = Some rec -> if_GroupID rec = "" ->
  live_row now (requeue now h rec t) h' = if decide (h' = h) then Some (bump_count rec) else live_row now t h'.
Proof.
  intros Hl Hg. unfold requeue. rewrite Hg, release_no_group. unfold live_row in *. cbn. case_decide as E.
  - subst h'. rewrite lookup_alter_eq. destruct (tk_rows t !! h) as [[r d]|]; [| done]. cbn in *. unfold in_time in *.
    cbn in *. by destruct (d <? now).
  - by rewrite lookup_alter_ne.
Qed.

Section Cycle.
Context {R : RedisServer} {RL : RedisLaws R} {SD : Sender} (q : string).

(** The rows of the queue's metadata and shard map are no rows of the tracker. *)
Definition same_tables (ks ks' : keyspace) : Prop :=
  ks' !! QueueMetaKey q = ks !! QueueMetaKey q /\ ks' !! ShardMapKey q = ks !! ShardMapKey q.

(** ** The sweep *)

(** In the index, and to be delivered again. *)
Definition due_again (now max : Z) (t : tracker) (h : string) : Prop :=
  is_Some (tk_visible t !! h) /\
  exists rec, live_row now t h = Some rec /\ if_GroupID rec = "" /\ if_ReceiveCount rec < max.

Lemma reap_again w t h rec max :
  calm w -> represents q t (w_redis w) -> is_Some (tk_visible t !! h) -> live_row (ms w) t h = Some rec ->
  if_ReceiveCount rec < max -> is_i32 max ->
  exists ks, Reap q h max w = (Ok (redeliver_result (if_ReceiveCount rec + 1)), set_redis ks w) /\
    represents q (requeue (ms w) h rec t) ks /\ same_tables (w_redis w) ks.
Proof.
  intros Hcalm Hrep [f Hf] Hlive Hlt Hmax.
  pose proof (serve_calm q (RReap h max) w t Hcalm Hmax Hrep) as H. cbn [spec serve] in H.
  rewrite Hf, Hlive in H. destruct (Z.leb_spec max (if_ReceiveCount rec)); [lia |]. destruct H as (ks & Hrun & Hrep').
  exists ks. split; [exact Hrun |]. split; [exact Hrep' |].
  pose proof (read_row q t _ Hrep (ms w) h) as Hrow. rewrite Hlive in Hrow. destruct Hrow as (Hok & m & Hm & Hst).
  rewrite (Reap_calm_won w Hcalm (rp_typed _ _ _ Hrep) q h max (tk_visible t) m rec (tk_queue t)) in Hrun;
    [| exact (read_visible _ _ _ Hrep _) | by eexists | done | done | done | exact (read_queue _ _ _ Hrep _) | done].
  destruct (Z.leb_spec max (if_ReceiveCount rec)); [lia |]. injection Hrun as <-.
  destruct (reap_redeliver_ks_spec (ms w) q h rec m (tk_queue t) (w_redis w)) as (_ & _ & _ & _ & Hfr).
  split; apply Hfr; rewrite !not_elem_of_cons; split_and!; auto with keys; apply not_elem_of_nil.
Qed.

Lemma sweep_again b meta hs n w t :
  calm w -> represents q t (w_redis w) -> NoDup hs -> is_i32 (qm_MaxReceiveCount meta) ->
  (forall h, h ∈ hs -> due_again (ms w) (qm_MaxReceiveCount meta) t h) ->
  exists ks t', sweep_handles b q meta n hs w = (Ok (n + Z.of_nat (length hs), None), set_redis ks w) /\
    represents q t' ks /\ same_tables (w_redis w) ks /\ tk_queue t' = tk_queue t ++ hs /\
    forall h, live_row (ms w) t' h = if decide (h ∈ hs) then bump_count <$> live_row (ms w) t h else live_row (ms w) t h.
Proof.
  intros Hcalm Hrep Hnd Hmax Hdue. revert n w t Hcalm Hrep Hdue. induction hs as [|h hs IH]; intros n w t Hcalm Hrep Hdue.
  { exists (w_redis w), t. rewrite Z.add_0_r, app_nil_r, set_redis_id. by split_and!. }
  apply NoDup_cons in Hnd as [Hh Hnd]. destruct (Hdue h ltac:(set_solver)) as (Hvis & rec & Hlive & Hg & Hlt).
  destruct (reap_again w t h rec _ Hcalm Hrep Hvis Hlive Hlt Hmax) as (ks & Hrun & Hrep' & Htab).
  set (t1 := requeue (ms w) h rec t) in *.
  assert (Hlive1 : forall h', h' <> h -> live_row (ms w) t1 h' = live_row (ms w) t h').
  { intros h' Hne. unfold t1. by rewrite live_row_requeue, decide_False. }
  assert (Hvis1 : forall h', h' <> h -> tk_visible t1 !! h' = tk_visible t !! h').
  { intros h' Hne. unfold t1, requeue. rewrite Hg, release_no_group. by apply lookup_delete_ne. }
  destruct (IH Hnd (n + 1) (set_redis ks w) t1) as (ks' & t' & Hrun' & Hrep'' & Htab' & Hq & Hall); [done | done | |].
  { intros h' Hh'. assert (h' <> h) by set_solver. unfold due_again. change (ms (set_redis ks w)) with (ms w).
    rewrite Hvis1, Hlive1 by done. apply Hdue. set_solver. }
  exists ks', t'. split_and!.
  - cbn [sweep_handles]. rewrite mbind_run. unfold attempt at 1. rewrite Hrun. cbn [rr_Outcome redeliver_result].
    rewrite Hrun', set_redis_twice. do 3 f_equal. cbn [length]. lia.
  - exact Hrep''.
  - destruct Htab as [H1 H2], Htab' as [H3 H4]. split; [by rewrite H3 | by rewrite H4].
  - rewrite Hq. unfold t1, requeue. rewrite Hg, release_no_group. cbn. by rewrite <- app_assoc.
  - intros h'. change (ms (set_redis ks w)) with (ms w) in Hall. rewrite Hall. destruct (decide (h' = h)) as [-> | Hne].
    + rewrite decide_False, (decide_True (P := h ∈ h :: hs)) by set_solver. unfold t1.
      by rewrite live_row_requeue, decide_True, Hlive.
    + rewrite Hlive1 by done. destruct (decide (h' ∈ hs)), (decide (h' ∈ h :: hs)); set_solver.
Qed.

(** ** The receive *)

Definition ungrouped (now : Z) (t : tracker) (h : string) : Prop :=
  exists rec, live_row now t h = Some rec /\ if_GroupID rec = "".

(** One message off the list. *)
Lemma hand_out_again v h l w t :
  calm w -> represents q t (w_redis w) -> tk_queue t = h :: l -> ungrouped (ms w) t h ->
  exists ks t', handOutRedeliverable q v w = (Ok (Some (delivery (ms w) t h)), set_redis ks w) /\
    represents q t' ks /\ tk_queue t' = l /\ tk_rows t' = tk_rows t.
Proof.
  intros Hcalm Hrep Hq (rec & Hlive & Hg).
  pose proof (serve_calm q RPop w t Hcalm I Hrep) as H. cbn [spec serve] in H. rewrite Hq in H.
  destruct H as (ks1 & Hpop & Hrep1). set (w1 := set_redis ks1 w) in *. set (t1 := set_queue l t) in *.
  pose proof (serve_calm q (RGet h) w1 t1 Hcalm I Hrep1) as H. cbn [spec serve] in H.
  change (live_row (ms w1) t1 h) with (live_row (ms w) t h) in H. rewrite Hlive in H.
  destruct H as (ks2 & Hget & Hrep2). set (w2 := set_redis ks2 w1) in *.
  pose proof (serve_calm q (RExists h) w2 t1 Hcalm I Hrep2) as H. cbn [spec serve] in H.
  change (live_row (ms w2) t1 h) with (live_row (ms w) t h) in H. rewrite Hlive in H.
  destruct H as (ks3 & Hex & Hrep3). set (w3 := set_redis ks3 w2) in *.
  pose proof (serve_calm q (RShow h (w_clock w3 + v)) w3 t1 Hcalm I Hrep3) as H. cbn [spec serve] in H.
  destruct H as (ks4 & Hshow & Hrep4).
  exists ks4. eexists. split; [| split; [exact Hrep4 | done]].
  unfold handOutRedeliverable. rewrite mbind_run. unfold wrap_err at 1. rewrite Hpop.
  unfold hand_out_handle. rewrite mbind_run. unfold wrap_err at 1. rewrite Hget, Hg, bool_decide_eq_true_2 by done.
  rewrite mbind_run. cbn [mret M_ret negb]. rewrite mbind_run. unfold wrap_err at 1, ExtendVisibility. cbv zeta.
  rewrite mbind_run. unfold wrap_err at 1. rewrite Hex. cbn [Z.eqb]. rewrite mbind_run. cbn [Now gets].
  rewrite mbind_run. unfold wrap_err at 1. rewrite Hshow. unfold delivery. by rewrite Hlive.
Qed.

Lemma drain_again v n w t :
  calm w -> represents q t (w_redis w) -> (forall h, h ∈ tk_queue t -> ungrouped (ms w) t h) ->
  exists ks, drain q v n w = (Ok (delivery (ms w) t <$> take n (tk_queue t)), set_redis ks w).
Proof.
  revert w t. induction n as [|n IH]; intros w t Hcalm Hrep Hall.
  { exists (w_redis w). by rewrite set_redis_id. }
  cbn [drain]. rewrite mbind_run. destruct (tk_queue t) as [|h l] eqn:Hq.
  - pose proof (serve_calm q RPop w t Hcalm I Hrep) as H. cbn [spec serve] in H. rewrite Hq in H.
    destruct H as (ks & Hpop & _). exists ks. unfold handOutRedeliverable. rewrite mbind_run. unfold wrap_err.
    by rewrite Hpop.
  - destruct (hand_out_again v h l w t Hcalm Hrep Hq) as (ks & t' & Hrun & Hrep' & Hq' & Hrows); [apply Hall; set_solver |].
    rewrite Hrun. cbv beta iota. rewrite mbind_run.
    assert (Hlive : forall h', live_row (ms w) t' h' = live_row (ms w) t h') by (intros; unfold live_row; by rewrite Hrows).
    destruct (IH (set_redis ks w) t') as (ks' & Hrun'); [done | done | |].
    { intros h' Hh'. unfold ungrouped. change (ms (set_redis ks w)) with (ms w). rewrite Hlive. apply Hall. set_solver. }
    exists ks'. rewrite Hrun', set_redis_twice, Hq'. change (ms (set_redis ks w)) with (ms w).
    assert (Hd : delivery (ms w) t' <$> take n l = delivery (ms w) t <$> take n l).
    { apply list_fmap_ext. intros i h' _. unfold delivery. by rewrite Hlive. }
    by rewrite Hd.
Qed.

(** Either the list fills the answer, or the poll brings nothing more. *)
Definition nothing_fresh (max n : nat) (w : world) : Prop :=
  (max <= n)%nat \/ exists fs, w_fetches w = Fetch 0 [] [] :: fs.

Lemma receive_once_again {U : UUIDSource} meta topics v interval max w t :
  calm w -> represents q t (w_redis w) -> (forall h, h ∈ tk_queue t -> ungrouped (ms w) t h) -> 0 <= interval ->
  nothing_fresh max (length (tk_queue t)) w ->
  exists w', receive_once meta q topics v interval max w = (Ok (delivery (ms w) t <$> take max (tk_queue t)), w').
Proof.
  intros Hcalm Hrep Hall Hint Hfresh. destruct (drain_again v max w t Hcalm Hrep Hall) as (ks & Hdrain).
  unfold receive_once. rewrite mbind_run, Hdrain. rewrite length_fmap, length_take.
  destruct (Nat.ltb_spec (max `min` length (tk_queue t)) max); [| by eexists].
  destruct Hfresh as [Hle | [fs Hf]]; [lia |]. rewrite mbind_run. unfold attempt, Poll. rewrite mbind_run.
  unfold PollFetches. cbn [w_fetches set_redis]. rewrite Hf. cbn [f_errors f_records f_wait].
  rewrite Z.min_l, elapse_0 by lia. cbn [mret M_ret]. rewrite mbind_run. cbn [ctx_Err gets]. rewrite mbind_run.
  cbn [hand_out_records mret M_ret]. eexists. rewrite app_nil_r. reflexivity.
Qed.
Lemma ReceiveMessage_again {U : UUIDSource} interval inp s w t meta shards :
  calm w -> represents q t (w_redis w) -> serves w q meta shards -> shards <> [] ->
  ri_QueueName inp = q -> effective_visibility meta inp = s * Second ->
  (forall h, h ∈ tk_queue t -> ungrouped (ms w) t h) -> (0 < length (tk_queue t))%nat ->
  nothing_fresh (effective_max inp) (length (tk_queue t)) w ->
  exists w', ReceiveMessage interval inp w =
    (Ok (delivery (ms w) t <$> take (effective_max inp) (tk_queue t)), w').
Proof.
  intros Hcalm Hrep [(hm & Hhm & Hhne & Hmeta) (str & Hstr & Hu)] Hne Hinp Hvis Hall Hlen Hfresh.
  pose proof (effective_interval_pos interval) as Hint.
  destruct (receive_once_again meta (consumed_topics shards) (s * Second) (effective_interval interval)
              (effective_max inp) w t Hcalm Hrep Hall ltac:(lia) Hfresh) as (w' & Honce).
  exists w'. unfold ReceiveMessage. rewrite Hinp. cbv zeta. rewrite mbind_run. unfold wrap_err at 1.
  rewrite (GetQueueMeta_calm w Hcalm q hm Hhm), decide_False, Hmeta, Hvis by done.
  rewrite mbind_run. unfold ConsumableShards. rewrite mbind_run.
  rewrite (router_shards_calm w Hcalm q str shards Hstr Hu Hne). cbn [mret M_ret]. rewrite mbind_run.
  cbn [Now gets]. unfold fueled, receive_fuel. cbn [receive_loop]. fold (consumed_topics shards). rewrite Honce.
  rewrite length_fmap, length_take. pose proof (effective_max_range inp).
  by destruct (Nat.ltb_spec 0 (effective_max inp `min` length (tk_queue t))); [| lia].
Qed.

Lemma Sweep_again b w t meta shards :
  calm w -> represents q t (w_redis w) -> serves w q meta shards -> is_i32 (qm_MaxReceiveCount meta) ->
  let due := (zset_range (tk_visible t) 0 (ms w)).*1 in
  (length due <= sweepBatchSize)%nat -> (forall h, h ∈ due -> due_again (ms w) (qm_MaxReceiveCount meta) t h) ->
  exists ks t1, Sweep b q w = (Ok (Z.of_nat (length due), None), set_redis ks w) /\
    represents q t1 ks /\ serves (set_redis ks w) q meta shards /\ tk_queue t1 = tk_queue t ++ due /\
    forall h, h ∈ due -> live_row (ms w) t1 h = bump_count <$> live_row (ms w) t h.
Proof.
  intros Hcalm Hrep [(hm & Hhm & Hhne & Hmeta) Hmap] Hmax due Hlen Hdue.
  destruct (sweep_again b meta due 0 w t Hcalm Hrep (zset_range_NoDup _ _ _) Hmax Hdue)
    as (ks & t1 & Hrun & Hrep1 & [Hk1 Hk2] & Hq1 & Hlive1).
  exists ks, t1. split_and!; [| done | | done | intros h Hh; by rewrite Hlive1, decide_True].
  - unfold Sweep. cbv zeta. rewrite mbind_run. unfold attempt at 1.
    rewrite (GetQueueMeta_calm w Hcalm q hm Hhm), decide_False, Hmeta by done. rewrite mbind_run. unfold attempt.
    rewrite (ExpiredVisIndexEntries_calm w Hcalm q sweepBatchSize _ (read_visible _ _ _ Hrep _)).
    rewrite take_ge by exact Hlen. exact Hrun.
  - unfold serves. change (ms (set_redis ks w)) with (ms w). cbn [w_redis set_redis].
    rewrite (hash_at_lookup_eq _ _ _ _ Hk1), (str_at_lookup_eq _ _ _ _ Hk2). split; [by exists hm | exact Hmap].
Qed.
End Cycle.

(** C16. A message that is not acknowledged in time is received again.  When at most a batch of
    messages of a standard queue has run out of its visibility, none of them past the
    maximum, a sweep counts them, and the receive that follows returns them in the order
    in which they ran out, as many as were asked for: each under the same handle, with
    its body, and with its receive count one higher. *)
Theorem expired_redelivered {R : RedisServer} {RL : RedisLaws R} {SD : Sender} {U : UUIDSource}
    b q w t meta shards inp interval s :
  calm w -> represents q t (w_redis w) -> serves w q meta shards -> shards <> [] ->
  is_i32 (qm_MaxReceiveCount meta) -> ri_QueueName inp = q -> effective_visibility meta inp = s * Second ->
  let due := (zset_range (tk_visible t) 0 (ms w)).*1 in
  tk_queue t = [] -> (0 < length due <= sweepBatchSize)%nat ->
  (forall h, h ∈ due -> due_again (ms w) (qm_MaxReceiveCount meta) t h) ->
  nothing_fresh (effective_max inp) (length due) w ->
  exists w1 w2, Sweep b q w = (Ok (Z.of_nat (length due), None), w1) /\
    ReceiveMessage interval inp w1 =
      (Ok ((fun h => let m := delivery (ms w) t h in MkMessage h (msg_Body m) (msg_ReceiveCount m + 1))
           <$> take (effective_max inp) due), w2).
Proof.
  intros Hcalm Hrep Hserves Hne Hmax Hinp Hvis due Hq Hlen Hdue Hfresh.
  destruct (Sweep_again q b w t meta shards Hcalm Hrep Hserves Hmax) as (ks & t1 & Hrun & Hrep1 & Hserves1 & Hq1 & Hlive1);
    [exact (proj2 Hlen) | exact Hdue |]. rewrite Hq in Hq1. cbn in Hq1. fold due in Hrun, Hq1, Hlive1.
  destruct (ReceiveMessage_again q interval inp s (set_redis ks w) t1 meta shards) as (w2 & Hrecv);
    rewrite ?Hq1 in *; [done .. | | lia | done |].
  { intros h Hh. destruct (Hdue h Hh) as (_ & rec & Hl & Hg & _). exists (bump_count rec).
    change (ms (set_redis ks w)) with (ms w). by rewrite Hlive1, Hl. }
  exists (set_redis ks w), w2. split; [exact Hrun |]. rewrite Hrecv. change (ms (set_redis ks w)) with (ms w).
  do 2 f_equal. apply list_fmap_ext. intros i h Hi. apply list_elem_of_lookup_2, elem_of_take in Hi as (j & Hj & _).
  apply list_elem_of_lookup_2 in Hj. destruct (Hdue h Hj) as (_ & rec & Hl & _).
  unfold delivery. by rewrite Hlive1, Hl.
Qed.

(** A message received from the queue [mail], and left alone for a minute. *)
Definition mail_record : InFlightRecord := MkInFlight "0" mail_topic 1 0 "" "" 1 "first".
Definition mail_tracker : tracker := snd (spec (w_clock mail_world) (ms mail_world) (RPut "rh" mail_record 30) empty_tracker).
Definition mail_late : world := elapse (40 * Second) (snd (serve "mail" (RPut "rh" mail_record 30) mail_world)).

Lemma mail_world_represents : represents "mail" empty_tracker (w_redis mail_world).
Proof.
  assert (Hrows : exists v1 v2, w_redis mail_world =
    <[ShardMapKey "mail" := v1]> (<[QueueMetaKey "mail" := v2]> ∅)) by (exists (Entry (VStr (Marshal mail_shards)) None),
      (Entry (VHash (hash_set ∅ (meta_fields mail_meta (qm_CreatedAt mail_meta)))) None); vm_decide).
  destruct Hrows as (v1 & v2 & Hrows). pose proof mail_world_typed as Hty. unfold typed in Hty. rewrite Hrows in *.
  assert (Hty0 : well_typed (<[QueueMetaKey "mail" := v2]> ∅)).
  { intros k e f [[<- <-] | [_ H]]%lookup_insert_Some Hf; [| by rewrite lookup_empty in H].
    apply (Hty (QueueMetaKey "mail")); [| done]. rewrite lookup_insert_ne, lookup_insert_eq by auto with keys. done. }
  apply (represents_beside "mail" _ (<[QueueMetaKey "mail" := v2]> ∅) _ FShardMap); [| done | set_solver |].
  - apply (represents_beside "mail" _ ∅ _ FQueueMeta); [apply empty_represents | done | set_solver |].
    intros k g Hg Hne. apply lookup_insert_ne. eapply of_family_ne; [apply QueueMetaKey_family | exact Hg | done].
  - intros k g Hg Hne. apply lookup_insert_ne. eapply of_family_ne; [apply ShardMapKey_family | exact Hg | done].
Qed.

Lemma mail_late_serves : serves mail_late "mail" mail_meta mail_shards.
Proof.
  split.
  - exists (hash_set ∅ (meta_fields mail_meta (qm_CreatedAt mail_meta))).
    split_and!; [vm_decide | apply hash_set_nonempty | vm_decide].
  - exists (Marshal mail_shards). split; [vm_decide |].
    apply Unmarshal_Marshal_list. apply Forall_singleton. by vm_compute.
Qed.

Lemma mail_late_represents : represents "mail" mail_tracker (w_redis mail_late).
Proof.
  pose proof (serve_calm "mail" (RPut "rh" mail_record 30) mail_world empty_tracker eq_refl
    ltac:(by vm_compute) mail_world_represents) as H.
  unfold mail_tracker, mail_late. destruct (spec _ _ _ _) as [a t]. destruct H as (ks & Hrun & Hrep). by rewrite Hrun.
Qed.

Lemma mail_due : (zset_range (tk_visible mail_tracker) 0 (ms mail_late)).*1 = ["rh"].
Proof. by vm_compute. Qed.

Lemma mail_due_again h :
  h ∈ (zset_range (tk_visible mail_tracker) 0 (ms mail_late)).*1 -> due_again (ms mail_late) 5 mail_tracker h.
Proof.
  rewrite mail_due. intros ->%list_elem_of_singleton. split; [vm_decide |]. exists mail_record.
  split; [by vm_compute | by vm_compute].
Qed.

Lemma expired_redelivered_witness :
  exists w1 w2, Sweep true "mail" mail_late = (Ok (1, None), w1) /\
    ReceiveMessage 0 (MkReceiveInput "mail" 1 0 0) w1 = (Ok [MkMessage "rh" "first" 2], w2).
Proof.
  pose proof (expired_redelivered true "mail" mail_late mail_tracker mail_meta mail_shards (MkReceiveInput "mail" 1 0 0) 0 30
    eq_refl mail_late_represents mail_late_serves ltac:(discriminate) ltac:(by vm_compute) eq_refl eq_refl eq_refl) as H.
  cbv zeta in H. rewrite mail_due in H. destruct H as (w1 & w2 & Hsweep & Hrecv).
  - cbn. unfold sweepBatchSize. lia.
  - intros h Hh. apply mail_due_again. by rewrite mail_due.
  - left. apply le_n.
  - exists w1, w2. split; [exact Hsweep |]. rewrite Hrecv. do 2 f_equal.
Defined.
