(* ===== verification/Admin.v ===== *)
(** [internal/kafka/admin.go]: the topic conventions and offset sums the operator uses.
    [kadm], the administration client, is a parameter with laws; the operator is
    written against the interface [TopicAdmin] of [internal/operator/admin.go], which
    this component implements. *)

From S2P Require Import Prelude GoNum GoStr Redis World.

Local Open Scope Z_scope.

(** ** The administration client *)

Record OffsetResponse : Type := MkOffset { or_err : option error; or_Offset : Z }.

(** A topic's description: its own error, and the replicas of each partition. *)
Record TopicDetail : Type := MkTopicDetail {
  td_Err : option error;
  td_Replicas : list (list Z)
}.

(** A group's lag: the group's error, and the lag by topic. *)
Record GroupLag : Type := MkGroupLag {
  gl_Err : option error;
  gl_TotalByTopic : gmap string Z
}.

(** Requests on one topic; a response carries one error per topic it answers for. *)
Class KadmServer : Type := {
  kadm_create : Z -> Z -> gmap string string -> string -> M kafka (list (option error));
  kadm_delete : string -> M kafka (list (option error));
  kadm_list_topics : string -> M kafka (gmap string TopicDetail);
  kadm_list_end_offsets : string -> M kafka (list (list OffsetResponse));
  kadm_lag : string -> M kafka (gmap string GroupLag)
}.

Definition TOPIC_ALREADY_EXISTS : string := "TOPIC_ALREADY_EXISTS".
Definition UNKNOWN_TOPIC_OR_PARTITION : string := "UNKNOWN_TOPIC_OR_PARTITION".

Definition set_topics (ts : gmap string TopicConfig) (st : kafka) : kafka :=
  Kafka ts (k_log st) (k_commits st).

(** ** The code *)

(** [err.Error()[:len(code)] == code], guarded by the length: a prefix test. *)
Definition containsCode (err : error) (code : string) : bool :=
  bool_decide (err_msg err = code) || HasPrefix (err_msg err) code.

Definition isTopicExistsErr (err : error) : bool :=
  bool_decide (err_msg err = TOPIC_ALREADY_EXISTS) || containsCode err TOPIC_ALREADY_EXISTS.

Definition isUnknownTopicErr (err : error) : bool := containsCode err UNKNOWN_TOPIC_OR_PARTITION.

(** The first error of a response that [ignore] does not excuse. *)
Fixpoint response_error (ignore : error -> bool) (resp : list (option error)) : option error :=
  match resp with
  | [] => None
  | Some e :: rest => if ignore e then response_error ignore rest else Some e
  | None :: rest => response_error ignore rest
  end.

(** [seen]/[ids] of [ReplicaBrokerIDs]: the first occurrence of each id, in order. *)
Fixpoint dedup_ids (seen : gset Z) (ids : list Z) : list Z :=
  match ids with
  | [] => []
  | id :: rest => if decide (id ∈ seen) then dedup_ids seen rest else id :: dedup_ids ({[id]} ∪ seen) rest
  end.

(** [sum += o.Offset] over the partitions without an error, in [int64]. *)
Definition sum_offsets (offsets : list (list OffsetResponse)) : Z :=
  foldl (fun sum o => match or_err o with Some _ => sum | None => i64 (sum + or_Offset o) end)
    0 (concat offsets).

Section Ops.
Context {KA : KadmServer}.

Definition topic_configs (cfg : TopicConfig) : gmap string string :=
  <["retention.ms" := FormatInt (i64 (tc_RetentionSeconds cfg * 1000))]>
    (<["cleanup.policy" := "delete"]>
       (<["min.insync.replicas" := FormatInt (tc_MinInsyncReplicas cfg)]> ∅)).

Definition CreateTopic (topic : string) (cfg : TopicConfig) : M world unit :=
  let prefix := "create topic " +:+ quote topic +:+ ": " in
  resp ← wrap_err prefix
           (kdo (kadm_create (tc_PartitionCount cfg) (tc_ReplicationFactor cfg) (topic_configs cfg) topic));
  match response_error isTopicExistsErr resp with
  | Some e => fail (ErrWrap prefix e)
  | None => mret tt
  end.

Definition DeleteTopic (topic : string) : M world unit :=
  let prefix := "delete topic " +:+ quote topic +:+ ": " in
  resp ← wrap_err prefix (kdo (kadm_delete topic));
  match response_error isUnknownTopicErr resp with
  | Some e => fail (ErrWrap prefix e)
  | None => mret tt
  end.

Definition DescribeTopic (topic : string) : M world (option Z) :=
  td ← wrap_err ("describe topic " +:+ quote topic +:+ ": ") (kdo (kadm_list_topics topic));
  match td !! topic with
  | Some (MkTopicDetail None parts) => mret (Some (i32 (Z.of_nat (length parts))))
  | _ => mret None
  end.

Definition ReplicaBrokerIDs (topic : string) : M world (list Z) :=
  td ← wrap_err ("list topics " +:+ quote topic +:+ ": ") (kdo (kadm_list_topics topic));
  match td !! topic with
  | Some (MkTopicDetail None parts) => mret (dedup_ids ∅ (concat parts))
  | _ => mret []
  end.

Definition LogEndOffsetSum (topic : string) : M world Z :=
  offsets ← wrap_err ("list end offsets " +:+ quote topic +:+ ": ") (kdo (kadm_list_end_offsets topic));
  mret (sum_offsets offsets).

Definition ConsumerLag (group topic : string) : M world Z :=
  lags ← wrap_err ("lag for group " +:+ quote group +:+ ": ") (kdo (kadm_lag group));
  match lags !! group with
  | Some (MkGroupLag None totals) => mret (default 0 (totals !! topic))
  | _ => mret 0
  end.
End Ops.

(** ** The interface of the operator

    [TopicAdmin]: what [QueueReconciler] asks of Kafka. *)
Class TopicAdmin : Type := {
  create_topic : string -> TopicConfig -> M world unit;
  delete_topic : string -> M world unit;
  log_end_offset_sum : string -> M world Z;
  consumer_lag : string -> string -> M world Z;
  replica_broker_ids : string -> M world (list Z)
}.

#[export] Instance kafka_Admin {KA : KadmServer} : TopicAdmin := {
  create_topic := CreateTopic;
  delete_topic := DeleteTopic;
  log_end_offset_sum := LogEndOffsetSum;
  consumer_lag := ConsumerLag;
  replica_broker_ids := ReplicaBrokerIDs
}.

(** What an implementation promises: it reaches Kafka only; a successful create leaves
    the topic in place and a successful delete leaves it absent; no other topic is
    touched, and the reads change nothing. *)
Class TopicAdminLaws (TA : TopicAdmin) : Prop := {
  create_topic_exists t cfg w w' :
    create_topic t cfg w = (Ok tt, w') -> is_Some (k_topics (w_kafka w') !! t);
  create_topic_others t cfg t' w :
    t' <> t -> k_topics (w_kafka (snd (create_topic t cfg w))) !! t' = k_topics (w_kafka w) !! t';
  create_topic_keeps t cfg w :
    is_Some (k_topics (w_kafka w) !! t) -> is_Some (k_topics (w_kafka (snd (create_topic t cfg w))) !! t);
  delete_topic_absent t w w' :
    delete_topic t w = (Ok tt, w') -> k_topics (w_kafka w') !! t = None;
  delete_topic_others t t' w :
    t' <> t -> k_topics (w_kafka (snd (delete_topic t w))) !! t' = k_topics (w_kafka w) !! t';
  admin_reads_kafka t g w :
    w_kafka (snd (log_end_offset_sum t w)) = w_kafka w /\
    w_kafka (snd (consumer_lag g t w)) = w_kafka w /\
    w_kafka (snd (replica_broker_ids t w)) = w_kafka w;
  admin_redis t g cfg ks :
    preserves (fun w => w_redis w = ks) (create_topic t cfg) /\
    preserves (fun w => w_redis w = ks) (delete_topic t) /\
    preserves (fun w => w_redis w = ks) (log_end_offset_sum t) /\
    preserves (fun w => w_redis w = ks) (consumer_lag g t) /\
    preserves (fun w => w_redis w = ks) (replica_broker_ids t);
  admin_ambient t g cfg P : Ambient P ->
    preserves P (create_topic t cfg) /\ preserves P (delete_topic t) /\
    preserves P (log_end_offset_sum t) /\ preserves P (consumer_lag g t) /\
    preserves P (replica_broker_ids t)
}.

(** What the client's documentation promises of the cluster. *)
Class KadmLaws (KA : KadmServer) : Prop := {
  law_create pc rf cfgs t st :
    match kadm_create pc rf cfgs t st with
    | (Ok resp, st') =>
      exists r, resp = [r] /\
        match r with
        | None => exists c, tc_PartitionCount c = pc /\ st' = set_topics (<[t := c]> (k_topics st)) st /\
                    k_topics st !! t = None
        | Some e => st' = st /\ (isTopicExistsErr e = true -> is_Some (k_topics st !! t))
        end
    | (Err _, st') => st' = st
    end;
  law_delete t st :
    match kadm_delete t st with
    | (Ok resp, st') =>
      exists r, resp = [r] /\
        match r with
        | None => st' = set_topics (delete t (k_topics st)) st
        | Some e => st' = st /\ (isUnknownTopicErr e = true -> k_topics st !! t = None)
        end
    | (Err _, st') => st' = st
    end;
  law_list_topics t st : snd (kadm_list_topics t st) = st;
  law_list_end_offsets t st : snd (kadm_list_end_offsets t st) = st;
  law_lag g st : snd (kadm_lag g st) = st
}.

(** ** The implementation discharges the interface *)

Lemma kdo_cases {A} (c : M kafka A) w r w' :
  kdo c w = (r, w') ->
  c (w_kafka w) = (r, w_kafka w') \/
  exists e, r = Err e /\ (w_kafka w' = w_kafka w \/ w_kafka w' = snd (c (w_kafka w))).
Proof.
  unfold kdo, trip, kafka_run. destruct (w_net w) as [|[d [ | e | e]] evs]; cbn [ev_verdict ev_wait];
    try (destruct (c _) as [r0 k] eqn:E); intros [= <- <-]; cbn in *; rewrite ?E; cbn; eauto 10.
Qed.

Lemma kdo_redis {A} (c : M kafka A) ks : preserves (fun w => w_redis w = ks) (kdo c).
Proof. apply preserves_trip; [done | done |]. intros w Hw. unfold kafka_run. by destruct (c _). Qed.

Lemma response_error_one ignore r :
  response_error ignore [r] = match r with Some e => if ignore e then None else Some e | None => None end.
Proof. destruct r as [e|]; simpl; by try destruct (ignore e). Qed.

Section Discharge.
Context {KA : KadmServer} {KL : KadmLaws KA}.

(** What a create request can do to the topics, whatever its outcome. *)
Lemma kadm_create_topics pc rf cfgs t st :
  k_topics (snd (kadm_create pc rf cfgs t st)) = k_topics st \/
  exists c, k_topics st !! t = None /\ k_topics (snd (kadm_create pc rf cfgs t st)) = <[t := c]> (k_topics st).
Proof.
  pose proof (law_create pc rf cfgs t st) as H.
  destruct (kadm_create pc rf cfgs t st) as [[resp|e] st']; simpl; [| left; congruence].
  destruct H as ([e|] & -> & H); [left; by destruct H as [-> _] |].
  destruct H as (c & _ & -> & Hn). right. by exists c.
Qed.

Lemma kadm_delete_topics t st :
  k_topics (snd (kadm_delete t st)) = k_topics st \/
  k_topics (snd (kadm_delete t st)) = delete t (k_topics st).
Proof.
  pose proof (law_delete t st) as H. destruct (kadm_delete t st) as [[resp|e] st']; simpl;
    [| left; congruence].
  destruct H as ([e|] & -> & H); [left; by destruct H as [-> _] | right; by rewrite H].
Qed.

(** The world's topics after a request are those the server would leave, or unchanged. *)
Lemma kdo_topics {A} (c : M kafka A) w :
  k_topics (w_kafka (snd (kdo c w))) = k_topics (w_kafka w) \/
  k_topics (w_kafka (snd (kdo c w))) = k_topics (snd (c (w_kafka w))).
Proof.
  destruct (kdo c w) as [r w'] eqn:E. apply kdo_cases in E as [E | (e & _ & [E | E])]; simpl.
  - right. by rewrite E.
  - left. by rewrite E.
  - right. by rewrite E.
Qed.

(** The two ways [CreateTopic] and [DeleteTopic] wrap one request. *)
Lemma CreateTopic_world t cfg w :
  snd (CreateTopic t cfg w) =
  snd (kdo (kadm_create (tc_PartitionCount cfg) (tc_ReplicationFactor cfg) (topic_configs cfg) t) w).
Proof.
  unfold CreateTopic. cbv zeta. rewrite mbind_run. unfold wrap_err.
  destruct (kdo _ w) as [[resp|e] w']; [| done]. by destruct (response_error _ resp).
Qed.

Lemma DeleteTopic_world t w : snd (DeleteTopic t w) = snd (kdo (kadm_delete t) w).
Proof.
  unfold DeleteTopic. cbv zeta. rewrite mbind_run. unfold wrap_err.
  destruct (kdo _ w) as [[resp|e] w']; [| done]. by destruct (response_error _ resp).
Qed.

Lemma CreateTopic_ok t cfg w w' :
  CreateTopic t cfg w = (Ok tt, w') -> is_Some (k_topics (w_kafka w') !! t).
Proof.
  unfold CreateTopic. cbv zeta. rewrite mbind_run. unfold wrap_err.
  destruct (kdo _ w) as [[resp|e] w1] eqn:E; [| done].
  apply kdo_cases in E as [E | (e & ? & _)]; [| done].
  pose proof (law_create (tc_PartitionCount cfg) (tc_ReplicationFactor cfg) (topic_configs cfg) t (w_kafka w)) as H.
  rewrite E in H. destruct H as (r & -> & H). rewrite response_error_one. destruct r as [e|].
  - destruct (isTopicExistsErr e) eqn:Ee; [| done]. intros [= <-]. destruct H as [-> H]. auto.
  - intros [= <-]. destruct H as (c & _ & -> & _). simpl. rewrite lookup_insert_eq. by eexists.
Qed.

Lemma DeleteTopic_ok t w w' :
  DeleteTopic t w = (Ok tt, w') -> k_topics (w_kafka w') !! t = None.
Proof.
  unfold DeleteTopic. cbv zeta. rewrite mbind_run. unfold wrap_err.
  destruct (kdo _ w) as [[resp|e] w1] eqn:E; [| done].
  apply kdo_cases in E as [E | (e & ? & _)]; [| done].
  pose proof (law_delete t (w_kafka w)) as H.
  rewrite E in H. destruct H as (r & -> & H). rewrite response_error_one. destruct r as [e|].
  - destruct (isUnknownTopicErr e) eqn:Ee; [| done]. intros [= <-]. destruct H as [-> H]. auto.
  - intros [= <-]. rewrite H. simpl. apply lookup_delete_eq.
Qed.

(** A request that only reads. *)
Lemma kdo_read {A} (c : M kafka A) w :
  (forall st, snd (c st) = st) -> w_kafka (snd (kdo c w)) = w_kafka w.
Proof.
  intros Hc. destruct (kdo c w) as [r w'] eqn:E. simpl.
  apply kdo_cases in E as [E | (e & _ & [E | E])]; [| done |].
  - pose proof (Hc (w_kafka w)) as H. by rewrite E in H.
  - by rewrite E, Hc.
Qed.

Lemma read_world {A B} p (c : M kafka A) (f : A -> M world B) w :
  (forall st, snd (c st) = st) -> (forall a w, snd (f a w) = w) ->
  w_kafka (snd ((a ← wrap_err p (kdo c); f a) w)) = w_kafka w.
Proof.
  intros Hc Hf. pose proof (kdo_read c w Hc) as H. rewrite mbind_run. unfold wrap_err.
  destruct (kdo c w) as [[a|e] w']; simpl in *; [by rewrite Hf | done].
Qed.

#[export] Instance kafka_Admin_laws : TopicAdminLaws kafka_Admin.
Proof.
  split; simpl.
  - apply CreateTopic_ok.
  - intros t cfg t' w Hne. rewrite CreateTopic_world.
    destruct (kdo_topics (kadm_create (tc_PartitionCount cfg) (tc_ReplicationFactor cfg) (topic_configs cfg) t) w)
      as [-> | ->]; [done |].
    destruct (kadm_create_topics (tc_PartitionCount cfg) (tc_ReplicationFactor cfg) (topic_configs cfg) t (w_kafka w))
      as [-> | (c & _ & ->)]; [done | by rewrite lookup_insert_ne].
  - intros t cfg w Hs. rewrite CreateTopic_world.
    destruct (kdo_topics (kadm_create (tc_PartitionCount cfg) (tc_ReplicationFactor cfg) (topic_configs cfg) t) w)
      as [-> | ->]; [done |].
    destruct (kadm_create_topics (tc_PartitionCount cfg) (tc_ReplicationFactor cfg) (topic_configs cfg) t (w_kafka w))
      as [-> | (c & _ & ->)]; [done | by rewrite lookup_insert_eq].
  - apply DeleteTopic_ok.
  - intros t t' w Hne. rewrite DeleteTopic_world.
    destruct (kdo_topics (kadm_delete t) w) as [-> | ->]; [done |].
    destruct (kadm_delete_topics t (w_kafka w)) as [-> | ->]; [done | by rewrite lookup_delete_ne].
  - intros t g w. split_and!; apply read_world;
      try (intros st; first [apply law_list_end_offsets | apply law_lag | apply law_list_topics]);
      intros a w'; repeat case_match; done.
  - intros t g cfg ks.
    split_and!; unfold CreateTopic, DeleteTopic, LogEndOffsetSum, ConsumerLag, ReplicaBrokerIDs; cbv zeta;
      repeat world_step; apply kdo_redis.
  - intros t g cfg P HP.
    split_and!; unfold CreateTopic, DeleteTopic, LogEndOffsetSum, ConsumerLag, ReplicaBrokerIDs; cbv zeta;
      solve_clock.
Qed.
End Discharge.

(** ** A concrete client over the cluster of [World] *)

Definition partitions_of (st : kafka) (t : string) : list Z :=
  match k_topics st !! t with Some c => seqZ 0 (tc_PartitionCount c) | None => [] end.

Definition log_size (st : kafka) (t : string) (p : Z) : Z := Z.of_nat (length (partition_log st t p)).

Definition topic_lag (st : kafka) (g t : string) : Z :=
  foldl Z.add 0 ((fun p => log_size st t p - default 0 (k_commits st !! (g, t, p))) <$> partitions_of st t).

#[export] Instance MemKadm : KadmServer := {
  kadm_create pc rf cfgs t st :=
    match k_topics st !! t with
    | Some _ => (Ok [Some (ErrText TOPIC_ALREADY_EXISTS)], st)
    | None =>
      let field f := default 0 (parse_dec (default "" (cfgs !! f))) in
      (Ok [None], set_topics (<[t := MkTopicConfig pc rf (field "retention.ms" / 1000)
                                      (field "min.insync.replicas")]> (k_topics st)) st)
    end;
  kadm_delete t st :=
    match k_topics st !! t with
    | Some _ => (Ok [None], set_topics (delete t (k_topics st)) st)
    | None => (Ok [Some (ErrText UNKNOWN_TOPIC_OR_PARTITION)], st)
    end;
  kadm_list_topics t st :=
    (Ok (match k_topics st !! t with
         | Some c => {[t := MkTopicDetail None ((fun p => [p mod 3]) <$> partitions_of st t)]}
         | None => ∅
         end), st);
  kadm_list_end_offsets t st :=
    (Ok [(fun p => MkOffset None (log_size st t p)) <$> partitions_of st t], st);
  kadm_lag g st :=
    (Ok {[g := MkGroupLag None (map_imap (fun t _ => Some (topic_lag st g t)) (k_topics st))]}, st)
}.

#[export] Instance MemKadm_laws : KadmLaws MemKadm.
Proof.
  split; intros; simpl; try done.
  - destruct (k_topics st !! t) eqn:E; eexists; (split; [reflexivity |]); simpl;
      [split; [done | intros _; by eexists] | eexists; split_and!; [| reflexivity | done]; done].
  - destruct (k_topics st !! t) eqn:E; eexists; (split; [reflexivity |]); done.
Qed.

(** ** Properties *)

Lemma dedup_ids_seen seen ids x : x ∈ dedup_ids seen ids <-> x ∈ ids /\ x ∉ seen.
Proof.
  revert seen. induction ids as [|id ids IH]; intros seen; simpl; [set_solver |].
  case_decide; [rewrite IH; set_solver |]. rewrite elem_of_cons, IH. set_unfold.
  destruct (decide (x = id)); naive_solver.
Qed.

(** [ReplicaBrokerIDs] reports each broker that holds a replica of some partition,
    once, in order of first appearance. *)
Theorem dedup_ids_spec ids :
  NoDup (dedup_ids ∅ ids) /\ (forall x, x ∈ dedup_ids ∅ ids <-> x ∈ ids) /\
  dedup_ids ∅ ids `sublist_of` ids.
Proof.
  split_and!.
  - generalize (∅ : gset Z) as seen. induction ids as [|id ids IH]; intros seen; simpl; [constructor |].
    case_decide; [apply IH |]. constructor; [| apply IH]. rewrite dedup_ids_seen. set_solver.
  - intros x. rewrite dedup_ids_seen. set_solver.
  - generalize (∅ : gset Z) as seen. induction ids as [|id ids IH]; intros seen; simpl; [constructor |].
    case_decide; [by apply sublist_cons | by apply sublist_skip].
Qed.

(** Creating a topic succeeds only if the topic is then there, deleting one only if it
    is gone, and neither touches another topic nor any log, whatever the network does;
    the two answers "already exists" and "unknown topic" count as success. *)
Theorem CreateTopic_DeleteTopic_spec {KA : KadmServer} {KL : KadmLaws KA} t cfg w :
  let '(rc, wc) := CreateTopic t cfg w in
  let '(rd, wd) := DeleteTopic t w in
  (rc = Ok tt -> is_Some (k_topics (w_kafka wc) !! t)) /\
  (rd = Ok tt -> k_topics (w_kafka wd) !! t = None) /\
  (forall t', t' <> t -> k_topics (w_kafka wc) !! t' = k_topics (w_kafka w) !! t' /\
                         k_topics (w_kafka wd) !! t' = k_topics (w_kafka w) !! t').
Proof.
  destruct (CreateTopic t cfg w) as [rc wc] eqn:Ec. destruct (DeleteTopic t w) as [rd wd] eqn:Ed.
  split_and!.
  - intros ->. by apply (CreateTopic_ok t cfg w).
  - intros ->. by apply (DeleteTopic_ok t w).
  - intros t' Hne. pose proof (create_topic_others t cfg t' w Hne) as H1.
    pose proof (delete_topic_others t t' w Hne) as H2. simpl in H1, H2. by rewrite Ec, Ed in *.
Qed.

(** The lag of a group the broker reports an error for reads as zero, like that of a
    group with nothing left to read. *)
Theorem ConsumerLag_masks_errors {KA : KadmServer} g t w lags e totals w' :
  kdo (kadm_lag g) w = (Ok lags, w') -> lags !! g = Some (MkGroupLag (Some e) totals) ->
  ConsumerLag g t w = (Ok 0, w').
Proof.
  intros Hrun Hg. unfold ConsumerLag. rewrite mbind_run. unfold wrap_err. by rewrite Hrun, Hg.
Qed.

(** A client whose group description always fails. *)
Definition BrokenGroups : KadmServer :=
  {| kadm_create := kadm_create; kadm_delete := kadm_delete; kadm_list_topics := kadm_list_topics;
     kadm_list_end_offsets := kadm_list_end_offsets;
     kadm_lag g st := (Ok {[g := MkGroupLag (Some (ErrText "COORDINATOR_NOT_AVAILABLE")) ∅]}, st) |}.

Lemma ConsumerLag_masks_errors_witness :
  ConsumerLag (KA := BrokenGroups) "kmsvc-consumer-orders" "kmsvc.orders.shard-0" world0 = (Ok 0, world0).
Proof.
  by apply (ConsumerLag_masks_errors (KA := BrokenGroups) "kmsvc-consumer-orders" "kmsvc.orders.shard-0" world0
    {["kmsvc-consumer-orders" := MkGroupLag (Some (ErrText "COORDINATOR_NOT_AVAILABLE")) ∅]}
    (ErrText "COORDINATOR_NOT_AVAILABLE") ∅ world0).
Defined.
