(* ===== verification/Kube.v ===== *)
(** The control plane's objects and the cluster that stores them:
    [apis/kmsvc/v1/queue_types.go] and [temporalworker_types.go], the Kubernetes API
    server as a parameter with laws, and the world of the operator process.

    Of the Kubernetes metadata the records keep the fields the controllers read or
    write.  The status conditions, which no code touches, are left out. *)

From S2P Require Import Prelude GoNum GoStr Redis World.

Local Open Scope Z_scope.

(** ** Metadata *)

Record ObjectMeta : Type := MkMeta {
  om_Namespace : string;
  om_Name : string;
  om_Labels : gmap string string;
  om_Finalizers : list string;
  om_CreationTimestamp : Z;
  om_DeletionTimestamp : option Z
}.

(** [obj.DeletionTimestamp.IsZero()]: a nil pointer and the zero time. *)
Definition deletion_is_zero (m : ObjectMeta) : bool :=
  match om_DeletionTimestamp m with None => true | Some t => t =? zero_time end.

Definition set_finalizers (fs : list string) (m : ObjectMeta) : ObjectMeta :=
  MkMeta (om_Namespace m) (om_Name m) (om_Labels m) fs (om_CreationTimestamp m) (om_DeletionTimestamp m).

(** ** Queue *)

Inductive QueuePhase : Type := QueuePhaseUnset | QueuePhasePending | QueuePhaseReady | QueuePhaseFailed.

Record QueueSpec : Type := MkQueueSpec {
  qs_FIFOQueue : bool;
  qs_VisibilityTimeoutSeconds : Z;
  qs_MessageRetentionPeriodSeconds : Z;
  qs_MaxReceiveCount : Z;
  qs_DeadLetterTargetQueue : string;
  qs_PartitionsPerShard : Z;
  qs_DelaySeconds : Z;
  qs_IsDLQ : bool;
  qs_MinShards : Z;
  qs_MaxShards : Z;
  qs_ShardSplitThresholdBytesPerSec : Z;
  qs_ShardSplitCooldownSeconds : Z
}.

Inductive ShardPhase : Type := ShardPhaseActive | ShardPhaseClosing | ShardPhaseClosed.

#[export] Instance ShardPhase_eq_dec : EqDecision ShardPhase.
Proof. solve_decision. Defined.

(** [string(s.Phase)] *)
Definition shard_phase_string (p : ShardPhase) : string :=
  match p with
  | ShardPhaseActive => "Active" | ShardPhaseClosing => "Closing" | ShardPhaseClosed => "Closed"
  end.

Record ShardStatus : Type := MkShardStatus {
  ss_ID : string;
  ss_Topic : string;
  ss_HashRangeStart : Z;
  ss_HashRangeEnd : Z;
  ss_Phase : ShardPhase;
  ss_ParentID : string;
  ss_CreatedAt : Z;
  ss_AvailabilityZones : list string
}.

#[export] Instance ShardStatus_eq_dec : EqDecision ShardStatus.
Proof. solve_decision. Defined.

Record QueueStatus : Type := MkQueueStatus { qst_Phase : QueuePhase; qst_Shards : list ShardStatus }.

Record Queue : Type := MkQueue { q_Meta : ObjectMeta; q_Spec : QueueSpec; q_Status : QueueStatus }.

Definition q_Name (q : Queue) : string := om_Name (q_Meta q).

Definition set_phase (p : ShardPhase) (s : ShardStatus) : ShardStatus :=
  MkShardStatus (ss_ID s) (ss_Topic s) (ss_HashRangeStart s) (ss_HashRangeEnd s) p (ss_ParentID s)
    (ss_CreatedAt s) (ss_AvailabilityZones s).
Definition set_created (t : Z) (s : ShardStatus) : ShardStatus :=
  MkShardStatus (ss_ID s) (ss_Topic s) (ss_HashRangeStart s) (ss_HashRangeEnd s) (ss_Phase s)
    (ss_ParentID s) t (ss_AvailabilityZones s).
Definition set_zones (zs : list string) (s : ShardStatus) : ShardStatus :=
  MkShardStatus (ss_ID s) (ss_Topic s) (ss_HashRangeStart s) (ss_HashRangeEnd s) (ss_Phase s)
    (ss_ParentID s) (ss_CreatedAt s) zs.

Definition set_meta (m : ObjectMeta) (q : Queue) : Queue := MkQueue m (q_Spec q) (q_Status q).
Definition set_status (st : QueueStatus) (q : Queue) : Queue := MkQueue (q_Meta q) (q_Spec q) st.
Definition set_shards (l : list ShardStatus) (q : Queue) : Queue :=
  set_status (MkQueueStatus (qst_Phase (q_Status q)) l) q.
Definition set_queue_phase (p : QueuePhase) (q : Queue) : Queue :=
  set_status (MkQueueStatus p (qst_Shards (q_Status q))) q.

(** A [metav1.Time] is written with the precision of a second. *)
Definition stored_time (t : Z) : Z := Unix t * Second.
Definition stored_shard (s : ShardStatus) : ShardStatus := set_created (stored_time (ss_CreatedAt s)) s.
Definition stored_status (st : QueueStatus) : QueueStatus :=
  MkQueueStatus (qst_Phase st) (stored_shard <$> qst_Shards st).

(** ** TemporalWorker and Deployment

    Resources, affinities and tolerations are passed through untouched, as the text
    of their YAML. *)

Inductive TemporalWorkerPhase : Type :=
| TemporalWorkerPhaseUnset | TemporalWorkerPhasePending | TemporalWorkerPhaseReady | TemporalWorkerPhaseFailed.

Record TemporalWorkerSpec : Type := MkWorkerSpec {
  tws_Namespace : string;
  tws_Image : string;
  tws_ImagePullPolicy : string;
  tws_Replicas : option Z;
  tws_Resources : option string;
  tws_NodeSelector : gmap string string;
  tws_Affinity : option string;
  tws_Tolerations : list string
}.

Record TemporalWorkerStatus : Type := MkWorkerStatus {
  twst_Phase : TemporalWorkerPhase;
  twst_Replicas : Z;
  twst_ReadyReplicas : Z
}.

Record TemporalWorker : Type := MkWorker {
  tw_Meta : ObjectMeta;
  tw_Spec : TemporalWorkerSpec;
  tw_Status : TemporalWorkerStatus
}.

Record Container : Type := MkContainer {
  c_Name : string;
  c_Image : string;
  c_ImagePullPolicy : string;
  c_Env : list (string * string);
  c_Resources : option string
}.

Record Deployment : Type := MkDeployment {
  d_Meta : ObjectMeta;
  d_Owner : option (string * string);        (* the controller reference *)
  d_Replicas : option Z;
  d_Selector : gmap string string;
  d_TemplateLabels : gmap string string;
  d_Containers : list Container;
  d_NodeSelector : gmap string string;
  d_Affinity : option string;
  d_Tolerations : list string;
  d_ReadyReplicas : Z
}.

(** ** The cluster *)

Notation okey := (string * string)%type.    (* namespace, name *)

Record cluster : Type := Cluster {
  k8s_queues : gmap okey Queue;
  k8s_workers : gmap okey TemporalWorker;
  k8s_deployments : gmap okey Deployment;
  k8s_pods : gmap okey string;                        (* the node a pod runs on *)
  k8s_nodes : gmap string (gmap string string)        (* a node's labels *)
}.

Definition set_queues (m : gmap okey Queue) (c : cluster) : cluster :=
  Cluster m (k8s_workers c) (k8s_deployments c) (k8s_pods c) (k8s_nodes c).
Definition set_workers (m : gmap okey TemporalWorker) (c : cluster) : cluster :=
  Cluster (k8s_queues c) m (k8s_deployments c) (k8s_pods c) (k8s_nodes c).
Definition set_deployments (m : gmap okey Deployment) (c : cluster) : cluster :=
  Cluster (k8s_queues c) (k8s_workers c) m (k8s_pods c) (k8s_nodes c).

Definition meta_key (m : ObjectMeta) : okey := (om_Namespace m, om_Name m).

(** The API server.  A read returns [None] for "not found".  [Update] writes metadata
    and spec and [Status().Update] the status, each returning the stored object. *)
Class KubeServer : Type := {
  kube_get_queue : okey -> M cluster (option Queue);
  kube_update_queue : Queue -> M cluster Queue;
  kube_update_queue_status : Queue -> M cluster Queue;
  kube_get_worker : okey -> M cluster (option TemporalWorker);
  kube_update_worker : TemporalWorker -> M cluster TemporalWorker;
  kube_update_worker_status : TemporalWorker -> M cluster TemporalWorker;
  (** controllerutil's [CreateOrUpdate]: the mutation is applied to the stored object,
      or to a new one *)
  kube_upsert_worker : okey -> (TemporalWorkerSpec -> TemporalWorkerSpec) -> M cluster TemporalWorker;
  kube_upsert_deployment : okey -> (Deployment -> res Deployment) -> M cluster Deployment;
  (** [Delete]: whether the object was found *)
  kube_delete_worker : okey -> M cluster bool;
  kube_get_pod_node : okey -> M cluster (option string);
  kube_get_node_labels : string -> M cluster (option (gmap string string))
}.

(** An updated queue as the server stores it: the caller's metadata and spec on the
    stored status; removed once it is being deleted and its last finalizer is gone. *)
Definition store_queue (q old : Queue) (c : cluster) : cluster :=
  let key := meta_key (q_Meta q) in
  let stored := MkQueue (q_Meta q) (q_Spec q) (q_Status old) in
  if negb (deletion_is_zero (q_Meta q)) && bool_decide (om_Finalizers (q_Meta q) = [])
  then set_queues (delete key (k8s_queues c)) c
  else set_queues (<[key := stored]> (k8s_queues c)) c.

Definition blank_meta (key : okey) : ObjectMeta := MkMeta key.1 key.2 ∅ [] zero_time None.
Definition blank_worker_spec : TemporalWorkerSpec := MkWorkerSpec "" "" "" None None ∅ None [].
Definition blank_worker (key : okey) : TemporalWorker :=
  MkWorker (blank_meta key) blank_worker_spec (MkWorkerStatus TemporalWorkerPhaseUnset 0 0).
Definition blank_deployment (key : okey) : Deployment :=
  MkDeployment (blank_meta key) None None ∅ ∅ [] ∅ None [] 0.

Definition set_worker_spec (s : TemporalWorkerSpec) (t : TemporalWorker) : TemporalWorker :=
  MkWorker (tw_Meta t) s (tw_Status t).

Class KubeLaws (KS : KubeServer) : Prop := {
  law_get_queue k c : kube_get_queue k c = (Ok (k8s_queues c !! k), c) \/
    exists e, kube_get_queue k c = (Err e, c);
  law_update_queue q c :
    match kube_update_queue q c with
    | (Ok q', c') => exists old, k8s_queues c !! meta_key (q_Meta q) = Some old /\
        q' = MkQueue (q_Meta q) (q_Spec q) (q_Status old) /\ c' = store_queue q old c
    | (Err _, c') => c' = c
    end;
  law_update_queue_status q c :
    match kube_update_queue_status q c with
    | (Ok q', c') => exists old, k8s_queues c !! meta_key (q_Meta q) = Some old /\
        q' = MkQueue (q_Meta old) (q_Spec old) (stored_status (q_Status q)) /\
        c' = set_queues (<[meta_key (q_Meta q) := q']> (k8s_queues c)) c
    | (Err _, c') => c' = c
    end;
  law_get_worker k c : kube_get_worker k c = (Ok (k8s_workers c !! k), c) \/
    exists e, kube_get_worker k c = (Err e, c);
  law_update_worker t c :
    match kube_update_worker t c with
    | (Ok t', c') => exists old, k8s_workers c !! meta_key (tw_Meta t) = Some old /\
        t' = MkWorker (tw_Meta t) (tw_Spec t) (tw_Status old) /\
        c' = if negb (deletion_is_zero (tw_Meta t)) && bool_decide (om_Finalizers (tw_Meta t) = [])
             then set_workers (delete (meta_key (tw_Meta t)) (k8s_workers c)) c
             else set_workers (<[meta_key (tw_Meta t) := t']> (k8s_workers c)) c
    | (Err _, c') => c' = c
    end;
  law_update_worker_status t c :
    match kube_update_worker_status t c with
    | (Ok t', c') => exists old, k8s_workers c !! meta_key (tw_Meta t) = Some old /\
        t' = MkWorker (tw_Meta old) (tw_Spec old) (tw_Status t) /\
        c' = set_workers (<[meta_key (tw_Meta t) := t']> (k8s_workers c)) c
    | (Err _, c') => c' = c
    end;
  law_upsert_worker k f c :
    match kube_upsert_worker k f c with
    | (Ok t', c') =>
        let old := default (blank_worker k) (k8s_workers c !! k) in
        t' = set_worker_spec (f (tw_Spec old)) old /\ c' = set_workers (<[k := t']> (k8s_workers c)) c
    | (Err _, c') => c' = c
    end;
  law_upsert_deployment k f c :
    match kube_upsert_deployment k f c with
    | (Ok d', c') => f (default (blank_deployment k) (k8s_deployments c !! k)) = Ok d' /\
        c' = set_deployments (<[k := d']> (k8s_deployments c)) c
    | (Err _, c') => c' = c
    end;
  (** a worker with finalizers is only marked for deletion *)
  law_delete_worker k c :
    match kube_delete_worker k c with
    | (Ok true, c') => exists t c'', k8s_workers c !! k = Some t /\
        c' = set_workers c'' c /\ (om_Finalizers (tw_Meta t) = [] -> c'' = delete k (k8s_workers c)) /\
        (forall k', k' <> k -> c'' !! k' = k8s_workers c !! k')
    | (Ok false, c') => k8s_workers c !! k = None /\ c' = c
    | (Err _, c') => c' = c
    end;
  law_get_pod_node k c : kube_get_pod_node k c = (Ok (k8s_pods c !! k), c) \/
    exists e, kube_get_pod_node k c = (Err e, c);
  law_get_node_labels n c : kube_get_node_labels n c = (Ok (k8s_nodes c !! n), c) \/
    exists e, kube_get_node_labels n c = (Err e, c)
}.

(** ** A concrete server *)

Definition set_deletion (t : Z) (m : ObjectMeta) : ObjectMeta :=
  MkMeta (om_Namespace m) (om_Name m) (om_Labels m) (om_Finalizers m) (om_CreationTimestamp m) (Some t).

Definition not_found : error := ErrText "not found".

#[export] Instance MemKube : KubeServer := {
  kube_get_queue k c := (Ok (k8s_queues c !! k), c);
  kube_update_queue q c :=
    match k8s_queues c !! meta_key (q_Meta q) with
    | Some old => (Ok (MkQueue (q_Meta q) (q_Spec q) (q_Status old)), store_queue q old c)
    | None => (Err not_found, c)
    end;
  kube_update_queue_status q c :=
    match k8s_queues c !! meta_key (q_Meta q) with
    | Some old =>
      let q' := MkQueue (q_Meta old) (q_Spec old) (stored_status (q_Status q)) in
      (Ok q', set_queues (<[meta_key (q_Meta q) := q']> (k8s_queues c)) c)
    | None => (Err not_found, c)
    end;
  kube_get_worker k c := (Ok (k8s_workers c !! k), c);
  kube_update_worker t c :=
    match k8s_workers c !! meta_key (tw_Meta t) with
    | Some old =>
      let t' := MkWorker (tw_Meta t) (tw_Spec t) (tw_Status old) in
      (Ok t', if negb (deletion_is_zero (tw_Meta t)) && bool_decide (om_Finalizers (tw_Meta t) = [])
              then set_workers (delete (meta_key (tw_Meta t)) (k8s_workers c)) c
              else set_workers (<[meta_key (tw_Meta t) := t']> (k8s_workers c)) c)
    | None => (Err not_found, c)
    end;
  kube_update_worker_status t c :=
    match k8s_workers c !! meta_key (tw_Meta t) with
    | Some old =>
      let t' := MkWorker (tw_Meta old) (tw_Spec old) (tw_Status t) in
      (Ok t', set_workers (<[meta_key (tw_Meta t) := t']> (k8s_workers c)) c)
    | None => (Err not_found, c)
    end;
  kube_upsert_worker k f c :=
    let old := default (blank_worker k) (k8s_workers c !! k) in
    let t' := set_worker_spec (f (tw_Spec old)) old in
    (Ok t', set_workers (<[k := t']> (k8s_workers c)) c);
  kube_upsert_deployment k f c :=
    match f (default (blank_deployment k) (k8s_deployments c !! k)) with
    | Ok d' => (Ok d', set_deployments (<[k := d']> (k8s_deployments c)) c)
    | Err e => (Err e, c)
    end;
  kube_delete_worker k c :=
    match k8s_workers c !! k with
    | Some t =>
      (Ok true, set_workers (if bool_decide (om_Finalizers (tw_Meta t) = []) then delete k (k8s_workers c)
                             else <[k := MkWorker (set_deletion 0 (tw_Meta t)) (tw_Spec t) (tw_Status t)]>
                                    (k8s_workers c)) c)
    | None => (Ok false, c)
    end;
  kube_get_pod_node k c := (Ok (k8s_pods c !! k), c);
  kube_get_node_labels n c := (Ok (k8s_nodes c !! n), c)
}.

#[export] Instance MemKube_laws : KubeLaws MemKube.
Proof.
  split; intros; simpl; auto.
  - destruct (k8s_queues c !! _) eqn:E; [| done]. eexists. done.
  - destruct (k8s_queues c !! _) eqn:E; [| done]. eexists. done.
  - destruct (k8s_workers c !! _) eqn:E; [| done]. eexists. done.
  - destruct (k8s_workers c !! _) eqn:E; [| done]. eexists. done.
  - by destruct (f _).
  - destruct (k8s_workers c !! k) as [t|] eqn:E; [| done]. eexists t, _. split; [done |].
    split; [reflexivity |]. split; [by intros ->; rewrite bool_decide_eq_true_2 |].
    intros k' Hk'. case_bool_decide; [by rewrite lookup_delete_ne | by rewrite lookup_insert_ne].
Qed.

(** ** controllerutil

    The four helpers of controller-runtime the controllers call, and what their
    documentation says of them. *)
Class ControllerUtil : Type := {
  ContainsFinalizer : ObjectMeta -> string -> bool;
  AddFinalizer : ObjectMeta -> string -> ObjectMeta;
  RemoveFinalizer : ObjectMeta -> string -> ObjectMeta;
  (** [SetControllerReference]: an error when another controller owns the object *)
  SetControllerReference : okey -> Deployment -> res Deployment
}.

Definition set_owner (k : okey) (d : Deployment) : Deployment :=
  MkDeployment (d_Meta d) (Some k) (d_Replicas d) (d_Selector d) (d_TemplateLabels d) (d_Containers d)
    (d_NodeSelector d) (d_Affinity d) (d_Tolerations d) (d_ReadyReplicas d).

Class ControllerUtilLaws (CU : ControllerUtil) : Prop := {
  law_contains m f : ContainsFinalizer m f = true <-> f ∈ om_Finalizers m;
  law_add m f : AddFinalizer m f =
    (if ContainsFinalizer m f then m else set_finalizers (om_Finalizers m ++ [f]) m);
  law_remove m f : RemoveFinalizer m f = set_finalizers (filter (fun g => g <> f) (om_Finalizers m)) m;
  law_set_controller k d d' : SetControllerReference k d = Ok d' -> d' = set_owner k d
}.

#[export] Instance StdControllerUtil : ControllerUtil := {
  ContainsFinalizer m f := bool_decide (f ∈ om_Finalizers m);
  AddFinalizer m f := if bool_decide (f ∈ om_Finalizers m) then m
                      else set_finalizers (om_Finalizers m ++ [f]) m;
  RemoveFinalizer m f := set_finalizers (filter (fun g => g <> f) (om_Finalizers m)) m;
  SetControllerReference k d :=
    match d_Owner d with
    | Some k' => if bool_decide (k = k') then Ok d else Err (ErrText "already owned by another controller")
    | None => Ok (set_owner k d)
    end
}.

#[export] Instance StdControllerUtil_laws : ControllerUtilLaws StdControllerUtil.
Proof.
  split; simpl; [intros; apply bool_decide_eq_true | done | done |].
  intros k [] d'. simpl. repeat case_match; intros; simplify_eq/=; [|done].
  case_bool_decide; by simplify_eq.
Qed.

(** ** The operator's world *)

(** [sample] of [queue_controller.go]: the last offset sum seen of a topic, and when. *)
Record sample : Type := MkSample { sm_offsetSum : Z; sm_at : Z }.

Record oworld : Type := OWorld {
  o_world : world;                       (* Redis, Kafka, the clock and the network *)
  o_kube : cluster;
  o_samples : gmap string sample;        (* QueueReconciler.sampleState *)
  o_zones : gmap string string;          (* ZoneLocator.nodeZoneCache *)
  o_env : gmap string string;            (* environment variables *)
  o_temporal : gset string               (* registered Temporal namespaces *)
}.

Definition set_world (w : world) (o : oworld) : oworld :=
  OWorld w (o_kube o) (o_samples o) (o_zones o) (o_env o) (o_temporal o).
Definition set_kube (c : cluster) (o : oworld) : oworld :=
  OWorld (o_world o) c (o_samples o) (o_zones o) (o_env o) (o_temporal o).
Definition set_samples (s : gmap string sample) (o : oworld) : oworld :=
  OWorld (o_world o) (o_kube o) s (o_zones o) (o_env o) (o_temporal o).
Definition set_zone_cache (z : gmap string string) (o : oworld) : oworld :=
  OWorld (o_world o) (o_kube o) (o_samples o) z (o_env o) (o_temporal o).
Definition set_temporal (t : gset string) (o : oworld) : oworld :=
  OWorld (o_world o) (o_kube o) (o_samples o) (o_zones o) (o_env o) t.

(** Code of the data plane, run by the operator. *)
Definition lift {A} (m : M world A) : M oworld A := fun o =>
  let '(r, w) := m (o_world o) in (r, set_world w o).

(** A network round trip of the operator, like any other. *)
Definition otrip {A} (run : M oworld A) : M oworld A := fun o =>
  match w_net (o_world o) with
  | [] => run o
  | ev :: evs =>
    let o1 := set_world (elapse (ev_wait ev) (set_net evs (o_world o))) o in
    match ev_verdict ev with
    | Delivered => run o1
    | RequestLost e => (Err e, o1)
    | ReplyLost e => (Err e, snd (run o1))
    end
  end.

(** A request to the API server. *)
Definition kube_run {A} (c : M cluster A) : M oworld A := fun o =>
  let '(r, k) := c (o_kube o) in (r, set_kube k o).

Definition kube {A} (c : M cluster A) : M oworld A := otrip (kube_run c).

(** [getEnvOrDefault(key, def)] *)
Definition getEnvOrDefault (key def : string) : M oworld string :=
  gets (fun o => let v := default "" (o_env o !! key) in if bool_decide (v = "") then def else v).

(** ** Lemmas *)

Lemma lift_run {A} (m : M world A) o :
  lift m o = (fst (m (o_world o)), set_world (snd (m (o_world o))) o).
Proof. unfold lift. by destruct (m (o_world o)). Qed.

Lemma preserves_lift {A} (P : world -> Prop) (m : M world A) :
  preserves P m -> preserves (fun o => P (o_world o)) (lift m).
Proof. intros Hm o Ho. rewrite lift_run. simpl. by apply Hm. Qed.

(** Lifted code reaches nothing but the data plane. *)
Lemma lift_frame {A} (m : M world A) (Q : oworld -> Prop) :
  (forall w o, Q o -> Q (set_world w o)) -> preserves Q (lift m).
Proof. intros HQ o Ho. rewrite lift_run. by apply HQ. Qed.

Lemma kube_calm {A} (c : M cluster A) o :
  calm (o_world o) -> kube c o = (fst (c (o_kube o)), set_kube (snd (c (o_kube o))) o).
Proof. intros Hc. unfold kube, otrip, kube_run. rewrite Hc. by destruct (c (o_kube o)). Qed.

(** An API request preserves what its command does to the cluster, whatever its fate. *)
Lemma preserves_kube {A} (c : M cluster A) (P : oworld -> Prop) :
  (forall n o, P o -> P (set_world (set_net n (o_world o)) o)) ->
  (forall d o, P o -> P (set_world (elapse d (o_world o)) o)) ->
  (forall o, P o -> P (set_kube (snd (c (o_kube o))) o)) ->
  preserves P (kube c).
Proof.
  intros Hn Ht Hk o Ho. unfold kube, otrip, kube_run. destruct (w_net (o_world o)) as [|[d v] evs].
  - specialize (Hk o Ho). by destruct (c (o_kube o)).
  - cbn [ev_wait]. set (o1 := set_world _ o). assert (Ho1 : P o1).
    { apply (Ht d (set_world (set_net evs (o_world o)) o)). by apply Hn. }
    cbn [ev_verdict]. clearbody o1. specialize (Hk o1 Ho1).
    destruct v; [| exact Ho1 |]; by destruct (c (o_kube o1)).
Qed.

(** A request that succeeded ran, after a while. *)
Lemma kube_ok_inv {A} (c : M cluster A) o a o' :
  kube c o = (Ok a, o') ->
  exists w', c (o_kube o) = (Ok a, o_kube o') /\ o' = set_kube (o_kube o') (set_world w' o) /\
    w_redis w' = w_redis (o_world o) /\ w_kafka w' = w_kafka (o_world o) /\
    w_clock (o_world o) <= w_clock w'.
Proof.
  unfold kube, otrip, kube_run. destruct (w_net (o_world o)) as [|[d vd] evs].
  - destruct (c (o_kube o)) as [r k] eqn:E. intros [= -> <-]. exists (o_world o).
    split_and!; [done | by destruct o | done | done | lia].
  - cbn [ev_wait ev_verdict]. destruct vd; [| done | done]. simpl.
    destruct (c (o_kube o)) as [r k] eqn:E. intros [= -> <-].
    eexists. split_and!; [done | reflexivity | done | done | simpl; lia].
Qed.
