(* ===== verification/DeepCopy.v ===== *)
(** Deep copies of the custom resources: [apis/kmsvc/v1/zz_generated.deepcopy.go] and the
    hand-written copies at the end of [temporalworker_types.go].

    The other files treat the objects as values.  Here they are what Go has in memory:
    structs whose slices, maps and optional fields are pointers into a heap.  A struct is
    a record over the types of those fields, so that the same record, over plain values,
    is what an object stands for.  The types of the Kubernetes libraries are parameters,
    whose own deep copies are assumed to be deep. *)

From S2P Require Import Prelude GoHeap Kube.

(** ** Data *)

Record TypeMeta : Type := MkTypeMeta { tm_Kind : string; tm_APIVersion : string }.

Record ShardStatusOf (Time Zones : Type) : Type := MkShardOf {
  so_ID : string;
  so_Topic : string;
  so_HashRangeStart : Z;
  so_HashRangeEnd : Z;
  so_Phase : string;
  so_ParentID : string;
  so_CreatedAt : Time;
  so_AvailabilityZones : Zones
}.

Record QueueStatusOf (Shards Conditions : Type) : Type := MkQueueStatusOf {
  qso_Phase : string;
  qso_Shards : Shards;
  qso_Conditions : Conditions
}.

Record QueueOf (Meta Status : Type) : Type := MkQueueOf {
  qo_TypeMeta : TypeMeta;
  qo_ObjectMeta : Meta;
  qo_Spec : QueueSpec;
  qo_Status : Status
}.

(** [QueueList] and [TemporalWorkerList]. *)
Record ListOf (Meta Items : Type) : Type := MkListOf {
  lo_TypeMeta : TypeMeta;
  lo_ListMeta : Meta;
  lo_Items : Items
}.

Record TemporalWorkerSpecOf (Replicas Resources Selector Affinity Tolerations : Type) : Type := MkWorkerSpecOf {
  wo_Namespace : string;
  wo_Image : string;
  wo_ImagePullPolicy : string;
  wo_Replicas : Replicas;
  wo_Resources : Resources;
  wo_NodeSelector : Selector;
  wo_Affinity : Affinity;
  wo_Tolerations : Tolerations
}.

Record TemporalWorkerStatusOf (Conditions : Type) : Type := MkWorkerStatusOf {
  wso_Phase : string;
  wso_Replicas : Z;
  wso_ReadyReplicas : Z;
  wso_Conditions : Conditions
}.

Record TemporalWorkerOf (Meta Spec Status : Type) : Type := MkWorkerOf {
  two_TypeMeta : TypeMeta;
  two_ObjectMeta : Meta;
  two_Spec : Spec;
  two_Status : Status
}.

Arguments MkShardOf {Time Zones}.
Arguments so_ID {Time Zones}.
Arguments so_Topic {Time Zones}.
Arguments so_HashRangeStart {Time Zones}.
Arguments so_HashRangeEnd {Time Zones}.
Arguments so_Phase {Time Zones}.
Arguments so_ParentID {Time Zones}.
Arguments so_CreatedAt {Time Zones}.
Arguments so_AvailabilityZones {Time Zones}.
Arguments MkQueueStatusOf {Shards Conditions}.
Arguments qso_Phase {Shards Conditions}.
Arguments qso_Shards {Shards Conditions}.
Arguments qso_Conditions {Shards Conditions}.
Arguments MkQueueOf {Meta Status}.
Arguments qo_TypeMeta {Meta Status}.
Arguments qo_ObjectMeta {Meta Status}.
Arguments qo_Spec {Meta Status}.
Arguments qo_Status {Meta Status}.
Arguments MkListOf {Meta Items}.
Arguments lo_TypeMeta {Meta Items}.
Arguments lo_ListMeta {Meta Items}.
Arguments lo_Items {Meta Items}.
Arguments MkWorkerSpecOf {Replicas Resources Selector Affinity Tolerations}.
Arguments wo_Namespace {Replicas Resources Selector Affinity Tolerations}.
Arguments wo_Image {Replicas Resources Selector Affinity Tolerations}.
Arguments wo_ImagePullPolicy {Replicas Resources Selector Affinity Tolerations}.
Arguments wo_Replicas {Replicas Resources Selector Affinity Tolerations}.
Arguments wo_Resources {Replicas Resources Selector Affinity Tolerations}.
Arguments wo_NodeSelector {Replicas Resources Selector Affinity Tolerations}.
Arguments wo_Affinity {Replicas Resources Selector Affinity Tolerations}.
Arguments wo_Tolerations {Replicas Resources Selector Affinity Tolerations}.
Arguments MkWorkerStatusOf {Conditions}.
Arguments wso_Phase {Conditions}.
Arguments wso_Replicas {Conditions}.
Arguments wso_ReadyReplicas {Conditions}.
Arguments wso_Conditions {Conditions}.
Arguments MkWorkerOf {Meta Spec Status}.
Arguments two_TypeMeta {Meta Spec Status}.
Arguments two_ObjectMeta {Meta Spec Status}.
Arguments two_Spec {Meta Spec Status}.
Arguments two_Status {Meta Spec Status}.

(** The library's types: in memory, and what they stand for. *)
Class Library : Type := {
  LObjectMeta : Type;
  LListMeta : Type;
  LTime : Type;
  LCondition : Type;
  LToleration : Type;
  LResourceRequirements : Type;
  LAffinity : Type;
  LCell : Type;                          (* what else they point to *)
  VObjectMeta : Type;
  VListMeta : Type;
  VTime : Type;
  VCondition : Type;
  VToleration : Type;
  VResourceRequirements : Type;
  VAffinity : Type;
  zero_ObjectMeta :: Zero LObjectMeta;
  zero_ListMeta :: Zero LListMeta;
  zero_Time :: Zero LTime;
  zero_Condition :: Zero LCondition;
  zero_Toleration :: Zero LToleration;
  zero_ResourceRequirements :: Zero LResourceRequirements;
  zero_Affinity :: Zero LAffinity
}.

Section Memory.
Context {Lib : Library}.

Definition ShardStatusMem : Type := ShardStatusOf LTime (slice string).
Definition QueueStatusMem : Type := QueueStatusOf (slice ShardStatusMem) (slice LCondition).
Definition QueueMem : Type := QueueOf LObjectMeta QueueStatusMem.
Definition QueueListMem : Type := ListOf LListMeta (slice QueueMem).
Definition TemporalWorkerSpecMem : Type :=
  TemporalWorkerSpecOf (ptr Z) (ptr LResourceRequirements) (gomap string) (ptr LAffinity) (slice LToleration).
Definition TemporalWorkerStatusMem : Type := TemporalWorkerStatusOf (slice LCondition).
Definition TemporalWorkerMem : Type := TemporalWorkerOf LObjectMeta TemporalWorkerSpecMem TemporalWorkerStatusMem.
Definition TemporalWorkerListMem : Type := ListOf LListMeta (slice TemporalWorkerMem).

Definition ShardStatusVal : Type := ShardStatusOf VTime (option (list string)).
Definition QueueStatusVal : Type := QueueStatusOf (option (list ShardStatusVal)) (option (list VCondition)).
Definition QueueVal : Type := QueueOf VObjectMeta QueueStatusVal.
Definition QueueListVal : Type := ListOf VListMeta (option (list QueueVal)).
Definition TemporalWorkerSpecVal : Type :=
  TemporalWorkerSpecOf (option Z) (option VResourceRequirements) (option (gmap string string)) (option VAffinity)
    (option (list VToleration)).
Definition TemporalWorkerStatusVal : Type := TemporalWorkerStatusOf (option (list VCondition)).
Definition TemporalWorkerVal : Type := TemporalWorkerOf VObjectMeta TemporalWorkerSpecVal TemporalWorkerStatusVal.
Definition TemporalWorkerListVal : Type := ListOf VListMeta (option (list TemporalWorkerVal)).

(** What the cells of the heap hold. *)
Inductive cell : Type :=
| CInt32 (n : Z)
| CStrings (l : list string)
| CMap (m : gmap string string)
| CConditions (l : list LCondition)
| CTolerations (l : list LToleration)
| CResources (r : LResourceRequirements)
| CAffinity (a : LAffinity)
| CShard (s : ShardStatusMem)
| CShards (l : list ShardStatusMem)
| CQueueSpec (s : QueueSpec)
| CQueueStatus (s : QueueStatusMem)
| CQueue (q : QueueMem)
| CQueues (l : list QueueMem)
| CQueueList (l : QueueListMem)
| CWorkerSpec (s : TemporalWorkerSpecMem)
| CWorkerStatus (s : TemporalWorkerStatusMem)
| CWorker (w : TemporalWorkerMem)
| CWorkers (l : list TemporalWorkerMem)
| CWorkerList (l : TemporalWorkerListMem)
| CLibrary (c : LCell).

Notation heap := (gmap loc cell).

#[export] Instance in_int32 : InCell cell Z :=
  {| inj_cell := CInt32; prj_cell c := match c with CInt32 x => Some x | _ => None end; prj_inj a := eq_refl |}.
#[export] Instance in_strings : InCell cell (list string) :=
  {| inj_cell := CStrings; prj_cell c := match c with CStrings x => Some x | _ => None end; prj_inj a := eq_refl |}.
#[export] Instance in_map : InCell cell (gmap string string) :=
  {| inj_cell := CMap; prj_cell c := match c with CMap x => Some x | _ => None end; prj_inj a := eq_refl |}.
#[export] Instance in_conditions : InCell cell (list LCondition) :=
  {| inj_cell := CConditions; prj_cell c := match c with CConditions x => Some x | _ => None end; prj_inj a := eq_refl |}.
#[export] Instance in_tolerations : InCell cell (list LToleration) :=
  {| inj_cell := CTolerations; prj_cell c := match c with CTolerations x => Some x | _ => None end; prj_inj a := eq_refl |}.
#[export] Instance in_resources : InCell cell LResourceRequirements :=
  {| inj_cell := CResources; prj_cell c := match c with CResources x => Some x | _ => None end; prj_inj a := eq_refl |}.
#[export] Instance in_affinity : InCell cell LAffinity :=
  {| inj_cell := CAffinity; prj_cell c := match c with CAffinity x => Some x | _ => None end; prj_inj a := eq_refl |}.
#[export] Instance in_shard : InCell cell ShardStatusMem :=
  {| inj_cell := CShard; prj_cell c := match c with CShard x => Some x | _ => None end; prj_inj a := eq_refl |}.
#[export] Instance in_shards : InCell cell (list ShardStatusMem) :=
  {| inj_cell := CShards; prj_cell c := match c with CShards x => Some x | _ => None end; prj_inj a := eq_refl |}.
#[export] Instance in_queue_spec : InCell cell QueueSpec :=
  {| inj_cell := CQueueSpec; prj_cell c := match c with CQueueSpec x => Some x | _ => None end; prj_inj a := eq_refl |}.
#[export] Instance in_queue_status : InCell cell QueueStatusMem :=
  {| inj_cell := CQueueStatus; prj_cell c := match c with CQueueStatus x => Some x | _ => None end; prj_inj a := eq_refl |}.
#[export] Instance in_queue : InCell cell QueueMem :=
  {| inj_cell := CQueue; prj_cell c := match c with CQueue x => Some x | _ => None end; prj_inj a := eq_refl |}.
#[export] Instance in_queues : InCell cell (list QueueMem) :=
  {| inj_cell := CQueues; prj_cell c := match c with CQueues x => Some x | _ => None end; prj_inj a := eq_refl |}.
#[export] Instance in_queue_list : InCell cell QueueListMem :=
  {| inj_cell := CQueueList; prj_cell c := match c with CQueueList x => Some x | _ => None end; prj_inj a := eq_refl |}.
#[export] Instance in_worker_spec : InCell cell TemporalWorkerSpecMem :=
  {| inj_cell := CWorkerSpec; prj_cell c := match c with CWorkerSpec x => Some x | _ => None end; prj_inj a := eq_refl |}.
#[export] Instance in_worker_status : InCell cell TemporalWorkerStatusMem :=
  {| inj_cell := CWorkerStatus; prj_cell c := match c with CWorkerStatus x => Some x | _ => None end; prj_inj a := eq_refl |}.
#[export] Instance in_worker : InCell cell TemporalWorkerMem :=
  {| inj_cell := CWorker; prj_cell c := match c with CWorker x => Some x | _ => None end; prj_inj a := eq_refl |}.
#[export] Instance in_workers : InCell cell (list TemporalWorkerMem) :=
  {| inj_cell := CWorkers; prj_cell c := match c with CWorkers x => Some x | _ => None end; prj_inj a := eq_refl |}.
#[export] Instance in_worker_list : InCell cell TemporalWorkerListMem :=
  {| inj_cell := CWorkerList; prj_cell c := match c with CWorkerList x => Some x | _ => None end; prj_inj a := eq_refl |}.

(** The library's deep copies. *)
Class LibraryCopies : Type := {
  copy_ObjectMeta :: DeepCopyInto cell LObjectMeta;
  copy_ListMeta :: DeepCopyInto cell LListMeta;
  copy_Time :: DeepCopyInto cell LTime;
  copy_Condition :: DeepCopyInto cell LCondition;
  copy_Toleration :: DeepCopyInto cell LToleration;
  copy_ResourceRequirements :: DeepCopyInto cell LResourceRequirements;
  copy_Affinity :: DeepCopyInto cell LAffinity;
  rep_ObjectMeta :: Rep cell LObjectMeta VObjectMeta;
  rep_ListMeta :: Rep cell LListMeta VListMeta;
  rep_Time :: Rep cell LTime VTime;
  rep_Condition :: Rep cell LCondition VCondition;
  rep_Toleration :: Rep cell LToleration VToleration;
  rep_ResourceRequirements :: Rep cell LResourceRequirements VResourceRequirements;
  rep_Affinity :: Rep cell LAffinity VAffinity
}.

Context {Copies : LibraryCopies}.

(** ** The copies *)

#[export] Instance copy_int32 : DeepCopyInto cell Z := copy_plain Z.
#[export] Instance copy_string : DeepCopyInto cell string := copy_plain string.

(** *** zz_generated.deepcopy.go *)

Definition QueueSpec_DeepCopyInto : DeepCopyInto cell QueueSpec := copy_plain QueueSpec.
#[export] Existing Instance QueueSpec_DeepCopyInto.

Definition ShardStatus_DeepCopyInto : DeepCopyInto cell ShardStatusMem := fun in_ =>
  created ← deep_copy (so_CreatedAt in_);
  mret (MkShardOf (so_ID in_) (so_Topic in_) (so_HashRangeStart in_) (so_HashRangeEnd in_) (so_Phase in_)
          (so_ParentID in_) created (so_AvailabilityZones in_)).
#[export] Existing Instance ShardStatus_DeepCopyInto.

#[export] Instance zero_ShardStatus : Zero ShardStatusMem := MkShardOf "" "" 0%Z 0%Z "" "" zero NilSlice.

Definition QueueStatus_DeepCopyInto : DeepCopyInto cell QueueStatusMem := fun in_ =>
  shards ← copy_slice (qso_Shards in_);
  conditions ← copy_slice (qso_Conditions in_);
  mret (MkQueueStatusOf (qso_Phase in_) shards conditions).
#[export] Existing Instance QueueStatus_DeepCopyInto.

Definition Queue_DeepCopyInto : DeepCopyInto cell QueueMem := fun in_ =>
  meta ← deep_copy (qo_ObjectMeta in_);
  status ← deep_copy (qo_Status in_);
  mret (MkQueueOf (qo_TypeMeta in_) meta (qo_Spec in_) status).
#[export] Existing Instance Queue_DeepCopyInto.

#[export] Instance zero_QueueSpec : Zero QueueSpec :=
  MkQueueSpec false 0 0 0 "" 0 0 false 0 0 0 0.
#[export] Instance zero_QueueStatus : Zero QueueStatusMem := MkQueueStatusOf "" NilSlice NilSlice.
#[export] Instance zero_TypeMeta : Zero TypeMeta := MkTypeMeta "" "".
#[export] Instance zero_Queue : Zero QueueMem := MkQueueOf zero zero zero zero.

Definition QueueList_DeepCopyInto : DeepCopyInto cell QueueListMem := fun in_ =>
  meta ← deep_copy (lo_ListMeta in_);
  items ← copy_slice (lo_Items in_);
  mret (MkListOf (lo_TypeMeta in_) meta items).
#[export] Existing Instance QueueList_DeepCopyInto.

#[export] Instance zero_QueueList : Zero QueueListMem := MkListOf zero zero NilSlice.

Definition ShardStatus_DeepCopy (in_ : ptr ShardStatusMem) : M heap (ptr ShardStatusMem) := copy_ptr in_.
Definition QueueSpec_DeepCopy (in_ : ptr QueueSpec) : M heap (ptr QueueSpec) := copy_ptr in_.
Definition QueueStatus_DeepCopy (in_ : ptr QueueStatusMem) : M heap (ptr QueueStatusMem) := copy_ptr in_.
Definition Queue_DeepCopy (in_ : ptr QueueMem) : M heap (ptr QueueMem) := copy_ptr in_.
Definition QueueList_DeepCopy (in_ : ptr QueueListMem) : M heap (ptr QueueListMem) := copy_ptr in_.

(** *** temporalworker_types.go *)

Definition TemporalWorkerSpec_DeepCopyInto : DeepCopyInto cell TemporalWorkerSpecMem := fun in_ =>
  replicas ← copy_ptr (wo_Replicas in_);
  resources ← copy_ptr (wo_Resources in_);
  selector ← copy_map (wo_NodeSelector in_);
  affinity ← copy_ptr (wo_Affinity in_);
  tolerations ← copy_slice (wo_Tolerations in_);
  mret (MkWorkerSpecOf (wo_Namespace in_) (wo_Image in_) (wo_ImagePullPolicy in_) replicas resources selector
          affinity tolerations).
#[export] Existing Instance TemporalWorkerSpec_DeepCopyInto.

Definition TemporalWorkerStatus_DeepCopyInto : DeepCopyInto cell TemporalWorkerStatusMem := fun in_ =>
  conditions ← copy_slice (wso_Conditions in_);
  mret (MkWorkerStatusOf (wso_Phase in_) (wso_Replicas in_) (wso_ReadyReplicas in_) conditions).
#[export] Existing Instance TemporalWorkerStatus_DeepCopyInto.

Definition TemporalWorker_DeepCopyInto : DeepCopyInto cell TemporalWorkerMem := fun in_ =>
  meta ← deep_copy (two_ObjectMeta in_);
  spec ← deep_copy (two_Spec in_);
  status ← deep_copy (two_Status in_);
  mret (MkWorkerOf (two_TypeMeta in_) meta spec status).
#[export] Existing Instance TemporalWorker_DeepCopyInto.

#[export] Instance zero_WorkerSpec : Zero TemporalWorkerSpecMem :=
  MkWorkerSpecOf "" "" "" Nil Nil NilMap Nil NilSlice.
#[export] Instance zero_WorkerStatus : Zero TemporalWorkerStatusMem := MkWorkerStatusOf "" 0%Z 0%Z NilSlice.
#[export] Instance zero_Worker : Zero TemporalWorkerMem := MkWorkerOf zero zero zero zero.

Definition TemporalWorkerList_DeepCopyInto : DeepCopyInto cell TemporalWorkerListMem := fun in_ =>
  meta ← deep_copy (lo_ListMeta in_);
  items ← copy_slice (lo_Items in_);
  mret (MkListOf (lo_TypeMeta in_) meta items).
#[export] Existing Instance TemporalWorkerList_DeepCopyInto.

#[export] Instance zero_WorkerList : Zero TemporalWorkerListMem := MkListOf zero zero NilSlice.

Definition TemporalWorkerSpec_DeepCopy (in_ : ptr TemporalWorkerSpecMem) : M heap (ptr TemporalWorkerSpecMem) :=
  copy_ptr in_.
Definition TemporalWorkerStatus_DeepCopy (in_ : ptr TemporalWorkerStatusMem)
    : M heap (ptr TemporalWorkerStatusMem) := copy_ptr in_.
Definition TemporalWorker_DeepCopy (in_ : ptr TemporalWorkerMem) : M heap (ptr TemporalWorkerMem) := copy_ptr in_.
Definition TemporalWorkerList_DeepCopy (in_ : ptr TemporalWorkerListMem) : M heap (ptr TemporalWorkerListMem) :=
  copy_ptr in_.

(** *** As [runtime.Object]

    A value of an interface type is nil, or a pointer with its type; a nil pointer with
    its type is not nil. *)
Inductive Object : Type :=
| NilObject
| QueueObject (p : ptr QueueMem)
| QueueListObject (p : ptr QueueListMem)
| TemporalWorkerObject (p : ptr TemporalWorkerMem)
| TemporalWorkerListObject (p : ptr TemporalWorkerListMem).

Definition Queue_DeepCopyObject (in_ : ptr QueueMem) : M heap Object :=
  c ← Queue_DeepCopy in_;
  match c with At _ => mret (QueueObject c) | Nil => mret NilObject end.

Definition QueueList_DeepCopyObject (in_ : ptr QueueListMem) : M heap Object :=
  c ← QueueList_DeepCopy in_;
  match c with At _ => mret (QueueListObject c) | Nil => mret NilObject end.

Definition TemporalWorker_DeepCopyObject (in_ : ptr TemporalWorkerMem) : M heap Object :=
  c ← TemporalWorker_DeepCopy in_;
  mret (TemporalWorkerObject c).

Definition TemporalWorkerList_DeepCopyObject (in_ : ptr TemporalWorkerListMem) : M heap Object :=
  c ← TemporalWorkerList_DeepCopy in_;
  mret (TemporalWorkerListObject c).

(** Copying the queue and writing the first zone of the copy's first shard. *)
Definition edit_copy (q : ptr QueueMem) (zone : string) : M heap unit :=
  c ← Queue_DeepCopy q;
  match c with
  | Nil => mret tt
  | At l =>
    q' ← load (A := QueueMem) l;
    match qso_Shards (qo_Status q') with
    | NilSlice => mret tt
    | Slice sl off _ =>
      shards ← load (A := list ShardStatusMem) sl;
      match shards !! off with
      | None => mret tt
      | Some s => set_elem (so_AvailabilityZones s) 0 zone
      end
    end
  end.

(** ** What an object stands for *)

#[export] Instance rep_int32 : Rep cell Z Z := rep_plain Z.
#[export] Instance rep_string : Rep cell string string := rep_plain string.
#[export] Instance rep_QueueSpec : Rep cell QueueSpec QueueSpec := rep_plain QueueSpec.

#[export] Instance rep_ShardStatus : Rep cell ShardStatusMem ShardStatusVal := fun h s v L =>
  exists L1 L2, rep h (so_CreatedAt s) (so_CreatedAt v) L1 /\
    rep h (so_AvailabilityZones s) (so_AvailabilityZones v) L2 /\
    s = MkShardOf (so_ID v) (so_Topic v) (so_HashRangeStart v) (so_HashRangeEnd v) (so_Phase v) (so_ParentID v)
          (so_CreatedAt s) (so_AvailabilityZones s) /\ L = L1 ∪ L2.

#[export] Instance rep_QueueStatus : Rep cell QueueStatusMem QueueStatusVal := fun h s v L =>
  exists L1 L2, rep h (qso_Shards s) (qso_Shards v) L1 /\ rep h (qso_Conditions s) (qso_Conditions v) L2 /\
    s = MkQueueStatusOf (qso_Phase v) (qso_Shards s) (qso_Conditions s) /\ L = L1 ∪ L2.

#[export] Instance rep_Queue : Rep cell QueueMem QueueVal := fun h q v L =>
  exists L1 L2, rep h (qo_ObjectMeta q) (qo_ObjectMeta v) L1 /\ rep h (qo_Status q) (qo_Status v) L2 /\
    q = MkQueueOf (qo_TypeMeta v) (qo_ObjectMeta q) (qo_Spec v) (qo_Status q) /\ L = L1 ∪ L2.

#[export] Instance rep_QueueList : Rep cell QueueListMem QueueListVal := fun h l v L =>
  exists L1 L2, rep h (lo_ListMeta l) (lo_ListMeta v) L1 /\ rep h (lo_Items l) (lo_Items v) L2 /\
    l = MkListOf (lo_TypeMeta v) (lo_ListMeta l) (lo_Items l) /\ L = L1 ∪ L2.

#[export] Instance rep_WorkerSpec : Rep cell TemporalWorkerSpecMem TemporalWorkerSpecVal := fun h s v L =>
  exists L1 L2 L3 L4 L5, rep h (wo_Replicas s) (wo_Replicas v) L1 /\ rep h (wo_Resources s) (wo_Resources v) L2 /\
    rep h (wo_NodeSelector s) (wo_NodeSelector v) L3 /\ rep h (wo_Affinity s) (wo_Affinity v) L4 /\
    rep h (wo_Tolerations s) (wo_Tolerations v) L5 /\
    s = MkWorkerSpecOf (wo_Namespace v) (wo_Image v) (wo_ImagePullPolicy v) (wo_Replicas s) (wo_Resources s)
          (wo_NodeSelector s) (wo_Affinity s) (wo_Tolerations s) /\
    L = L1 ∪ L2 ∪ L3 ∪ L4 ∪ L5.

#[export] Instance rep_WorkerStatus : Rep cell TemporalWorkerStatusMem TemporalWorkerStatusVal := fun h s v L =>
  exists L1, rep h (wso_Conditions s) (wso_Conditions v) L1 /\
    s = MkWorkerStatusOf (wso_Phase v) (wso_Replicas v) (wso_ReadyReplicas v) (wso_Conditions s) /\ L = L1.

#[export] Instance rep_Worker : Rep cell TemporalWorkerMem TemporalWorkerVal := fun h w v L =>
  exists L1 L2 L3, rep h (two_ObjectMeta w) (two_ObjectMeta v) L1 /\ rep h (two_Spec w) (two_Spec v) L2 /\
    rep h (two_Status w) (two_Status v) L3 /\
    w = MkWorkerOf (two_TypeMeta v) (two_ObjectMeta w) (two_Spec w) (two_Status w) /\ L = L1 ∪ L2 ∪ L3.

#[export] Instance rep_WorkerList : Rep cell TemporalWorkerListMem TemporalWorkerListVal := fun h l v L =>
  exists L1 L2, rep h (lo_ListMeta l) (lo_ListMeta v) L1 /\ rep h (lo_Items l) (lo_Items v) L2 /\
    l = MkListOf (lo_TypeMeta v) (lo_ListMeta l) (lo_Items l) /\ L = L1 ∪ L2.

(** What the library promises: its copies are deep. *)
Class LibraryLaws : Prop := {
  laws_ObjectMeta :: RepLaws cell LObjectMeta VObjectMeta;
  laws_ListMeta :: RepLaws cell LListMeta VListMeta;
  laws_Time :: RepLaws cell LTime VTime;
  laws_Condition :: RepLaws cell LCondition VCondition;
  laws_Toleration :: RepLaws cell LToleration VToleration;
  laws_ResourceRequirements :: RepLaws cell LResourceRequirements VResourceRequirements;
  laws_Affinity :: RepLaws cell LAffinity VAffinity;
  deep_ObjectMeta :: DeepCopies cell LObjectMeta VObjectMeta every;
  deep_ListMeta :: DeepCopies cell LListMeta VListMeta every;
  deep_Time :: DeepCopies cell LTime VTime every;
  deep_Condition :: DeepCopies cell LCondition VCondition every;
  deep_Toleration :: DeepCopies cell LToleration VToleration every;
  deep_ResourceRequirements :: DeepCopies cell LResourceRequirements VResourceRequirements every;
  deep_Affinity :: DeepCopies cell LAffinity VAffinity every
}.

Context {Laws : LibraryLaws}.

#[export] Instance laws_int32 : RepLaws cell Z Z.
Proof. apply rep_plain_laws. Qed.
#[export] Instance laws_string : RepLaws cell string string.
Proof. apply rep_plain_laws. Qed.
#[export] Instance laws_QueueSpec : RepLaws cell QueueSpec QueueSpec.
Proof. apply rep_plain_laws. Qed.
#[export] Instance deep_int32 : DeepCopies cell Z Z every.
Proof. apply copy_plain_deep. Qed.
#[export] Instance deep_string : DeepCopies cell string string every.
Proof. apply copy_plain_deep. Qed.
#[export] Instance deep_QueueSpec : DeepCopies cell QueueSpec QueueSpec every.
Proof. apply copy_plain_deep. Qed.

#[export] Instance laws_ShardStatus : RepLaws cell ShardStatusMem ShardStatusVal.
Proof. struct_laws. Qed.
#[export] Instance laws_QueueStatus : RepLaws cell QueueStatusMem QueueStatusVal.
Proof. struct_laws. Qed.
#[export] Instance laws_Queue : RepLaws cell QueueMem QueueVal.
Proof. struct_laws. Qed.
#[export] Instance laws_QueueList : RepLaws cell QueueListMem QueueListVal.
Proof. struct_laws. Qed.
#[export] Instance laws_WorkerSpec : RepLaws cell TemporalWorkerSpecMem TemporalWorkerSpecVal.
Proof. struct_laws. Qed.
#[export] Instance laws_WorkerStatus : RepLaws cell TemporalWorkerStatusMem TemporalWorkerStatusVal.
Proof. struct_laws. Qed.
#[export] Instance laws_Worker : RepLaws cell TemporalWorkerMem TemporalWorkerVal.
Proof. struct_laws. Qed.
#[export] Instance laws_WorkerList : RepLaws cell TemporalWorkerListMem TemporalWorkerListVal.
Proof. struct_laws. Qed.

(** ** The copies are deep *)

#[export] Instance deep_WorkerStatus : DeepCopies cell TemporalWorkerStatusMem TemporalWorkerStatusVal every.
Proof. copy_struct. unfold TemporalWorkerStatus_DeepCopyInto. copy_field. copies_done. Qed.

#[export] Instance deep_WorkerSpec : DeepCopies cell TemporalWorkerSpecMem TemporalWorkerSpecVal every.
Proof. copy_struct. unfold TemporalWorkerSpec_DeepCopyInto. do 5 copy_field. copies_done. Qed.

#[export] Instance deep_Worker : DeepCopies cell TemporalWorkerMem TemporalWorkerVal every.
Proof. copy_struct. unfold TemporalWorker_DeepCopyInto. do 3 copy_field. copies_done. Qed.

#[export] Instance deep_WorkerList : DeepCopies cell TemporalWorkerListMem TemporalWorkerListVal every.
Proof. copy_struct. unfold TemporalWorkerList_DeepCopyInto. do 2 copy_field. copies_done. Qed.

(** A shard's copy is deep when it has no zones: the slice is not copied. *)
Definition no_zones (s : ShardStatusVal) : Prop := so_AvailabilityZones s = None.

Definition shards_no_zones (s : QueueStatusVal) : Prop :=
  forall shards, qso_Shards s = Some shards -> Forall no_zones shards.

Definition queue_no_zones (q : QueueVal) : Prop := shards_no_zones (qo_Status q).

Definition queues_no_zones (l : QueueListVal) : Prop :=
  forall queues, lo_Items l = Some queues -> Forall queue_no_zones queues.

#[export] Instance deep_ShardStatus : DeepCopies cell ShardStatusMem ShardStatusVal no_zones.
Proof.
  copy_struct. unfold ShardStatus_DeepCopyInto.
  lazymatch goal with H : rep _ (so_AvailabilityZones a) _ ?L |- _ =>
    assert (L = ∅) by (rewrite Hφ in H; by destruct (so_AvailabilityZones a)); subst L end.
  copy_field. copies_done.
Qed.

#[export] Instance deep_QueueStatus : DeepCopies cell QueueStatusMem QueueStatusVal shards_no_zones.
Proof. copy_struct. unfold QueueStatus_DeepCopyInto. copy_field; [exact Hφ |]. copy_field. copies_done. Qed.

#[export] Instance deep_Queue : DeepCopies cell QueueMem QueueVal queue_no_zones.
Proof. copy_struct. unfold Queue_DeepCopyInto. copy_field. copy_field; [exact Hφ |]. copies_done. Qed.

#[export] Instance deep_QueueList : DeepCopies cell QueueListMem QueueListVal queues_no_zones.
Proof. copy_struct. unfold QueueList_DeepCopyInto. copy_field. copy_field; [exact Hφ |]. copies_done. Qed.

(** ** Properties *)

(** C34. A deep copy of a TemporalWorker, or of a list of them, is independent of the
    original: it stands for the same object, in memory that is all new, so that nothing
    written through the one is seen through the other; and nil is copied to nil. *)
Theorem TemporalWorker_DeepCopy_independent (h : heap) p v L lp lv LL :
  rep h p v L -> rep h lp lv LL ->
  independent_copy h p v L (TemporalWorker_DeepCopy p) /\
  independent_copy h lp lv LL (TemporalWorkerList_DeepCopy lp).
Proof.
  intros Hp Hlp. split; apply copied_independent; [done | by eapply (copy_ptr_deep (φ := every)) |
    done | by eapply (copy_ptr_deep (φ := every))].
Qed.

(** A deep copy of a Queue is independent of the original as long as no shard has
    availability zones. *)
Theorem Queue_DeepCopy_independent (h : heap) p v L lp lv LL :
  rep h p v L -> (forall q, v = Some q -> queue_no_zones q) ->
  rep h lp lv LL -> (forall l, lv = Some l -> queues_no_zones l) ->
  independent_copy h p v L (Queue_DeepCopy p) /\ independent_copy h lp lv LL (QueueList_DeepCopy lp).
Proof.
  intros Hp Hv Hlp Hlv. split; apply copied_independent; try done.
  - by eapply (copy_ptr_deep (φ := queue_no_zones)).
  - by eapply (copy_ptr_deep (φ := queues_no_zones)).
Qed.

(** The two ways to make an [Object]: the generated one turns nil into nil, the
    hand-written one into an object that is not nil and has nothing behind it. *)
Theorem DeepCopyObject_nil (h : heap) :
  Queue_DeepCopyObject Nil h = (Ok NilObject, h) /\
  QueueList_DeepCopyObject Nil h = (Ok NilObject, h) /\
  TemporalWorker_DeepCopyObject Nil h = (Ok (TemporalWorkerObject Nil), h) /\
  TemporalWorkerList_DeepCopyObject Nil h = (Ok (TemporalWorkerListObject Nil), h).
Proof. done. Qed.
End Memory.

(** ** An example *)

(** A library whose metadata is a name and labels, and whose other types have no
    pointers. *)
Record ExampleMeta (Labels : Type) : Type := MkExampleMeta { em_Name : string; em_Labels : Labels }.
Arguments MkExampleMeta {Labels}.
Arguments em_Name {Labels}.
Arguments em_Labels {Labels}.

#[export] Instance ExampleLibrary : Library := {|
  LObjectMeta := ExampleMeta (gomap string); VObjectMeta := ExampleMeta (option (gmap string string));
  LListMeta := string; VListMeta := string; LTime := Z; VTime := Z; LCondition := string; VCondition := string;
  LToleration := string; VToleration := string; LResourceRequirements := string; VResourceRequirements := string;
  LAffinity := string; VAffinity := string; LCell := Empty_set;
  zero_ObjectMeta := MkExampleMeta "" NilMap; zero_ListMeta := ""; zero_Time := 0%Z; zero_Condition := "";
  zero_Toleration := ""; zero_ResourceRequirements := ""; zero_Affinity := "" |}.

#[export] Instance ExampleCopies : LibraryCopies := {|
  copy_ObjectMeta := fun m => labels ← copy_map (em_Labels m); mret (MkExampleMeta (em_Name m) labels);
  copy_ListMeta := copy_plain _; copy_Time := copy_plain _; copy_Condition := copy_plain _;
  copy_Toleration := copy_plain _; copy_ResourceRequirements := copy_plain _; copy_Affinity := copy_plain _;
  rep_ObjectMeta := fun h m v L => exists L1, rep h (em_Labels m) (em_Labels v) L1 /\
    m = MkExampleMeta (em_Name v) (em_Labels m) /\ L = L1;
  rep_ListMeta := rep_plain _; rep_Time := rep_plain _; rep_Condition := rep_plain _;
  rep_Toleration := rep_plain _; rep_ResourceRequirements := rep_plain _; rep_Affinity := rep_plain _ |}.

#[export] Instance ExampleLaws : LibraryLaws.
Proof.
  split; try apply rep_plain_laws; try apply copy_plain_deep.
  - struct_laws.
  - copy_struct. unfold copy_ObjectMeta. cbn. copy_field. copies_done.
Qed.

(** A heap with a worker at 5, in a list at 7, and a queue with one shard at 10. *)
Definition example_labels : gmap string string := {["app" := "mail"]}.
Definition example_selector : gmap string string := {["disk" := "ssd"]}.

Definition worker_mem : TemporalWorkerMem :=
  MkWorkerOf (MkTypeMeta "TemporalWorker" "kmsvc.io/v1") (MkExampleMeta "mail" (MapAt 1))
    (MkWorkerSpecOf "mail" "worker:1" "" (At 2) Nil (MapAt 3) Nil (Slice 4 1 2))
    (MkWorkerStatusOf "Ready" 3 3 NilSlice).

Definition worker_val : TemporalWorkerVal :=
  MkWorkerOf (MkTypeMeta "TemporalWorker" "kmsvc.io/v1") (MkExampleMeta "mail" (Some example_labels))
    (MkWorkerSpecOf "mail" "worker:1" "" (Some 3%Z) None (Some example_selector) None (Some ["b"; "c"]))
    (MkWorkerStatusOf "Ready" 3 3 None).

Definition queue_mem : QueueMem :=
  MkQueueOf (MkTypeMeta "Queue" "kmsvc.io/v1") (MkExampleMeta "mail" (MapAt 1)) zero_QueueSpec
    (MkQueueStatusOf "Ready" (Slice 9 0 1) NilSlice).

Definition shard_mem (zones : slice string) : ShardStatusMem :=
  MkShardOf "0" "kmsvc.mail.shard-0" 0 4294967295 "Active" "" 0%Z zones.

Definition queue_val (zones : option (list string)) : QueueVal :=
  MkQueueOf (MkTypeMeta "Queue" "kmsvc.io/v1") (MkExampleMeta "mail" (Some example_labels)) zero_QueueSpec
    (MkQueueStatusOf "Ready" (Some [MkShardOf "0" "kmsvc.mail.shard-0" 0 4294967295 "Active" "" 0%Z zones]) None).

Definition example_heap (zones : slice string) : gmap loc cell :=
  list_to_map
    [(1%positive, CMap example_labels); (2%positive, CInt32 3); (3%positive, CMap example_selector);
     (4%positive, CTolerations ["a"; "b"; "c"]); (5%positive, CWorker worker_mem);
     (6%positive, CWorkers [worker_mem; worker_mem]);
     (7%positive, CWorkerList (MkListOf (MkTypeMeta "TemporalWorkerList" "kmsvc.io/v1") "v7" (Slice 6 0 2)));
     (8%positive, CStrings ["eu-1"]); (9%positive, CShards [shard_mem zones]); (10%positive, CQueue queue_mem)].

Ltac rep_compute :=
  repeat first
    [ reflexivity
    | lazymatch goal with
      | |- _ /\ _ => split
      | |- ex _ => eexists
      | |- rep_list _ _ _ _ => first [apply rep_nil | apply rep_cons]
      | |- rep _ _ _ _ => hnf
      | |- _ !! _ = _ => by vm_compute
      end ].

Lemma worker_mem_rep zones : exists L, rep (example_heap zones) worker_mem worker_val L.
Proof. eexists. rep_compute. Qed.

Lemma worker_list_rep zones : exists L,
  rep (example_heap zones) (At (A := TemporalWorkerListMem) 7)
    (Some (MkListOf (MkTypeMeta "TemporalWorkerList" "kmsvc.io/v1") "v7" (Some [worker_val; worker_val]))) L.
Proof. eexists. rep_compute. Qed.

Lemma worker_rep zones : exists L, rep (example_heap zones) (At (A := TemporalWorkerMem) 5) (Some worker_val) L.
Proof. eexists. rep_compute. Qed.

Lemma TemporalWorker_DeepCopy_independent_witness :
  let h := example_heap NilSlice in
  exists L LL, independent_copy h (At 5) (Some worker_val) L (TemporalWorker_DeepCopy (At 5)) /\
    independent_copy h (At 7)
      (Some (MkListOf (MkTypeMeta "TemporalWorkerList" "kmsvc.io/v1") "v7" (Some [worker_val; worker_val]))) LL
      (TemporalWorkerList_DeepCopy (At 7)).
Proof.
  cbv zeta. destruct (worker_rep NilSlice) as [L HL]. destruct (worker_list_rep NilSlice) as [LL HLL].
  exists L, LL. exact (TemporalWorker_DeepCopy_independent _ _ _ _ _ _ _ HL HLL).
Defined.

Lemma Queue_DeepCopy_independent_witness :
  let h := example_heap NilSlice in
  exists L, independent_copy h (At 10) (Some (queue_val None)) L (Queue_DeepCopy (At 10)) /\
    independent_copy h Nil None ∅ (QueueList_DeepCopy Nil).
Proof.
  cbv zeta. assert (Hq : exists L, rep (example_heap NilSlice) (At (A := QueueMem) 10) (Some (queue_val None)) L)
    by (eexists; rep_compute).
  destruct Hq as [L HL]. exists L. apply (Queue_DeepCopy_independent _ _ _ _ _ _ _ HL).
  - intros q [= <-] shards [= <-]. by repeat constructor.
  - done.
  - done.
Defined.

(** With zones the copy of a Queue is not deep: the shards' slices are shared, so
    that a write to the copy changes the original. *)
Theorem Queue_DeepCopy_shares_zones :
  let h := example_heap (Slice 8 0 1) in
  exists L h', rep h (At 10) (Some (queue_val (Some ["eu-1"]))) L /\
    edit_copy (At 10) "eu-2" h = (Ok tt, h') /\
    rep h' (At 10) (Some (queue_val (Some ["eu-2"]))) L.
Proof.
  cbv zeta. eexists _, (snd (edit_copy (At 10) "eu-2" (example_heap (Slice 8 0 1)))). split; [rep_compute |].
  split; [apply run_fst; by vm_compute |]. rep_compute.
Qed.
