(* ===== verification/Scheme.v ===== *)
(** Registration of the API types: [apis/kmsvc/v1/groupversion_info.go] and the [init]
    functions of [queue_types.go] and [temporalworker_types.go].

    controller-runtime's builder is a parameter, with what its documentation says of it.
    [AddToScheme] is a method value taken when the package's variables are initialised,
    before any [init] has run; it holds the builder's pointer, so it reads the builder as
    it is when it is called. *)

From S2P Require Import Prelude.

Record GroupVersionT : Type := MkGroupVersion { gv_Group : string; gv_Version : string }.

#[export] Instance GroupVersionT_eq_dec : EqDecision GroupVersionT.
Proof. solve_decision. Defined.

(** The objects that are registered, by their Go types. *)
Inductive api_object : Type := OQueue | OQueueList | OTemporalWorker | OTemporalWorkerList.

#[export] Instance api_object_eq_dec : EqDecision api_object.
Proof. solve_decision. Defined.

(** [scheme.Builder] and [runtime.Scheme]; [recognizes] is [Scheme.Recognizes]. *)
Class SchemeLibrary : Type := {
  Builder : Type;
  RuntimeScheme : Type;
  NewBuilder : GroupVersionT -> Builder;
  Builder_Register : list api_object -> Builder -> Builder;
  Builder_AddToScheme : Builder -> RuntimeScheme -> res RuntimeScheme;
  recognizes : RuntimeScheme -> GroupVersionT -> api_object -> bool
}.

(** What a builder has in store, and that adding it to a scheme adds that. *)
Class SchemeLaws (S : SchemeLibrary) : Type := {
  builds : Builder -> GroupVersionT -> list api_object -> Prop;
  law_new_builder gv : builds (NewBuilder gv) gv [];
  law_register b gv l l' : builds b gv l -> builds (Builder_Register l' b) gv (l ++ l');
  law_add_to_scheme b gv l s s' :
    builds b gv l -> Builder_AddToScheme b s = Ok s' ->
    forall gv' o, recognizes s' gv' o = recognizes s gv' o || bool_decide (gv' = gv /\ o ∈ l)
}.

Section Package.
Context {S : SchemeLibrary}.

Definition GroupVersion : GroupVersionT := MkGroupVersion "kmsvc.io" "v1".

(** The package's variables: the pointer's builder is the state. *)
Definition SchemeBuilder : Builder := NewBuilder GroupVersion.

Definition AddToScheme (s : RuntimeScheme) : M Builder RuntimeScheme := fun b => (Builder_AddToScheme b s, b).

Definition init_queue_types : M Builder unit := modify (Builder_Register [OQueue; OQueueList]).

Definition init_temporalworker_types : M Builder unit := modify (Builder_Register [OTemporalWorker; OTemporalWorkerList]).

(** What runs before [main]: the files' [init]s in the order of their names. *)
Definition package_init : M Builder unit := _ ← init_queue_types; init_temporalworker_types.

(** A program's call, from [main]. *)
Definition main_AddToScheme (s : RuntimeScheme) : res RuntimeScheme :=
  fst ((_ ← package_init; AddToScheme s) SchemeBuilder).
End Package.

(** A scheme that the package was added to recognizes all its objects in its group, and
    what it recognized before. *)
Theorem AddToScheme_registers {S : SchemeLibrary} {SL : SchemeLaws S} s s' :
  main_AddToScheme s = Ok s' ->
  (forall o, recognizes s' GroupVersion o = true) /\
  (forall gv o, gv <> GroupVersion -> recognizes s' gv o = recognizes s gv o).
Proof.
  unfold main_AddToScheme, package_init, init_queue_types, init_temporalworker_types. rewrite !mbind_run. cbn. intros Hadd.
  assert (Hb := law_register _ _ _ [OTemporalWorker; OTemporalWorkerList]
                  (law_register _ _ _ [OQueue; OQueueList] (law_new_builder GroupVersion))).
  pose proof (law_add_to_scheme _ _ _ _ _ Hb Hadd) as Hrec. split.
  - intros o. rewrite Hrec, bool_decide_eq_true_2, orb_true_r; [done |]. split; [done |]. destruct o; set_solver.
  - intros gv o Hne. rewrite Hrec, bool_decide_eq_false_2, orb_false_r; [done |]. by intros [? _].
Qed.

(** A library that keeps the laws: a builder is its group and objects, a scheme what it
    recognizes. *)
#[export] Instance SimpleScheme : SchemeLibrary := {|
  Builder := GroupVersionT * list api_object;
  RuntimeScheme := list (GroupVersionT * api_object);
  NewBuilder gv := (gv, []);
  Builder_Register l b := (fst b, snd b ++ l);
  Builder_AddToScheme b s := Ok (s ++ ((fun o => (fst b, o)) <$> snd b));
  recognizes s gv o := bool_decide ((gv, o) ∈ s)
|}.

#[export] Instance SimpleScheme_laws : SchemeLaws SimpleScheme.
Proof.
  refine {| builds (b : @Builder SimpleScheme) gv l := b = (gv, l) |}; cbn.
  - done.
  - by intros b gv l l' ->.
  - intros b gv l s s' -> [= <-] gv' o. cbn. rewrite <- bool_decide_or. apply bool_decide_ext. set_solver.
Defined.

Lemma AddToScheme_registers_witness :
  exists s', main_AddToScheme ([] : list (GroupVersionT * api_object)) = Ok s' /\
    forall o, recognizes s' GroupVersion o = true.
Proof.
  eexists. split; [reflexivity |].
  apply (AddToScheme_registers (S := SimpleScheme) (SL := SimpleScheme_laws) ([] : list (GroupVersionT * api_object))).
  reflexivity.
Defined.
