(* ===== verification/Shards.v ===== *)
(** The shard list of a queue, as the operator maintains it: [newShard] and
    [nextShardID] of [internal/operator/queue_controller.go], [shard_split.go] and
    [shard_drain.go].

    A pass works on the shard list of the queue in memory; [reconcileSplits] returns
    the list together with its error, because what it did before failing stays. *)

From S2P Require Import Prelude GoNum GoStr Topology Redis World Admin Kube.
From Stdlib Require Import SpecFloat.

Local Open Scope Z_scope.

(** ** float64 *)

Notation float64 := spec_float.
Definition f64_of_Z (z : Z) : float64 := binary_normalize 53 1024 z 0 false.
Definition f64_add : float64 -> float64 -> float64 := SFadd 53 1024.
Definition f64_mul : float64 -> float64 -> float64 := SFmul 53 1024.
Definition f64_div : float64 -> float64 -> float64 := SFdiv 53 1024.

(** [now.Sub(t)]: a difference of times, saturated to [int64]. *)
Definition time_sub (a b : Z) : Z := Z.max (- 2 ^ 63) (Z.min (2 ^ 63 - 1) (a - b)).

(** [Duration.Seconds] *)
Definition duration_seconds (d : Z) : float64 :=
  f64_add (f64_of_Z (Z.quot d Second)) (f64_div (f64_of_Z (Z.rem d Second)) (f64_of_Z (10 ^ 9))).

(** ** queue_controller.go *)

Definition avgMessageSizeBytesEstimate : Z := 1024.

(** [newShard], at the time [now]. *)
Definition newShard (now : Z) (id parentID : string) (start end_ : Z) (queue : Queue) : ShardStatus :=
  {| ss_ID := id; ss_Topic := ShardTopicName (q_Name queue) (qs_FIFOQueue (q_Spec queue)) id;
     ss_HashRangeStart := start; ss_HashRangeEnd := end_; ss_Phase := ShardPhaseActive;
     ss_ParentID := parentID; ss_CreatedAt := now; ss_AvailabilityZones := [] |}.

Definition max_shard_id (shards : list ShardStatus) : Z :=
  foldl (fun max s => match Atoi (ss_ID s) with Some n => if max <? n then n else max | None => max end)
    (-1) shards.

Definition nextShardID (shards : list ShardStatus) : string := FormatInt (i64 (max_shard_id shards + 1)).

(** ** shard_split.go *)

Definition is_active (s : ShardStatus) : bool := bool_decide (ss_Phase s = ShardPhaseActive).

Definition active_count (shards : list ShardStatus) : Z :=
  foldl (fun n s => if is_active s then n + 1 else n) 0 shards.

(** The throughput test: whether the shard has to be split. *)
Definition over_threshold (threshold : Z) (prev : sample) (offsetSum now : Z) : bool :=
  let elapsed := duration_seconds (time_sub now (sm_at prev)) in
  if SFleb elapsed (f64_of_Z 0) then false
  else
    let recordsPerSec := f64_div (f64_of_Z (i64 (offsetSum - sm_offsetSum prev))) elapsed in
    let bytesPerSec := f64_mul recordsPerSec (f64_of_Z avgMessageSizeBytesEstimate) in
    negb (SFltb bytesPerSec (f64_of_Z threshold)).

(** The split of the [i]-th shard [s]. *)
Definition split_shard (queue : Queue) (now : Z) (i : nat) (s : ShardStatus) (shards : list ShardStatus)
    : list ShardStatus :=
  let mid := SplitHashRange (u32 (ss_HashRangeStart s)) (u32 (ss_HashRangeEnd s)) in
  let childAID := nextShardID shards in
  let childA := newShard now childAID (ss_ID s) (u32 (ss_HashRangeStart s)) mid queue in
  let childAIDNum := default 0 (Atoi childAID) in
  let childBID := FormatInt (i64 (childAIDNum + 1)) in
  let childB := newShard now childBID (ss_ID s) mid (u32 (ss_HashRangeEnd s)) queue in
  <[i := set_phase ShardPhaseClosing s]> shards ++ [childA; childB].

Section Ops.
Context {TA : TopicAdmin}.

(** The loop over the shards present at its start, from the [i]-th with [n] to go. *)
Fixpoint split_loop (queue : Queue) (maxShards threshold cooldown : Z) (n i : nat) (activeCount : Z)
    (shards : list ShardStatus) : M oworld (list ShardStatus * option error) :=
  match n with
  | O => mret (shards, None)
  | S n' =>
    match shards !! i with
    | None => mret (shards, None)
    | Some s =>
      let continue := split_loop queue maxShards threshold cooldown n' (S i) activeCount shards in
      if negb (is_active s) then continue
      else if maxShards <=? i32 activeCount then mret (shards, None)
      else
        now ← lift Now;
        if negb (ss_CreatedAt s =? zero_time) && (now <? ss_CreatedAt s + seconds cooldown) then continue
        else
          r ← attempt (lift (log_end_offset_sum (ss_Topic s)));
          match r with
          | Err e => mret (shards, Some (ErrWrap ("sample throughput " +:+ ss_Topic s +:+ ": ") e))
          | Ok offsetSum =>
            prev ← gets (fun o => o_samples o !! ss_Topic s);
            now ← lift Now;
            _ ← modify (fun o => set_samples (<[ss_Topic s := MkSample offsetSum now]> (o_samples o)) o);
            match prev with
            | None => continue
            | Some prev =>
              if over_threshold threshold prev offsetSum now then
                _ ← modify (fun o => set_samples (delete (ss_Topic s) (o_samples o)) o);
                split_loop queue maxShards threshold cooldown n' (S i) (activeCount + 1)
                  (split_shard queue now i s shards)
              else continue
            end
          end
    end
  end.

Definition effective_max_shards (spec : QueueSpec) : Z :=
  if qs_MaxShards spec <=? 0 then 8 else qs_MaxShards spec.

Definition reconcileSplits (queue : Queue) : M oworld (Queue * option error) :=
  let shards := qst_Shards (q_Status queue) in
  let maxShards := effective_max_shards (q_Spec queue) in
  let threshold := qs_ShardSplitThresholdBytesPerSec (q_Spec queue) in
  if threshold <=? 0 then mret (queue, None)
  else
    let cooldown := qs_ShardSplitCooldownSeconds (q_Spec queue) in
    r ← split_loop queue maxShards threshold cooldown (length shards) 0 (active_count shards) shards;
    mret (set_shards (fst r) queue, snd r).

(** ** shard_drain.go *)

Definition secondsToDuration (s : Z) : Z := seconds s.

Fixpoint drain_loop (group : string) (retention : Z) (shards : list ShardStatus)
    : M oworld (list ShardStatus) :=
  match shards with
  | [] => mret []
  | s :: rest =>
    if negb (bool_decide (ss_Phase s = ShardPhaseClosing)) then
      kept ← drain_loop group retention rest; mret (s :: kept)
    else
      lag ← wrap_err ("consumer lag " +:+ ss_Topic s +:+ ": ") (lift (consumer_lag group (ss_Topic s)));
      now ← lift Now;
      if (0 <? lag) || (now <? ss_CreatedAt s + retention) then
        kept ← drain_loop group retention rest; mret (s :: kept)
      else
        _ ← wrap_err ("delete drained topic " +:+ ss_Topic s +:+ ": ") (lift (delete_topic (ss_Topic s)));
        kept ← drain_loop group retention rest; mret (set_phase ShardPhaseClosed s :: kept)
  end.

Definition reconcileDrains (queue : Queue) : M oworld Queue :=
  let group := ConsumerGroup (q_Name queue) in
  let retention := secondsToDuration (qs_MessageRetentionPeriodSeconds (q_Spec queue)) in
  kept ← drain_loop group retention (qst_Shards (q_Status queue));
  mret (set_shards kept queue).
End Ops.

(** ** The invariant *)

(** [s] is an active shard whose range holds [h]. *)
Definition covers (h : Z) (s : ShardStatus) : bool :=
  is_active s && (ss_HashRangeStart s <=? h) && (h <? ss_HashRangeEnd s).

Definition cover_count (h : Z) (shards : list ShardStatus) : nat :=
  sum_list_with (fun s => if covers h s then 1 else 0)%nat shards.

(** A queue's shard list is sound: the shards are numbered from 0 in order, each has
    the topic of its number, ranges are within the hash space, and every hash value is
    covered by exactly one active shard. *)
Record shards_ok (queue : Queue) (shards : list ShardStatus) : Prop := {
  ok_ids i s : shards !! i = Some s -> ss_ID s = FormatInt (Z.of_nat i);
  ok_topics s : s ∈ shards -> ss_Topic s = ShardTopicName (q_Name queue) (qs_FIFOQueue (q_Spec queue)) (ss_ID s);
  ok_ranges s : s ∈ shards -> 0 <= ss_HashRangeStart s <= ss_HashRangeEnd s /\ ss_HashRangeEnd s <= FullHashRangeEnd;
  ok_cover h : 0 <= h < FullHashRangeEnd -> cover_count h shards = 1%nat
}.

(** ** Lemmas *)

Lemma active_count_foldl shards n :
  foldl (fun n s => if is_active s then n + 1 else n) n shards =
  n + Z.of_nat (sum_list_with (fun s => if is_active s then 1 else 0)%nat shards).
Proof.
  revert n. induction shards as [|s shards IH]; intros n; simpl; [lia |].
  rewrite IH. destruct (is_active s); lia.
Qed.

Lemma active_count_sum shards :
  active_count shards = Z.of_nat (sum_list_with (fun s => if is_active s then 1 else 0)%nat shards).
Proof. apply active_count_foldl. Qed.

Lemma active_count_length shards : 0 <= active_count shards <= Z.of_nat (length shards).
Proof.
  rewrite active_count_sum. induction shards as [|s shards IH]; simpl; [lia |].
  destruct (is_active s); lia.
Qed.

(** Replacing one element and adding two changes a sum by the difference. *)
Lemma sum_split (f : ShardStatus -> nat) shards i s s' a b :
  shards !! i = Some s ->
  (sum_list_with f (<[i := s']> shards ++ [a; b]) + f s =
   sum_list_with f shards + f s' + f a + f b)%nat.
Proof.
  intros Hi. rewrite sum_list_with_app. simpl.
  rewrite <- (take_drop_middle shards i s Hi) at 2.
  rewrite insert_take_drop by (by apply lookup_lt_Some in Hi).
  rewrite !sum_list_with_app. simpl. lia.
Qed.

Lemma max_shard_id_foldl shards i0 m :
  (forall i s, shards !! i = Some s -> ss_ID s = FormatInt (Z.of_nat (i0 + i))) ->
  Z.of_nat (i0 + length shards) < 2 ^ 63 -> m < Z.of_nat i0 ->
  foldl (fun max s => match Atoi (ss_ID s) with Some n => if max <? n then n else max | None => max end) m shards =
  match shards with [] => m | _ => Z.of_nat (i0 + length shards) - 1 end.
Proof.
  revert i0 m. induction shards as [|s shards IH]; intros i0 m Hids Hlen Hm; [done |].
  simpl. rewrite (Hids 0%nat s eq_refl), Nat.add_0_r.
  rewrite Atoi_FormatInt by (unfold is_i64; simpl in Hlen; lia).
  destruct (Z.ltb_spec m (Z.of_nat i0)); [| lia].
  rewrite (IH (S i0)); [| | simpl in *; lia | lia].
  - destruct shards; simpl; lia.
  - intros i t Hi. rewrite (Hids (S i) t Hi). do 2 f_equal. lia.
Qed.

Section Ids.
Context (queue : Queue) (shards : list ShardStatus) (Hok : shards_ok queue shards).
Context (Hlen : Z.of_nat (length shards) + 1 < 2 ^ 63).

Lemma nextShardID_length : nextShardID shards = FormatInt (Z.of_nat (length shards)).
Proof.
  unfold nextShardID, max_shard_id. rewrite (max_shard_id_foldl shards 0 (-1)).
  - f_equal. destruct shards as [|s l]; [done |].
    replace (Z.of_nat (0 + length (s :: l)) - 1 + 1) with (Z.of_nat (length (s :: l))) by lia.
    apply i64_id. unfold is_i64. lia.
  - apply (ok_ids _ _ Hok).
  - simpl. lia.
  - lia.
Qed.

Lemma ids_unique i j s t : shards !! i = Some s -> shards !! j = Some t -> ss_ID s = ss_ID t -> i = j.
Proof.
  intros Hi Hj Heq. apply (ok_ids _ _ Hok) in Hi, Hj. rewrite Hi, Hj in Heq.
  apply FormatInt_inj in Heq. lia.
Qed.
End Ids.

Lemma elem_of_pair {A} (x a b : A) : x ∈ [a; b] -> x = a \/ x = b.
Proof. set_solver. Qed.

Lemma elem_of_list_insert {A} (l : list A) i x y : y ∈ <[i := x]> l -> y = x \/ y ∈ l.
Proof.
  intros [j Hj]%list_elem_of_lookup. destruct (decide (i = j)) as [-> | Hne].
  - apply list_lookup_insert_Some in Hj as [(_ & -> & _) | [? _]]; [by left | done].
  - rewrite list_lookup_insert_ne in Hj by done. right. by eapply list_elem_of_lookup_2.
Qed.

(** A split at [mid], with the numbers the children get in a sound list. *)
Definition halved (queue : Queue) (now : Z) (i : nat) (s : ShardStatus) (mid : Z) (shards : list ShardStatus)
    : list ShardStatus :=
  <[i := set_phase ShardPhaseClosing s]> shards ++
  [newShard now (FormatInt (Z.of_nat (length shards))) (ss_ID s) (ss_HashRangeStart s) mid queue;
   newShard now (FormatInt (Z.of_nat (length shards) + 1)) (ss_ID s) mid (ss_HashRangeEnd s) queue].

Lemma split_shard_halved queue now i s shards :
  shards_ok queue shards -> Z.of_nat (length shards) + 2 < 2 ^ 63 -> s ∈ shards ->
  exists mid, ss_HashRangeStart s <= mid <= ss_HashRangeEnd s /\
    split_shard queue now i s shards = halved queue now i s mid shards.
Proof.
  intros Hok Hlen Hin. destruct (ok_ranges _ _ Hok s Hin) as [Hr1 Hr2].
  exists (SplitHashRange (ss_HashRangeStart s) (ss_HashRangeEnd s)). split.
  - rewrite SplitHashRange_mid by (unfold FullHashRangeEnd in *; lia). Z.div_mod_to_equations. lia.
  - unfold split_shard, halved. cbv zeta. rewrite !u32_id by (unfold is_u32, FullHashRangeEnd in *; lia).
    rewrite (nextShardID_length queue shards Hok) by lia.
    rewrite Atoi_FormatInt by (unfold is_i64; lia). cbn [default from_option id].
    by rewrite i64_id by (unfold is_i64; lia).
Qed.

(** Whatever holds of the old shards, of the closing one and of the children. *)
Lemma halved_forall (P : ShardStatus -> Prop) queue now i s mid shards :
  (forall t, t ∈ shards -> P t) -> P (set_phase ShardPhaseClosing s) ->
  (forall id start end_, (start, end_) = (ss_HashRangeStart s, mid) \/ (start, end_) = (mid, ss_HashRangeEnd s) ->
     P (newShard now id (ss_ID s) start end_ queue)) ->
  forall t, t ∈ halved queue now i s mid shards -> P t.
Proof.
  intros Hold Hs Hnew t [Ht | Ht]%elem_of_app.
  - apply elem_of_list_insert in Ht as [-> | Ht]; auto.
  - apply elem_of_pair in Ht as [-> | ->]; apply Hnew; auto.
Qed.

Lemma halved_ids queue now i s mid shards :
  shards_ok queue shards -> shards !! i = Some s ->
  forall j t, halved queue now i s mid shards !! j = Some t -> ss_ID t = FormatInt (Z.of_nat j).
Proof.
  intros Hok Hi j t [Hj | [Hge Hj]]%lookup_app_Some.
  - destruct (decide (i = j)) as [<- | Hne].
    + rewrite list_lookup_insert_eq in Hj by (by apply lookup_lt_Some in Hi). simplify_eq.
      exact (ok_ids _ _ Hok i s Hi).
    + rewrite list_lookup_insert_ne in Hj by done. by apply (ok_ids _ _ Hok).
  - rewrite length_insert in *. destruct (j - length shards)%nat as [|[|]] eqn:Ej; simpl in Hj; simplify_eq;
      unfold newShard; cbn [ss_ID]; f_equal; lia.
Qed.

Lemma halved_cover queue now i s mid shards h :
  shards !! i = Some s -> is_active s = true -> ss_HashRangeStart s <= mid <= ss_HashRangeEnd s ->
  cover_count h (halved queue now i s mid shards) = cover_count h shards.
Proof.
  intros Hi Hact Hmid. unfold cover_count, halved. set (s' := set_phase _ _). set (a := newShard _ _ _ _ _ _).
  set (b := newShard _ _ _ _ _ _).
  pose proof (sum_split (fun s => if covers h s then 1 else 0)%nat shards i s s' a b Hi) as Hsum. cbv beta in Hsum.
  replace (covers h s) with ((ss_HashRangeStart s <=? h) && (h <? ss_HashRangeEnd s)) in Hsum
    by (unfold covers; by rewrite Hact).
  change (covers h s') with false in Hsum.
  change (covers h a) with ((ss_HashRangeStart s <=? h) && (h <? mid)) in Hsum.
  change (covers h b) with ((mid <=? h) && (h <? ss_HashRangeEnd s)) in Hsum.
  revert Hsum. zbool; simpl; lia.
Qed.

Lemma halved_active queue now i s mid shards :
  shards !! i = Some s -> is_active s = true ->
  active_count (halved queue now i s mid shards) = active_count shards + 1.
Proof.
  intros Hi Hact. rewrite !active_count_sum. unfold halved. set (s' := set_phase _ _). set (a := newShard _ _ _ _ _ _).
  set (b := newShard _ _ _ _ _ _).
  pose proof (sum_split (fun s => if is_active s then 1 else 0)%nat shards i s s' a b Hi) as Hsum. cbv beta in Hsum.
  rewrite Hact in Hsum. change (is_active s') with false in Hsum.
  change (is_active a) with true in Hsum. change (is_active b) with true in Hsum. cbv iota in Hsum. lia.
Qed.

(** A split keeps the list sound. *)
Lemma split_shard_ok queue now i s shards :
  shards_ok queue shards -> Z.of_nat (length shards) + 2 < 2 ^ 63 ->
  shards !! i = Some s -> is_active s = true ->
  shards_ok queue (split_shard queue now i s shards) /\
  active_count (split_shard queue now i s shards) = active_count shards + 1.
Proof.
  intros Hok Hlen Hi Hact. pose proof (list_elem_of_lookup_2 _ _ _ Hi) as Hin.
  destruct (ok_ranges _ _ Hok s Hin) as [Hr1 Hr2].
  destruct (split_shard_halved queue now i s shards Hok Hlen Hin) as (mid & Hmid & ->).
  split; [split | by apply halved_active].
  - by apply halved_ids.
  - apply halved_forall; [apply (ok_topics _ _ Hok) | exact (ok_topics _ _ Hok s Hin) | done].
  - apply halved_forall; [apply (ok_ranges _ _ Hok) | exact (ok_ranges _ _ Hok s Hin) |].
    intros id start end_ [[= -> ->] | [= -> ->]]; simpl; lia.
  - intros h Hh. rewrite halved_cover by done. by apply (ok_cover _ _ Hok).
Qed.

(** ** Splitting *)

(** What a pass may do to the shards it starts from: they keep their place, and all
    that changes in one is that an active shard starts closing. *)
Definition split_step (shards shards' : list ShardStatus) : Prop :=
  forall i s, shards !! i = Some s ->
    exists s', shards' !! i = Some s' /\ (s' = s \/ is_active s = true /\ s' = set_phase ShardPhaseClosing s).

Lemma split_step_refl shards : split_step shards shards.
Proof. intros i s Hi. eauto. Qed.

Lemma split_step_trans l1 l2 l3 : split_step l1 l2 -> split_step l2 l3 -> split_step l1 l3.
Proof.
  intros H12 H23 i s Hi. destruct (H12 i s Hi) as (s' & Hi' & Hs). destruct (H23 i s' Hi') as (s'' & Hi'' & Hs').
  exists s''. split; [done |]. destruct Hs as [-> | [Ha ->]]; [done |].
  destruct Hs' as [-> | [[=] _]]. by right.
Qed.

Lemma split_shard_step queue now i s shards :
  shards !! i = Some s -> is_active s = true -> split_step shards (split_shard queue now i s shards).
Proof.
  intros Hi Ha j t Hj. unfold split_shard. cbv zeta. destruct (decide (i = j)) as [<- | Hne].
  - simplify_eq. eexists. rewrite lookup_app_l by (rewrite length_insert; by eapply lookup_lt_Some).
    rewrite list_lookup_insert_eq by (by eapply lookup_lt_Some). eauto.
  - exists t. rewrite lookup_app_l by (rewrite length_insert; by eapply lookup_lt_Some).
    rewrite list_lookup_insert_ne by done. eauto.
Qed.

Section Splitting.
Context {TA : TopicAdmin}.

(** The outcome of the loop, however the sampling goes. *)
Definition split_good queue maxShards (shards shards' : list ShardStatus) : Prop :=
  shards_ok queue shards' /\ split_step shards shards' /\
  active_count shards' <= Z.max (active_count shards) maxShards.

Lemma split_good_refl queue maxShards shards : shards_ok queue shards -> split_good queue maxShards shards shards.
Proof. intros Hok. split_and!; [done | apply split_step_refl | lia]. Qed.

Lemma split_loop_good queue maxShards threshold cooldown n i shards o :
  shards_ok queue shards -> Z.of_nat (length shards + 2 * n) + 2 < 2 ^ 31 ->
  exists shards' err,
    fst (split_loop queue maxShards threshold cooldown n i (active_count shards) shards o) = Ok (shards', err) /\
    split_good queue maxShards shards shards' /\ (length shards' <= length shards + 2 * n)%nat.
Proof.
  revert i shards o. induction n as [|n IH]; intros i shards o Hok Hlen;
    [exists shards, None; split_and!; [done | by apply split_good_refl | lia] |].
  assert (Hcont : forall o, exists shards' err,
    fst (split_loop queue maxShards threshold cooldown n (S i) (active_count shards) shards o) = Ok (shards', err) /\
    split_good queue maxShards shards shards' /\ (length shards' <= length shards + 2 * S n)%nat).
  { intros o1. destruct (IH (S i) shards o1 Hok) as (l & err & Hrun & Hg & Hl); [lia |].
    exists l, err. split_and!; [done | done | lia]. }
  assert (Hstop : forall e : option error, exists shards' err,
    Ok (shards, e) = Ok (shards', err) /\
    split_good queue maxShards shards shards' /\ (length shards' <= length shards + 2 * S n)%nat).
  { intros e. exists shards, e. split_and!; [done | by apply split_good_refl | lia]. }
  cbn [split_loop]. destruct (shards !! i) as [s|] eqn:Hi; [| apply Hstop].
  destruct (is_active s) eqn:Ha; cbn [negb]; [| apply Hcont].
  pose proof (active_count_length shards) as Hac.
  rewrite i32_id by (unfold is_i32; lia). destruct (Z.leb_spec maxShards (active_count shards)); [apply Hstop |].
  rewrite mbind_run, lift_run. cbn [fst snd Now gets]. destruct (_ && _); [apply Hcont |].
  rewrite mbind_run. unfold attempt at 1. destruct (lift _ _) as [[offsetSum|e] o1]; [| apply Hstop].
  rewrite mbind_run. cbn [gets]. rewrite mbind_run, lift_run. cbn [fst snd Now gets].
  rewrite mbind_run. cbn [modify]. destruct (o_samples o1 !! ss_Topic s) as [prev|]; [| apply Hcont].
  destruct (over_threshold _ _ _ _); [| apply Hcont].
  rewrite mbind_run. cbn [modify].
  match goal with |- context [split_shard _ ?t _ _ _] => set (now := t) end.
  destruct (split_shard_ok queue now i s shards Hok) as [Hok' Hac']; [lia | done | done |].
  rewrite <- Hac'.
  match goal with |- context [split_loop _ _ _ _ _ _ _ _ ?o2] =>
    destruct (IH (S i) (split_shard queue now i s shards) o2 Hok') as (shards' & err & -> & (Hok2 & Hst & Hmax) & Hl) end.
  - unfold split_shard. cbv zeta. rewrite length_app, length_insert. simpl. lia.
  - exists shards', err. split; [done |]. split; [split_and!; [done | | lia] |].
    + eapply split_step_trans; [by eapply split_shard_step | done].
    + unfold split_shard in Hl. cbv zeta in Hl. rewrite length_app, length_insert in Hl. simpl in Hl. lia.
Qed.

Lemma reconcileSplits_good queue o :
  shards_ok queue (qst_Shards (q_Status queue)) ->
  3 * Z.of_nat (length (qst_Shards (q_Status queue))) + 2 < 2 ^ 31 ->
  exists shards' err,
    fst (reconcileSplits queue o) = Ok (set_shards shards' queue, err) /\
    split_good queue (effective_max_shards (q_Spec queue)) (qst_Shards (q_Status queue)) shards' /\
    (length shards' <= 3 * length (qst_Shards (q_Status queue)))%nat.
Proof.
  intros Hok Hlen. unfold reconcileSplits. set (shards := qst_Shards (q_Status queue)) in *. zbool.
  - exists shards, None. split; [by destruct queue as [? ? []] |]. split; [by apply split_good_refl | lia].
  - destruct (split_loop_good queue (effective_max_shards (q_Spec queue))
      (qs_ShardSplitThresholdBytesPerSec (q_Spec queue)) (qs_ShardSplitCooldownSeconds (q_Spec queue))
      (length shards) 0 shards o) as (shards' & err & Hrun & Hgood & Hl); [done | lia |].
    exists shards', err. split; [| split; [exact Hgood | lia]]. rewrite mbind_run.
    destruct (split_loop _ _ _ _ _ _ _ _ o) as [r o']. simpl in Hrun. by subst r.
Qed.

(** C12. A split pass keeps the shard list sound, however the sampling goes (errors of
    the broker included): numbering, topics and ranges stay right and every hash value
    is still covered by exactly one active shard.  Existing shards keep their place,
    and only active ones start closing; the pass never takes the number of active
    shards over [maxShards]. *)
Theorem reconcileSplits_sound queue o :
  let shards := qst_Shards (q_Status queue) in
  shards_ok queue shards -> 3 * Z.of_nat (length shards) + 2 < 2 ^ 31 ->
  exists shards' err,
    fst (reconcileSplits queue o) = Ok (set_shards shards' queue, err) /\
    shards_ok queue shards' /\ split_step shards shards' /\
    active_count shards' <= Z.max (active_count shards) (effective_max_shards (q_Spec queue)).
Proof.
  intros shards Hok Hlen. destruct (reconcileSplits_good queue o Hok Hlen) as (l & err & Hrun & Hg & _).
  by exists l, err.
Qed.
End Splitting.

(** ** Draining *)

Section Draining.
Context {TA : TopicAdmin} {TL : TopicAdminLaws TA}.

Definition topic_of (o : oworld) (t : string) : option TopicConfig := k_topics (w_kafka (o_world o)) !! t.

(** What a drain pass that ends in [o] may make of one shard. *)
Inductive drain_step (group : string) (retention : Z) (o : oworld) : ShardStatus -> ShardStatus -> Prop :=
| drain_keeps s : drain_step group retention o s s
| drain_closes s w w' lag :
    ss_Phase s = ShardPhaseClosing ->
    consumer_lag group (ss_Topic s) w = (Ok lag, w') -> lag <= 0 ->
    ss_CreatedAt s + retention <= w_clock (o_world o) ->
    topic_of o (ss_Topic s) = None ->
    drain_step group retention o s (set_phase ShardPhaseClosed s).

(** Topics deleted between two worlds belong to closing shards past their retention. *)
Definition deletes_only_drained retention (shards : list ShardStatus) (o o' : oworld) : Prop :=
  forall t, is_Some (topic_of o t) -> topic_of o' t = None ->
    exists s, s ∈ shards /\ ss_Phase s = ShardPhaseClosing /\ ss_Topic s = t /\
              ss_CreatedAt s + retention <= w_clock (o_world o').

(** The deleted topics are those of the shards that were closed. *)
Definition deletes_closed (shards kept : list ShardStatus) (o o' : oworld) : Prop :=
  forall t, is_Some (topic_of o t) -> topic_of o' t = None ->
    exists i s, shards !! i = Some s /\ ss_Topic s = t /\ kept !! i = Some (set_phase ShardPhaseClosed s).

(** The relation a drain pass over [shards] keeps to its start. *)
Definition drained group retention shards (o : oworld) (r : res (list ShardStatus)) (o' : oworld) : Prop :=
  w_clock (o_world o) <= w_clock (o_world o') /\
  deletes_only_drained retention shards o o' /\
  match r with
  | Ok kept => Forall2 (drain_step group retention o') shards kept /\
               (forall t, topic_of o t = None -> topic_of o' t = None) /\
               deletes_closed shards kept o o'
  | Err _ => True
  end.

Lemma drain_step_later group retention o o' s s' :
  w_clock (o_world o) <= w_clock (o_world o') ->
  (forall t, topic_of o t = None -> topic_of o' t = None) ->
  drain_step group retention o s s' -> drain_step group retention o' s s'.
Proof. intros Hc Ht [s0 | s0 w w' lag Hp Hl Hle Hret Hnone]; econstructor; eauto; lia. Qed.

(** A pass over a list is one over its first shard, then one over the rest. *)
Lemma drained_cons group retention s s' rest o o1 r o' :
  drained group retention [s] o (Ok [s']) o1 -> drained group retention rest o1 r o' ->
  drained group retention (s :: rest) o
    match r with Ok kept => Ok (s' :: kept) | Err e => Err e end o'.
Proof.
  intros (Hc1 & Hd1 & Hs & Hn1 & Hcl1) (Hc2 & Hd2 & Hr). split; [lia |]. split.
  - intros t Ht Hn. destruct (topic_of o1 t) eqn:E1.
    + destruct (Hd2 t) as (s2 & Hin & H); [by eexists | done |]. exists s2. split; [by right | done].
    + destruct (Hd1 t Ht E1) as (s1 & Hin & Hp & Htop & Hret). exists s1.
      split; [set_solver |]. split_and!; [done | done | lia].
  - destruct r as [kept|e]; [| done]. destruct Hr as (Hf & Hn2 & Hcl2). split_and!; [| auto |].
    + constructor; [| done]. apply Forall2_cons in Hs as [Hs _]. by eapply drain_step_later.
    + intros t Ht Hn. destruct (topic_of o1 t) eqn:E1.
      * destruct (Hcl2 t) as (i & s2 & H); [by eexists | done |]. by exists (S i), s2.
      * destruct (Hcl1 t Ht E1) as ([|i] & s1 & Hi & Htop & Hk); [| done]. by exists 0%nat, s1.
Qed.

(** A pass that fails at its first shard. *)
Lemma drained_err group retention s rest o e o' e' :
  drained group retention [s] o (Err e) o' -> drained group retention (s :: rest) o (Err e') o'.
Proof.
  intros (Hc & Hd & _). split; [done |]. split; [| done]. intros t Ht Hn.
  destruct (Hd t Ht Hn) as (s1 & Hin & H). exists s1. split; [set_solver | done].
Qed.

Lemma drained_keep group retention s o o' :
  w_clock (o_world o) <= w_clock (o_world o') -> w_kafka (o_world o') = w_kafka (o_world o) ->
  drained group retention [s] o (Ok [s]) o'.
Proof.
  intros Hc Hk. split; [done |]. unfold deletes_only_drained, deletes_closed, topic_of. rewrite Hk. split.
  - intros t [c Ht] Hn. congruence.
  - split_and!; [repeat constructor | done |]. intros t [c Ht] Hn. congruence.
Qed.

(** What the lag query and the deletion of a drained topic amount to. *)
Lemma lag_query group t w :
  w_clock w <= w_clock (snd (consumer_lag group t w)) /\ w_kafka (snd (consumer_lag group t w)) = w_kafka w.
Proof.
  split; [| apply (admin_reads_kafka t group)].
  apply (admin_ambient t group (MkTopicConfig 0 0 0 0) (after (w_clock w)) _). unfold after. lia.
Qed.

Lemma drained_delete group retention s o w w' lag :
  ss_Phase s = ShardPhaseClosing -> consumer_lag group (ss_Topic s) w = (Ok lag, w') -> lag <= 0 ->
  ss_CreatedAt s + retention <= w_clock (o_world o) ->
  drained group retention [s] o
    match fst (delete_topic (ss_Topic s) (o_world o)) with
    | Ok _ => Ok [set_phase ShardPhaseClosed s] | Err e => Err e end
    (set_world (snd (delete_topic (ss_Topic s) (o_world o))) o).
Proof.
  intros Hp Hlag Hle Hret.
  assert (Hc : after (w_clock (o_world o)) (snd (delete_topic (ss_Topic s) (o_world o)))).
  { apply (admin_ambient (ss_Topic s) group (MkTopicConfig 0 0 0 0) (after (w_clock (o_world o))) _).
    unfold after. lia. }
  unfold after in Hc. split; [done |].
  pose proof (fun t => delete_topic_others (ss_Topic s) t (o_world o)) as Hoth.
  split.
  - intros t [c Ht] Hn. destruct (decide (t = ss_Topic s)) as [-> | Hne].
    + exists s. simpl. split_and!; [set_solver | done | done | lia].
    + unfold topic_of in *. simpl in Hn. rewrite Hoth in Hn by done. congruence.
  - pose proof (delete_topic_absent (ss_Topic s) (o_world o)) as Habs.
    destruct (delete_topic (ss_Topic s) (o_world o)) as [[[]|e] w2]; [| done]. simpl in *.
    specialize (Habs w2 eq_refl). split_and!.
    + repeat econstructor; eauto; simpl; lia.
    + intros t Ht. destruct (decide (t = ss_Topic s)) as [-> | Hne]; [done |].
      unfold topic_of in *. simpl. by rewrite Hoth.
    + intros t [c Ht] Hn. destruct (decide (t = ss_Topic s)) as [-> | Hne]; [by exists 0%nat, s |].
      unfold topic_of in *. simpl in Hn. rewrite Hoth in Hn by done. congruence.
Qed.

Lemma drain_loop_drained group retention shards o :
  drained group retention shards o (fst (drain_loop group retention shards o))
    (snd (drain_loop group retention shards o)).
Proof.
  revert o. induction shards as [|s rest IH]; intros o.
  { split; [done |]. split; [| split_and!; [constructor | done |]]; intros t [c Ht] Hn; simpl in Hn; congruence. }
  assert (Hthen : forall s' o1, drained group retention [s] o (Ok [s']) o1 ->
    let m := (kept ← drain_loop group retention rest; mret (s' :: kept)) in
    drained group retention (s :: rest) o (fst (m o1)) (snd (m o1))).
  { intros s' o1 H1 m. pose proof (drained_cons _ _ _ _ _ _ _ _ _ H1 (IH o1)) as H. unfold m.
    rewrite mbind_run. revert H. by destruct (drain_loop _ _ rest o1) as [[]]. }
  cbn [drain_loop]. case_bool_decide as Hp; cbn [negb]; [| by apply Hthen, drained_keep].
  destruct (lag_query group (ss_Topic s) (o_world o)) as [Hc Hk].
  rewrite !mbind_run. unfold wrap_err. rewrite lift_run.
  destruct (consumer_lag group (ss_Topic s) (o_world o)) as [[lag|e] w1] eqn:Hlag; simpl in Hc, Hk |- *.
  2: { apply (drained_err _ _ _ _ _ e). split; [done |]. split; [| done].
       intros t [c Ht] Hn. unfold topic_of in *. simpl in Hn. congruence. }
  rewrite !mbind_run, lift_run. cbn [fst snd Now gets o_world set_world].
  destruct (_ || _) eqn:Hgo; [by apply Hthen, drained_keep |].
  apply orb_false_iff in Hgo as [Hlag0 Hret]. apply Z.ltb_ge in Hlag0, Hret.
  set (o1 := set_world w1 (set_world w1 o)).
  pose proof (drained_delete group retention s o1 (o_world o) w1 lag Hp Hlag Hlag0 Hret) as Hdel.
  assert (Hdel' : drained group retention [s] o
    match fst (delete_topic (ss_Topic s) (o_world o1)) with
    | Ok _ => Ok [set_phase ShardPhaseClosed s] | Err e => Err e end
    (set_world (snd (delete_topic (ss_Topic s) (o_world o1))) o1)).
  { destruct Hdel as (Hc2 & Hd2 & Hr2). split; [simpl in *; lia |].
    unfold deletes_only_drained, deletes_closed, topic_of in *. simpl in *. rewrite Hk in *. by split. }
  rewrite !mbind_run, lift_run.
  destruct (delete_topic _ _) as [[[]|e] w2]; simpl fst in *; simpl snd in *.
  - by apply Hthen.
  - by apply (drained_err _ _ _ _ _ e).
Qed.

Lemma reconcileDrains_drained queue o :
  drained (ConsumerGroup (q_Name queue)) (secondsToDuration (qs_MessageRetentionPeriodSeconds (q_Spec queue)))
    (qst_Shards (q_Status queue)) o
    match fst (reconcileDrains queue o) with Ok q' => Ok (qst_Shards (q_Status q')) | Err e => Err e end
    (snd (reconcileDrains queue o)) /\
  match fst (reconcileDrains queue o) with
  | Ok q' => q' = set_shards (qst_Shards (q_Status q')) queue | Err _ => True end.
Proof.
  unfold reconcileDrains. cbv zeta. rewrite mbind_run.
  pose proof (drain_loop_drained (ConsumerGroup (q_Name queue))
    (secondsToDuration (qs_MessageRetentionPeriodSeconds (q_Spec queue))) (qst_Shards (q_Status queue)) o) as H.
  by destruct (drain_loop _ _ _ o) as [[kept|e] o'].
Qed.

End Draining.

(** The list of a queue that has no shards yet. *)
Lemma initial_shards_ok now queue :
  shards_ok queue [newShard now "0" "" 0 FullHashRangeEnd queue].
Proof.
  split.
  - intros [|i] s Hi; simplify_eq/=; done.
  - intros s ->%list_elem_of_singleton. done.
  - intros s ->%list_elem_of_singleton. simpl. unfold FullHashRangeEnd. lia.
  - intros h Hh. unfold cover_count, covers. simpl. zbool; simpl; lia.
Qed.

(** Soundness speaks of the queue's name and kind only. *)
Lemma shards_ok_queue queue queue' shards :
  q_Name queue = q_Name queue' -> qs_FIFOQueue (q_Spec queue) = qs_FIFOQueue (q_Spec queue') ->
  shards_ok queue shards -> shards_ok queue' shards.
Proof. intros Hn Hf [H1 H2 H3 H4]. split; [done | | done | done]. rewrite <- Hn, <- Hf. exact H2. Qed.

(** ** Examples *)

Definition orders_spec : QueueSpec := MkQueueSpec false 30 3600 0 "" 2 0 false 1 4 1000 0.
Definition orders_meta : ObjectMeta := MkMeta "sqs" "orders" ∅ [] (1700000000 * Second) None.
Definition orders_shards : list ShardStatus :=
  [newShard (1690000000 * Second) "0" "" 0 FullHashRangeEnd
     (MkQueue orders_meta orders_spec (MkQueueStatus QueuePhaseUnset []))].
Definition orders_queue : Queue :=
  MkQueue orders_meta orders_spec (MkQueueStatus QueuePhaseReady orders_shards).

(** One second after a sample of an empty topic, which now holds three records. *)
Definition busy_world : oworld :=
  OWorld (set_kafka (Kafka {["kmsvc.orders.shard-0" := MkTopicConfig 2 3 3600 2]}
                           {[("kmsvc.orders.shard-0", 0) := replicate 3 (KRecord None "m")]} ∅) world0)
    (Cluster ∅ ∅ ∅ ∅ ∅) {["kmsvc.orders.shard-0" := MkSample 0 (1699999999 * Second)]} ∅ ∅ ∅.

Lemma orders_shards_ok : shards_ok orders_queue orders_shards.
Proof.
  apply (shards_ok_queue (MkQueue orders_meta orders_spec (MkQueueStatus QueuePhaseUnset [])));
    [done | done | apply initial_shards_ok].
Qed.

Lemma reconcileSplits_sound_witness :
  (exists shards' err,
    fst (reconcileSplits orders_queue busy_world) = Ok (set_shards shards' orders_queue, err) /\
    shards_ok orders_queue shards' /\ split_step orders_shards shards' /\
    active_count shards' <= Z.max (active_count orders_shards) (effective_max_shards orders_spec)) /\
  match fst (reconcileSplits orders_queue busy_world) with
  | Ok (q', None) => (fun s => (ss_ID s, ss_Phase s)) <$> qst_Shards (q_Status q') =
      [("0", ShardPhaseClosing); ("1", ShardPhaseActive); ("2", ShardPhaseActive)]
  | _ => False
  end.
Proof.
  split; [| vm_compute; reflexivity].
  apply (reconcileSplits_sound orders_queue busy_world); [apply orders_shards_ok | done].
Defined.

(** A closing shard whose three records have been read, past the retention of an hour. *)
Definition drained_queue : Queue :=
  set_shards (set_phase ShardPhaseClosing <$> orders_shards) orders_queue.

Definition drained_world : oworld :=
  set_world (set_kafka (set_commit "kmsvc-consumer-orders" "kmsvc.orders.shard-0" 0 3
               (w_kafka (o_world busy_world))) (o_world busy_world)) busy_world.

