(* ===== verification/Zones.v ===== *)
(** [internal/operator/zone_locator.go]: from broker IDs to availability zones,
    through the pod that runs the broker and the node that runs the pod.

    [z.nodeZoneCache] is [o_zones] of the operator's world.  A broker that cannot be
    resolved is skipped; the theorem says what the answer means all the same. *)

From S2P Require Import Prelude GoNum GoStr Redis World Admin Kube.

Local Open Scope Z_scope.

Record ZoneLocator : Type := MkZoneLocator { zl_Namespace : string; zl_ClusterName : string; zl_PoolName : string }.

Definition zoneLabel : string := "topology.kubernetes.io/zone".

(** [fmt.Sprintf("%s-%s-%d", ...)] *)
Definition broker_pod (z : ZoneLocator) (brokerID : Z) : string :=
  zl_ClusterName z +:+ "-" +:+ zl_PoolName z +:+ "-" +:+ FormatInt brokerID.

(** [sort.Strings] *)
Definition sort_strings (l : list string) : list string := merge_sort String.le l.

Section Ops.
Context {KS : KubeServer}.

Definition nodeNameForBroker (z : ZoneLocator) (brokerID : Z) : M oworld string :=
  let podName := broker_pod z brokerID in
  pod ← wrap_err ("get broker pod " +:+ podName +:+ ": ") (kube (kube_get_pod_node (zl_Namespace z, podName)));
  mret (default "" pod).

Definition zoneForNode (nodeName : string) : M oworld string :=
  cached ← gets (fun o => o_zones o !! nodeName);
  match cached with
  | Some zone => mret zone
  | None =>
    node ← wrap_err ("get node " +:+ nodeName +:+ ": ") (kube (kube_get_node_labels nodeName));
    match node with
    | None => mret ""
    | Some labels =>
      let zone := default "" (labels !! zoneLabel) in
      _ ← modify (fun o => set_zone_cache (<[nodeName := zone]> (o_zones o)) o);
      mret zone
    end
  end.

(** One turn of the loop: the broker's zone, [""] when it is skipped. *)
Definition zone_of_broker (z : ZoneLocator) (id : Z) : M oworld string :=
  nodeName ← attempt (nodeNameForBroker z id);
  match nodeName with
  | Err _ => mret ""
  | Ok nodeName =>
    if bool_decide (nodeName = "") then mret ""
    else zone ← attempt (zoneForNode nodeName); mret (match zone with Ok zone => zone | Err _ => "" end)
  end.

(** [seen] and [zones] hold the same values, in one list. *)
Fixpoint zones_loop (z : ZoneLocator) (brokerIDs : list Z) (zones : list string) : M oworld (list string) :=
  match brokerIDs with
  | [] => mret zones
  | id :: brokerIDs =>
    zone ← zone_of_broker z id;
    if bool_decide (zone = "") || bool_decide (zone ∈ zones) then zones_loop z brokerIDs zones
    else zones_loop z brokerIDs (zones ++ [zone])
  end.

Definition ZonesForBrokers (z : ZoneLocator) (brokerIDs : list Z) : M oworld (list string) :=
  zones ← zones_loop z brokerIDs []; mret (sort_strings zones).
End Ops.

(** ** Specification *)

(** The zone of a broker, as the cluster's objects tell it; [""] when they do not. *)
Definition cluster_zone (z : ZoneLocator) (c : cluster) (id : Z) : string :=
  default "" (node ← k8s_pods c !! (zl_Namespace z, broker_pod z id);
              if bool_decide (node = "") then None else k8s_nodes c !! node ≫= fun labels => labels !! zoneLabel).

(** The cache remembers what the nodes' labels say. *)
Definition cache_ok (o : oworld) : Prop :=
  forall node zone, o_zones o !! node = Some zone ->
    exists labels, k8s_nodes (o_kube o) !! node = Some labels /\ zone = default "" (labels !! zoneLabel).

(** Every read of the API server succeeds. *)
Definition reads_succeed (KS : KubeServer) : Prop :=
  (forall k c, kube_get_pod_node k c = (Ok (k8s_pods c !! k), c)) /\
  (forall n c, kube_get_node_labels n c = (Ok (k8s_nodes c !! n), c)).

(** ** Proofs *)

Section Proofs.
Context {KS : KubeServer} {KL : KubeLaws KS}.

(** A read of the API server, whatever happens to it: the cluster, the caches and the
    data plane stay as they are, and what is returned is what was there. *)
Lemma kube_read {A} (c : M cluster A) (v : cluster -> A) o :
  (forall k, c k = (Ok (v k), k) \/ exists e, c k = (Err e, k)) ->
  exists w', snd (kube c o) = set_world w' o /\
    (calm (o_world o) -> w' = o_world o) /\
    ((exists e, fst (kube c o) = Err e) \/ fst (kube c o) = Ok (v (o_kube o))).
Proof.
  intros Hc. unfold kube, otrip, kube_run. destruct (w_net (o_world o)) as [|[d vd] evs] eqn:En.
  - exists (o_world o). destruct o as [w k sm zs en tm]. destruct (Hc k) as [E | [e E]]; simpl in *; rewrite E; eauto.
  - cbn [ev_wait ev_verdict]. set (w' := elapse d _). exists w'.
    assert (Hcalm : calm (o_world o) -> w' = o_world o) by (unfold calm; rewrite En; done).
    destruct o as [w k sm zs en tm]. destruct (Hc k) as [E | [e E]]; destruct vd; simpl in *; rewrite ?E; eauto.
Qed.

Lemma zoneForNode_spec node o :
  cache_ok o ->
  exists w' zs', snd (zoneForNode node o) = set_zone_cache zs' (set_world w' o) /\
    cache_ok (snd (zoneForNode node o)) /\ (calm (o_world o) -> w' = o_world o) /\
    let zone := default "" (k8s_nodes (o_kube o) !! node ≫= fun labels => labels !! zoneLabel) in
    (fst (zoneForNode node o) = Ok zone \/
     ((exists e, fst (zoneForNode node o) = Err e) /\ ~ (calm (o_world o) /\ reads_succeed KS))).
Proof.
  intros Hok. unfold zoneForNode. rewrite mbind_run. cbn [gets].
  destruct (o_zones o !! node) as [zone|] eqn:Ez.
  - exists (o_world o), (o_zones o). destruct (Hok node zone Ez) as (labels & El & ->).
    split_and!; [by destruct o | done | done | left]. by rewrite El.
  - rewrite mbind_run. unfold wrap_err.
    destruct (kube_read (kube_get_node_labels node) (fun k => k8s_nodes k !! node) o) as (w' & Ew & Hcalm & Hr);
      [intros k; apply law_get_node_labels |].
    assert (Hfail : forall e, fst (kube (kube_get_node_labels node) o) = Err e ->
                    ~ (calm (o_world o) /\ reads_succeed KS)).
    { intros e He [Hcm [_ Hrs]]. by rewrite kube_calm, Hrs in He by done. }
    destruct (kube _ o) as [r o1]. simpl in Ew, Hr, Hfail. subst o1.
    destruct Hr as [[e ->] | ->]; [| destruct (k8s_nodes (o_kube o) !! node) as [labels|] eqn:El]; simpl.
    + exists w', (o_zones o). split_and!; [by destruct o | done | done | right]. split; eauto.
    + eexists w', _. split_and!; [reflexivity | | done | by left].
      intros n z. simpl. rewrite lookup_insert_Some. intros [[<- <-] | [_ Hn]]; [by eauto | by apply Hok].
    + exists w', (o_zones o). split_and!; [by destruct o | done | done | by left].
Qed.

(** One broker: its zone as the cluster tells it, or skipped because a read failed. *)
Lemma zone_of_broker_spec z id o :
  cache_ok o ->
  exists zone w' zs', zone_of_broker z id o = (Ok zone, set_zone_cache zs' (set_world w' o)) /\
    cache_ok (set_zone_cache zs' (set_world w' o)) /\ (calm (o_world o) -> w' = o_world o) /\
    (zone = cluster_zone z (o_kube o) id \/ zone = "" /\ ~ (calm (o_world o) /\ reads_succeed KS)).
Proof.
  intros Hok. unfold zone_of_broker, nodeNameForBroker, cluster_zone. cbv zeta.
  rewrite mbind_run. unfold attempt at 1. rewrite mbind_run. unfold wrap_err.
  set (key := (zl_Namespace z, broker_pod z id)).
  destruct (kube_read (kube_get_pod_node key) (fun k => k8s_pods k !! key) o) as (w1 & Ew & Hcalm & Hr);
    [intros k; apply law_get_pod_node |].
  assert (Hfail : forall e, fst (kube (kube_get_pod_node key) o) = Err e ->
                  ~ (calm (o_world o) /\ reads_succeed KS)).
  { intros e He [Hcm [Hrs _]]. by rewrite kube_calm, Hrs in He by done. }
  destruct (kube _ o) as [r o1]. simpl in Ew, Hr, Hfail. subst o1.
  destruct Hr as [[e ->] | ->]; simpl.
  { exists "", w1, (o_zones o). split_and!; [by destruct o | done | done |]. right. eauto. }
  destruct (k8s_pods (o_kube o) !! key) as [node|] eqn:Ek; simpl.
  2: { exists "", w1, (o_zones o). split_and!; [by destruct o | done | done | by left]. }
  case_bool_decide as Hn.
  { exists "", w1, (o_zones o). split_and!; [by destruct o | done | done | by left]. }
  rewrite mbind_run. unfold attempt.
  destruct (zoneForNode_spec node (set_world w1 o) Hok) as (w2 & zs & E2 & Hok2 & Hcalm2 & Hr2).
  destruct (zoneForNode node _) as [r2 o2]. simpl in *. subst o2.
  eexists _, w2, zs. split_and!; [reflexivity | done | |].
  - intros Hcm. rewrite Hcalm2; rewrite Hcalm; done.
  - destruct Hr2 as [-> | [[e ->] Hn2]]; [by left | right]. split; [done |].
    intros [Hcm Hrs]. apply Hn2. by rewrite Hcalm.
Qed.

Lemma zones_loop_spec z ids zones o :
  cache_ok o ->
  exists zones' w' zs', zones_loop z ids zones o = (Ok zones', set_zone_cache zs' (set_world w' o)) /\
    cache_ok (set_zone_cache zs' (set_world w' o)) /\
    (NoDup zones -> NoDup zones') /\
    (forall x, x ∈ zones -> x ∈ zones') /\
    (forall x, x ∈ zones' -> x ∈ zones \/ x <> "" /\ x ∈ (cluster_zone z (o_kube o) <$> ids)) /\
    (calm (o_world o) -> reads_succeed KS ->
       forall x, x <> "" -> x ∈ (cluster_zone z (o_kube o) <$> ids) -> x ∈ zones').
Proof.
  revert zones o. induction ids as [|id ids IH]; intros zones o Hok.
  { exists zones, (o_world o), (o_zones o). split_and!; [by destruct o | done | done | done | by left |].
    intros _ _ x _ Hx. by apply not_elem_of_nil in Hx. }
  cbn [zones_loop]. rewrite mbind_run.
  destruct (zone_of_broker_spec z id o Hok) as (zone & w1 & zs1 & -> & Hok1 & Hcalm & Hz).
  set (zones1 := if bool_decide (zone = "") || bool_decide (zone ∈ zones) then zones else zones ++ [zone]).
  destruct (IH zones1 (set_zone_cache zs1 (set_world w1 o)) Hok1) as (zones' & w2 & zs2 & E & Hok2 & Hnd & Hsub & Hin & Hall).
  assert (Hrun : (if bool_decide (zone = "") || bool_decide (zone ∈ zones) then zones_loop z ids zones
                  else zones_loop z ids (zones ++ [zone])) (set_zone_cache zs1 (set_world w1 o)) =
                 (Ok zones', set_zone_cache zs2 (set_world w2 o))).
  { unfold zones1 in E. by destruct (_ || _). }
  exists zones', w2, zs2. simpl in *.
  assert (Hz1 : (forall x, x ∈ zones -> x ∈ zones1) /\ (NoDup zones -> NoDup zones1) /\
                (forall x, x ∈ zones1 -> x ∈ zones \/ x = zone /\ zone <> "") /\ (zone <> "" -> zone ∈ zones1)).
  { unfold zones1. case_bool_decide; case_bool_decide; simpl; [set_solver | set_solver | set_solver |].
    split_and!; [set_solver | | set_solver | set_solver].
    intros Hd. apply NoDup_app. split_and!; [done | set_solver | apply NoDup_singleton]. }
  destruct Hz1 as (Hz1 & Hz2 & Hz3 & Hz4).
  split_and!; [exact Hrun | done | auto | auto | |].
  - intros x Hx. destruct (Hin x Hx) as [[? | [-> Hne]]%Hz3 | [Hne Hx']]; [by left | |].
    + right. split; [done |]. destruct Hz as [-> | [? _]]; [left | done].
    + right. split; [done |]. by right.
  - intros Hcm Hrs x Hne Hx. destruct Hz as [-> | [_ Hno]]; [| tauto].
    rewrite Hcalm in Hall by done. apply elem_of_cons in Hx as [-> | Hx]; [auto | by apply Hall].
Qed.

End Proofs.

(** ** Example: three brokers on two zones, one broker unknown *)

Definition pool : ZoneLocator := MkZoneLocator "sqs" "kmsvc" "kmsvc-pool".

Definition zoned_cluster : cluster :=
  Cluster ∅ ∅ ∅
    {[("sqs", "kmsvc-kmsvc-pool-0") := "node-a"; ("sqs", "kmsvc-kmsvc-pool-1") := "node-b";
      ("sqs", "kmsvc-kmsvc-pool-2") := "node-c"]}
    {["node-a" := {[zoneLabel := "zone-2"]}; "node-b" := {[zoneLabel := "zone-1"]};
      "node-c" := {[zoneLabel := "zone-2"]}]}.

Definition zoned_world : oworld := OWorld world0 zoned_cluster ∅ ∅ ∅ ∅.

Lemma zoned_cache_ok : cache_ok zoned_world.
Proof. intros node zone H. simpl in H. by rewrite lookup_empty in H. Qed.

