(* ===== verification/Temporal.v ===== *)
(** [internal/temporal/client.go] and [internal/operator/temporal_namespace.go]: the
    registration of Temporal namespaces.

    The Temporal frontend is a parameter; its state is the set of registered
    namespaces, [o_temporal] of the operator's world.  The deadline of ten seconds a call
    has is one of the ways its round trip can fail. *)

From S2P Require Import Prelude GoNum Redis World Kube.

Local Open Scope Z_scope.

(** The frontend's [RegisterNamespace]; [status.Code(err) == codes.AlreadyExists]; and
    the status gRPC gives a call whose request or reply is lost. *)
Class TemporalServer : Type := {
  svc_RegisterNamespace : string -> Z -> M (gset string) unit;
  is_already_exists : error -> bool;
  rpc_failure : error -> error
}.

Class TemporalLaws (TS : TemporalServer) : Prop := {
  law_register ns retention st :
    match svc_RegisterNamespace ns retention st with
    | (Ok _, st') => st' = {[ns]} ∪ st
    | (Err e, st') => st' = st /\ (is_already_exists e = true -> ns ∈ st)
    end;
  law_rpc_failure e : is_already_exists (rpc_failure e) = false
}.

(** [TemporalNamespaceRegisterer] *)
Class Registerer : Type := register_namespace : string -> M oworld unit.

(** What an implementation promises: after a success the namespace is registered; a call
    changes nothing but registrations, and takes none away. *)
Class RegistererLaws (R : Registerer) : Prop := {
  register_ok ns o o' : register_namespace ns o = (Ok tt, o') -> ns ∈ o_temporal o';
  register_frame ns o : exists w' t',
    snd (register_namespace ns o) = set_temporal t' (set_world w' o) /\
    w_redis w' = w_redis (o_world o) /\ w_kafka w' = w_kafka (o_world o) /\
    w_clock (o_world o) <= w_clock w' /\ o_temporal o ⊆ t'
}.

Definition defaultRetentionPeriod : Z := 72 * 60 * Minute.

Section Client.
Context {TS : TemporalServer}.

(** The call's result, sent back by the frontend or made up by gRPC. *)
Definition grpc_call (c : M (gset string) unit) : M oworld (res unit) :=
  r ← attempt (otrip (fun o => let '(r, t) := c (o_temporal o) in (Ok r, set_temporal t o)));
  mret (match r with Ok r => r | Err e => Err (rpc_failure e) end).

Definition RegisterNamespace (namespace : string) : M oworld unit :=
  r ← grpc_call (svc_RegisterNamespace namespace defaultRetentionPeriod);
  match r with
  | Err e =>
    if is_already_exists e then mret tt
    else fail (ErrWrap ("register temporal namespace " +:+ namespace +:+ ": ") e)
  | Ok _ => mret tt
  end.

#[export] Instance Client_Registerer : Registerer := RegisterNamespace.

Context {TL : TemporalLaws TS}.

(** A call reaches the frontend or it does not. *)
Lemma grpc_call_cases c o :
  exists w' r, w_redis w' = w_redis (o_world o) /\ w_kafka w' = w_kafka (o_world o) /\
    w_clock (o_world o) <= w_clock w' /\
    (grpc_call c o = (Ok r, set_temporal (snd (c (o_temporal o))) (set_world w' o)) /\
       (r = fst (c (o_temporal o)) \/ exists e, r = Err (rpc_failure e)) \/
     grpc_call c o = (Ok r, set_world w' o) /\ exists e, r = Err (rpc_failure e)).
Proof.
  unfold grpc_call. rewrite mbind_run. unfold attempt, otrip.
  destruct (w_net (o_world o)) as [|[d [ | e | e]] evs]; cbn [ev_wait ev_verdict]; simpl;
    try destruct (c (o_temporal o)) as [r t]; simpl.
  - exists (o_world o), r. split_and!; try done; try lia. left. destruct o. eauto.
  - eexists _, r. split_and!; [| | | left; split; [reflexivity | by left]]; simpl; try done; lia.
  - eexists _, (Err (rpc_failure e)). split_and!; [| | | right; split; [reflexivity | eauto]]; simpl; try done; lia.
  - eexists _, (Err (rpc_failure e)). split_and!; [| | | left; split; [reflexivity | eauto]]; simpl; try done; lia.
Qed.

#[export] Instance Client_Registerer_laws : RegistererLaws Client_Registerer.
Proof.
  assert (Hlaw : forall ns, let srv := svc_RegisterNamespace ns defaultRetentionPeriod in
    forall o, o_temporal o ⊆ snd (srv (o_temporal o)) /\
              match fst (srv (o_temporal o)) with
              | Ok _ => True | Err e => is_already_exists e = true end -> ns ∈ snd (srv (o_temporal o))).
  { intros ns srv o. pose proof (law_register ns defaultRetentionPeriod (o_temporal o)) as H.
    unfold srv. destruct (svc_RegisterNamespace _ _ _) as [[]]; simpl; [set_solver |].
    destruct H as [-> H]. intros [_ ?]. auto. }
  assert (Hgrow : forall ns o, o_temporal o ⊆ snd (svc_RegisterNamespace ns defaultRetentionPeriod (o_temporal o))).
  { intros ns o. pose proof (law_register ns defaultRetentionPeriod (o_temporal o)) as H.
    destruct (svc_RegisterNamespace _ _ _) as [[]]; simpl; [set_solver | by destruct H as [-> _]]. }
  split.
  - intros ns o o'. unfold register_namespace, Client_Registerer, RegisterNamespace. rewrite mbind_run.
    destruct (grpc_call_cases (svc_RegisterNamespace ns defaultRetentionPeriod) o)
      as (w' & r & _ & _ & _ & [[-> [-> | [e ->]]] | [-> [e ->]]]); rewrite ?law_rpc_failure; try done.
    specialize (Hlaw ns o). simpl in Hlaw.
    destruct (fst (svc_RegisterNamespace _ _ _)) as [[]|e] eqn:E; [intros [= <-]; apply Hlaw; by split |].
    destruct (is_already_exists e) eqn:Ee; [| done]. intros [= <-]. apply Hlaw. by split.
  - intros ns o. unfold register_namespace, Client_Registerer, RegisterNamespace. rewrite mbind_run.
    destruct (grpc_call_cases (svc_RegisterNamespace ns defaultRetentionPeriod) o)
      as (w' & r & Hr & Hk & Hc & [[-> _] | [-> _]]).
    + exists w', (snd (svc_RegisterNamespace ns defaultRetentionPeriod (o_temporal o))).
      split_and!; auto. destruct r as [|e]; [done |]. by destruct (is_already_exists e).
    + exists w', (o_temporal o).
      split_and!; auto. destruct o, r as [|e]; [done |]. by destruct (is_already_exists e).
Qed.

(** The Temporal client keeps the registerer's promise: success, the answer
    "already exists" included, leaves the namespace registered, and whatever happens on
    the way no registration is lost and nothing else is touched. *)
Theorem RegisterNamespace_refines : RegistererLaws Client_Registerer.
Proof. apply _. Qed.
End Client.

(** A frontend that keeps its namespaces in memory. *)
#[export] Instance MemTemporal : TemporalServer := {
  svc_RegisterNamespace ns _ st :=
    if decide (ns ∈ st) then (Err (ErrText "AlreadyExists"), st) else (Ok tt, {[ns]} ∪ st);
  is_already_exists e := match e with ErrText m => bool_decide (m = "AlreadyExists") | _ => false end;
  rpc_failure e := ErrWrap "Unavailable: " e
}.

#[export] Instance MemTemporal_laws : TemporalLaws MemTemporal.
Proof. split; [| done]. intros ns r st. simpl. by destruct (decide (ns ∈ st)). Qed.

Lemma RegisterNamespace_refines_witness : RegistererLaws (@Client_Registerer MemTemporal).
Proof. apply (RegisterNamespace_refines (TS := MemTemporal)). Defined.
