(* ===== verification/Fakes.v ===== *)
(** The reconciler tests' doubles: [internal/operator/fake_admin.go] and
    [fake_temporal.go].  They keep the promises of the interfaces they stand in for, so
    what is proved of the reconcilers against those interfaces holds in the tests too.

    Each method holds the mutex from start to end, so it is a function of the fields. *)

From S2P Require Import Prelude GoNum GoStr Redis World Admin Kube Temporal.

Local Open Scope Z_scope.

(** ** fakeAdmin *)

Record fakeAdmin : Type := MkFakeAdmin {
  fa_topics : gmap string TopicConfig;
  fa_offsetSums : gmap string Z;
  fa_lag : gmap string Z            (* by group, slash and topic *)
}.

Definition newFakeAdmin : fakeAdmin := MkFakeAdmin ∅ ∅ ∅.

Definition lag_key (group topic : string) : string := group +:+ "/" +:+ topic.

Definition fake_CreateTopic (topic : string) (cfg : TopicConfig) : M fakeAdmin unit :=
  modify (fun f => MkFakeAdmin (<[topic := cfg]> (fa_topics f)) (fa_offsetSums f) (fa_lag f)).

Definition fake_DeleteTopic (topic : string) : M fakeAdmin unit :=
  modify (fun f => MkFakeAdmin (delete topic (fa_topics f)) (fa_offsetSums f) (fa_lag f)).

Definition fake_LogEndOffsetSum (topic : string) : M fakeAdmin Z :=
  gets (fun f => default 0 (fa_offsetSums f !! topic)).

Definition fake_ConsumerLag (group topic : string) : M fakeAdmin Z :=
  gets (fun f => default 0 (fa_lag f !! lag_key group topic)).

Definition fake_ReplicaBrokerIDs (topic : string) : M fakeAdmin (list Z) :=
  gets (fun f => match fa_topics f !! topic with None => [] | Some _ => [0] end).

Definition setOffsetSum (topic : string) (v : Z) : M fakeAdmin unit :=
  modify (fun f => MkFakeAdmin (fa_topics f) (<[topic := v]> (fa_offsetSums f)) (fa_lag f)).

Definition setLag (group topic : string) (v : Z) : M fakeAdmin unit :=
  modify (fun f => MkFakeAdmin (fa_topics f) (fa_offsetSums f) (<[lag_key group topic := v]> (fa_lag f))).

Definition hasTopic (topic : string) : M fakeAdmin bool :=
  gets (fun f => bool_decide (is_Some (fa_topics f !! topic))).

(** In a test the fake's topics are all there is of Kafka; the sums and the lags are
    what the test has set. *)
Definition on_fake {A} (sums lag : gmap string Z) (m : M fakeAdmin A) : M world A := fun w =>
  let '(r, f) := m (MkFakeAdmin (k_topics (w_kafka w)) sums lag) in
  (r, set_kafka (set_topics (fa_topics f) (w_kafka w)) w).

Definition fake_TopicAdmin (sums lag : gmap string Z) : TopicAdmin := {|
  create_topic t cfg := on_fake sums lag (fake_CreateTopic t cfg);
  delete_topic t := on_fake sums lag (fake_DeleteTopic t);
  log_end_offset_sum t := on_fake sums lag (fake_LogEndOffsetSum t);
  consumer_lag g t := on_fake sums lag (fake_ConsumerLag g t);
  replica_broker_ids t := on_fake sums lag (fake_ReplicaBrokerIDs t)
|}.

(** ** fakeTemporal *)

Record fakeTemporal : Type := MkFakeTemporal { ft_registered : gmap string Z; ft_err : option error }.

Definition newFakeTemporal : fakeTemporal := MkFakeTemporal ∅ None.

Definition fake_RegisterNamespace (namespace : string) : M fakeTemporal unit := fun f =>
  match ft_err f with
  | Some e => (Err e, f)
  | None =>
    (Ok tt, MkFakeTemporal (<[namespace := default 0 (ft_registered f !! namespace) + 1]> (ft_registered f)) None)
  end.

Definition setErr (err : option error) : M fakeTemporal unit := modify (fun f => MkFakeTemporal (ft_registered f) err).

Definition count (namespace : string) : M fakeTemporal Z := gets (fun f => default 0 (ft_registered f !! namespace)).

(** The namespaces it has been called for are the registered ones. *)
Definition fake_Registerer (err : option error) : Registerer := fun ns o =>
  let '(r, f) := fake_RegisterNamespace ns (MkFakeTemporal (gset_to_gmap 1 (o_temporal o)) err) in
  (r, set_temporal (dom (ft_registered f)) o).

(** ** Properties *)

#[export] Instance fake_TopicAdmin_laws sums lag : TopicAdminLaws (fake_TopicAdmin sums lag).
Proof.
  split; cbn.
  - intros t cfg w w' [= <-]. cbn. by rewrite lookup_insert_eq.
  - intros t cfg t' w Hne. cbn. by rewrite lookup_insert_ne.
  - intros t cfg w _. cbn. by rewrite lookup_insert_eq.
  - intros t w w' [= <-]. cbn. by rewrite lookup_delete_eq.
  - intros t t' w Hne. cbn. by rewrite lookup_delete_ne.
  - intros t g w. by destruct w as [? []].
  - intros t g cfg ks. split_and!; by intros w Hw.
  - intros t g cfg P HP. split_and!; intros w Hw; by apply ambient_kafka.
Qed.

#[export] Instance fake_Registerer_laws err : RegistererLaws (fake_Registerer err).
Proof.
  split.
  - intros ns o o'. unfold register_namespace, fake_Registerer, fake_RegisterNamespace. cbn.
    destruct err; [done |]. intros [= <-]. cbn. set_solver.
  - intros ns o. unfold register_namespace, fake_Registerer, fake_RegisterNamespace. cbn.
    destruct err as [e|]; cbn.
    + exists (o_world o), (dom (gset_to_gmap 1 (o_temporal o))). rewrite dom_gset_to_gmap.
      split_and!; first [done | lia | by destruct o].
    + exists (o_world o). eexists. split; [by destruct o |].
      rewrite dom_insert_L, dom_gset_to_gmap. split_and!; first [done | lia | set_solver].
Qed.

(** The tests' Kafka admin and Temporal registerer keep the promises the reconcilers'
    theorems rely on, whatever sums, lags and error a test has set. *)
Theorem fakes_refine sums lag err :
  TopicAdminLaws (fake_TopicAdmin sums lag) /\ RegistererLaws (fake_Registerer err).
Proof. split; apply _. Qed.

(** What they do not keep of the real client: creating a topic that exists replaces its
    configuration, and two pairs of group and topic can share one lag. *)
Theorem fake_divergence cfg cfg' t :
  fa_topics (snd (fake_CreateTopic t cfg' (snd (fake_CreateTopic t cfg newFakeAdmin)))) !! t = Some cfg' /\
  fst (fake_ConsumerLag "a/b" "c" (snd (setLag "a" "b/c" 7 newFakeAdmin))) = Ok 7.
Proof. split; [cbn; by rewrite lookup_insert_eq | by vm_compute]. Qed.
