(* ===== verification/Worker.v ===== *)
(** [internal/operator/temporal_worker_controller.go]: one Deployment per TemporalWorker. *)

From S2P Require Import Prelude GoNum GoStr Redis World Kube.

Local Open Scope Z_scope.

Definition temporalWorkerFinalizerName : string := "kmsvc.io/temporal-worker".

(** ** The Deployment of a worker *)

Definition worker_replicas (worker : TemporalWorker) : Z := default 1 (tws_Replicas (tw_Spec worker)).

Definition worker_pull_policy (worker : TemporalWorker) : string :=
  if bool_decide (tws_ImagePullPolicy (tw_Spec worker) = "") then "IfNotPresent"
  else tws_ImagePullPolicy (tw_Spec worker).

Definition worker_labels (worker : TemporalWorker) : gmap string string :=
  {["app.kubernetes.io/name" := "temporal-worker";
    "app.kubernetes.io/instance" := om_Name (tw_Meta worker);
    "app.kubernetes.io/managed-by" := "kmsvc-temporal-operator"]}.

Definition worker_container (worker : TemporalWorker) : Container :=
  {| c_Name := "worker"; c_Image := tws_Image (tw_Spec worker);
     c_ImagePullPolicy := worker_pull_policy worker;
     c_Env := [("TEMPORAL_FRONTEND_ADDRESS", "temporal-frontend.temporal.svc.cluster.local:7233");
               ("TEMPORAL_NAMESPACE", tws_Namespace (tw_Spec worker));
               ("TEMPORAL_TASK_QUEUE", om_Name (tw_Meta worker))];
     c_Resources := tws_Resources (tw_Spec worker) |}.

Section Ops.
Context {KS : KubeServer} {CU : ControllerUtil}.

(** The mutation given to [CreateOrUpdate]. *)
Definition mutate_deployment (worker : TemporalWorker) (d : Deployment) : res Deployment :=
  match SetControllerReference (meta_key (tw_Meta worker)) d with
  | Err e => Err (ErrWrap "set controller reference: " e)
  | Ok d => Ok
    {| d_Meta := d_Meta d; d_Owner := d_Owner d;
       d_Replicas := Some (worker_replicas worker);
       d_Selector := worker_labels worker;
       d_TemplateLabels := worker_labels worker;
       d_Containers := [worker_container worker];
       d_NodeSelector := if bool_decide (tws_NodeSelector (tw_Spec worker) = ∅) then d_NodeSelector d
                         else tws_NodeSelector (tw_Spec worker);
       d_Affinity := match tws_Affinity (tw_Spec worker) with None => d_Affinity d | Some a => Some a end;
       d_Tolerations := match tws_Tolerations (tw_Spec worker) with [] => d_Tolerations d | ts => ts end;
       d_ReadyReplicas := d_ReadyReplicas d |}
  end.

Definition set_worker_meta (m : ObjectMeta) (t : TemporalWorker) : TemporalWorker :=
  MkWorker m (tw_Spec t) (tw_Status t).
Definition set_worker_status (st : TemporalWorkerStatus) (t : TemporalWorker) : TemporalWorker :=
  MkWorker (tw_Meta t) (tw_Spec t) st.

(** The status that [deployment]'s replicas amount to. *)
Definition observed_status (d : Deployment) : TemporalWorkerStatus :=
  let wanted := default 0 (d_Replicas d) in
  MkWorkerStatus (if d_ReadyReplicas d =? wanted then TemporalWorkerPhaseReady else TemporalWorkerPhasePending)
    wanted (d_ReadyReplicas d).

Definition failed_status (st : TemporalWorkerStatus) : TemporalWorkerStatus :=
  MkWorkerStatus TemporalWorkerPhaseFailed (twst_Replicas st) (twst_ReadyReplicas st).

Definition ensure_worker_finalizer (worker : TemporalWorker) : M oworld TemporalWorker :=
  if ContainsFinalizer (tw_Meta worker) temporalWorkerFinalizerName then mret worker
  else wrap_err "add finalizer: "
         (kube (kube_update_worker
            (set_worker_meta (AddFinalizer (tw_Meta worker) temporalWorkerFinalizerName) worker))).

Definition reconcileDelete (worker : TemporalWorker) : M oworld unit :=
  if negb (ContainsFinalizer (tw_Meta worker) temporalWorkerFinalizerName) then mret tt
  else
    _ ← wrap_err "remove finalizer: "
          (kube (kube_update_worker
             (set_worker_meta (RemoveFinalizer (tw_Meta worker) temporalWorkerFinalizerName) worker)));
    mret tt.

Definition Reconcile (namespace name : string) : M oworld unit :=
  got ← wrap_err ("get temporalworker " +:+ namespace +:+ "/" +:+ name +:+ ": ")
          (kube (kube_get_worker (namespace, name)));
  match got with
  | None => mret tt
  | Some worker =>
    if negb (deletion_is_zero (tw_Meta worker)) then reconcileDelete worker
    else
      worker ← ensure_worker_finalizer worker;
      r ← attempt (kube (kube_upsert_deployment (meta_key (tw_Meta worker)) (mutate_deployment worker)));
      match r with
      | Err err =>
        _ ← wrap_err "update status failed: "
              (kube (kube_update_worker_status (set_worker_status (failed_status (tw_Status worker)) worker)));
        fail err
      | Ok deployment =>
        _ ← wrap_err "update status: "
              (kube (kube_update_worker_status (set_worker_status (observed_status deployment) worker)));
        mret tt
      end
  end.
End Ops.

(** ** Proofs *)

Section Proofs.
Context {KS : KubeServer} {KL : KubeLaws KS} {CU : ControllerUtil} {CL : ControllerUtilLaws CU}.

(** Objects are stored under their own keys. *)
Definition workers_keyed (c : cluster) : Prop :=
  forall k t, k8s_workers c !! k = Some t -> meta_key (tw_Meta t) = k.

Lemma get_worker_inv k o t o' :
  kube (kube_get_worker k) o = (Ok t, o') -> t = k8s_workers (o_kube o) !! k /\ o_kube o' = o_kube o.
Proof.
  intros (w' & Hrun & _)%kube_ok_inv. destruct (law_get_worker k (o_kube o)) as [E | [e E]];
    rewrite E in Hrun; by simplify_eq.
Qed.

Lemma update_worker_inv t o t' o' :
  kube (kube_update_worker t) o = (Ok t', o') -> deletion_is_zero (tw_Meta t) = true ->
  exists old, k8s_workers (o_kube o) !! meta_key (tw_Meta t) = Some old /\
    t' = MkWorker (tw_Meta t) (tw_Spec t) (tw_Status old) /\
    o_kube o' = set_workers (<[meta_key (tw_Meta t) := t']> (k8s_workers (o_kube o))) (o_kube o).
Proof.
  intros (w' & Hrun & _)%kube_ok_inv Hz. pose proof (law_update_worker t (o_kube o)) as H.
  rewrite Hrun in H. destruct H as (old & Hold & Ht & Hc). rewrite Hz in Hc. eauto.
Qed.

Lemma update_worker_status_inv t o t' o' :
  kube (kube_update_worker_status t) o = (Ok t', o') ->
  exists old, k8s_workers (o_kube o) !! meta_key (tw_Meta t) = Some old /\
    t' = MkWorker (tw_Meta old) (tw_Spec old) (tw_Status t) /\
    o_kube o' = set_workers (<[meta_key (tw_Meta t) := t']> (k8s_workers (o_kube o))) (o_kube o).
Proof.
  intros (w' & Hrun & _)%kube_ok_inv. pose proof (law_update_worker_status t (o_kube o)) as H.
  by rewrite Hrun in H.
Qed.

Lemma upsert_deployment_inv k f o d o' :
  kube (kube_upsert_deployment k f) o = (Ok d, o') ->
  f (default (blank_deployment k) (k8s_deployments (o_kube o) !! k)) = Ok d /\
  o_kube o' = set_deployments (<[k := d]> (k8s_deployments (o_kube o))) (o_kube o).
Proof.
  intros (w' & Hrun & _)%kube_ok_inv. pose proof (law_upsert_deployment k f (o_kube o)) as H.
  by rewrite Hrun in H.
Qed.

Lemma ensure_worker_finalizer_inv worker o worker' o' :
  k8s_workers (o_kube o) !! meta_key (tw_Meta worker) = Some worker ->
  deletion_is_zero (tw_Meta worker) = true ->
  ensure_worker_finalizer worker o = (Ok worker', o') ->
  meta_key (tw_Meta worker') = meta_key (tw_Meta worker) /\ tw_Spec worker' = tw_Spec worker /\
  temporalWorkerFinalizerName ∈ om_Finalizers (tw_Meta worker') /\
  o_kube o' = set_workers (<[meta_key (tw_Meta worker) := worker']> (k8s_workers (o_kube o))) (o_kube o).
Proof.
  intros Hw Hz. unfold ensure_worker_finalizer. destruct (ContainsFinalizer _ _) eqn:Hf.
  - intros [= <- <-]. apply law_contains in Hf. split_and!; try done.
    rewrite insert_id by done. by destruct (o_kube o).
  - rewrite wrap_err_ok. intros H. apply update_worker_inv in H.
    + destruct H as (old & Hold & -> & Hc). revert Hold Hc. rewrite law_add, Hf. simpl. intros Hold Hc.
      split_and!; [done | done | set_solver | exact Hc].
    + simpl. by rewrite law_add, Hf.
Qed.

(** What the deployment [d] of [worker] has to look like. *)
Record runs (worker : TemporalWorker) (d : Deployment) : Prop := {
  runs_owner : d_Owner d = Some (meta_key (tw_Meta worker));
  runs_replicas : d_Replicas d = Some (default 1 (tws_Replicas (tw_Spec worker)));
  runs_selects : d_Selector d = d_TemplateLabels d /\
    d_Selector d !! "app.kubernetes.io/instance" = Some (om_Name (tw_Meta worker));
  runs_container : exists c, d_Containers d = [c] /\ c_Image c = tws_Image (tw_Spec worker) /\
    c_Resources c = tws_Resources (tw_Spec worker) /\
    ("TEMPORAL_NAMESPACE", tws_Namespace (tw_Spec worker)) ∈ c_Env c /\
    ("TEMPORAL_TASK_QUEUE", om_Name (tw_Meta worker)) ∈ c_Env c
}.

Lemma mutate_deployment_runs worker d d' :
  mutate_deployment worker d = Ok d' -> runs worker d' /\ d_ReadyReplicas d' = d_ReadyReplicas d.
Proof.
  unfold mutate_deployment. destruct (SetControllerReference _ _) as [d1|e] eqn:E; [| done].
  apply law_set_controller in E as ->. intros [= <-]. split; [| done]. split; simpl.
  - done.
  - done.
  - split; [done |]. unfold worker_labels. by simplify_map_eq.
  - eexists. split_and!; [done | done | done | set_solver | set_solver].
Qed.

(** C28. A successful reconcile of a worker leaves the cluster with a Deployment, owned
    by the worker, that runs its image in its Temporal namespace on its task queue
    with the replicas it asks for; the worker carries the finalizer and the status that
    the Deployment's replicas amount to; and nothing else in the cluster has changed. *)
Theorem Reconcile_runs_worker ns name o o' worker :
  workers_keyed (o_kube o) ->
  k8s_workers (o_kube o) !! (ns, name) = Some worker ->
  deletion_is_zero (tw_Meta worker) = true ->
  Reconcile ns name o = (Ok tt, o') ->
  exists worker' d,
    o_kube o' = set_deployments (<[(ns, name) := d]> (k8s_deployments (o_kube o)))
                  (set_workers (<[(ns, name) := worker']> (k8s_workers (o_kube o))) (o_kube o)) /\
    runs worker d /\
    tw_Spec worker' = tw_Spec worker /\
    temporalWorkerFinalizerName ∈ om_Finalizers (tw_Meta worker') /\
    tw_Status worker' =
      MkWorkerStatus (if bool_decide (d_Replicas d = Some (d_ReadyReplicas d)) then TemporalWorkerPhaseReady
                      else TemporalWorkerPhasePending)
        (worker_replicas worker) (d_ReadyReplicas d).
Proof.
  intros Hkeyed Hw Hz. pose proof (Hkeyed _ _ Hw) as Hkey. unfold Reconcile.
  intros (got & o1 & Hget%wrap_err_ok & H)%mbind_ok_inv. apply get_worker_inv in Hget as [-> Hk1].
  rewrite Hw, Hz in H. cbn [negb] in H.
  apply mbind_ok_inv in H as (worker1 & o2 & Hfin & H).
  apply ensure_worker_finalizer_inv in Hfin as (Hkey1 & Hspec1 & Hf1 & Hk2);
    [| by rewrite Hk1, Hkey | done].
  rewrite Hk1, Hkey in Hk2. rewrite Hkey in Hkey1.
  apply mbind_ok_inv in H as (r & o3 & Hup & H). unfold attempt in Hup.
  destruct (kube _ o2) as [[d|e] o3'] eqn:Hd; injection Hup as <- <-.
  2: { by apply mbind_ok_inv in H as (? & ? & _ & ?). }
  apply upsert_deployment_inv in Hd as [Hmut Hk3]. rewrite Hkey1, Hk2 in Hk3.
  apply mutate_deployment_runs in Hmut as [Hruns _].
  apply mbind_ok_inv in H as (worker2 & o4 & Hst%wrap_err_ok & [= <-]).
  apply update_worker_status_inv in Hst as (old & Hold & Hw2 & Hk4).
  simpl in Hold, Hk4. rewrite Hkey1, Hk3 in Hold, Hk4. simpl in Hold, Hk4.
  rewrite lookup_insert_eq in Hold. injection Hold as <-.
  exists worker2, d. split_and!.
  - rewrite Hk4. simpl. rewrite insert_insert_eq. by destruct (o_kube o).
  - assert (Hm : meta_key (tw_Meta worker1) = meta_key (tw_Meta worker)) by congruence.
    assert (Hn : om_Name (tw_Meta worker1) = om_Name (tw_Meta worker)) by (unfold meta_key in Hm; congruence).
    destruct Hruns as [H1 H2 H3 H4]. rewrite Hspec1, Hn in *. rewrite Hm in H1. by split.
  - by rewrite Hw2.
  - by rewrite Hw2.
  - rewrite Hw2. simpl. destruct Hruns as [_ Hrep _ _]. unfold observed_status, worker_replicas.
    rewrite Hspec1 in Hrep. rewrite Hrep. simpl. f_equal.
    case_bool_decide as Hb; zbool; congruence.
Qed.

(** A field of the pod template that a worker no longer sets keeps its old value. *)
Lemma mutate_deployment_keeps_selector worker d d' :
  tws_NodeSelector (tw_Spec worker) = ∅ -> mutate_deployment worker d = Ok d' ->
  d_NodeSelector d' = d_NodeSelector d.
Proof.
  unfold mutate_deployment. intros ->. destruct (SetControllerReference _ _) as [d1|e] eqn:E; [| done].
  apply law_set_controller in E as ->. intros [= <-]. done.
Qed.

(** A worker that is being deleted loses this controller's finalizer and nothing
    else; with no finalizer left it is gone. *)
Theorem Reconcile_releases_worker ns name o o' worker :
  workers_keyed (o_kube o) ->
  k8s_workers (o_kube o) !! (ns, name) = Some worker ->
  deletion_is_zero (tw_Meta worker) = false ->
  om_Finalizers (tw_Meta worker) = [temporalWorkerFinalizerName] ->
  Reconcile ns name o = (Ok tt, o') ->
  o_kube o' = set_workers (delete (ns, name) (k8s_workers (o_kube o))) (o_kube o).
Proof.
  intros Hkeyed Hw Hz Hf. pose proof (Hkeyed _ _ Hw) as Hkey. unfold Reconcile.
  intros (got & o1 & Hget%wrap_err_ok & H)%mbind_ok_inv. apply get_worker_inv in Hget as [-> Hk1].
  rewrite Hw, Hz in H. cbn [negb] in H. unfold reconcileDelete in H.
  assert (Hc : ContainsFinalizer (tw_Meta worker) temporalWorkerFinalizerName = true)
    by (apply law_contains; rewrite Hf; set_solver).
  rewrite Hc in H. cbn [negb] in H.
  apply mbind_ok_inv in H as (t & o2 & Hup%wrap_err_ok & [= <-]).
  apply kube_ok_inv in Hup as (w' & Hrun & _).
  match type of Hrun with kube_update_worker ?t _ = _ => pose proof (law_update_worker t (o_kube o1)) as H end.
  rewrite Hrun in H. destruct H as (old & Hold & _ & ->). revert Hold.
  rewrite law_remove, Hk1. simpl. unfold deletion_is_zero, meta_key in *. simpl. rewrite Hf, Hkey, Hz.
  intros _. by rewrite filter_cons_False by (by intros []).
Qed.
End Proofs.

(** ** Example *)

Definition mailer : TemporalWorker :=
  MkWorker (MkMeta "temporal" "worker-mail" ∅ [] zero_time None)
    (MkWorkerSpec "mail" "backend:latest" "" (Some 2) None {["disk" := "ssd"]} None [])
    (MkWorkerStatus TemporalWorkerPhaseUnset 0 0).

Definition mail_world (worker : TemporalWorker) : oworld :=
  OWorld world0 (Cluster ∅ {[("temporal", "worker-mail") := worker]} ∅ ∅ ∅) ∅ ∅ ∅ ∅.

Lemma mail_world_keyed worker :
  meta_key (tw_Meta worker) = ("temporal", "worker-mail") -> workers_keyed (o_kube (mail_world worker)).
Proof. intros Hk k t H. simpl in H. apply lookup_singleton_Some in H as [<- <-]. done. Qed.

Definition mail_key : okey := ("temporal", "worker-mail").

Lemma Reconcile_runs_worker_witness : exists worker' d,
  o_kube (snd (Reconcile "temporal" "worker-mail" (mail_world mailer))) =
    set_deployments (<[mail_key := d]> (k8s_deployments (o_kube (mail_world mailer))))
      (set_workers (<[mail_key := worker']> (k8s_workers (o_kube (mail_world mailer)))) (o_kube (mail_world mailer))) /\
  runs mailer d /\
  tw_Spec worker' = tw_Spec mailer /\
  temporalWorkerFinalizerName ∈ om_Finalizers (tw_Meta worker') /\
  tw_Status worker' =
    MkWorkerStatus (if bool_decide (d_Replicas d = Some (d_ReadyReplicas d)) then TemporalWorkerPhaseReady
                    else TemporalWorkerPhasePending)
      (worker_replicas mailer) (d_ReadyReplicas d).
Proof.
  apply (Reconcile_runs_worker "temporal" "worker-mail" (mail_world mailer)).
  - by apply mail_world_keyed.
  - apply lookup_singleton_eq.
  - reflexivity.
  - apply run_fst. vm_compute. reflexivity.
Defined.

Definition leaving_mailer : TemporalWorker :=
  set_worker_meta (set_finalizers [temporalWorkerFinalizerName]
    (set_deletion (1700000000 * Second) (tw_Meta mailer))) mailer.

Lemma Reconcile_releases_worker_witness :
  o_kube (snd (Reconcile "temporal" "worker-mail" (mail_world leaving_mailer))) =
  set_workers (delete mail_key (k8s_workers (o_kube (mail_world leaving_mailer))))
    (o_kube (mail_world leaving_mailer)).
Proof.
  apply (Reconcile_releases_worker "temporal" "worker-mail" (mail_world leaving_mailer) _ leaving_mailer).
  - by apply mail_world_keyed.
  - apply lookup_singleton_eq.
  - reflexivity.
  - reflexivity.
  - apply run_fst. vm_compute. reflexivity.
Defined.
