(* ===== verification/Reconcile.v ===== *)
(** [internal/operator/queue_controller.go]: the reconcile loop of a Queue.

    The queue is read into memory, changed there step by step, and written back with
    its status at the end; [setFailed] writes whatever is in memory when a step fails.
    The reconciler's clients are the classes of the components they belong to; its
    state ([sampleState], the zone cache) is in the operator's world. *)

From S2P Require Import Prelude GoNum GoStr Topology Json Keys Redis World Schema Store Send Admin Kube Shards Zones Temporal.
From Stdlib Require Import Ascii.

Local Open Scope Z_scope.

Definition finalizerName : string := "kmsvc.io/queue-operator".
Definition replicationFactor : Z := 3.
Definition minInsyncReplicas : Z := 2.
Definition namespace_label : string := "temporal.io/namespace".

(** ** Names *)

Definition isValidTemporalNamespace (namespace : string) : bool :=
  if (Z.of_nat (String.length namespace) =? 0) || (255 <? Z.of_nat (String.length namespace)) then false
  else forallb (fun ch => (97 <=? ch) && (ch <=? 122) || (48 <=? ch) && (ch <=? 57) || (ch =? 95) || (ch =? 45))
         (bytes namespace).

(** [%q] of a printable character *)
Definition quote_char (c : ascii) : string := "'" +:+ String c "'".

(** The loop, from the [i]-th character; [len] is the length of the whole name. *)
Fixpoint name_loop (len i : Z) (name : string) : option error :=
  match name with
  | EmptyString => None
  | String c rest =>
    let ch := byte_of c in
    let isLower := (97 <=? ch) && (ch <=? 122) in
    let isDigit := (48 <=? ch) && (ch <=? 57) in
    let isHyphen := ch =? 45 in
    if negb (isLower || isDigit || isHyphen) then
      Some (ErrText ("name contains invalid character " +:+ quote_char c +:+ " at position " +:+ FormatInt i))
    else if (i =? 0) && (isHyphen || isDigit) then Some (ErrText "name must start with lowercase letter")
    else if (i =? len - 1) && isHyphen then Some (ErrText "name must end with lowercase letter or digit")
    else name_loop len (i + 1) rest
  end.

Definition validateKubernetesName (name : string) : option error :=
  let len := Z.of_nat (String.length name) in
  if (len =? 0) || (253 <? len) then Some (ErrText "name length must be 1-253 characters")
  else name_loop len 0 name.

(** ** The published state *)

Definition published_meta (queue : Queue) : QueueMeta :=
  let spec := q_Spec queue in
  {| qm_FIFO := qs_FIFOQueue spec;
     qm_VisibilityTimeoutSeconds := qs_VisibilityTimeoutSeconds spec;
     qm_MaxReceiveCount := qs_MaxReceiveCount spec;
     qm_DLQQueueName := qs_DeadLetterTargetQueue spec;
     qm_PartitionsPerShard := qs_PartitionsPerShard spec;
     qm_RetentionSeconds := qs_MessageRetentionPeriodSeconds spec;
     qm_CreatedAt := om_CreationTimestamp (q_Meta queue) |}.

Definition is_closed (s : ShardStatus) : bool := bool_decide (ss_Phase s = ShardPhaseClosed).

Definition published_shard (s : ShardStatus) : Shard :=
  {| sh_ID := ss_ID s; sh_Topic := ss_Topic s;
     sh_HashRangeStart := u32 (ss_HashRangeStart s); sh_HashRangeEnd := u32 (ss_HashRangeEnd s);
     sh_Phase := shard_phase_string (ss_Phase s) |}.

Fixpoint published_shards (shards : list ShardStatus) : list Shard :=
  match shards with
  | [] => []
  | s :: rest => if is_closed s then published_shards rest else published_shard s :: published_shards rest
  end.

Definition topic_cfg (queue : Queue) : TopicConfig :=
  {| tc_PartitionCount := qs_PartitionsPerShard (q_Spec queue);
     tc_ReplicationFactor := replicationFactor;
     tc_RetentionSeconds := qs_MessageRetentionPeriodSeconds (q_Spec queue);
     tc_MinInsyncReplicas := minInsyncReplicas |}.

Section Ops.
Context {RS : RedisServer} {KS : KubeServer} {CU : ControllerUtil} {TA : TopicAdmin} {RG : Registerer}.

(** [r.Zones]: nil turns zone annotation off. *)
Context (Zones : option ZoneLocator).

Definition setFailed (queue : Queue) (reason : string) (cause : error) : M oworld unit :=
  r ← attempt (kube (kube_update_queue_status (set_queue_phase QueuePhaseFailed queue)));
  match r with
  | Err e => fail (ErrWrap ("update failed status " +:+ q_Name queue +:+ " (reason=" +:+ reason +:+
                            ", cause=" +:+ err_msg cause +:+ "): ") e)
  | Ok _ => fail (ErrWrap ("reconcile " +:+ q_Name queue +:+ " failed (" +:+ reason +:+ "): ") cause)
  end.

(** [if err := m; err != nil { return r.setFailed(...) }] and the rest. *)
Definition or_failed {A} (queue : Queue) (reason : string) (m : M oworld A) (rest : A -> M oworld unit)
    : M oworld unit :=
  r ← attempt m;
  match r with
  | Err e => setFailed queue reason e
  | Ok a => rest a
  end.

Definition ensure_finalizer (name : string) (queue : Queue) : M oworld Queue :=
  if ContainsFinalizer (q_Meta queue) finalizerName then mret queue
  else wrap_err ("add finalizer " +:+ name +:+ ": ")
         (kube (kube_update_queue (set_meta (AddFinalizer (q_Meta queue) finalizerName) queue))).

Definition ensure_first_shard (queue : Queue) : M oworld Queue :=
  match qst_Shards (q_Status queue) with
  | [] => now ← lift Now; mret (set_shards [newShard now "0" "" 0 FullHashRangeEnd queue] queue)
  | _ => mret queue
  end.

Fixpoint ensure_topics (cfg : TopicConfig) (shards : list ShardStatus) : M oworld unit :=
  match shards with
  | [] => mret tt
  | s :: rest =>
    if is_closed s then ensure_topics cfg rest
    else
      _ ← wrap_err ("ensure topic " +:+ ss_Topic s +:+ ": ") (lift (create_topic (ss_Topic s) cfg));
      ensure_topics cfg rest
  end.

Definition ensureShardTopics (queue : Queue) : M oworld unit :=
  ensure_topics (topic_cfg queue) (qst_Shards (q_Status queue)).

(** One shard; errors are only logged. *)
Definition annotate_shard (z : ZoneLocator) (s : ShardStatus) : M oworld ShardStatus :=
  if is_closed s then mret s
  else
    brokerIDs ← attempt (lift (replica_broker_ids (ss_Topic s)));
    match brokerIDs with
    | Err _ | Ok [] => mret s
    | Ok brokerIDs =>
      zones ← attempt (ZonesForBrokers z brokerIDs);
      match zones with
      | Err _ | Ok [] => mret s
      | Ok zones => mret (set_zones zones s)
      end
    end.

Fixpoint annotate_shards (z : ZoneLocator) (shards : list ShardStatus) : M oworld (list ShardStatus) :=
  match shards with
  | [] => mret []
  | s :: rest => s ← annotate_shard z s; rest ← annotate_shards z rest; mret (s :: rest)
  end.

Definition annotateAvailabilityZones (queue : Queue) : M oworld Queue :=
  match Zones with
  | None => mret queue
  | Some z => shards ← annotate_shards z (qst_Shards (q_Status queue)); mret (set_shards shards queue)
  end.

Definition publishRedisState (queue : Queue) : M oworld unit :=
  _ ← lift (PutQueueMeta (q_Name queue) (published_meta queue));
  lift (PutShardMap (q_Name queue) (published_shards (qst_Shards (q_Status queue)))).

(** The mutation given to [CreateOrUpdate]. *)
Definition worker_spec (namespace image : string) (spec : TemporalWorkerSpec) : TemporalWorkerSpec :=
  MkWorkerSpec namespace image (tws_ImagePullPolicy spec) (Some 1) (tws_Resources spec)
    (tws_NodeSelector spec) (tws_Affinity spec) (tws_Tolerations spec).

Definition worker_name (namespace : string) : string := "worker-" +:+ namespace.

Definition reconcileTemporalWorker (queue : Queue) : M oworld unit :=
  let namespace := default "" (om_Labels (q_Meta queue) !! namespace_label) in
  if bool_decide (namespace = "") then mret tt
  else if negb (isValidTemporalNamespace namespace) then
    fail (ErrText ("invalid temporal namespace label " +:+ quote namespace +:+
                   ": must be lowercase alphanumeric and hyphens"))
  else
    let workerName := worker_name namespace in
    match validateKubernetesName workerName with
    | Some e => fail (ErrWrap ("invalid kubernetes name " +:+ quote workerName +:+ ": ") e)
    | None =>
      _ ← wrap_err ("register temporal namespace " +:+ namespace +:+ ": ") (register_namespace namespace);
      workerNamespace ← getEnvOrDefault "KMSVC_TEMPORAL_NAMESPACE" "temporal";
      workerImage ← getEnvOrDefault "KMSVC_TEMPORAL_WORKER_IMAGE" "story-crater-backend:latest";
      _ ← wrap_err ("create or update TemporalWorker " +:+ workerName +:+ ": ")
            (kube (kube_upsert_worker (workerNamespace, workerName) (worker_spec namespace workerImage)));
      mret tt
    end.

Fixpoint delete_topics (shards : list ShardStatus) : M oworld unit :=
  match shards with
  | [] => mret tt
  | s :: rest =>
    if is_closed s then delete_topics rest
    else
      _ ← wrap_err ("delete topic " +:+ ss_Topic s +:+ ": ") (lift (delete_topic (ss_Topic s)));
      delete_topics rest
  end.

Definition delete_worker (queue : Queue) : M oworld unit :=
  let namespace := default "" (om_Labels (q_Meta queue) !! namespace_label) in
  if bool_decide (namespace = "") then mret tt
  else
    workerNamespace ← getEnvOrDefault "KMSVC_TEMPORAL_NAMESPACE" "temporal";
    _ ← wrap_err ("delete TemporalWorker " +:+ worker_name namespace +:+ ": ")
          (kube (kube_delete_worker (workerNamespace, worker_name namespace)));
    mret tt.

Definition reconcileDelete (queue : Queue) : M oworld unit :=
  if negb (ContainsFinalizer (q_Meta queue) finalizerName) then mret tt
  else
    _ ← delete_topics (qst_Shards (q_Status queue));
    _ ← lift (DeleteQueueMeta (q_Name queue));
    _ ← lift (DeleteShardMap (q_Name queue));
    _ ← delete_worker queue;
    _ ← wrap_err ("remove finalizer " +:+ q_Name queue +:+ ": ")
          (kube (kube_update_queue (set_meta (RemoveFinalizer (q_Meta queue) finalizerName) queue)));
    mret tt.

(** The reconcile of a queue that is there to stay, once it has the finalizer. *)
Definition reconcile_shards (name : string) (queue : Queue) : M oworld unit :=
  queue ← ensure_first_shard queue;
  or_failed queue "EnsureTopics" (ensureShardTopics queue) (fun _ =>
    queue ← annotateAvailabilityZones queue;
    split ← reconcileSplits queue;
    let queue := fst split in
    match snd split with
    | Some e => setFailed queue "ShardSplit" e
    | None =>
      or_failed queue "ShardDrain" (reconcileDrains queue) (fun queue =>
      or_failed queue "PublishRedis" (publishRedisState queue) (fun _ =>
      or_failed queue "TemporalWorker" (reconcileTemporalWorker queue) (fun _ =>
        _ ← wrap_err ("update status " +:+ name +:+ ": ")
              (kube (kube_update_queue_status (set_queue_phase QueuePhaseReady queue)));
        mret tt)))
    end).

Definition Reconcile (namespace name : string) : M oworld unit :=
  got ← wrap_err ("get queue " +:+ namespace +:+ "/" +:+ name +:+ ": ")
          (kube (kube_get_queue (namespace, name)));
  match got with
  | None => mret tt
  | Some queue =>
    if negb (deletion_is_zero (q_Meta queue)) then reconcileDelete queue
    else
      match ValidateNoDLQCycle (q_Name queue) (qs_IsDLQ (q_Spec queue)) (qs_DeadLetterTargetQueue (q_Spec queue)) with
      | Err e => setFailed queue "DLQCycle" e
      | Ok _ => queue ← ensure_finalizer name queue; reconcile_shards name queue
      end
  end.
End Ops.

(** ** Frames: what each step leaves alone *)

Definition redis_is (ks : keyspace) (o : oworld) : Prop := w_redis (o_world o) = ks.
Definition kafka_is (k : kafka) (o : oworld) : Prop := w_kafka (o_world o) = k.
Definition queues_are (m : gmap okey Queue) (o : oworld) : Prop := k8s_queues (o_kube o) = m.
Definition not_before (t : Z) (o : oworld) : Prop := t <= w_clock (o_world o).

(** The passing of time and of network events, the caches and the registered namespaces
    do not matter to [P]. *)
Class OAmbient (P : oworld -> Prop) : Prop := {
  oamb_net n o : P o -> P (set_world (set_net n (o_world o)) o);
  oamb_time d o : P o -> P (set_world (elapse d (o_world o)) o);
  oamb_zones z o : P o -> P (set_zone_cache z o);
  oamb_samples s o : P o -> P (set_samples s o);
  oamb_temporal t o : P o -> P (set_temporal t o)
}.

#[export] Instance redis_is_ambient ks : OAmbient (redis_is ks).
Proof. by split. Qed.
#[export] Instance kafka_is_ambient k : OAmbient (kafka_is k).
Proof. by split. Qed.
#[export] Instance queues_are_ambient m : OAmbient (queues_are m).
Proof. by split. Qed.
#[export] Instance not_before_ambient t : OAmbient (not_before t).
Proof. split; unfold not_before; simpl; intros; lia. Qed.

Create HintDb oframe.

Section Frames.
Context {RS : RedisServer} {KS : KubeServer} {CU : ControllerUtil} {TA : TopicAdmin} {RG : Registerer}.
Context {KL : KubeLaws KS} {TL : TopicAdminLaws TA} {GL : RegistererLaws RG}.
Context (P : oworld -> Prop) {AP : OAmbient P}.

Lemma frame_modify (f : oworld -> oworld) : (forall o, P o -> P (f o)) -> preserves P (modify f).
Proof. intros Hf o Ho. by apply Hf. Qed.

(** A read of the API server. *)
Lemma frame_kube_read {A} (c : M cluster A) (v : cluster -> A) :
  (forall k, c k = (Ok (v k), k) \/ exists e, c k = (Err e, k)) -> preserves P (kube c).
Proof.
  intros Hc. apply preserves_kube; [by intros; apply oamb_net | by intros; apply oamb_time |].
  intros o Ho. destruct o. by destruct (Hc o_kube) as [E | [e E]]; simpl in *; rewrite E.
Qed.

Lemma frame_pod k : preserves P (kube (kube_get_pod_node k)).
Proof. eapply frame_kube_read. intros c. apply law_get_pod_node. Qed.

Lemma frame_node n : preserves P (kube (kube_get_node_labels n)).
Proof. eapply frame_kube_read. intros c. apply law_get_node_labels. Qed.

Lemma frame_get_queue k : preserves P (kube (kube_get_queue k)).
Proof. eapply frame_kube_read. intros c. apply law_get_queue. Qed.

Lemma frame_zones z ids : preserves P (ZonesForBrokers z ids).
Proof.
  unfold ZonesForBrokers. repeat pres_step. generalize (@nil string).
  induction ids as [|id ids IH]; intros zones; cbn [zones_loop]; repeat pres_step; try apply IH.
  unfold zone_of_broker, nodeNameForBroker, zoneForNode. cbv zeta.
  repeat pres_step; try apply frame_pod; try apply frame_node.
  apply frame_modify. intros o. apply oamb_zones.
Qed.
End Frames.

Section StepFrames.
Context {RS : RedisServer} {KS : KubeServer} {CU : ControllerUtil} {TA : TopicAdmin} {RG : Registerer}.
Context {KL : KubeLaws KS} {TL : TopicAdminLaws TA} {GL : RegistererLaws RG}.

Definition admin_reads (P : oworld -> Prop) : Prop := forall t g,
  preserves P (lift (log_end_offset_sum t)) /\ preserves P (lift (consumer_lag g t)) /\
  preserves P (lift (replica_broker_ids t)).

Definition admin_writes (P : oworld -> Prop) : Prop := forall t cfg,
  preserves P (lift (create_topic t cfg)) /\ preserves P (lift (delete_topic t)).

Lemma admin_redis_is ks : admin_reads (redis_is ks) /\ admin_writes (redis_is ks).
Proof.
  split; intros t x; [pose proof (admin_redis t x (MkTopicConfig 0 0 0 0) ks) as H
                     | pose proof (admin_redis t "" x ks) as H];
    split_and!; apply (preserves_lift (fun w => w_redis w = ks)); apply H.
Qed.

Lemma admin_not_before t0 : admin_reads (not_before t0) /\ admin_writes (not_before t0).
Proof.
  split; intros t x; [pose proof (admin_ambient t x (MkTopicConfig 0 0 0 0) (after t0) _) as H
                     | pose proof (admin_ambient t "" x (after t0) _) as H];
    split_and!; apply (preserves_lift (after t0)); apply H.
Qed.

Lemma admin_queues_are m : admin_reads (queues_are m) /\ admin_writes (queues_are m).
Proof. split; intros t x; split_and!; by apply lift_frame. Qed.

Lemma admin_kafka_is k : admin_reads (kafka_is k).
Proof.
  intros t g. split_and!; apply (preserves_lift (fun w => w_kafka w = k)); intros w Hw; rewrite <- Hw;
    apply (admin_reads_kafka t g w).
Qed.

(** A step that reads the cluster, or creates and deletes topics. *)
Definition read_safe (P : oworld -> Prop) : Prop := OAmbient P /\ admin_reads P.
Definition topic_safe (P : oworld -> Prop) : Prop := read_safe P /\ admin_writes P.

Lemma topic_safe_redis ks : topic_safe (redis_is ks).
Proof. destruct (admin_redis_is ks). split; [split; [apply _ | done] | done]. Qed.
Lemma topic_safe_clock t : topic_safe (not_before t).
Proof. destruct (admin_not_before t). split; [split; [apply _ | done] | done]. Qed.
Lemma topic_safe_queues m : topic_safe (queues_are m).
Proof. destruct (admin_queues_are m). split; [split; [apply _ | done] | done]. Qed.
Lemma read_safe_kafka k : read_safe (kafka_is k).
Proof. split; [apply _ | apply admin_kafka_is]. Qed.

Lemma frame_first_shard (P : oworld -> Prop) queue : preserves P (ensure_first_shard queue).
Proof.
  unfold ensure_first_shard. repeat pres_step. intros o Ho. rewrite lift_run. by destruct o as [[] ?].
Qed.

Lemma frame_ensure_topics P queue : topic_safe P -> preserves P (ensureShardTopics queue).
Proof.
  intros [_ Hw]. unfold ensureShardTopics. generalize (topic_cfg queue) as cfg, (qst_Shards (q_Status queue)).
  intros cfg l. induction l as [|s l IH]; cbn [ensure_topics]; repeat pres_step; try done. apply Hw.
Qed.

Lemma frame_annotate P z queue : read_safe P -> preserves P (annotateAvailabilityZones z queue).
Proof.
  intros [HA Hr]. unfold annotateAvailabilityZones. destruct z as [z|]; [| apply preserves_ret].
  repeat pres_step. generalize (qst_Shards (q_Status queue)) as l.
  intros l. induction l as [|s l IH]; cbn [annotate_shards]; repeat pres_step; try done.
  unfold annotate_shard. repeat pres_step; [apply (Hr _ "") | by apply frame_zones ..].
Qed.

Lemma frame_now (P : oworld -> Prop) : preserves P (lift Now).
Proof. intros o Ho. rewrite lift_run. by destruct o. Qed.

Lemma frame_split_loop P queue ms th cd n i ac l :
  read_safe P -> preserves P (split_loop queue ms th cd n i ac l).
Proof.
  intros [HA Hr]. revert i ac l.
  induction n as [|n IH]; intros i ac l; cbn [split_loop]; repeat pres_step; try apply IH; try apply frame_now.
  - apply (Hr _ "").
  - apply frame_modify. intros o. apply oamb_samples.
  - apply frame_modify. intros o. apply oamb_samples.
Qed.

Lemma frame_splits P queue : read_safe P -> preserves P (reconcileSplits queue).
Proof. intros HP. unfold reconcileSplits. repeat pres_step. by apply frame_split_loop. Qed.

Lemma frame_drains P queue : topic_safe P -> preserves P (reconcileDrains queue).
Proof.
  intros [[HA Hr] Hw]. unfold reconcileDrains. repeat pres_step.
  generalize (qst_Shards (q_Status queue)) as l.
  intros l. induction l as [|s l IH]; cbn [drain_loop]; repeat pres_step; try done.
  - apply (Hr _ (ConsumerGroup (q_Name queue))).
  - apply frame_now.
  - apply Hw. exact (topic_cfg queue).
Qed.

Lemma frame_delete_topics P l : topic_safe P -> preserves P (delete_topics l).
Proof.
  intros [_ Hw]. induction l as [|s l IH]; cbn [delete_topics]; repeat pres_step; try done.
  apply Hw. exact (MkTopicConfig 0 0 0 0).
Qed.

(** The worker step touches TemporalWorkers and registrations only. *)
Definition worker_safe (P : oworld -> Prop) : Prop :=
  OAmbient P /\
  (forall m o, P o -> P (set_kube (set_workers m (o_kube o)) o)) /\
  (forall ns, preserves P (register_namespace ns)).

Lemma worker_safe_redis ks : worker_safe (redis_is ks).
Proof.
  split; [apply _ |]. split; [done |]. intros ns o Ho. unfold redis_is in *.
  destruct (register_frame ns o) as (w' & t' & -> & Hr & _). simpl. congruence.
Qed.
Lemma worker_safe_kafka k : worker_safe (kafka_is k).
Proof.
  split; [apply _ |]. split; [done |]. intros ns o Ho. unfold kafka_is in *.
  destruct (register_frame ns o) as (w' & t' & -> & _ & Hk & _). simpl. congruence.
Qed.
Lemma worker_safe_clock t : worker_safe (not_before t).
Proof.
  split; [apply _ |]. split; [done |]. intros ns o Ho. unfold not_before in *.
  destruct (register_frame ns o) as (w' & t' & -> & _ & _ & Hc & _). simpl. lia.
Qed.
Lemma worker_safe_queues m : worker_safe (queues_are m).
Proof.
  split; [apply _ |]. split; [done |]. intros ns o Ho. unfold queues_are in *.
  by destruct (register_frame ns o) as (w' & t' & -> & _).
Qed.

Lemma frame_upsert_worker P k f : worker_safe P -> preserves P (kube (kube_upsert_worker k f)).
Proof.
  intros (HA & Hk & _). apply preserves_kube; [by intros; apply oamb_net | by intros; apply oamb_time |].
  intros o Ho. pose proof (law_upsert_worker k f (o_kube o)) as H.
  destruct (kube_upsert_worker k f (o_kube o)) as [[t|e] c']; simpl.
  - destruct H as [_ ->]. by apply Hk.
  - rewrite H. by destruct o.
Qed.

Lemma frame_delete_worker P k : worker_safe P -> preserves P (kube (kube_delete_worker k)).
Proof.
  intros (HA & Hk & _). apply preserves_kube; [by intros; apply oamb_net | by intros; apply oamb_time |].
  intros o Ho. pose proof (law_delete_worker k (o_kube o)) as H.
  destruct (kube_delete_worker k (o_kube o)) as [[[]|e] c']; simpl.
  - destruct H as (t & c'' & _ & -> & _). by apply Hk.
  - destruct H as [_ ->]. by destruct o.
  - rewrite H. by destruct o.
Qed.

Lemma frame_temporal P queue : worker_safe P -> preserves P (reconcileTemporalWorker queue).
Proof.
  intros HW. unfold reconcileTemporalWorker, getEnvOrDefault. cbv zeta. repeat pres_step;
    [apply HW | by apply frame_upsert_worker].
Qed.

Lemma frame_worker_deletion P queue : worker_safe P -> preserves P (delete_worker queue).
Proof.
  intros HW. unfold delete_worker, getEnvOrDefault. cbv zeta. repeat pres_step. by apply frame_delete_worker.
Qed.

(** A status update touches the queues only. *)
Lemma frame_status P queue : OAmbient P ->
  (forall m o, P o -> P (set_kube (set_queues m (o_kube o)) o)) ->
  preserves P (kube (kube_update_queue_status queue)).
Proof.
  intros HA Hk. apply preserves_kube; [by intros; apply oamb_net | by intros; apply oamb_time |].
  intros o Ho. pose proof (law_update_queue_status queue (o_kube o)) as H.
  destruct (kube_update_queue_status queue (o_kube o)) as [[t|e] c']; simpl.
  - destruct H as (old & _ & _ & ->). by apply Hk.
  - rewrite H. by destruct o.
Qed.
End StepFrames.

(** ** Shards that only differ in what soundness ignores *)

Definition same_slot (s s' : ShardStatus) : Prop :=
  ss_ID s' = ss_ID s /\ ss_Topic s' = ss_Topic s /\ ss_HashRangeStart s' = ss_HashRangeStart s /\
  ss_HashRangeEnd s' = ss_HashRangeEnd s /\ is_active s' = is_active s.

Lemma shards_ok_same queue l l' : Forall2 same_slot l l' -> shards_ok queue l -> shards_ok queue l'.
Proof.
  intros Hf [H1 H2 H3 H4].
  assert (Hin : forall s', s' ∈ l' -> exists s, s ∈ l /\ same_slot s s').
  { intros s' Hs'. apply list_elem_of_lookup in Hs' as [i Hi].
    destruct (Forall2_lookup_r _ _ _ _ _ Hf Hi) as (s & Hs & ?). eauto using list_elem_of_lookup_2. }
  split.
  - intros i s' Hi. destruct (Forall2_lookup_r _ _ _ _ _ Hf Hi) as (s & Hs & (-> & _)). by apply H1.
  - intros s' Hs'. destruct (Hin s' Hs') as (s & Hs & (-> & -> & _)). by apply H2.
  - intros s' Hs'. destruct (Hin s' Hs') as (s & Hs & (_ & _ & -> & -> & _)). by apply H3.
  - intros h Hh. rewrite <- (H4 h Hh). unfold cover_count. clear - Hf.
    induction Hf as [|s s' l l' (_ & _ & Hst & Hen & Ha) _ IH]; [done |]. simpl. rewrite IH.
    unfold covers. by rewrite Hst, Hen, Ha.
Qed.

Lemma stored_same_slot l : Forall2 same_slot l (stored_shard <$> l).
Proof. induction l as [|s l IH]; constructor; [by split_and! | done]. Qed.

Lemma drain_same_slot {TA : TopicAdmin} g ret o l l' :
  Forall2 (drain_step g ret o) l l' -> Forall2 same_slot l l'.
Proof.
  intros Hf. apply (Forall2_impl _ _ _ _ Hf). intros s s' [t | t w w' lag Hp _ _ _ _]; split_and!; try done.
  unfold is_active. by rewrite Hp.
Qed.

Lemma drain_step_open {TA : TopicAdmin} g ret o s s' :
  drain_step g ret o s s' -> is_closed s' = false -> s' = s.
Proof. by intros [t | t w w' lag _ _ _ _ _]. Qed.

(** Shards of a sound list have topics of their own. *)
Lemma topics_distinct queue l i j s t :
  shards_ok queue l -> Z.of_nat (length l) + 1 < 2 ^ 63 ->
  l !! i = Some s -> l !! j = Some t -> ss_Topic s = ss_Topic t -> i = j.
Proof.
  intros Hok Hlen Hi Hj Htop.
  rewrite (ok_topics _ _ Hok s), (ok_topics _ _ Hok t) in Htop by (by eapply list_elem_of_lookup_2).
  apply (ids_unique queue l Hok i j s t Hi Hj).
  unfold ShardTopicName in Htop. cbv zeta in Htop. do 2 apply string_app_inj_l in Htop. done.
Qed.

Lemma published_active s : is_active_phase (published_shard s) = is_active s.
Proof. destruct s as [? ? ? ? p ? ? ?]. by destruct p. Qed.

Lemma closed_inactive s : is_closed s = true -> is_active s = false.
Proof. destruct s as [? ? ? ? p ? ? ?]. by destruct p. Qed.

(** A sound list is published as a routable shard map. *)
Lemma published_covering queue h l :
  shards_ok queue l ->
  length (covering h (ActiveShards (published_shards l))) = cover_count h l.
Proof.
  intros Hok. assert (Hr : forall s, s ∈ l -> u32 (ss_HashRangeStart s) = ss_HashRangeStart s /\
                                        u32 (ss_HashRangeEnd s) = ss_HashRangeEnd s).
  { intros s Hs. destruct (ok_ranges _ _ Hok s Hs). unfold FullHashRangeEnd in *.
    split; apply u32_id; unfold is_u32; lia. }
  clear Hok. induction l as [|s l IH]; [done |].
  destruct (Hr s (list_elem_of_here _ _)) as [H1 H2].
  assert (IH' := IH (fun t Ht => Hr t (list_elem_of_further _ _ _ Ht))). clear IH Hr.
  unfold cover_count in *. cbn [published_shards sum_list_with list_fmap]. rewrite <- IH'.
  unfold covers. destruct (is_closed s) eqn:Hc; [by rewrite (closed_inactive s Hc) |].
  cbn [ActiveShards]. rewrite published_active. destruct (is_active s); [| done].
  unfold covering. rewrite filter_cons. unfold in_range.
  cbn [sh_HashRangeStart sh_HashRangeEnd published_shard andb]. rewrite H1, H2.
  case_decide as Hd; [by rewrite Hd | by apply not_true_is_false in Hd as ->].
Qed.

Lemma published_routable queue l : shards_ok queue l -> routable (published_shards l).
Proof.
  intros Hok h Hh. pose proof (published_covering queue h l Hok) as Hlen.
  rewrite (ok_cover _ _ Hok h Hh) in Hlen.
  destruct (covering _ _) as [|s [|]]; try done. by exists s.
Qed.

(** ** Published state *)

(** The rows of [q] in the keyspace, without a deadline. *)
Definition published (ks : keyspace) (q : string) (meta : QueueMeta) (shards : list Shard) : Prop :=
  (exists h, ks !! QueueMetaKey q = Some (Entry (VHash h) None) /\ h <> ∅ /\ meta_of_hash h = meta) /\
  (exists s, ks !! ShardMapKey q = Some (Entry (VStr s) None) /\ Unmarshal s = Some shards).

(** They serve the queue at any later time. *)
Lemma published_serves w q meta shards : published (w_redis w) q meta shards -> serves w q meta shards.
Proof.
  intros [(h & Hh & Hne & Hm) (s & Hs & Hu)]. split.
  - exists h. unfold hash_at, live, live_entry. by rewrite Hh.
  - exists s. unfold str_at, live, live_entry. by rewrite Hs.
Qed.

Definition no_deadline (ks : keyspace) (k : string) : Prop :=
  forall e, ks !! k = Some e -> e_exp e = None.

Section Publishing.
Context {RS : RedisServer} {RL : RedisLaws RS}.

(** A successful [PutQueueMeta] ran its transaction. *)
Lemma PutQueueMeta_ok q m w w' :
  meta_ok m -> qm_CreatedAt m <> zero_time -> no_deadline (w_redis w) (QueueMetaKey q) ->
  PutQueueMeta q m w = (Ok tt, w') ->
  exists h, w_redis w' = <[QueueMetaKey q := Entry (VHash h) None]> (w_redis w) /\
    h <> ∅ /\ meta_of_hash h = stored_meta m.
Proof.
  intros Hm Hc Hnd. unfold PutQueueMeta. rewrite mbind_run. cbn [Now gets].
  destruct (Z.eqb_spec (qm_CreatedAt m) zero_time) as [? | _]; [done |].
  intros Hrun%wrap_err_ok. apply rdo_cases in Hrun as [_ [Hrun | (e & ? & _)]]; [| done].
  cbn [tx] in Hrun. rewrite law_hset in Hrun.
  destruct (hash_at (ms w') (w_redis w) (QueueMetaKey q)) as [h|]; [| by destruct (cmd_publish _ _ _ _)].
  rewrite law_publish in Hrun. injection Hrun as <-.
  exists (hash_set h (meta_fields m (qm_CreatedAt m))). split_and!.
  - unfold put. do 2 f_equal. unfold live_entry. destruct (w_redis w !! QueueMetaKey q) as [e|] eqn:E; [| done].
    case_match; [done |]. simpl. by apply Hnd.
  - apply hash_set_nonempty.
  - by apply meta_of_hash_fields.
Qed.

Lemma PutShardMap_ok q shards w w' :
  PutShardMap q shards w = (Ok tt, w') ->
  w_redis w' = <[ShardMapKey q := Entry (VStr (Marshal shards)) None]> (w_redis w).
Proof.
  unfold PutShardMap. intros Hrun%wrap_err_ok. apply rdo_cases in Hrun as [_ [Hrun | (e & ? & _)]]; [| done].
  cbn [tx] in Hrun. rewrite law_set, law_publish in Hrun. by injection Hrun as <-.
Qed.

Lemma published_shard_ranges l : Forall shard_ranges_ok (published_shards l).
Proof.
  induction l as [|s l IH]; [constructor |]. simpl. destruct (is_closed s); [done |].
  constructor; [| done]. split; apply u32_range.
Qed.

Lemma publishRedisState_ok queue o o' :
  meta_ok (published_meta queue) -> om_CreationTimestamp (q_Meta queue) <> zero_time ->
  no_deadline (w_redis (o_world o)) (QueueMetaKey (q_Name queue)) ->
  publishRedisState queue o = (Ok tt, o') ->
  published (w_redis (o_world o')) (q_Name queue) (stored_meta (published_meta queue))
    (published_shards (qst_Shards (q_Status queue))).
Proof.
  intros Hm Hc Hnd. unfold publishRedisState. intros ([] & o1 & H1 & H2)%mbind_ok_inv.
  rewrite lift_run in H1, H2.
  destruct (PutQueueMeta _ _ _) as [r1 w1] eqn:E1. simpl in H1. injection H1 as -> <-.
  simpl in H2. destruct (PutShardMap _ _ _) as [r2 w2] eqn:E2. simpl in H2. injection H2 as -> <-.
  apply PutQueueMeta_ok in E1 as (h & Hr1 & Hne & Hh); [| done | done | done].
  apply PutShardMap_ok in E2. simpl. rewrite E2, Hr1. split.
  - exists h. rewrite lookup_insert_ne, lookup_insert_eq; [done |].
    by apply (of_family_ne FShardMap FQueueMeta); [apply ShardMapKey_family | apply QueueMetaKey_family |].
  - exists (Marshal (published_shards (qst_Shards (q_Status queue)))). rewrite lookup_insert_eq. split; [done |].
    apply Unmarshal_Marshal_list, published_shard_ranges.
Qed.
End Publishing.

(** ** What success says *)

Section Success.
Context {RS : RedisServer} {KS : KubeServer} {CU : ControllerUtil} {TA : TopicAdmin} {RG : Registerer}.
Context {RL : RedisLaws RS} {KL : KubeLaws KS} {CL : ControllerUtilLaws CU}.
Context {TL : TopicAdminLaws TA} {GL : RegistererLaws RG}.
Context (Zones : option ZoneLocator).

Lemma setFailed_not_ok queue reason e o : exists e', fst (setFailed queue reason e o) = Err e'.
Proof.
  unfold setFailed. rewrite mbind_run. destruct (attempt _ o) as [[[]|] ?] eqn:E; simpl; eauto.
Qed.

Lemma or_failed_ok {A} queue reason (m : M oworld A) rest o o' :
  or_failed queue reason m rest o = (Ok tt, o') ->
  exists a o1, m o = (Ok a, o1) /\ rest a o1 = (Ok tt, o').
Proof.
  unfold or_failed. rewrite mbind_run. unfold attempt. destruct (m o) as [[a|e] o1]; [eauto |].
  destruct (setFailed_not_ok queue reason e o1) as [e' He]. intros H. by rewrite H in He.
Qed.

Lemma ensure_finalizer_ok name queue o queue' o' :
  k8s_queues (o_kube o) !! meta_key (q_Meta queue) = Some queue ->
  deletion_is_zero (q_Meta queue) = true ->
  ensure_finalizer name queue o = (Ok queue', o') ->
  exists m, queue' = MkQueue m (q_Spec queue) (q_Status queue) /\
    om_Name m = q_Name queue /\ meta_key m = meta_key (q_Meta queue) /\
    om_CreationTimestamp m = om_CreationTimestamp (q_Meta queue) /\
    finalizerName ∈ om_Finalizers m /\
    k8s_queues (o_kube o') = <[meta_key (q_Meta queue) := queue']> (k8s_queues (o_kube o)) /\
    w_redis (o_world o') = w_redis (o_world o).
Proof.
  intros Hq Hz. unfold ensure_finalizer. destruct (ContainsFinalizer _ _) eqn:Hf.
  - intros [= <- <-]. apply law_contains in Hf. exists (q_Meta queue). rewrite insert_id by done.
    by destruct queue.
  - intros (w' & Hrun & Ho & Hr & _)%wrap_err_ok%kube_ok_inv. rewrite law_add, Hf in Hrun.
    match type of Hrun with kube_update_queue ?q _ = _ => pose proof (law_update_queue q (o_kube o)) as H end.
    rewrite Hrun in H. destruct H as (old & Hold & -> & Hc).
    change (k8s_queues (o_kube o) !! meta_key (q_Meta queue) = Some old) in Hold. simplify_eq.
    eexists. split; [reflexivity |]. simpl. split_and!; [done | done | done | set_solver | |].
    + rewrite Hc. unfold store_queue. simpl. change (deletion_is_zero (set_finalizers _ _)) with (deletion_is_zero (q_Meta queue)).
      by rewrite Hz.
    + by rewrite Ho.
Qed.

Lemma ensure_topics_ok cfg l o o' :
  ensure_topics cfg l o = (Ok tt, o') ->
  forall s, s ∈ l -> is_closed s = false -> is_Some (topic_of o' (ss_Topic s)).
Proof.
  revert o. induction l as [|t l IH]; intros o Hrun s Hs Hc; [by apply not_elem_of_nil in Hs |].
  cbn [ensure_topics] in Hrun. apply elem_of_cons in Hs as [-> | Hs].
  - rewrite Hc in Hrun. apply mbind_ok_inv in Hrun as ([] & o1 & H1%wrap_err_ok & Hrun).
    assert (Hpres : preserves (fun o => is_Some (topic_of o (ss_Topic t))) (ensure_topics cfg l)).
    { clear - TL. induction l as [|u l IH]; cbn [ensure_topics]; repeat pres_step; try done.
      intros o Ho. rewrite lift_run. unfold topic_of in *. simpl.
      destruct (decide (ss_Topic t = ss_Topic u)) as [Heq | Hne].
      - rewrite Heq in *. by apply create_topic_keeps.
      - by rewrite create_topic_others. }
    specialize (Hpres o1). rewrite Hrun in Hpres. apply Hpres.
    rewrite lift_run in H1. destruct (create_topic _ _ _) as [r w1] eqn:E. simpl in H1. injection H1 as -> <-.
    by apply create_topic_exists in E.
  - destruct (is_closed t); [by eapply IH |].
    apply mbind_ok_inv in Hrun as ([] & o1 & _ & Hrun). by eapply IH.
Qed.

Definition zoned (s s' : ShardStatus) : Prop := exists zs, s' = set_zones zs s.

Lemma annotate_ok queue o queue' o' :
  annotateAvailabilityZones Zones queue o = (Ok queue', o') ->
  exists l, queue' = set_shards l queue /\ Forall2 zoned (qst_Shards (q_Status queue)) l.
Proof.
  assert (Hid : forall s, zoned s s) by (intros s; exists (ss_AvailabilityZones s); by destruct s).
  unfold annotateAvailabilityZones. destruct Zones as [z|].
  - intros (l & o1 & Hrun & [= <- _])%mbind_ok_inv. exists l. split; [done |]. revert o l o1 Hrun.
    induction (qst_Shards (q_Status queue)) as [|s rest IH]; intros o l o1.
    + intros [= <- _]. constructor.
    + cbn [annotate_shards]. intros (s' & o2 & Hs & (rest' & o3 & Hr & [= <- _])%mbind_ok_inv)%mbind_ok_inv.
      constructor; [| by eapply IH]. revert Hs. unfold annotate_shard.
      destruct (is_closed s); [intros [= <- _]; apply Hid |].
      rewrite mbind_run. destruct (attempt _ o) as [[[[|id ids]|]|] o4]; try (intros [= <- _]; apply Hid).
      rewrite mbind_run. destruct (attempt _ o4) as [[[[|y ys]|]|] o5]; try (intros [= <- _]; apply Hid).
      intros [= <- _]. by eexists.
  - intros [= <- _]. exists (qst_Shards (q_Status queue)). split; [by destruct queue as [? ? []] |].
    induction (qst_Shards (q_Status queue)); by constructor.
Qed.

Lemma zoned_same_slot l l' : Forall2 zoned l l' -> Forall2 same_slot l l'.
Proof. intros Hf. apply (Forall2_impl _ _ _ _ Hf). by intros s s' [zs ->]. Qed.

Lemma update_status_ok queue o q o' :
  kube (kube_update_queue_status queue) o = (Ok q, o') ->
  exists old, k8s_queues (o_kube o) !! meta_key (q_Meta queue) = Some old /\
    k8s_queues (o_kube o') =
      <[meta_key (q_Meta queue) := MkQueue (q_Meta old) (q_Spec old) (stored_status (q_Status queue))]>
        (k8s_queues (o_kube o)) /\
    w_redis (o_world o') = w_redis (o_world o) /\ w_kafka (o_world o') = w_kafka (o_world o).
Proof.
  intros (w' & Hrun & Ho & Hr & Hk & _)%kube_ok_inv. pose proof (law_update_queue_status queue (o_kube o)) as H.
  rewrite Hrun in H. destruct H as (old & Hold & -> & Hc). exists old. rewrite Ho. simpl. by rewrite Hc.
Qed.

(** The list from which a pass starts. *)
Definition first_shards (now : Z) (queue : Queue) : list ShardStatus :=
  match qst_Shards (q_Status queue) with
  | [] => [newShard now "0" "" 0 FullHashRangeEnd queue]
  | l => l
  end.

(** Topics that exist before the drains and belong to a shard that they leave open
    still exist after. *)
Lemma topics_survive queue l l1 l2 kept o o' :
  shards_ok queue l2 -> Z.of_nat (length l2) + 1 < 2 ^ 63 ->
  (forall s, s ∈ l -> is_closed s = false -> is_Some (topic_of o (ss_Topic s))) ->
  Forall2 zoned l l1 -> split_step l1 l2 ->
  Forall2 same_slot l2 kept ->
  (forall i s s', l2 !! i = Some s -> kept !! i = Some s' -> is_closed s' = false -> s' = s) ->
  deletes_closed l2 kept o o' ->
  forall i s, (i < length l)%nat -> kept !! i = Some s -> is_closed s = false -> is_Some (topic_of o' (ss_Topic s)).
Proof.
  intros Hok Hlen Htop Hz Hsp Hsame Hopen Hdel i s Hi Hs Hc.
  apply lookup_lt_is_Some in Hi as [s0 Hs0].
  destruct (Forall2_lookup_l _ _ _ _ _ Hz Hs0) as (s1 & Hs1 & [zs ->]).
  destruct (Hsp i _ Hs1) as (s2 & Hs2 & Hstep). pose proof (Hopen i s2 s Hs2 Hs Hc) as ->.
  assert (H0 : ss_Topic s2 = ss_Topic s0 /\ is_closed s0 = false).
  { destruct Hstep as [-> | [Ha ->]]; [done |]. split; [done |].
    change (is_active s0 = true) in Ha. unfold is_active, is_closed in *. apply bool_decide_eq_true in Ha.
    by rewrite Ha. }
  destruct H0 as [-> H0]. specialize (Htop s0 (list_elem_of_lookup_2 _ _ _ Hs0) H0).
  destruct (topic_of o' (ss_Topic s0)) eqn:E; [by eexists |].
  destruct (Hdel _ Htop E) as (j & t & Hj & Ht & Hkj).
  assert (i = j) as <-.
  { apply (topics_distinct queue l2 i j s2 t); try done. rewrite Ht. by destruct Hstep as [-> | [_ ->]]. }
  by simplify_eq.
Qed.

(** The list in memory is sound, or there is none yet. *)
Definition sound_shards (queue : Queue) : Prop :=
  qst_Shards (q_Status queue) = [] \/ shards_ok queue (qst_Shards (q_Status queue)).

Definition shard_count (queue : Queue) : Z := Z.of_nat (length (qst_Shards (q_Status queue))).

Lemma ensure_first_shard_run queue o :
  sound_shards queue ->
  exists l w', ensure_first_shard queue o = (Ok (set_shards l queue), set_world w' o) /\
    w' = o_world o /\ shards_ok queue l /\ (length l <= S (length (qst_Shards (q_Status queue))))%nat /\
    (length (qst_Shards (q_Status queue)) <= length l)%nat.
Proof.
  intros Hs. unfold ensure_first_shard. destruct (qst_Shards (q_Status queue)) as [|s l] eqn:E.
  - rewrite mbind_run, lift_run. cbn [fst snd Now gets].
    eexists _, _. split; [reflexivity |]. split_and!; [done | apply initial_shards_ok | done | simpl; lia].
  - exists (s :: l), (o_world o). split_and!; [| done | | lia | done].
    + destruct queue as [? ? []], o. simpl in *. by rewrite <- E.
    + destruct Hs as [Hs | Hs]; rewrite E in Hs; done.
Qed.

(** The part of a successful pass that works on the shards in memory: what it leaves of
    them, of the topics and of the rest. *)
Definition pass_ok (queue : Queue) (o : oworld) (l kept : list ShardStatus) (o' : oworld) : Prop :=
  shards_ok queue kept /\ (length l <= length kept)%nat /\
  (forall i s, (i < length l)%nat -> kept !! i = Some s -> is_closed s = false ->
     is_Some (topic_of o' (ss_Topic s))) /\
  w_redis (o_world o') = w_redis (o_world o) /\ k8s_queues (o_kube o') = k8s_queues (o_kube o).

Lemma split_step_length l l' : split_step l l' -> (length l <= length l')%nat.
Proof.
  intros H. destruct (decide (length l <= length l')%nat); [done |].
  destruct (lookup_lt_is_Some_2 l (length l')) as [s Hs]; [lia |].
  destruct (H _ _ Hs) as (s' & Hs' & _). apply lookup_lt_Some in Hs'. lia.
Qed.

Lemma shards_pass_ok queue l o o1 queue2 o2 q3 o3 queue4 o4 :
  shards_ok queue l -> 3 * Z.of_nat (length l) + 2 < 2 ^ 31 ->
  ensureShardTopics (set_shards l queue) o = (Ok tt, o1) ->
  annotateAvailabilityZones Zones (set_shards l queue) o1 = (Ok queue2, o2) ->
  reconcileSplits queue2 o2 = (Ok (q3, None), o3) ->
  reconcileDrains q3 o3 = (Ok queue4, o4) ->
  exists kept, queue4 = set_shards kept queue /\ pass_ok queue o l kept o4.
Proof.
  intros Hok Hlen H1 H2 H3 H4.
  assert (HF : forall P, topic_safe P -> P o -> P o4).
  { intros P HP F0. pose proof (frame_ensure_topics P (set_shards l queue) HP o F0) as F1. rewrite H1 in F1.
    pose proof (frame_annotate P Zones (set_shards l queue) (proj1 HP) o1 F1) as F2. rewrite H2 in F2.
    pose proof (frame_splits P queue2 (proj1 HP) o2 F2) as F3. rewrite H3 in F3.
    pose proof (frame_drains P q3 HP o3 F3) as F4. by rewrite H4 in F4. }
  pose proof (ensure_topics_ok _ _ _ _ H1) as Htop.
  destruct (annotate_ok _ _ _ _ H2) as (l1 & -> & Hz). simpl in Hz.
  pose proof (shards_ok_same queue l l1 (zoned_same_slot _ _ Hz) Hok) as Hok1.
  destruct (reconcileSplits_good (set_shards l1 queue) o2) as (l2 & err & Hrun & (Hok2 & Hsp & _) & Hl2).
  { simpl. eapply shards_ok_queue; [| | exact Hok1]; done. }
  { simpl. rewrite <- (Forall2_length _ _ _ Hz). lia. }
  change (set_shards l1 (set_shards l queue)) with (set_shards l1 queue) in *.
  rewrite H3 in Hrun. simpl in Hrun. injection Hrun as -> <-. simpl in Hsp, Hl2, Hok2.
  assert (Hok2' : shards_ok queue l2) by (eapply shards_ok_queue; [| | exact Hok2]; done).
  destruct (reconcileDrains_drained (set_shards l2 (set_shards l1 queue)) o3) as [(_ & _ & Hd) Hq].
  rewrite H4 in Hd, Hq. simpl in Hd, Hq. destruct Hd as (Hf & _ & Hdel).
  set (kept := qst_Shards (q_Status queue4)) in *. exists kept. split; [by rewrite Hq |].
  pose proof (drain_same_slot _ _ _ _ _ Hf) as Hsame. split_and!.
  - by apply (shards_ok_same queue l2).
  - rewrite <- (Forall2_length _ _ _ Hsame), (Forall2_length _ _ _ Hz). by apply split_step_length.
  - assert (Hk : w_kafka (o_world o3) = w_kafka (o_world o1)).
    { pose proof (frame_splits (kafka_is (w_kafka (o_world o1))) (set_shards l1 queue) (read_safe_kafka _) o2) as HA.
      rewrite H3 in HA. apply HA.
      pose proof (frame_annotate (kafka_is (w_kafka (o_world o1))) Zones (set_shards l queue) (read_safe_kafka _) o1) as HB.
      rewrite H2 in HB. by apply HB. }
    apply (topics_survive queue l l1 l2 kept o3 o4); try done.
    + rewrite <- (Forall2_length _ _ _ Hz) in Hl2. lia.
    + unfold topic_of. rewrite Hk. exact Htop.
    + intros i s s' Hi Hi' Hc. destruct (Forall2_lookup_l _ _ _ _ _ Hf Hi) as (s2 & Hs2 & Hst).
      rewrite Hi' in Hs2. injection Hs2 as <-. by eapply drain_step_open.
  - by apply (HF _ (topic_safe_redis (w_redis (o_world o)))).
  - by apply (HF _ (topic_safe_queues (k8s_queues (o_kube o)))).
Qed.

Lemma publish_frame queue k m :
  preserves (kafka_is k) (publishRedisState queue) /\ preserves (queues_are m) (publishRedisState queue).
Proof.
  split; unfold publishRedisState; repeat pres_step; try (by apply lift_frame);
    apply (preserves_lift (fun w => w_kafka w = k)); unfold PutQueueMeta, PutShardMap; solve_kstate.
Qed.

(** Topics of the shards a pass started from are in place. *)
Definition topics_ready (n : nat) (shards : list ShardStatus) (o : oworld) : Prop :=
  forall i s, (i < n)%nat -> shards !! i = Some s -> is_closed s = false -> is_Some (topic_of o (ss_Topic s)).

Lemma reconcile_shards_ok name queue o o' :
  k8s_queues (o_kube o) !! meta_key (q_Meta queue) = Some queue ->
  sound_shards queue -> 3 * shard_count queue + 5 < 2 ^ 31 ->
  meta_ok (published_meta queue) -> om_CreationTimestamp (q_Meta queue) <> zero_time ->
  no_deadline (w_redis (o_world o)) (QueueMetaKey (q_Name queue)) ->
  reconcile_shards Zones name queue o = (Ok tt, o') ->
  exists shards,
    shards_ok queue shards /\ topics_ready (Nat.max 1 (length (qst_Shards (q_Status queue)))) shards o' /\
    published (w_redis (o_world o')) (q_Name queue) (stored_meta (published_meta queue)) (published_shards shards) /\
    k8s_queues (o_kube o') =
      <[meta_key (q_Meta queue) := set_status (MkQueueStatus QueuePhaseReady (stored_shard <$> shards)) queue]>
        (k8s_queues (o_kube o)).
Proof.
  intros Hq Hsound Hlen Hm Hc Hnd. unfold reconcile_shards.
  destruct (ensure_first_shard_run queue o Hsound) as (l & w' & E0 & -> & Hok & Hl1 & Hl2).
  assert (Hl3 : (Nat.max 1 (length (qst_Shards (q_Status queue))) <= length l)%nat).
  { destruct l; [| simpl in *; lia]. exfalso. pose proof (ok_cover _ _ Hok 0) as H.
    unfold cover_count, FullHashRangeEnd in H. simpl in H. lia. }
  rewrite mbind_run, E0. replace (set_world (o_world o) o) with o by (by destruct o).
  intros ([] & o1 & H1 & (queue2 & o2 & H2 & ([q3 err] & o3 & H3 & H)%mbind_ok_inv)%mbind_ok_inv)%or_failed_ok.
  simpl in H. destruct err as [e|].
  { destruct (setFailed_not_ok q3 "ShardSplit" e o3) as [e' He]. by rewrite H in He. }
  apply or_failed_ok in H as (queue4 & o4 & H4 & H).
  apply or_failed_ok in H as ([] & o5 & H5 & H).
  apply or_failed_ok in H as ([] & o6 & H6 & H).
  apply mbind_ok_inv in H as (q7 & o7 & H7%wrap_err_ok & [= <-]).
  unfold shard_count in Hlen.
  destruct (shards_pass_ok queue l o o1 queue2 o2 q3 o3 queue4 o4) as (kept & -> & Hok4 & Hlen4 & Htop & Hr4 & Hq4);
    [done | lia | done | done | done | done |].
  pose proof (publish_frame (set_shards kept queue) (w_kafka (o_world o4)) (k8s_queues (o_kube o))) as [Fk Fq].
  specialize (Fk o4 eq_refl). specialize (Fq o4 Hq4). rewrite H5 in Fk, Fq.
  apply publishRedisState_ok in H5; [| done | done | by rewrite Hr4].
  pose proof (frame_temporal _ (set_shards kept queue) (worker_safe_kafka (w_kafka (o_world o4))) o5 Fk) as F6k.
  pose proof (frame_temporal _ (set_shards kept queue) (worker_safe_queues (k8s_queues (o_kube o))) o5 Fq) as F6q.
  pose proof (frame_temporal _ (set_shards kept queue) (worker_safe_redis (w_redis (o_world o5))) o5 eq_refl) as F6r.
  rewrite H6 in F6k, F6q, F6r. unfold kafka_is, queues_are, redis_is in F6k, F6q, F6r. simpl in F6k, F6q, F6r.
  apply update_status_ok in H7 as (old & Hold & Hq7 & Hr7 & Hk7).
  simpl in Hold, Hq7. rewrite F6q in Hold, Hq7. rewrite Hq in Hold. injection Hold as <-.
  exists kept. split_and!; [done | | by rewrite Hr7, F6r | exact Hq7].
  intros i s Hi Hs Hcl. unfold topic_of. rewrite Hk7, F6k. apply (Htop i s); [lia | done | done].
Qed.

(** A reconcile that succeeds on a stored queue got it, after a while. *)
Lemma Reconcile_found ns name queue o o' :
  k8s_queues (o_kube o) !! (ns, name) = Some queue -> Reconcile Zones ns name o = (Ok tt, o') ->
  exists w1, w_redis w1 = w_redis (o_world o) /\ w_kafka w1 = w_kafka (o_world o) /\
    if deletion_is_zero (q_Meta queue)
    then (queue ← ensure_finalizer name queue; reconcile_shards Zones name queue) (set_world w1 o) = (Ok tt, o')
    else reconcileDelete queue (set_world w1 o) = (Ok tt, o').
Proof.
  intros Hq. unfold Reconcile. intros (got & o1 & Hget%wrap_err_ok & H)%mbind_ok_inv.
  apply kube_ok_inv in Hget as (w1 & Hget & Ho1 & Hr1 & Hk1 & _). exists w1.
  destruct (law_get_queue (ns, name) (o_kube o)) as [E | [e E]]; rewrite E in Hget; [| done].
  injection Hget as <- Hkube. rewrite Hq in H. replace (set_world w1 o) with o1 by (rewrite Ho1, <- Hkube; by destruct o).
  split_and!; [done | done |]. destruct (deletion_is_zero (q_Meta queue)); [| done]. cbn [negb] in H.
  destruct (ValidateNoDLQCycle _ _ _) as [[]|e]; [done |].
  destruct (setFailed_not_ok queue "DLQCycle" e o1) as [e' He]. by rewrite H in He.
Qed.

End Success.

(** ** Deletion and refusal *)

Section Deletion.
Context {RS : RedisServer} {KS : KubeServer} {CU : ControllerUtil} {TA : TopicAdmin} {RG : Registerer}.
Context {RL : RedisLaws RS} {KL : KubeLaws KS} {CL : ControllerUtilLaws CU}.
Context {TL : TopicAdminLaws TA} {GL : RegistererLaws RG}.
Context (Zones : option ZoneLocator).

Lemma delete_topics_ok l o o' :
  delete_topics l o = (Ok tt, o') ->
  (forall t, topic_of o t = None -> topic_of o' t = None) /\
  (forall s, s ∈ l -> is_closed s = false -> topic_of o' (ss_Topic s) = None).
Proof.
  revert o. induction l as [|t l IH]; intros o Hrun.
  { injection Hrun as <-. split; [done |]. by intros s ?%not_elem_of_nil. }
  cbn [delete_topics] in Hrun. destruct (is_closed t) eqn:Hc.
  { destruct (IH o Hrun) as [H1 H2]. split; [done |]. intros s [-> | Hs]%elem_of_cons; [congruence | auto]. }
  apply mbind_ok_inv in Hrun as ([] & o1 & H1%wrap_err_ok & Hrun). destruct (IH o1 Hrun) as [Hn Hd].
  rewrite lift_run in H1. pose proof (delete_topic_others (ss_Topic t)) as Hoth.
  specialize (fun t' => Hoth t' (o_world o)). destruct (delete_topic (ss_Topic t) (o_world o)) as [r w1] eqn:E.
  simpl in H1, Hoth. injection H1 as -> <-. apply delete_topic_absent in E. unfold topic_of in *. simpl in *. split.
  - intros u Hu. apply Hn. destruct (decide (u = ss_Topic t)) as [-> | Hne]; [done |]. by rewrite Hoth.
  - intros s [-> | Hs]%elem_of_cons Hcs; [by apply Hn | by apply Hd].
Qed.

(** A successful [DEL]. *)
Lemma del_ok k p w w' :
  wrap_err p (rdo (fun t => cmd_del t k)) w = (Ok tt, w') ->
  w_redis w' = delete k (w_redis w) /\ w_kafka w' = w_kafka w.
Proof.
  intros Hrun%wrap_err_ok. pose proof (kafka_rdo (fun t => cmd_del t k) (w_kafka w) w eq_refl) as Hk.
  rewrite Hrun in Hk. split; [| done].
  apply rdo_cases in Hrun as [_ [Hrun | (e & ? & _)]]; [| done]. rewrite law_del in Hrun. by injection Hrun as <-.
Qed.

(** C26. Deleting a queue, when it succeeds, removes the topics of all shards that were
    still open and the queue's two rows, leaves every other row alone, and lets the
    queue go. *)
Theorem Reconcile_deletes ns name queue o o' :
  k8s_queues (o_kube o) !! (ns, name) = Some queue -> meta_key (q_Meta queue) = (ns, name) ->
  deletion_is_zero (q_Meta queue) = false -> om_Finalizers (q_Meta queue) = [finalizerName] ->
  Reconcile Zones ns name o = (Ok tt, o') ->
  (forall s, s ∈ qst_Shards (q_Status queue) -> is_closed s = false -> topic_of o' (ss_Topic s) = None) /\
  w_redis (o_world o') = delete (ShardMapKey name) (delete (QueueMetaKey name) (w_redis (o_world o))) /\
  k8s_queues (o_kube o') = delete (ns, name) (k8s_queues (o_kube o)).
Proof.
  intros Hq Hkey Hz Hf Hrun.
  destruct (Reconcile_found Zones _ _ _ _ _ Hq Hrun) as (w1 & Hr1 & _ & H). rewrite Hz in H.
  set (o1 := set_world w1 o) in *.
  assert (Hname : q_Name queue = name) by (unfold meta_key, q_Name in *; congruence).
  assert (Hc : ContainsFinalizer (q_Meta queue) finalizerName = true) by (apply law_contains; rewrite Hf; set_solver).
  unfold reconcileDelete in H. rewrite Hc in H. cbn [negb] in H.
  apply mbind_ok_inv in H as ([] & o2 & H2 & H). apply mbind_ok_inv in H as ([] & o3 & H3 & H).
  apply mbind_ok_inv in H as ([] & o4 & H4 & H). apply mbind_ok_inv in H as ([] & o5 & H5 & H).
  apply mbind_ok_inv in H as (q6 & o6 & H6%wrap_err_ok & [= <-]).
  pose proof (frame_delete_topics _ (qst_Shards (q_Status queue)) (topic_safe_redis (w_redis (o_world o1))) o1 eq_refl) as R2.
  pose proof (frame_delete_topics _ (qst_Shards (q_Status queue)) (topic_safe_queues (k8s_queues (o_kube o1))) o1 eq_refl) as Q2.
  rewrite H2 in R2, Q2. unfold redis_is, queues_are in R2, Q2. simpl in R2, Q2.
  apply delete_topics_ok in H2 as [_ Htop]. rewrite lift_run in H3, H4.
  destruct (DeleteQueueMeta _ _) as [r3 w3] eqn:E3. simpl in H3. injection H3 as -> <-.
  simpl in H4. destruct (DeleteShardMap _ _) as [r4 w4] eqn:E4. simpl in H4. injection H4 as -> <-.
  apply del_ok in E3 as [R3 K3], E4 as [R4 K4].
  set (o4 := set_world w4 _) in *.
  pose proof (frame_worker_deletion _ queue (worker_safe_redis (w_redis w4)) o4 eq_refl) as R5.
  pose proof (frame_worker_deletion _ queue (worker_safe_kafka (w_kafka w4)) o4 eq_refl) as K5.
  pose proof (frame_worker_deletion _ queue (worker_safe_queues (k8s_queues (o_kube o1))) o4 Q2) as Q5.
  rewrite H5 in R5, K5, Q5. unfold redis_is, kafka_is, queues_are in R5, K5, Q5. simpl in R5, K5, Q5.
  apply kube_ok_inv in H6 as (w6 & H6 & Ho6 & R6 & K6 & _).
  match type of H6 with kube_update_queue ?q _ = _ => pose proof (law_update_queue q (o_kube o5)) as HU end.
  rewrite H6 in HU. destruct HU as (old & _ & _ & HU). rewrite law_remove, Hf in HU.
  rewrite filter_cons_False in HU by (by intros []). unfold store_queue in HU. simpl in HU.
  change (deletion_is_zero (set_finalizers _ _)) with (deletion_is_zero (q_Meta queue)) in HU. rewrite Hz in HU.
  simpl in HU. change (meta_key (set_finalizers _ _)) with (meta_key (q_Meta queue)) in HU.
  rewrite Ho6. simpl. split_and!.
  - intros s Hs Hcs. unfold topic_of in *. simpl. rewrite K6, K5, K4, K3. by apply Htop.
  - rewrite R6, R5, R4, R3. simpl. rewrite R2, Hname. simpl. by rewrite Hr1.
  - rewrite HU. simpl. by rewrite Q5, Hkey.
Qed.

End Deletion.

(** ** The invariant of the stored queues *)

(** Every stored queue is under its own key and has no shards yet or a sound list of at
    most [n]. *)
Definition queues_ok (n : nat) (m : gmap okey Queue) : Prop :=
  forall k q, m !! k = Some q ->
    meta_key (q_Meta q) = k /\ sound_shards q /\ (length (qst_Shards (q_Status q)) <= n)%nat.

Section Invariant.
Context {RS : RedisServer} {KS : KubeServer} {CU : ControllerUtil} {TA : TopicAdmin} {RG : Registerer}.
Context {KL : KubeLaws KS} {CL : ControllerUtilLaws CU} {TL : TopicAdminLaws TA} {GL : RegistererLaws RG}.
Context (Zones : option ZoneLocator).

(** What a pass over the queue at [k] keeps: the invariant, and the queue's kind. *)
Context (n : nat) (k : okey) (fifo : bool).

Definition tracked (m : gmap okey Queue) : Prop :=
  queues_ok n m /\ forall q, m !! k = Some q -> qs_FIFOQueue (q_Spec q) = fifo.

Definition tracks (o : oworld) : Prop := tracked (k8s_queues (o_kube o)).

(** A copy of the queue in memory that may be written back. *)
Definition copy_ok (q : Queue) : Prop :=
  meta_key (q_Meta q) = k /\ qs_FIFOQueue (q_Spec q) = fifo /\ sound_shards q /\
  (length (qst_Shards (q_Status q)) <= n)%nat.

#[local] Instance tracks_ambient : OAmbient tracks.
Proof. by split. Qed.

Lemma tracks_of_queues {A} (m : M oworld A) : (forall qs, preserves (queues_are qs) m) -> preserves tracks m.
Proof. intros Hm o Ho. unfold tracks. by rewrite (Hm _ o eq_refl). Qed.

Lemma preserves_bind_ok {A B} (P : oworld -> Prop) (m : M oworld A) (f : A -> M oworld B) :
  preserves P m -> (forall a o o', m o = (Ok a, o') -> preserves P (f a)) -> preserves P (m ≫= f).
Proof.
  intros Hm Hf o Ho. rewrite mbind_run. specialize (Hm o Ho).
  destruct (m o) as [[a|e] o'] eqn:E; simpl in *; [by eapply Hf | done].
Qed.

Lemma sound_shards_queue q q' :
  q_Name q = q_Name q' -> qs_FIFOQueue (q_Spec q) = qs_FIFOQueue (q_Spec q') ->
  qst_Shards (q_Status q) = qst_Shards (q_Status q') -> sound_shards q -> sound_shards q'.
Proof.
  intros Hn Hf Hs [H | H]; [left; by rewrite <- Hs | right]. rewrite <- Hs. by eapply shards_ok_queue.
Qed.

Lemma tracked_insert m q :
  tracked m -> meta_key (q_Meta q) = k -> qs_FIFOQueue (q_Spec q) = fifo -> sound_shards q ->
  (length (qst_Shards (q_Status q)) <= n)%nat -> tracked (<[k := q]> m).
Proof.
  intros [Hq Hf] Hk Hfi Hs Hl. split.
  - intros k' q' [[<- <-] | [Hne H]]%lookup_insert_Some; [done | by apply Hq].
  - intros q' H. rewrite lookup_insert_eq in H. by injection H as <-.
Qed.

Lemma tracks_status p q : copy_ok q -> preserves tracks (kube (kube_update_queue_status (set_queue_phase p q))).
Proof.
  intros (Hk & Hf & Hs & Hl). apply preserves_kube; [done | done |]. intros o Ho.
  pose proof (law_update_queue_status (set_queue_phase p q) (o_kube o)) as H.
  destruct (kube_update_queue_status _ _) as [[q'|e] c']; [| simpl; rewrite H; by destruct o].
  destruct H as (old & Hold & -> & ->). unfold tracks in *. simpl. simpl in Hold.
  change (meta_key (q_Meta (set_queue_phase p q))) with (meta_key (q_Meta q)) in *. rewrite Hk in *.
  pose proof Ho as [Hok Hfi]. destruct (Hok _ _ Hold) as (Hko & _ & _). specialize (Hfi _ Hold).
  apply tracked_insert; [done | done | done | | simpl; by rewrite length_fmap].
  destruct Hs as [Hs | Hs]; [left; simpl; by rewrite Hs | right]. simpl.
  eapply shards_ok_same; [apply stored_same_slot |]. eapply shards_ok_queue; [| | exact Hs]; simpl.
  - unfold q_Name, meta_key in *. simpl. congruence.
  - congruence.
Qed.

Lemma tracks_failed q reason e : copy_ok q -> preserves tracks (setFailed q reason e).
Proof. intros Hq. unfold setFailed. repeat pres_step. by apply tracks_status. Qed.

Lemma tracks_or_failed {A} q reason (m : M oworld A) rest :
  copy_ok q -> preserves tracks m -> (forall a o o', m o = (Ok a, o') -> preserves tracks (rest a)) ->
  preserves tracks (or_failed q reason m rest).
Proof.
  intros Hq Hm Hr o Ho. unfold or_failed. rewrite mbind_run. unfold attempt. specialize (Hm o Ho).
  destruct (m o) as [[a|e] o'] eqn:E; simpl in *; [by eapply Hr | by apply tracks_failed].
Qed.

Lemma tracks_finalizer name q :
  copy_ok q -> deletion_is_zero (q_Meta q) = true -> preserves tracks (ensure_finalizer name q).
Proof.
  intros (Hk & Hf & Hs & Hl) Hz. unfold ensure_finalizer. destruct (ContainsFinalizer _ _) eqn:Hc; [apply preserves_ret |].
  apply preserves_wrap, preserves_kube; [done | done |]. intros o Ho. rewrite law_add, Hc.
  match goal with |- context [kube_update_queue ?q1 _] => pose proof (law_update_queue q1 (o_kube o)) as H end.
  destruct (kube_update_queue _ _) as [[q'|e] c']; [| simpl; rewrite H; by destruct o].
  destruct H as (old & Hold & -> & ->). unfold tracks, store_queue in *. simpl in *.
  change (deletion_is_zero (set_finalizers _ _)) with (deletion_is_zero (q_Meta q)). rewrite Hz. simpl.
  change (meta_key (set_finalizers _ _)) with (meta_key (q_Meta q)) in *. rewrite Hk in *.
  pose proof Ho as [Hok Hfi]. destruct (Hok _ _ Hold) as (Hko & Hso & Hlo). specialize (Hfi _ Hold).
  apply tracked_insert; simpl; [done | done | done | | done].
  eapply sound_shards_queue; [| | | exact Hso]; simpl; [| congruence | done].
  unfold q_Name, meta_key in *. simpl. congruence.
Qed.

Lemma ensure_finalizer_copy name q o q' o' :
  tracks o -> copy_ok q -> ensure_finalizer name q o = (Ok q', o') -> copy_ok q'.
Proof.
  intros [Hok Hfi] Hq. unfold ensure_finalizer. destruct (ContainsFinalizer _ _) eqn:Hc; [by intros [= <- _] |].
  destruct Hq as (Hk & Hf & _ & _).
  intros (w' & Hrun & _)%wrap_err_ok%kube_ok_inv. rewrite law_add, Hc in Hrun.
  match type of Hrun with kube_update_queue ?q1 _ = _ => pose proof (law_update_queue q1 (o_kube o)) as H end.
  rewrite Hrun in H. destruct H as (old & Hold & -> & _).
  change (k8s_queues (o_kube o) !! meta_key (q_Meta q) = Some old) in Hold. rewrite Hk in Hold.
  destruct (Hok _ _ Hold) as (Hko & Hso & Hlo). specialize (Hfi _ Hold). split_and!; [done | done | | done].
  eapply sound_shards_queue; [| | | exact Hso]; simpl; [| congruence | done].
  unfold q_Name, meta_key in *. simpl. congruence.
Qed.

Lemma copy_shards q l : copy_ok q -> shards_ok q l -> (length l <= n)%nat -> copy_ok (set_shards l q).
Proof.
  intros (Hk & Hf & _ & _) Hok Hl. split_and!; [done | done | | done].
  right. simpl. by eapply shards_ok_queue; [| | exact Hok].
Qed.

Lemma tracks_publish q : preserves tracks (publishRedisState q).
Proof. apply tracks_of_queues. intros qs. apply (publish_frame q (Kafka ∅ ∅ ∅) qs). Qed.

(** The steps after the drains. *)
Lemma tracks_finish name q : copy_ok q ->
  preserves tracks (or_failed q "PublishRedis" (publishRedisState q) (fun _ =>
    or_failed q "TemporalWorker" (reconcileTemporalWorker q) (fun _ =>
      _ ← wrap_err ("update status " +:+ name +:+ ": ")
            (kube (kube_update_queue_status (set_queue_phase QueuePhaseReady q)));
      mret tt))).
Proof.
  intros Hq. apply tracks_or_failed; [done | apply tracks_publish |]. intros _ _ _ _.
  apply tracks_or_failed; [done | |].
  - apply tracks_of_queues. intros qs. apply frame_temporal, worker_safe_queues.
  - intros _ _ _ _. repeat pres_step. by apply tracks_status.
Qed.

Lemma tracks_reconcile_shards name q :
  copy_ok q -> (3 * S (length (qst_Shards (q_Status q))) <= n)%nat ->
  3 * (shard_count q + 1) + 2 < 2 ^ 31 -> preserves tracks (reconcile_shards Zones name q).
Proof.
  intros Hq Hn Hlen. unfold shard_count in Hlen. unfold reconcile_shards. apply preserves_bind_ok.
  { apply tracks_of_queues. intros qs. apply frame_first_shard. }
  intros q1 o o1 H1. pose proof Hq as (_ & _ & Hs & _).
  destruct (ensure_first_shard_run q o Hs) as (l & w' & E & _ & Hok & Hl & _). rewrite E in H1. injection H1 as <- _.
  apply tracks_or_failed; [apply copy_shards; [done | done | lia] | |].
  { apply tracks_of_queues. intros qs. apply frame_ensure_topics, topic_safe_queues. }
  intros _ _ _ _. apply preserves_bind_ok.
  { apply tracks_of_queues. intros qs. apply frame_annotate. by destruct (topic_safe_queues qs). }
  intros q2 o2 o3 H2. apply annotate_ok in H2 as (l1 & -> & Hz). simpl in Hz.
  pose proof (shards_ok_same q l l1 (zoned_same_slot _ _ Hz) Hok) as Hok1.
  pose proof (Forall2_length _ _ _ Hz) as Hlen1.
  change (set_shards l1 (set_shards l q)) with (set_shards l1 q). apply preserves_bind_ok.
  { apply tracks_of_queues. intros qs. apply frame_splits. by destruct (topic_safe_queues qs). }
  intros [q3 err] o4 o5 H3.
  destruct (reconcileSplits_good (set_shards l1 q) o4) as (l2 & err' & Hrun & (Hok2 & _ & _) & Hl2).
  { simpl. by eapply shards_ok_queue; [| | exact Hok1]. }
  { simpl. rewrite <- Hlen1. lia. }
  rewrite H3 in Hrun. simpl in Hrun, Hl2. injection Hrun as -> ->. simpl.
  change (set_shards l2 (set_shards l1 q)) with (set_shards l2 q).
  assert (Hok2' : shards_ok q l2) by (by eapply shards_ok_queue; [| | exact Hok2]).
  assert (Hc2 : copy_ok (set_shards l2 q)) by (apply copy_shards; [done | done | lia]).
  destruct err' as [e|]; [by apply tracks_failed |].
  apply tracks_or_failed; [done | |].
  { apply tracks_of_queues. intros qs. apply frame_drains, topic_safe_queues. }
  intros q4 o6 o7 H4. apply tracks_finish.
  destruct (reconcileDrains_drained (set_shards l2 q) o6) as [(_ & _ & Hd) Hq4].
  rewrite H4 in Hd, Hq4. simpl in Hd, Hq4. rewrite Hq4. destruct Hd as (Hf & _ & _). apply drain_same_slot in Hf.
  apply (copy_shards q); [done | by eapply shards_ok_same | rewrite <- (Forall2_length _ _ _ Hf); lia].
Qed.

Lemma tracks_delete q : copy_ok q -> preserves tracks (reconcileDelete q).
Proof.
  intros (Hk & Hf & Hs & Hl). unfold reconcileDelete. destruct (ContainsFinalizer _ _); cbn [negb]; [| apply preserves_ret].
  repeat pres_step.
  - apply tracks_of_queues. intros qs. apply frame_delete_topics, topic_safe_queues.
  - apply tracks_of_queues. intros qs. by apply lift_frame.
  - apply tracks_of_queues. intros qs. by apply lift_frame.
  - apply tracks_of_queues. intros qs. apply frame_worker_deletion, worker_safe_queues.
  - apply preserves_kube; [done | done |]. intros o Ho. rewrite law_remove.
    match goal with |- context [kube_update_queue ?q1 _] => pose proof (law_update_queue q1 (o_kube o)) as H end.
    destruct (kube_update_queue _ _) as [[q'|e] c']; [| simpl; rewrite H; by destruct o].
    destruct H as (old & Hold & -> & ->). unfold tracks, store_queue in *. simpl in *.
    change (meta_key (set_finalizers _ _)) with (meta_key (q_Meta q)) in *. rewrite Hk in *.
    pose proof Ho as [Hok Hfi]. destruct (Hok _ _ Hold) as (Hko & Hso & Hlo). specialize (Hfi _ Hold).
    destruct (_ && _); simpl.
    + split; [intros k' q' [_ H]%lookup_delete_Some; by apply Hok | intros q' H; by rewrite lookup_delete_eq in H].
    + apply tracked_insert; simpl; [done | done | done | | done].
      eapply sound_shards_queue; [| | | exact Hso]; simpl; [| congruence | done].
      unfold q_Name, meta_key in *. simpl. congruence.
Qed.
End Invariant.

Lemma queues_ok_mono n n' m : (n <= n')%nat -> queues_ok n m -> queues_ok n' m.
Proof. intros Hn H k q Hq. destruct (H k q Hq) as (? & ? & ?). split_and!; [done | done | lia]. Qed.

Section Runs.
Context {RS : RedisServer} {KS : KubeServer} {CU : ControllerUtil} {TA : TopicAdmin} {RG : Registerer}.
Context {KL : KubeLaws KS} {CL : ControllerUtilLaws CU} {TL : TopicAdminLaws TA} {GL : RegistererLaws RG}.
Context (Zones : option ZoneLocator).

Lemma Reconcile_keeps n ns name o :
  queues_ok n (k8s_queues (o_kube o)) -> 3 * (Z.of_nat n + 1) + 2 < 2 ^ 31 ->
  queues_ok (3 * S n) (k8s_queues (o_kube (snd (Reconcile Zones ns name o)))).
Proof.
  intros Hok Hlen. set (N := (3 * S n)%nat). pose proof (queues_ok_mono n N _ ltac:(lia) Hok) as HokN.
  unfold Reconcile. rewrite mbind_run. unfold wrap_err at 1.
  destruct (kube_read (kube_get_queue (ns, name)) (fun k => k8s_queues k !! (ns, name)) o) as (w1 & Ew & _ & Hr);
    [intros k; apply law_get_queue |].
  destruct (kube _ o) as [r o1]. simpl in Ew, Hr. subst o1.
  destruct Hr as [[e1 ->] | ->]; [done |].
  destruct (k8s_queues (o_kube o) !! (ns, name)) as [q|] eqn:Hq; [| done].
  destruct (Hok _ _ Hq) as (Hkey & Hs & Hl).
  assert (Hc : forall n', (n <= n')%nat -> copy_ok n' (ns, name) (qs_FIFOQueue (q_Spec q)) q)
    by (intros; split_and!; [done | done | done | lia]).
  assert (Ht : forall n', queues_ok n' (k8s_queues (o_kube o)) ->
    tracks n' (ns, name) (qs_FIFOQueue (q_Spec q)) (set_world w1 o)).
  { intros n' H. split; [exact H |]. intros q' Hq'. simpl in Hq'. rewrite Hq in Hq'. by injection Hq' as <-. }
  apply (fun H => proj1 (H : tracks N (ns, name) (qs_FIFOQueue (q_Spec q)) _)).
  destruct (deletion_is_zero (q_Meta q)) eqn:Hz; cbn [negb];
    [| by apply tracks_delete; [apply Hc; lia | apply Ht]].
  destruct (ValidateNoDLQCycle _ _ _) as [_|e]; [| by apply tracks_failed; [apply Hc; lia | apply Ht]].
  rewrite mbind_run.
  pose proof (tracks_finalizer N _ _ name q (Hc N ltac:(lia)) Hz _ (Ht N HokN)) as Hfin.
  pose proof (ensure_finalizer_copy n (ns, name) (qs_FIFOQueue (q_Spec q)) name q (set_world w1 o)) as Hcopy.
  destruct (ensure_finalizer name q _) as [[q'|e] o2]; [| exact Hfin].
  destruct (Hcopy q' o2 (Ht n Hok) (Hc n ltac:(lia)) eq_refl) as (Hk' & Hf' & Hs' & Hl').
  apply tracks_reconcile_shards; [| unfold N; lia | unfold shard_count; lia | exact Hfin].
  split_and!; [done | done | done | unfold N; lia].
Qed.

(** What users and other controllers may do to the queues between two passes: create
    queues without shards, delete queues, and edit them, their names, kinds and
    statuses apart. *)
Definition env_step (m m' : gmap okey Queue) : Prop :=
  forall k q', m' !! k = Some q' ->
    meta_key (q_Meta q') = k /\
    (qst_Shards (q_Status q') = [] \/
     exists q, m !! k = Some q /\ qs_FIFOQueue (q_Spec q') = qs_FIFOQueue (q_Spec q) /\
       q_Status q' = q_Status q).

(** Runs of the operator: passes over any queues in any order, in any state of the
    network, Kafka, Redis and the caches, with edits in between.  The index bounds the
    number of shards a queue can have by then. *)
Inductive operator_run : nat -> oworld -> oworld -> Prop :=
| run_here n o : operator_run n o o
| run_pass n o o1 ns name :
    operator_run n o o1 -> 3 * (Z.of_nat n + 1) + 2 < 2 ^ 31 ->
    operator_run (3 * S n) o (snd (Reconcile Zones ns name o1))
| run_env n o o1 o2 :
    operator_run n o o1 -> env_step (k8s_queues (o_kube o1)) (k8s_queues (o_kube o2)) ->
    operator_run n o o2.

End Runs.

(** ** Temporal workers *)

(** A character of a Kubernetes name. *)
Definition label_byte (b : Z) : Prop := 97 <= b <= 122 \/ 48 <= b <= 57 \/ b = 45.

Lemma bytes_cons c s : bytes (String c s) = byte_of c :: bytes s.
Proof. done. Qed.

Lemma name_loop_spec len i name :
  0 < i -> i + Z.of_nat (String.length name) = len ->
  name_loop len i name = None <-> Forall label_byte (bytes name) /\ last (bytes name) <> Some 45.
Proof.
  revert i. induction name as [|c name IH]; intros i Hi Hlen; [by split; [split; [constructor |] |] |].
  cbn [name_loop]. cbv zeta. rewrite bytes_cons. set (ch := byte_of c). rewrite Forall_cons. unfold label_byte at 1.
  assert (Hi0 : (i =? 0) = false) by lia. rewrite Hi0. simpl String.length in Hlen.
  assert (Hlast : last (ch :: bytes name) = match name with EmptyString => Some ch | _ => last (bytes name) end).
  { destruct name; [done |]. by rewrite !bytes_cons. }
  destruct (negb _) eqn:Hbad; [split; [done | intros [[H _] _]; exfalso; revert Hbad; zbool; simpl; lia] |].
  assert (Hgood : 97 <= ch <= 122 \/ 48 <= ch <= 57 \/ ch = 45) by (revert Hbad; zbool; simpl; lia).
  cbn [andb]. rewrite Hlast. destruct name as [|c' name'].
  - simpl String.length in Hlen. assert (Hil : (i =? len - 1) = true) by lia. rewrite Hil. cbn [andb name_loop].
    destruct (Z.eqb_spec ch 45) as [-> | Hne]; split; try done.
    + intros [_ H]. done.
    + intros _. split; [by split; [| constructor] | congruence].
  - assert (Hil : (i =? len - 1) = false) by (simpl String.length in Hlen; lia). rewrite Hil. cbn [andb].
    rewrite IH by lia. tauto.
Qed.

(** The prefix of a worker's name passes. *)
Lemma name_loop_lower len i c name :
  97 <= byte_of c <= 122 -> name_loop len i (String c name) = name_loop len (i + 1) name.
Proof.
  intros Hc. cbn [name_loop]. cbv zeta.
  assert (H : (97 <=? byte_of c) && (byte_of c <=? 122) = true) by lia.
  assert (H' : (byte_of c =? 45) = false) by lia.
  assert (H'' : (48 <=? byte_of c) && (byte_of c <=? 57) = false) by lia.
  by rewrite H, H', H'', !andb_false_r.
Qed.

Lemma name_loop_prefix len ns :
  7 < len -> name_loop len 0 (worker_name ns) = name_loop len 7 ns.
Proof.
  intros Hlen. change (worker_name ns) with
    (String "w" (String "o" (String "r" (String "k" (String "e" (String "r" (String "-" ns))))))).
  do 6 (rewrite name_loop_lower by (vm_compute; split; discriminate)).
  change (0 + 1 + 1 + 1 + 1 + 1 + 1) with 6. cbn [name_loop]. change (byte_of "-") with 45.
  assert (H : (6 =? len - 1) = false) by lia. by rewrite H.
Qed.

(** The Temporal namespaces a queue can name: one to 246 characters, lower-case letters,
    digits and hyphens, not ending in a hyphen.  Those with an underscore, which the
    first check lets through, always fail the second. *)
Theorem worker_names_spec ns :
  isValidTemporalNamespace ns = true /\ validateKubernetesName (worker_name ns) = None <->
  1 <= Z.of_nat (String.length ns) <= 246 /\ Forall label_byte (bytes ns) /\ last (bytes ns) <> Some 45.
Proof.
  assert (Hlen : Z.of_nat (String.length (worker_name ns)) = 7 + Z.of_nat (String.length ns)) by (change (String.length (worker_name ns)) with (7 + String.length ns)%nat; lia).
  unfold isValidTemporalNamespace, validateKubernetesName. rewrite Hlen.
  assert (Hloop : 1 <= Z.of_nat (String.length ns) ->
    name_loop (7 + Z.of_nat (String.length ns)) 0 (worker_name ns) = None <->
    Forall label_byte (bytes ns) /\ last (bytes ns) <> Some 45).
  { intros Hl. rewrite <- (name_loop_spec (7 + Z.of_nat (String.length ns)) 7 ns) by lia.
    by rewrite name_loop_prefix by lia. }
  set (len := Z.of_nat (String.length ns)) in *.
  assert (Hdig : Forall label_byte (bytes ns) -> forallb (fun ch =>
    (97 <=? ch) && (ch <=? 122) || (48 <=? ch) && (ch <=? 57) || (ch =? 95) || (ch =? 45)) (bytes ns) = true).
  { intros HF. apply forallb_forall. intros b Hb%list_elem_of_In. rewrite Forall_forall in HF.
    specialize (HF b Hb). unfold label_byte in HF. zbool; simpl; lia. }
  destruct (Z.eqb_spec len 0); [split; [by intros [? _] | lia] |].
  destruct (Z.eqb_spec (7 + len) 0); [lia |].
  destruct (Z.ltb_spec 255 len); destruct (Z.ltb_spec 253 (7 + len)); cbn [orb];
    [split; [by intros [? _] | lia] | lia | split; [by intros [_ ?] | lia] |].
  rewrite Hloop by lia. split; [intros [_ Hn]; split; [lia | done] | intros Hn; split; [| by destruct Hn]].
  destruct Hn as [_ Hn]. apply Hdig. by destruct Hn.
Qed.

Definition env_or (key def : string) (o : oworld) : string :=
  let v := default "" (o_env o !! key) in if bool_decide (v = "") then def else v.

(** When the worker step succeeds for a queue labelled with a Temporal namespace, the
    namespace is registered and its worker object exists, in the namespace and with the
    image the environment names, with one replica; what else the worker's spec had is
    kept, and no other worker is touched. *)
Theorem reconcileTemporalWorker_spec {KS : KubeServer} {KL : KubeLaws KS} {RG : Registerer} {GL : RegistererLaws RG} queue ns o o' :
  om_Labels (q_Meta queue) !! namespace_label = Some ns -> ns <> "" ->
  reconcileTemporalWorker queue o = (Ok tt, o') ->
  let key := (env_or "KMSVC_TEMPORAL_NAMESPACE" "temporal" o, worker_name ns) in
  let old := default (blank_worker key) (k8s_workers (o_kube o) !! key) in
  ns ∈ o_temporal o' /\
  k8s_workers (o_kube o') =
    <[key := MkWorker (tw_Meta old)
       (MkWorkerSpec ns (env_or "KMSVC_TEMPORAL_WORKER_IMAGE" "story-crater-backend:latest" o)
          (tws_ImagePullPolicy (tw_Spec old)) (Some 1) (tws_Resources (tw_Spec old))
          (tws_NodeSelector (tw_Spec old)) (tws_Affinity (tw_Spec old)) (tws_Tolerations (tw_Spec old)))
       (tw_Status old)]> (k8s_workers (o_kube o)).
Proof.
  intros Hlab Hne. unfold reconcileTemporalWorker. rewrite Hlab. cbn [default from_option id]. cbv zeta.
  rewrite bool_decide_eq_false_2 by done. destruct (isValidTemporalNamespace ns); cbn [negb]; [| done].
  destruct (validateKubernetesName _); [done |].
  intros ([] & o1 & H1%wrap_err_ok & H2)%mbind_ok_inv. pose proof (register_ok _ _ _ H1) as Hreg.
  destruct (register_frame ns o) as (w' & t' & Hsnd & _). rewrite H1 in Hsnd. simpl in Hsnd. subst o1.
  apply mbind_ok_inv in H2 as (wns & o2 & [= <- <-] & H2).
  apply mbind_ok_inv in H2 as (img & o3 & [= <- <-] & H2).
  apply mbind_ok_inv in H2 as (t & o4 & (w4 & Hup & Ho4 & _)%wrap_err_ok%kube_ok_inv & [= <-]).
  match type of Hup with kube_upsert_worker ?k ?f _ = _ => pose proof (law_upsert_worker k f
    (o_kube (set_temporal t' (set_world w' o)))) as HU end.
  rewrite Hup in HU. cbv zeta in HU. destruct HU as [-> HU]. rewrite Ho4. simpl. split; [exact Hreg |].
  by rewrite HU.
Qed.

(** ** Examples *)

Definition mail_spec : QueueSpec := MkQueueSpec false 30 3600 3 "" 2 0 false 1 4 1000 60.
Definition mail_queue (name : string) (labels : gmap string string) : Queue :=
  MkQueue (MkMeta "sqs" name labels [] (1690000000 * Second) None) mail_spec
    (MkQueueStatus QueuePhaseUnset []).

Definition queue_world (q : Queue) : oworld :=
  OWorld world0 (Cluster {[meta_key (q_Meta q) := q]} ∅ ∅ ∅ ∅) ∅ ∅ ∅ ∅.

Lemma queue_world_found q : k8s_queues (o_kube (queue_world q)) !! meta_key (q_Meta q) = Some q.
Proof. apply lookup_singleton_eq. Qed.

Definition mail : Queue := mail_queue "mail" ∅.

Lemma mail_reconciles : fst (Reconcile (Some pool) "sqs" "mail" (queue_world mail)) = Ok tt.
Proof. vm_compute. reflexivity. Qed.


Lemma reconcileTemporalWorker_spec_witness :
  "post" ∈ o_temporal (snd (reconcileTemporalWorker (mail_queue "mail" {[namespace_label := "post"]}) (queue_world mail))).
Proof.
  apply (reconcileTemporalWorker_spec (mail_queue "mail" {[namespace_label := "post"]}) "post" (queue_world mail)).
  - apply lookup_singleton_eq.
  - done.
  - apply run_fst. vm_compute. reflexivity.
Defined.

Definition leaving_mail : Queue :=
  MkQueue (MkMeta "sqs" "mail" ∅ [finalizerName] (1690000000 * Second) (Some (1700000000 * Second))) mail_spec
    (MkQueueStatus QueuePhaseReady [newShard (1690000000 * Second) "0" "" 0 FullHashRangeEnd mail]).

Lemma Reconcile_deletes_witness :
  let o' := snd (Reconcile None "sqs" "mail" (queue_world leaving_mail)) in
  (forall s, s ∈ qst_Shards (q_Status leaving_mail) -> is_closed s = false -> topic_of o' (ss_Topic s) = None) /\
  w_redis (o_world o') =
    delete (ShardMapKey "mail") (delete (QueueMetaKey "mail") (w_redis (o_world (queue_world leaving_mail)))) /\
  k8s_queues (o_kube o') = delete ("sqs", "mail") (k8s_queues (o_kube (queue_world leaving_mail))).
Proof.
  apply (Reconcile_deletes None "sqs" "mail" leaving_mail (queue_world leaving_mail)).
  - apply queue_world_found.
  - reflexivity.
  - reflexivity.
  - reflexivity.
  - apply run_fst. vm_compute. reflexivity.
Defined.

(** A queue that is its own dead-letter queue. *)
Definition looping_mail : Queue :=
  MkQueue (q_Meta mail) (MkQueueSpec false 30 3600 3 "mail" 2 0 false 1 4 1000 60) (q_Status mail).



(** A second after a sample of its topic, a busy queue is split. *)
Definition busy_orders : oworld :=
  set_kube (Cluster {[("sqs", "orders") := orders_queue]} ∅ ∅ ∅ ∅) busy_world.

(** The pass that splits a shard publishes the two halves as the queue's write targets
    before their topics exist: until the next pass creates them, every message sent to
    the queue is refused. *)
Theorem split_published_before_topics :
  let o' := snd (Reconcile None "sqs" "orders" busy_orders) in
  fst (Reconcile None "sqs" "orders" busy_orders) = Ok tt /\
  match fst (lift (GetShardMap "orders") o') with
  | Ok (Some shards) => (fun s => (sh_ID s, sh_Phase s)) <$> shards =
      [("0", "Closing"); ("1", "Active"); ("2", "Active")]
  | _ => False
  end /\
  dom (k_topics (w_kafka (o_world o'))) = {["kmsvc.orders.shard-0"]} /\
  match fst (lift (SendMessage 0 (order "" "first")) o') with
  | Ok _ => False
  | Err _ => match fst (lift (SendMessage 0 (order "" "first")) (snd (Reconcile None "sqs" "orders" o'))) with
             | Ok _ => True | Err _ => False
             end
  end.
Proof. split_and!; [vm_compute; reflexivity | vm_compute; reflexivity | vm_decide | vm_compute; exact I]. Qed.

(** Two queues of one Temporal namespace, and the deletion of the first. *)
Definition sharing_world : oworld :=
  let label : gmap string string := {[namespace_label := "post"]} in
  OWorld world0 (Cluster {[("sqs", "mail") := mail_queue "mail" label; ("sqs", "news") := mail_queue "news" label]}
                   ∅ ∅ ∅ ∅) ∅ ∅ ∅ ∅.

Definition mark_deleted (k : okey) (o : oworld) : oworld :=
  set_kube (set_queues (alter (fun q => set_meta (set_deletion (1700000000 * Second) (q_Meta q)) q) k
                          (k8s_queues (o_kube o))) (o_kube o)) o.

(** Queues with the same Temporal label share one worker, and deleting one of the
    queues deletes the worker under the others, which stay Ready. *)
Theorem shared_worker_deleted :
  let o1 := snd (Reconcile None "sqs" "mail" sharing_world) in
  let o2 := snd (Reconcile None "sqs" "news" o1) in
  let o3 := snd (Reconcile None "sqs" "mail" (mark_deleted ("sqs", "mail") o2)) in
  dom (k8s_workers (o_kube o2)) = {[("temporal", "worker-post")]} /\
  dom (k8s_workers (o_kube o3)) = ∅ /\
  (q_Status <$> k8s_queues (o_kube o3) !! ("sqs", "news")) = (q_Status <$> k8s_queues (o_kube o2) !! ("sqs", "news")) /\
  match q_Status <$> k8s_queues (o_kube o3) !! ("sqs", "news") with
  | Some st => qst_Phase st = QueuePhaseReady | None => False
  end.
Proof. split_and!; [vm_decide | vm_decide | vm_compute; reflexivity | vm_compute; reflexivity]. Qed.
