(* ===== verification/Service.v ===== *)
(** The gRPC layer, [internal/api/handlers]: [consumer_registry.go] and
    [queue_service.go].

    The messages of the protocol are records with the fields the handlers use, and a
    handler answers with a response or with a gRPC status.  The process's own state is
    the registry of consumers, next to the world the services run in. *)

From S2P Require Import Prelude GoNum GoStr Topology Json Keys Redis World Schema Store Scripts Send Receive Delete.
From Stdlib Require Import Ascii.

Local Open Scope Z_scope.

(** ** Status codes *)

Inductive code : Type := NotFound | InvalidArgument | DeadlineExceeded | Internal | Unauthenticated.

#[export] Instance code_eq_dec : EqDecision code.
Proof. solve_decision. Defined.

Record Status : Type := MkStatus { st_Code : code; st_Message : string }.

(** [mapError], of a non-nil error. *)
Definition mapError (err : error) : Status :=
  let msg := err_msg err in
  if Contains msg "not found" then MkStatus NotFound msg
  else if Contains msg "exceeds" || Contains msg "required for FIFO" || Contains msg "no consumable shards"
          || Contains msg "not reconciled" then MkStatus InvalidArgument msg
  else if is_deadline err then MkStatus DeadlineExceeded msg
  else MkStatus Internal msg.

(** ** The process *)

(** [registeredConsumer]: the topics the registry has asked for, and those the Kafka
    client is subscribed to. *)
Record registeredConsumer : Type := MkConsumer { rc_topics : gset string; rc_client : gset string }.

Record server : Type := MkServer { s_world : world; s_consumers : gmap string registeredConsumer }.

Definition set_consumers (m : gmap string registeredConsumer) (s : server) : server := MkServer (s_world s) m.

(** Code of the services, run by the server. *)
Definition serve {A} (m : M world A) : M server A := fun s =>
  let '(r, w) := m (s_world s) in (r, MkServer w (s_consumers s)).

(** [kgo.NewClient] for a member of a group: an error, or a client subscribed to the
    topics it was given. *)
Class ConsumerClient : Type := kgo_new_consumer : list string -> string -> list string -> option error.

(** ** Messages *)

Record SendMessageRequest : Type := MkSendRequest {
  sr_QueueName : string; sr_MessageBody : string; sr_MessageGroupId : string; sr_MessageDeduplicationId : string
}.
Record SendMessageResponse : Type := MkSendResponse { sp_MessageId : string; sp_SequenceNumber : string }.

Record SendEntry : Type := MkSendEntry {
  se_Id : string; se_MessageBody : string; se_MessageGroupId : string; se_MessageDeduplicationId : string
}.
Record DeleteEntry : Type := MkDeleteEntry { de_Id : string; de_ReceiptHandle : string }.

Record BatchResultEntry : Type := MkEntry { be_Id : string; be_MessageId : string; be_Error : string }.
Record BatchResponse : Type := MkBatch { br_Successful : list BatchResultEntry; br_Failed : list BatchResultEntry }.

Record ReceiveMessageRequest : Type := MkReceiveRequest {
  rr_QueueName : string; rr_MaxNumberOfMessages : Z; rr_WaitTimeSeconds : Z; rr_VisibilityTimeoutSeconds : Z
}.
Record ProtoMessage : Type := MkProtoMessage {
  pm_MessageId : string; pm_ReceiptHandle : string; pm_Body : string; pm_ReceiveCount : Z; pm_EnqueuedAt : Z
}.

Section Ops.
Context {R : RedisServer} {K : KafkaServer} {U : UUIDSource} {CC : ConsumerClient}.

(** *** consumer_registry.go *)

Definition NewConsumer (brokers : list string) (group : string) (topics : list string) : option error :=
  ErrWrap "creating kafka consumer client: " <$> kgo_new_consumer brokers group topics.

(** The topics not asked for yet, in order, each once. *)
Fixpoint new_topics (known : gset string) (shards : list Shard) : list string :=
  match shards with
  | [] => []
  | s :: rest =>
    if decide (sh_Topic s ∈ known) then new_topics known rest
    else sh_Topic s :: new_topics ({[sh_Topic s]} ∪ known) rest
  end.

(** [AddTopics] *)
Definition AddTopics (topics : list string) (rc : registeredConsumer) : registeredConsumer :=
  MkConsumer (rc_topics rc) (list_to_set topics ∪ rc_client rc).

Definition Get (Brokers : list string) (queueName : string) : M server unit :=
  shards ← serve (ConsumableShards queueName);
  match shards with
  | [] => fail (ErrText ("queue " +:+ queueName +:+ " has no consumable shards"))
  | _ =>
    registered ← gets (fun s => s_consumers s !! queueName);
    match registered with
    | None =>
      let topics := sh_Topic <$> shards in
      match NewConsumer Brokers (ConsumerGroup queueName) topics with
      | Some e => fail (ErrWrap ("create consumer for queue " +:+ queueName +:+ ": ") e)
      | None => modify (fun s => set_consumers
          (<[queueName := MkConsumer (list_to_set topics) (list_to_set topics)]> (s_consumers s)) s)
      end
    | Some rc =>
      let newTopics := new_topics (rc_topics rc) shards in
      let rc := MkConsumer (list_to_set newTopics ∪ rc_topics rc) (rc_client rc) in
      let rc := match newTopics with [] => rc | _ => AddTopics newTopics rc end in
      modify (fun s => set_consumers (<[queueName := rc]> (s_consumers s)) s)
    end
  end.

(** [Consumer.Close]: the client leaves its group and is subscribed to nothing. *)
Definition Consumer_Close (rc : registeredConsumer) : registeredConsumer := MkConsumer (rc_topics rc) ∅.

Definition Close : M server unit := modify (fun s => set_consumers (Consumer_Close <$> s_consumers s) s).

(** *** queue_service.go *)

(** What a handler answers: a response or a status. *)
Definition reply {A} (r : res A) : A + Status :=
  match r with Ok a => inl a | Err e => inr (mapError e) end.

Definition SendMessage (DedupWindow : Z) (req : SendMessageRequest) : M server (SendMessageResponse + Status) :=
  r ← attempt (serve (Send.SendMessage DedupWindow
        (MkSendInput (sr_QueueName req) (sr_MessageBody req) (sr_MessageGroupId req) (sr_MessageDeduplicationId req))));
  mret (reply match r with
              | Ok out => Ok (MkSendResponse (so_MessageID out) (FormatInt (so_SequenceNumber out)))
              | Err e => Err e
              end).

Definition add_failed (e : BatchResultEntry) (b : BatchResponse) : BatchResponse :=
  MkBatch (br_Successful b) (br_Failed b ++ [e]).
Definition add_successful (e : BatchResultEntry) (b : BatchResponse) : BatchResponse :=
  MkBatch (br_Successful b ++ [e]) (br_Failed b).

(** The loop of a batch: one call per entry, in order, each answered under its id. *)
Fixpoint batch_loop {E A} (call : E -> M world A) (id : E -> string) (message_id : A -> string)
    (entries : list E) (resp : BatchResponse) : M server BatchResponse :=
  match entries with
  | [] => mret resp
  | entry :: rest =>
    r ← attempt (serve (call entry));
    batch_loop call id message_id rest
      match r with
      | Err err => add_failed (MkEntry (id entry) "" (err_msg err)) resp
      | Ok out => add_successful (MkEntry (id entry) (message_id out) "") resp
      end
  end.

Definition send_entry (DedupWindow : Z) (queueName : string) (entry : SendEntry) : M world SendMessageOutput :=
  Send.SendMessage DedupWindow
    (MkSendInput queueName (se_MessageBody entry) (se_MessageGroupId entry) (se_MessageDeduplicationId entry)).

Definition SendMessageBatch (DedupWindow : Z) (queueName : string) (entries : list SendEntry)
    : M server (BatchResponse + Status) :=
  resp ← batch_loop (send_entry DedupWindow queueName) se_Id so_MessageID entries (MkBatch [] []); mret (inl resp).

Fixpoint to_proto (msgs : list Message) : M server (list ProtoMessage) :=
  match msgs with
  | [] => mret []
  | m :: rest =>
    now ← serve Now;
    rest ← to_proto rest;
    mret (MkProtoMessage (msg_ReceiptHandle m) (msg_ReceiptHandle m) (msg_Body m) (msg_ReceiveCount m) now :: rest)
  end.

Definition receive (PollInterval : Z) (Brokers : list string) (req : ReceiveMessageRequest)
    : M server (list ProtoMessage) :=
  _ ← Get Brokers (rr_QueueName req);
  msgs ← serve (Receive.ReceiveMessage PollInterval
           (MkReceiveInput (rr_QueueName req) (rr_MaxNumberOfMessages req)
              (seconds (rr_WaitTimeSeconds req)) (seconds (rr_VisibilityTimeoutSeconds req))));
  to_proto msgs.

Definition ReceiveMessage (PollInterval : Z) (Brokers : list string) (req : ReceiveMessageRequest)
    : M server (list ProtoMessage + Status) :=
  r ← attempt (receive PollInterval Brokers req); mret (reply r).

(** [committer] as in [Delete]. *)
Definition DeleteMessage (committer : bool) (queueName receiptHandle : string) : M server (unit + Status) :=
  r ← attempt (serve (Delete.DeleteMessage committer queueName receiptHandle)); mret (reply r).

Definition delete_entry (committer : bool) (queueName : string) (entry : DeleteEntry) : M world unit :=
  Delete.DeleteMessage committer queueName (de_ReceiptHandle entry).

Definition DeleteMessageBatch (committer : bool) (queueName : string) (entries : list DeleteEntry)
    : M server (BatchResponse + Status) :=
  resp ← batch_loop (delete_entry committer queueName) de_Id (fun _ => "") entries (MkBatch [] []); mret (inl resp).

Definition ChangeMessageVisibility (queueName receiptHandle : string) (visibilityTimeoutSeconds : Z)
    : M server (unit + Status) :=
  r ← attempt (serve (Delete.ChangeMessageVisibility queueName receiptHandle (seconds visibilityTimeoutSeconds)));
  mret (reply r).
End Ops.

(** ** Batches *)

(** The reference: the calls of a batch made one by one, their outcomes in a list. *)
Fixpoint each {E A} (call : E -> M world A) (entries : list E) : M server (list (res A)) :=
  match entries with
  | [] => mret []
  | entry :: rest => r ← attempt (serve (call entry)); rs ← each call rest; mret (r :: rs)
  end.

Definition succeeded {E A} (id : E -> string) (message_id : A -> string) (p : E * res A) : option BatchResultEntry :=
  match p.2 with Ok out => Some (MkEntry (id p.1) (message_id out) "") | Err _ => None end.
Definition failed {E A} (id : E -> string) (p : E * res A) : option BatchResultEntry :=
  match p.2 with Ok _ => None | Err e => Some (MkEntry (id p.1) "" (err_msg e)) end.

(** The answer of a batch whose calls came out as [rs]. *)
Definition batch_answer {E A} (id : E -> string) (message_id : A -> string) (entries : list E) (rs : list (res A))
    : BatchResponse :=
  MkBatch (omap (succeeded id message_id) (zip entries rs)) (omap (failed id) (zip entries rs)).

Section Batches.
Context {E A : Type} (call : E -> M world A) (id : E -> string) (message_id : A -> string).

Lemma each_total entries s :
  exists rs s', each call entries s = (Ok rs, s') /\ length rs = length entries.
Proof.
  revert s. induction entries as [|entry rest IH]; intros s; [by exists [], s |].
  cbn [each]. rewrite mbind_run. unfold attempt. destruct (serve (call entry) s) as [r s1].
  rewrite mbind_run. destruct (IH s1) as (rs & s' & -> & Hlen). exists (r :: rs), s'. simpl. by rewrite Hlen.
Qed.

Lemma batch_loop_each entries resp s :
  batch_loop call id message_id entries resp s =
  (let '(rs, s') := each call entries s in
   match rs with
   | Ok rs => (Ok (MkBatch (br_Successful resp ++ br_Successful (batch_answer id message_id entries rs))
                           (br_Failed resp ++ br_Failed (batch_answer id message_id entries rs))), s')
   | Err e => (Err e, s')
   end).
Proof.
  revert resp s. induction entries as [|entry rest IH]; intros resp s.
  { simpl. rewrite !app_nil_r. by destruct resp. }
  cbn [batch_loop each]. rewrite !mbind_run. unfold attempt. destruct (serve (call entry) s) as [r s1].
  rewrite IH, mbind_run. destruct (each_total rest s1) as (rs & s' & -> & _). unfold mret, M_ret, batch_answer.
  destruct r as [a|e]; cbn; by rewrite <- ?app_assoc.
Qed.

(** Each entry is answered once. *)
Lemma batch_answer_ids entries rs :
  length rs = length entries ->
  be_Id <$> (br_Successful (batch_answer id message_id entries rs) ++
             br_Failed (batch_answer id message_id entries rs)) ≡ₚ id <$> entries.
Proof.
  revert rs. induction entries as [|entry rest IH]; intros [|r rs] Hlen; try done.
  injection Hlen as Hlen. specialize (IH rs Hlen). unfold batch_answer in *. cbn in *.
  rewrite fmap_app in *. destruct r as [a|e]; cbn; [by rewrite IH |].
  rewrite <- IH. symmetry. apply Permutation_middle.
Qed.
End Batches.

(** C36. A batch is its entries sent one after the other: the same effects in the same
    order, each outcome reported under its entry's id, successes and failures each in
    the order of the request, every entry exactly once; and a failed entry does not stop
    the rest. *)
Theorem SendMessageBatch_sequential {R : RedisServer} {K : KafkaServer} {U : UUIDSource} d q entries s :
  exists rs s',
    each (send_entry d q) entries s = (Ok rs, s') /\ length rs = length entries /\
    SendMessageBatch d q entries s = (Ok (inl (batch_answer se_Id so_MessageID entries rs)), s') /\
    be_Id <$> (br_Successful (batch_answer se_Id so_MessageID entries rs) ++
               br_Failed (batch_answer se_Id so_MessageID entries rs)) ≡ₚ se_Id <$> entries.
Proof.
  destruct (each_total (send_entry d q) entries s) as (rs & s' & E & Hlen). exists rs, s'.
  split_and!; [done | done | | by apply batch_answer_ids].
  unfold SendMessageBatch. rewrite mbind_run, batch_loop_each, E. done.
Qed.

Theorem DeleteMessageBatch_sequential {R : RedisServer} {K : KafkaServer} c q entries s :
  exists rs s',
    each (delete_entry c q) entries s = (Ok rs, s') /\ length rs = length entries /\
    DeleteMessageBatch c q entries s = (Ok (inl (batch_answer de_Id (fun _ => "") entries rs)), s') /\
    be_Id <$> (br_Successful (batch_answer de_Id (fun _ => "") entries rs) ++
               br_Failed (batch_answer de_Id (fun _ => "") entries rs)) ≡ₚ de_Id <$> entries.
Proof.
  destruct (each_total (delete_entry c q) entries s) as (rs & s' & E & Hlen). exists rs, s'.
  split_and!; [done | done | | by apply batch_answer_ids].
  unfold DeleteMessageBatch. rewrite mbind_run, batch_loop_each, E. done.
Qed.

(** ** The registry *)

Lemma new_topics_spec known shards t :
  t ∈ new_topics known shards <-> t ∈ (sh_Topic <$> shards) /\ t ∉ known.
Proof.
  revert known. induction shards as [|s rest IH]; intros known; cbn [new_topics fmap list_fmap]; [set_solver |].
  case_decide; [rewrite IH; set_solver |]. rewrite !elem_of_cons, IH. set_unfold.
  destruct (decide (t = sh_Topic s)); naive_solver.
Qed.

(** The registry knows what its clients are subscribed to. *)
Definition registry_ok (s : server) : Prop :=
  forall q rc, s_consumers s !! q = Some rc -> rc_topics rc = rc_client rc.

(** Closing the registry closes every client, and does not forget one: a later call for
    the same topics is handed the closed client. *)
Lemma Close_keeps_closed {R : RedisServer} {CC : ConsumerClient} brokers q s rc shards :
  s_consumers s !! q = Some rc -> fst (ConsumableShards q (s_world s)) = Ok shards -> shards <> [] ->
  (forall sh, sh ∈ shards -> sh_Topic sh ∈ rc_topics rc) ->
  let s1 := snd (Close s) in
  (forall q' rc', s_consumers s1 !! q' = Some rc' -> rc_client rc' = ∅) /\
  let '(r, s2) := Get brokers q s1 in r = Ok tt /\ rc_client <$> s_consumers s2 !! q = Some ∅.
Proof.
  intros Hrc Hsh Hne Hknown. unfold Close. cbn. split.
  { intros q' rc' H. apply lookup_fmap_Some in H as (rc0 & <- & _). done. }
  unfold Get. rewrite mbind_run. unfold serve. cbn [s_world set_consumers].
  destruct (ConsumableShards q (s_world s)) as [r w]. cbn in Hsh. subst r. destruct shards as [|sh rest]; [done |].
  rewrite mbind_run. cbn [gets s_consumers set_consumers]. rewrite lookup_fmap, Hrc. cbn [fmap option_fmap option_map].
  assert (Hnt : new_topics (rc_topics (Consumer_Close rc)) (sh :: rest) = []).
  { destruct (new_topics _ _) as [|tp l] eqn:E; [done |]. exfalso.
    assert (Htp : tp ∈ new_topics (rc_topics (Consumer_Close rc)) (sh :: rest)) by (rewrite E; by left).
    apply new_topics_spec in Htp as [Htp Hno]. apply Hno. apply list_elem_of_fmap in Htp as (sh' & -> & Hin). by apply Hknown. }
  cbv zeta. rewrite Hnt. cbn. split; [done |]. by rewrite lookup_insert_eq.
Qed.


(** ** Status codes of refused requests *)

Lemma Contains_prefix s sub : HasPrefix s sub = true -> Contains s sub = true.
Proof. destruct s; cbn [Contains]; by intros ->. Qed.

Lemma Contains_app a b sub : Contains b sub = true -> Contains (a +:+ b) sub = true.
Proof.
  intros H. induction a as [|c a IH]; [done |]. rewrite string_app_cons. cbn [Contains].
  by rewrite IH, orb_true_r.
Qed.

(** A literal found after anything, and before anything. *)
Lemma Contains_mid a sub b : Contains (a +:+ sub +:+ b) sub = true.
Proof. apply Contains_app, Contains_prefix, HasPrefix_app. Qed.

Lemma Contains_step c d s sub :
  c <> d -> Contains (String c s) (String d sub) = Contains s (String d sub).
Proof. intros H. cbn [Contains HasPrefix]. by rewrite bool_decide_eq_false_2. Qed.

(** A string without spaces has no part with one. *)
Lemma HasPrefix_char c s p : HasPrefix s p = true -> has_char c s = false -> has_char c p = false.
Proof.
  revert s. induction p as [|d p IH]; intros [|e s]; try done. cbn [HasPrefix has_char].
  intros [<-%bool_decide_eq_true H]%andb_true_iff [-> Hs]%orb_false_iff. by rewrite (IH s).
Qed.

Lemma Contains_char c s sub : has_char c s = false -> has_char c sub = true -> Contains s sub = false.
Proof.
  intros Hs Hsub. induction s as [|d s IH]; cbn [Contains].
  - destruct (HasPrefix _ sub) eqn:E; [| done]. apply (HasPrefix_char c) in E; congruence.
  - pose proof Hs as [_ Hr]%orb_false_iff. rewrite IH by done. rewrite orb_false_r.
    destruct (HasPrefix _ sub) eqn:E; [| done]. apply (HasPrefix_char c) in E; congruence.
Qed.

Section Codes.
Context {R : RedisServer} {RL : RedisLaws R} {K : KafkaServer} {U : UUIDSource}.

(** The answer is a status with code [c], and the server is left as it was. *)
Definition refused {A} (run : res (A + Status) * server) (s : server) (c : code) : Prop :=
  exists msg, run = (Ok (inr (MkStatus c msg)), s).

Lemma mapError_not_found a b : mapError (ErrText (a +:+ "not found" +:+ b)) = MkStatus NotFound (a +:+ "not found" +:+ b).
Proof. unfold mapError. cbn [err_msg]. by rewrite Contains_mid. Qed.

Lemma mapError_fifo q :
  has_char " "%char q = false ->
  st_Code (mapError (ErrText ("messageGroupId is required for FIFO queue " +:+ q))) = InvalidArgument.
Proof.
  intros Hq. unfold mapError. cbn [err_msg].
  replace (Contains (_ +:+ q) "not found") with false.
  2: { symmetry. rewrite !string_app_cons, string_app_nil_l. repeat rewrite Contains_step by done. by apply (Contains_char " "%char). }
  assert (H : Contains ("messageGroupId is " +:+ "required for FIFO" +:+ " queue " +:+ q) "required for FIFO" = true)
    by apply Contains_mid.
  change ("messageGroupId is " +:+ "required for FIFO" +:+ " queue " +:+ q)
    with ("messageGroupId is required for FIFO queue " +:+ q) in H.
  by rewrite H, orb_true_r.
Qed.

(** The status of the requests the service refuses: a body over the limit and a FIFO
    message without a group are the caller's mistake, an unknown queue and an unknown
    receipt handle are not found; and a refused request changes nothing. *)
Theorem refused_status d req s h t :
  calm (s_world s) ->
  let w := s_world s in
  let len := Z.of_nat (String.length (sr_MessageBody req)) in
  let q := sr_QueueName req in
  (262144 < len -> refused (SendMessage d req s) s InvalidArgument) /\
  (len <= 262144 -> hash_at (ms w) (w_redis w) (QueueMetaKey q) = Some ∅ ->
   refused (SendMessage d req s) s NotFound) /\
  (forall meta shards, len <= 262144 -> serves w q meta shards -> qm_FIFO meta = true ->
   sr_MessageGroupId req = "" -> has_char " "%char q = false ->
   refused (SendMessage d req s) s InvalidArgument) /\
  (live (ms w) (w_redis w) (InFlightKey q h) = None ->
   refused (ChangeMessageVisibility q h t s) s NotFound).
Proof.
  intros Hcalm w len q. split_and!.
  - intros Hlen. unfold SendMessage. rewrite mbind_run. unfold attempt, serve.
    rewrite (SendMessage_too_long d (MkSendInput _ _ _ _)) by done. by destruct s; eexists.
  - intros Hlen Hnone. unfold SendMessage. rewrite mbind_run. unfold attempt, serve.
    rewrite (SendMessage_unknown d (MkSendInput _ _ _ _)) by done. cbn [reply].
    replace ("queue " +:+ _ +:+ " not found") with (("queue " +:+ q +:+ " ") +:+ "not found" +:+ "")
      by (by rewrite !string_app_assoc).
    rewrite mapError_not_found. by destruct s; eexists.
  - intros meta shards Hlen Hserves Hf Hg Hq. unfold SendMessage. rewrite mbind_run. unfold attempt, serve.
    rewrite (SendMessage_ungrouped d (MkSendInput _ _ _ _) w Hcalm Hlen meta shards Hserves Hf Hg). cbn [reply].
    pose proof (mapError_fifo q Hq) as H. destruct (mapError _) as [c m]. simpl in H. subst c.
    by destruct s; exists m.
  - intros Hnone. unfold ChangeMessageVisibility, Delete.ChangeMessageVisibility, ExtendVisibility.
    rewrite mbind_run. unfold attempt, serve. rewrite !mbind_run. unfold wrap_err at 1 2.
    rewrite mbind_run. unfold wrap_err at 1.
    erewrite (rdo_calm w Hcalm); [| by rewrite law_exists, Hnone]. rewrite set_redis_id. cbn [Z.eqb mret M_ret].
    change (ErrText _) with (ErrText ("receipt handle " +:+ "not found" +:+ " or already expired")).
    unfold fail, mret, M_ret, reply. cbn iota beta. rewrite mapError_not_found. by destruct s; eexists.
Qed.
End Codes.

(** ** Typing *)

Section Typing.
Context {R : RedisServer} {RL : RedisLaws R} {K : KafkaServer} {U : UUIDSource} {CC : ConsumerClient}.

(** The keyspace of the server is typed, and so is its registry. *)
Definition server_ok (s : server) : Prop := typed (s_world s) /\ registry_ok s.

Lemma serve_ok {A} (m : M world A) : preserves typed m -> preserves server_ok (serve m).
Proof. intros Hm s [Ht Hr]. unfold serve. specialize (Hm _ Ht). by destruct (m (s_world s)). Qed.

Lemma batch_ok {E A} (call : E -> M world A) id mid entries resp :
  (forall e, preserves typed (call e)) -> preserves server_ok (batch_loop call id mid entries resp).
Proof.
  intros Hc. revert resp. induction entries as [|e rest IH]; intros resp; cbn [batch_loop]; repeat pres_step; try done.
  by apply serve_ok.
Qed.

Lemma Get_ok brokers q : preserves server_ok (Get brokers q).
Proof.
  intros s [Ht Hr]. split.
  - unfold Get. rewrite mbind_run. unfold serve.
    pose proof (typed_ConsumableShards q (s_world s) Ht) as H.
    destruct (ConsumableShards q (s_world s)) as [[[|sh l]|e] w]; try done.
    rewrite mbind_run. cbn [gets]. simpl in H. destruct (s_consumers _ !! q); [done |].
    by destruct (NewConsumer _ _ _).
  - unfold Get. rewrite mbind_run. unfold serve.
    destruct (ConsumableShards q (s_world s)) as [[[|sh l]|e] w]; try done.
    rewrite mbind_run. cbn [gets s_consumers]. destruct (s_consumers s !! q) as [rc|] eqn:E.
    + set (nt := new_topics (rc_topics rc) (sh :: l)). clearbody nt.
      pose proof (Hr q rc E) as Hrc. intros q' rc' H. simpl in H.
      apply lookup_insert_Some in H as [[<- <-] | [_ H]]; [| by eapply Hr].
      destruct nt; simpl; rewrite Hrc; set_solver.
    + destruct (NewConsumer _ _ _); [done |]. intros q' rc' H. simpl in H.
      apply lookup_insert_Some in H as [[<- <-] | [_ H]]; [done | by eapply Hr].
Qed.

Lemma to_proto_ok msgs : preserves server_ok (to_proto msgs).
Proof. induction msgs; cbn [to_proto]; repeat pres_step; try done. apply serve_ok, preserves_gets. Qed.
End Typing.

(** ** Examples *)

#[export] Instance AnyConsumer : ConsumerClient := fun _ _ _ => None.

Definition orders_server : server := MkServer orders_world ∅.


Lemma refused_status_witness :
  refused (SendMessage 0 (MkSendRequest "nosuch" "x" "" "") orders_server) orders_server NotFound /\
  refused (ChangeMessageVisibility "nosuch" "rh" 30 orders_server) orders_server NotFound.
Proof.
  destruct (refused_status 0 (MkSendRequest "nosuch" "x" "" "") orders_server "rh" 30) as (_ & H1 & _ & H2);
    [reflexivity |].
  split; [apply H1; [by vm_compute | vm_decide] | apply H2; vm_compute; reflexivity].
Defined.

(** The status depends on the text of the error, and the queue's name is part of it:
    when Redis cannot be reached, the caller of a queue named "exceeds" is told that the
    request is invalid, where it is a time-out for other queues. *)
Theorem mapError_misled :
  let late q := fst (SendMessage 0 (MkSendRequest q "x" "" "")
    (MkServer (set_net [Event 0 (RequestLost ErrDeadlineExceeded)] orders_world) ∅)) in
  let code_of r := match r with Ok (inr st) => Some (st_Code st) | _ => None end in
  code_of (late "orders") = Some DeadlineExceeded /\ code_of (late "exceeds") = Some InvalidArgument.
Proof. split; vm_compute; reflexivity. Qed.
