(* ===== verification/Auth.v ===== *)
(** Authentication: [internal/auth/validator.go], [jwks.go] and
    [internal/api/interceptors/auth.go].

    JWT parsing, the JWKS cache and HTTP are libraries: parameters here, with what the
    program relies on as laws.  The interceptors are written for any handler; the state
    they run in is theirs to choose. *)

From S2P Require Import Prelude GoNum GoStr Service.
From Stdlib Require Import Ascii.

Local Open Scope Z_scope.

(** ** Tokens and key sets *)

(** [jwt.Token], of which only the registered claims matter here. *)
Record Token : Type := MkToken { tok_Issuer : string; tok_Audience : list string; tok_Subject : string }.

(** jwx: the key set type, and [jwt.Parse] with a key set, validation, an issuer and an
    audience. *)
Class JwtLibrary (W : Type) : Type := {
  key_set : Type;
  jwt_Parse : key_set -> string -> string -> string -> M W Token;
  (** the token string carries a valid signature, by a key of the set, of these claims *)
  signed : key_set -> string -> Token -> Prop
}.

Class JwtLaws {W} (J : JwtLibrary W) : Prop := {
  law_Parse ks issuer audience s w tok w' :
    jwt_Parse ks issuer audience s w = (Ok tok, w') ->
    signed ks s tok /\ tok_Issuer tok = issuer /\ audience ∈ tok_Audience tok
}.

(** ** jwks.go *)

Record DiscoveryDocument : Type := MkDiscovery { dd_Issuer : string; dd_JWKSURI : string }.

(** [strings.TrimRight(s, "/")] *)
Fixpoint TrimRightSlash (s : string) : string :=
  match s with
  | EmptyString => EmptyString
  | String c r =>
    match TrimRightSlash r with
    | EmptyString => if bool_decide (c = "/"%char) then EmptyString else String c EmptyString
    | r' => String c r'
    end
  end.

(** HTTP and JSON: whether a request can be built for a URL, the status and body of a
    GET, and the decoding of a body. *)
Class Web (W : Type) : Type := {
  http_NewRequest : string -> option error;
  http_Get : string -> M W (Z * string);
  decode_discovery : string -> res DiscoveryDocument
}.

(** The cache of jwx, keyed by URI. *)
Class JwkCache (W : Type) {J : JwtLibrary W} : Type := {
  cache_Register : string -> M W unit;
  cache_Refresh : string -> M W unit;
  cache_Get : string -> M W key_set
}.

Class KeySetProvider (W : Type) {J : JwtLibrary W} : Type := keys_Get : M W key_set.

Section Jwks.
Context {W : Type} {J : JwtLibrary W}.

Definition discovery_url (issuerURL : string) : string :=
  TrimRightSlash issuerURL +:+ "/.well-known/openid-configuration".

Definition FetchDiscoveryDocument {WB : Web W} (issuerURL : string) : M W DiscoveryDocument :=
  let url := discovery_url issuerURL in
  match http_NewRequest url with
  | Some e => fail (ErrWrap "build discovery request: " e)
  | None =>
    resp ← wrap_err ("fetch discovery document " +:+ url +:+ ": ") (http_Get url);
    if negb (fst resp =? 200) then
      fail (ErrText ("fetch discovery document " +:+ url +:+ ": status " +:+ FormatInt (fst resp)))
    else
      match decode_discovery (snd resp) with
      | Err e => fail (ErrWrap ("decode discovery document " +:+ url +:+ ": ") e)
      | Ok doc => mret doc
      end
  end.

Definition NewJWKSCache {C : JwkCache W} (jwksURI : string) : M W (KeySetProvider W) :=
  _ ← wrap_err ("register jwks cache " +:+ jwksURI +:+ ": ") (cache_Register jwksURI);
  _ ← wrap_err ("initial jwks fetch " +:+ jwksURI +:+ ": ") (cache_Refresh jwksURI);
  mret (cache_Get jwksURI : KeySetProvider W).

Definition StaticKeySet (set : key_set) : KeySetProvider W := mret set.

(** ** validator.go *)

Record Validator : Type := MkValidator { v_Issuer : string; v_Audience : string; v_Keys : KeySetProvider W }.

Definition NewValidator {WB : Web W} {C : JwkCache W} (issuerURL audience : string) : M W Validator :=
  doc ← wrap_err "new validator: " (FetchDiscoveryDocument issuerURL);
  cache ← wrap_err "new validator: " (NewJWKSCache (dd_JWKSURI doc));
  mret (MkValidator (dd_Issuer doc) audience cache).

Definition Validate (v : Validator) (tokenString : string) : M W Token :=
  set ← wrap_err "validate: fetch key set: " (v_Keys v);
  wrap_err "validate: " (jwt_Parse set (v_Issuer v) (v_Audience v) tokenString).
End Jwks.

(** ** interceptors/auth.go *)

(** A request's context: the incoming metadata, if any, under lower-case keys, and the
    claims the interceptor stores. *)
Record context : Type := MkContext {
  ctx_Metadata : option (gmap string (list string));
  ctx_Claims : option Token
}.

Definition with_claims (claims : Token) (ctx : context) : context := MkContext (ctx_Metadata ctx) (Some claims).
Definition ClaimsFromContext (ctx : context) : option Token := ctx_Claims ctx.

Class TokenValidator (W : Type) : Type := validate : string -> M W Token.

#[export] Instance Validator_TokenValidator {W} {J : JwtLibrary W} (v : Validator) : TokenValidator W := Validate v.

Definition unauthenticated (msg : string) : Status := MkStatus Unauthenticated msg.

Definition bearerToken (ctx : context) : string + Status :=
  match ctx_Metadata ctx with
  | None => inr (unauthenticated "missing metadata")
  | Some md =>
    match default [] (md !! "authorization") with
    | [] => inr (unauthenticated "missing authorization header")
    | header :: _ =>
      if negb (HasPrefix header "Bearer ") then
        inr (unauthenticated "authorization header must be a bearer token")
      else inl (TrimPrefix header "Bearer ")
    end
  end.

Section Interceptors.
Context {W : Type} (validator : TokenValidator W).

Definition UnaryServerInterceptor {Req A} (ctx : context) (req : Req)
    (handler : context -> Req -> M W (A + Status)) : M W (A + Status) :=
  match bearerToken ctx with
  | inr st => mret (inr st)
  | inl token =>
    claims ← attempt (validator token);
    match claims with
    | Err _ => mret (inr (unauthenticated "invalid token"))
    | Ok claims => handler (with_claims claims ctx) req
    end
  end.

(** A server stream is anything with a context; the authenticated one carries its own. *)
Class ServerStream (S : Type) : Type := Context_of : S -> context.

Record authenticatedStream (S : Type) : Type := MkStream { as_ServerStream : S; as_ctx : context }.

#[export] Instance authenticatedStream_stream S : ServerStream (authenticatedStream S) := as_ctx S.

Definition StreamServerInterceptor {S A} {SS : ServerStream S} (ss : S)
    (handler : authenticatedStream S -> M W (A + Status)) : M W (A + Status) :=
  match bearerToken (Context_of ss) with
  | inr st => mret (inr st)
  | inl token =>
    claims ← attempt (validator token);
    match claims with
    | Err _ => mret (inr (unauthenticated "invalid token"))
    | Ok claims => handler (MkStream S ss (with_claims claims (Context_of ss)))
    end
  end.
End Interceptors.

(** ** Properties *)

Lemma bearerToken_spec ctx token :
  bearerToken ctx = inl token <->
  exists md rest, ctx_Metadata ctx = Some md /\ md !! "authorization" = Some (("Bearer " +:+ token) :: rest).
Proof.
  unfold bearerToken. destruct (ctx_Metadata ctx) as [md|]; [| naive_solver].
  destruct (md !! "authorization") as [[|header rest]|] eqn:E; cbn [default from_option id]; [naive_solver | | naive_solver].
  destruct (HasPrefix header "Bearer ") eqn:Ep; cbn [negb].
  - apply HasPrefix_spec in Ep as [t ->]. rewrite TrimPrefix_app. split.
    + intros [= ->]. eauto.
    + intros (md' & r & [= <-] & H). rewrite E in H. by simplify_eq.
  - split; [intros H; discriminate H |]. intros (md' & r & [= <-] & H). rewrite E in H. injection H as -> ->.
    by rewrite HasPrefix_app in Ep.
Qed.

(** The outcome of an intercepted call: the handler runs, with the claims of a validated
    bearer token in its context, or it does not run at all. *)
Definition guarded {W A} (v : TokenValidator W) (ctx : context) (handler : context -> M W (A + Status))
    (w : W) (run : res (A + Status) * W) : Prop :=
  (exists token claims md rest w1,
     ctx_Metadata ctx = Some md /\ md !! "authorization" = Some (("Bearer " +:+ token) :: rest) /\
     v token w = (Ok claims, w1) /\ ClaimsFromContext (with_claims claims ctx) = Some claims /\
     run = handler (with_claims claims ctx) w1) \/
  (exists msg w1, run = (Ok (inr (unauthenticated msg)), w1) /\ (w1 = w \/ exists token, w1 = snd (v token w))).

(** C33. No call gets past the interceptors, unary or streaming, without a bearer token
    that the validator accepts: the handler then finds that token's claims in its
    context; any other call is answered as unauthenticated without the handler being
    run. *)
Theorem interceptors_guard {W} (v : TokenValidator W) {Req A S} {SS : ServerStream S}
    ctx (req : Req) (ss : S) (handler : context -> Req -> M W (A + Status))
    (stream_handler : authenticatedStream S -> M W (A + Status)) w :
  guarded v ctx (fun c => handler c req) w (UnaryServerInterceptor v ctx req handler w) /\
  guarded v (Context_of ss) (fun c => stream_handler (MkStream S ss c)) w
    (StreamServerInterceptor v ss stream_handler w).
Proof.
  assert (Hguard : forall ctx (h : context -> M W (A + Status)), guarded v ctx h w
    (match bearerToken ctx with
     | inr st => mret (inr st)
     | inl token => claims ← attempt (v token);
       match claims with Err _ => mret (inr (unauthenticated "invalid token")) | Ok claims => h (with_claims claims ctx) end
     end w)).
  { clear. intros ctx h. destruct (bearerToken ctx) as [token|st] eqn:E.
    - rewrite mbind_run. unfold attempt. destruct (v token w) as [[claims|e] w1] eqn:Ev.
      + apply bearerToken_spec in E as (md & rest & Hmd & Hh). left. by exists token, claims, md, rest, w1.
      + right. exists "invalid token", w1. split; [done |]. right. exists token. by rewrite Ev.
    - right. unfold bearerToken in E. repeat case_match; simplify_eq; eexists _, w; eauto. }
  split; [apply (Hguard ctx (fun c => handler c req)) | apply (Hguard (Context_of ss) (fun c => stream_handler (MkStream S ss c)))].
Qed.

(** What the service's validator accepts is a token signed by a key of the current key
    set, issued by the configured issuer for the configured audience; if the key set
    cannot be had, nothing is accepted. *)
Theorem Validate_spec {W} {J : JwtLibrary W} {JL : JwtLaws J} (v : Validator) s w tok w' :
  Validate v s w = (Ok tok, w') ->
  exists set w1, v_Keys v w = (Ok set, w1) /\ signed set s tok /\
    tok_Issuer tok = v_Issuer v /\ v_Audience v ∈ tok_Audience tok.
Proof.
  unfold Validate. intros (set & w1 & H1%wrap_err_ok & H2%wrap_err_ok)%mbind_ok_inv.
  exists set, w1. split; [done |]. by eapply law_Parse.
Qed.

(** ** Example: a library whose tokens are "issuer/audience/subject", signed by naming the
    key *)

#[export] Instance ToyJwt : JwtLibrary unit := {
  key_set := list string;
  jwt_Parse ks issuer audience s w :=
    match Split s "/"%char with
    | [k; i; a; sub] =>
      if decide (k ∈ ks /\ i = issuer /\ a = audience) then (Ok (MkToken i [a] sub), w)
      else (Err (ErrText "could not verify message"), w)
    | _ => (Err (ErrText "invalid JWT"), w)
    end;
  signed ks s tok := exists k a, k ∈ ks /\ Split s "/"%char = [k; tok_Issuer tok; a; tok_Subject tok]
}.

#[export] Instance ToyJwt_laws : JwtLaws ToyJwt.
Proof.
  split. intros ks issuer audience s w tok w'. simpl.
  destruct (Split s "/"%char) as [|k [|i [|a [|sub [|]]]]] eqn:E; try done.
  destruct (decide _) as [(Hk & -> & ->)|]; [| done]. intros [= <- _]. simpl.
  split_and!; [by exists k, audience | done | set_solver].
Qed.

Definition toy_validator : Validator := MkValidator "authentik" "kmsvc" (StaticKeySet ["k1"]).

Lemma Validate_spec_witness :
  exists set w1, v_Keys toy_validator tt = (Ok set, w1) /\
    signed set "k1/authentik/kmsvc/alice" (MkToken "authentik" ["kmsvc"] "alice") /\
    tok_Issuer (MkToken "authentik" ["kmsvc"] "alice") = "authentik" /\
    "kmsvc" ∈ tok_Audience (MkToken "authentik" ["kmsvc"] "alice").
Proof.
  apply (Validate_spec toy_validator "k1/authentik/kmsvc/alice" tt (MkToken "authentik" ["kmsvc"] "alice") tt).
  vm_compute. reflexivity.
Defined.
