(* ===== verification/Config.v ===== *)
(** [internal/config/config.go]: the configuration of both processes, from the environment. *)

From S2P Require Import Prelude GoNum GoStr.
From Stdlib Require Import Ascii.

Local Open Scope Z_scope.

Record Config : Type := MkConfig {
  cfg_KafkaBrokers : list string;
  cfg_RedisAddr : string;
  cfg_RedisPassword : string;
  cfg_RedisDB : Z;
  cfg_AuthentikIssuerURL : string;
  cfg_AuthentikAudience : string;
  cfg_GRPCListenAddr : string;
  cfg_HTTPListenAddr : string;
  cfg_MaxMessageBodyBytes : Z;
  cfg_DedupWindowSeconds : Z
}.

(** [os.Getenv] *)
Definition Getenv (env : gmap string string) (key : string) : string := default "" (env !! key).

Definition getEnv (env : gmap string string) (key def : string) : string :=
  let v := Getenv env key in if bool_decide (v = "") then def else v.

Fixpoint keep_nonempty (parts : list string) : list string :=
  match parts with
  | [] => []
  | p :: parts =>
    let p := TrimSpace p in
    if bool_decide (p = "") then keep_nonempty parts else p :: keep_nonempty parts
  end.

Definition splitCSV (s : string) : list string := keep_nonempty (Split s ","%char).

(** The error of [strconv.Atoi]. *)
Definition atoi_error (v : string) (e : num_error) : error :=
  ErrText ("strconv.Atoi: parsing " +:+ quote v +:+ ": " +:+ num_error_msg e).

Definition Load (env : gmap string string) : res Config :=
  let cfg db :=
    {| cfg_KafkaBrokers := splitCSV (getEnv env "KMSVC_KAFKA_BROKERS" "localhost:9092");
       cfg_RedisAddr := getEnv env "KMSVC_REDIS_ADDR" "localhost:6379";
       cfg_RedisPassword := Getenv env "KMSVC_REDIS_PASSWORD";
       cfg_RedisDB := db;
       cfg_AuthentikIssuerURL := Getenv env "KMSVC_AUTHENTIK_ISSUER_URL";
       cfg_AuthentikAudience := Getenv env "KMSVC_AUTHENTIK_AUDIENCE";
       cfg_GRPCListenAddr := getEnv env "KMSVC_GRPC_LISTEN_ADDR" ":9090";
       cfg_HTTPListenAddr := getEnv env "KMSVC_HTTP_LISTEN_ADDR" ":8080";
       cfg_MaxMessageBodyBytes := 256 * 1024;
       cfg_DedupWindowSeconds := 300 |} in
  let v := Getenv env "KMSVC_REDIS_DB" in
  if bool_decide (v = "") then Ok (cfg 0)
  else
    match ParseInt v 64 with
    | (n, None) => Ok (cfg n)
    | (_, Some e) => Err (ErrWrap "invalid KMSVC_REDIS_DB: " (atoi_error v e))
    end.

(** ** Properties *)

Lemma TrimLeftSpace_head s c r : TrimLeftSpace s = String c r -> is_space c = false.
Proof.
  induction s as [|d s IH]; [done |]. cbn [TrimLeftSpace]. destruct (is_space d) eqn:E; [done |].
  intros [= -> _]. done.
Qed.

Lemma TrimRightSpace_cons c r : is_space c = false -> exists r', TrimRightSpace (String c r) = String c r'.
Proof. intros Hc. cbn [TrimRightSpace]. destruct (TrimRightSpace r); rewrite ?Hc; eauto. Qed.

(** Trimmed text: neither end is a space. *)
Definition trimmed (s : string) : Prop :=
  match s with EmptyString => True | String c _ => is_space c = false end /\ TrimRightSpace s = s.

Lemma TrimRightSpace_idem s : TrimRightSpace (TrimRightSpace s) = TrimRightSpace s.
Proof.
  induction s as [|c r IH]; [done |]. cbn [TrimRightSpace]. destruct (TrimRightSpace r) as [|d r'] eqn:E.
  - destruct (is_space c) eqn:Ec; [done |]. cbn [TrimRightSpace]. by rewrite Ec.
  - cbn [TrimRightSpace] in *. by rewrite IH.
Qed.

Lemma TrimSpace_trimmed s : trimmed (TrimSpace s).
Proof.
  unfold trimmed, TrimSpace. split; [| apply TrimRightSpace_idem].
  destruct (TrimLeftSpace s) as [|c r] eqn:E; [done |]. apply TrimLeftSpace_head in E.
  by destruct (TrimRightSpace_cons c r E) as [r' ->].
Qed.

Lemma TrimLeftSpace_trimmed s : trimmed s -> TrimLeftSpace s = s.
Proof. intros [H _]. destruct s as [|c r]; [done |]. cbn [TrimLeftSpace]. by rewrite H. Qed.

Lemma TrimSpace_id s : trimmed s -> TrimSpace s = s.
Proof. intros H. unfold TrimSpace. rewrite TrimLeftSpace_trimmed by done. apply H. Qed.

(** Lists of items joined by commas. *)
Fixpoint join_comma (items : list string) : string :=
  match items with
  | [] => ""
  | [x] => x
  | x :: rest => x +:+ String "," (join_comma rest)
  end.

Lemma Split_no_sep s sep : has_char sep s = false -> Split s sep = [s].
Proof.
  induction s as [|c s IH]; [done |]. cbn [has_char Split]. intros [Hc Hs]%orb_false_iff.
  rewrite IH by done. by rewrite bool_decide_eq_false_2 by (intros ->; by rewrite bool_decide_eq_true_2 in Hc).
Qed.

Lemma Split_app_sep a sep rest :
  has_char sep a = false -> Split (a +:+ String sep rest) sep = a :: Split rest sep.
Proof.
  induction a as [|c a IH]; cbn [has_char].
  - intros _. rewrite string_app_nil_l. cbn [Split]. pose proof (Split_nonempty rest sep).
    destruct (Split rest sep) as [|p ps]; [done |]. by rewrite bool_decide_eq_true_2.
  - intros [Hc Ha]%orb_false_iff. rewrite string_app_cons. cbn [Split]. rewrite IH by done.
    by rewrite bool_decide_eq_false_2 by (intros ->; by rewrite bool_decide_eq_true_2 in Hc).
Qed.

Lemma Split_join items :
  items <> [] -> Forall (fun x => has_char ","%char x = false) items -> Split (join_comma items) ","%char = items.
Proof.
  induction items as [|x [|y rest] IH]; [done | |]; intros _ HF; apply Forall_cons in HF as [Hx HF].
  - by apply Split_no_sep.
  - change (join_comma (x :: y :: rest)) with (x +:+ String "," (join_comma (y :: rest))).
    rewrite Split_app_sep by done. f_equal. by apply IH.
Qed.

(** A broker list: what it is split into has no empty and no padded items; and a
    list of trimmed, non-empty items without commas, joined by commas, with any padding
    around the items, is read back as it was. *)
Theorem splitCSV_join items :
  (forall s, Forall (fun x => x <> "" /\ trimmed x) (splitCSV s)) /\
  (items <> [] -> Forall (fun x => x <> "" /\ trimmed x /\ has_char ","%char x = false) items ->
   splitCSV (join_comma items) = items /\
   forall padded, Forall2 (fun x p => TrimSpace p = x /\ has_char ","%char p = false) items padded ->
     splitCSV (join_comma padded) = items).
Proof.
  assert (Hkeep : forall xs ps, Forall2 (fun x p => TrimSpace p = x /\ x <> "") xs ps -> keep_nonempty ps = xs).
  { intros xs ps. induction 1 as [|x p xs ps [Ht Hne] _ IH]; [done |]. cbn [keep_nonempty].
    rewrite Ht, bool_decide_eq_false_2, IH by done. done. }
  split.
  - intros s. unfold splitCSV. induction (Split s ","%char) as [|p ps IH]; [constructor |]. cbn [keep_nonempty].
    case_bool_decide as Hp; [done |]. constructor; [| done]. split; [done | apply TrimSpace_trimmed].
  - intros Hne HF.
    assert (Hpad : forall padded, Forall2 (fun x p => TrimSpace p = x /\ has_char ","%char p = false) items padded ->
      splitCSV (join_comma padded) = items).
    { intros padded Hp. unfold splitCSV. rewrite Split_join.
      - apply Hkeep. clear Hne Hkeep. induction Hp as [|x p xs ps [Ht Hc] _ IH]; [constructor |].
        apply Forall_cons in HF as [(Hx & _ & _) HF]. constructor; [done | by apply IH].
      - by intros ->; apply Forall2_nil_inv_r in Hp.
      - clear - Hp. induction Hp as [|x p xs ps [_ Hc] _ IH]; by constructor. }
    split; [| done]. apply Hpad. clear - HF. induction items as [|x items IH]; [constructor |].
    apply Forall_cons in HF as [(_ & Ht & Hc) HF]. constructor; [split; [by apply TrimSpace_id | done] | by apply IH].
Qed.

Lemma splitCSV_join_witness :
  splitCSV "k1:9092,k2:9092" = ["k1:9092"; "k2:9092"] /\ splitCSV " k1:9092 , k2:9092" = ["k1:9092"; "k2:9092"].
Proof.
  destruct (splitCSV_join ["k1:9092"; "k2:9092"]) as [_ H].
  destruct H as [H1 H2]; [done | repeat constructor; by vm_compute |].
  split; [exact H1 | apply (H2 [" k1:9092 "; " k2:9092"]); repeat constructor; by vm_compute].
Defined.

(** Loading fails only for a database number that is not a 64-bit integer; otherwise
    every setting is the variable's value or its default, whatever else is in the
    environment. *)
Theorem Load_spec env :
  match Load env with
  | Ok cfg =>
    (Getenv env "KMSVC_REDIS_DB" = "" /\ cfg_RedisDB cfg = 0 \/
     Atoi (Getenv env "KMSVC_REDIS_DB") = Some (cfg_RedisDB cfg)) /\
    cfg_RedisAddr cfg = getEnv env "KMSVC_REDIS_ADDR" "localhost:6379" /\
    (Getenv env "KMSVC_KAFKA_BROKERS" = "" -> cfg_KafkaBrokers cfg = ["localhost:9092"]) /\
    cfg_DedupWindowSeconds cfg = 300
  | Err _ => Getenv env "KMSVC_REDIS_DB" <> "" /\ Atoi (Getenv env "KMSVC_REDIS_DB") = None
  end.
Proof.
  unfold Load, Atoi. cbv zeta.
  assert (Hb : Getenv env "KMSVC_KAFKA_BROKERS" = "" ->
    splitCSV (getEnv env "KMSVC_KAFKA_BROKERS" "localhost:9092") = ["localhost:9092"]).
  { intros H. unfold getEnv. rewrite H. cbv zeta. by rewrite bool_decide_eq_true_2 by done. }
  case_bool_decide as Hdb; [split_and!; [by left | done | exact Hb | done] |].
  destruct (ParseInt _ 64) as [n [e|]]; [done |]. split_and!; [by right | done | exact Hb | done].
Qed.
