(* ===== verification/Server.v ===== *)
(** [cmd/server/main.go]: the discovery of queues to sweep, and the whole system: the
    server's requests and reapers, the operator's reconciles and the drift of the
    environment, in any order. *)

From S2P Require Import Prelude GoNum GoStr Topology Json Keys Redis World Schema Store Scripts Send Receive Delete.
From S2P Require Import Sweep Admin Kube Shards Zones Temporal Worker Reconcile Service.

Local Open Scope Z_scope.

(** ** runReaperDiscovery *)

Definition queueDiscoveryInterval : Z := 10 * Second.

(** The loop over the names: which are new, in the order they are started. *)
Fixpoint start_new (started : gset string) (names : list string) : gset string * list string :=
  match names with
  | [] => (started, [])
  | name :: rest =>
    if decide (name ∈ started) then start_new started rest
    else let '(started', new) := start_new ({[name]} ∪ started) rest in (started', name :: new)
  end.

Section Discovery.
Context {R : RedisServer}.

(** [discover]: a failed scan is logged and starts nothing. *)
Definition discover (started : gset string) : M world (gset string * list string) :=
  names ← attempt ListQueueNames;
  match names with
  | Err _ => mret (started, [])
  | Ok names => mret (start_new started names)
  end.

(** Every scan of the process so far: the queues with a reaper, and the reapers in the
    order they were started.  Between two scans the world changes at will. *)
Inductive discovery_run : gset string -> list string -> Prop :=
| discovery_start : discovery_run ∅ []
| discovery_tick started reapers w started' new :
    discovery_run started reapers -> fst (discover started w) = Ok (started', new) ->
    discovery_run started' (reapers ++ new).

Lemma start_new_spec started names :
  fst (start_new started names) = list_to_set names ∪ started /\
  NoDup (snd (start_new started names)) /\
  (forall q, q ∈ snd (start_new started names) <-> q ∈ names /\ q ∉ started).
Proof.
  revert started. induction names as [|name rest IH]; intros started; cbn [start_new].
  { split_and!; simpl; [set_solver | constructor | set_solver]. }
  case_decide as Hin.
  - destruct (IH started) as (H1 & H2 & H3). split_and!; [set_solver | done |]. intros q. rewrite H3. set_solver.
  - destruct (IH ({[name]} ∪ started)) as (H1 & H2 & H3).
    destruct (start_new ({[name]} ∪ started) rest) as [st new]. simpl in *. split_and!.
    + set_solver.
    + constructor; [rewrite H3; set_solver | done].
    + intros q. rewrite elem_of_cons, H3. destruct (decide (q = name)); set_solver.
Qed.

(** One scan: what it starts, and what it found if it succeeded. *)
Lemma discover_new started w started' new :
  fst (discover started w) = Ok (started', new) ->
  started' = list_to_set new ∪ started /\ NoDup new /\ (forall q, q ∈ new -> q ∉ started) /\
  (forall names, fst (ListQueueNames w) = Ok names -> list_to_set names ⊆ started').
Proof.
  unfold discover. rewrite mbind_run. unfold attempt. destruct (ListQueueNames w) as [[names|e] w1].
  - intros [= H]. destruct (start_new_spec started names) as (H1 & H2 & H3). rewrite H in H1, H2, H3. simpl in *.
    split_and!; [| done | set_solver | intros names' [= <-]; set_solver].
    rewrite H1. apply set_eq. intros q. specialize (H3 q). set_unfold.
    destruct (decide (q ∈ started)); naive_solver.
  - intros [= <- <-]. split_and!; [set_solver | constructor | set_solver | done].
Qed.

Lemma discovery_run_inv started reapers :
  discovery_run started reapers -> NoDup reapers /\ started = list_to_set reapers.
Proof.
  induction 1 as [|started reapers w started' new _ [Hnd Hst] Hw]; [split; [constructor | done] |].
  destruct (discover_new started w started' new Hw) as (-> & Hn & Hdis & _). split.
  - apply NoDup_app. split_and!; [done | set_solver | done].
  - rewrite list_to_set_app_L, Hst. set_solver.
Qed.

Context {RL : RedisLaws R}.

(** C29. A process never runs two reapers for one queue, however often it scans and
    whatever the scans return; reapers are only ever added, and after a scan that
    succeeds every queue with a live metadata row has one. *)
Theorem discovery_run_spec started reapers w started' new :
  discovery_run started reapers -> fst (discover started w) = Ok (started', new) ->
  NoDup (reapers ++ new) /\ started' = list_to_set (reapers ++ new) /\
  forall names w1, ListQueueNames w = (Ok names, w1) ->
    forall q, is_Some (live (ms w1) (w_redis w) (QueueMetaKey q)) -> q ∈ reapers ++ new.
Proof.
  intros Hd Hw. destruct (discovery_run_inv _ _ (discovery_tick _ _ _ _ _ Hd Hw)) as [Hnd Hst].
  split_and!; [done | done |]. intros names w1 Hl q Hq.
  destruct (discover_new started w started' new Hw) as (_ & _ & _ & Hall).
  specialize (Hall names). rewrite Hl in Hall. specialize (Hall eq_refl).
  apply ListQueueNames_ok in Hl as [_ Hl]. apply Hl in Hq. rewrite Hst in Hall. set_solver.
Qed.
End Discovery.

(** ** The operator keeps the keyspace typed *)

Definition otyped (o : oworld) : Prop := typed (o_world o).

Section OperatorTyping.
Context {RS : RedisServer} {RL : RedisLaws RS} {KS : KubeServer} {CU : ControllerUtil}.
Context {TA : TopicAdmin} {TL : TopicAdminLaws TA} {RG : Registerer} {GL : RegistererLaws RG} {KL : KubeLaws KS}.

Lemma otyped_redis {A} (m : M oworld A) : (forall ks, preserves (redis_is ks) m) -> preserves otyped m.
Proof.
  intros Hm o Ho. unfold otyped, typed in *. pose proof (Hm _ o eq_refl) as H. unfold redis_is in H. by rewrite H.
Qed.

Lemma otyped_kube {A} (c : M cluster A) : preserves otyped (kube c).
Proof.
  apply otyped_redis. intros ks. apply preserves_kube; [done | done |]. intros o Ho.
  by destruct (c (o_kube o)).
Qed.

Lemma otyped_lift {A} (m : M world A) : preserves typed m -> preserves otyped (lift m).
Proof. apply (preserves_lift typed). Qed.

Lemma otyped_topics {A} (m : M oworld A) : (forall P, topic_safe P -> preserves P m) -> preserves otyped m.
Proof. intros H. apply otyped_redis. intros ks. apply H, topic_safe_redis. Qed.

Lemma otyped_worker {A} (m : M oworld A) : (forall P, worker_safe P -> preserves P m) -> preserves otyped m.
Proof. intros H. apply otyped_redis. intros ks. apply H, worker_safe_redis. Qed.

Lemma otyped_or_failed {A} q reason (m : M oworld A) rest :
  preserves otyped m -> (forall a, preserves otyped (rest a)) -> preserves otyped (or_failed q reason m rest).
Proof.
  intros Hm Hr. unfold or_failed, setFailed. repeat pres_step; [done | apply Hr | apply otyped_kube].
Qed.

Lemma otyped_Reconcile z ns name : preserves otyped (Reconcile.Reconcile z ns name).
Proof.
  unfold Reconcile.Reconcile, Reconcile.reconcileDelete, reconcile_shards, ensure_finalizer, setFailed.
  repeat first [pres_step | apply otyped_kube | apply otyped_or_failed].
  - apply otyped_topics. intros P HP. by apply frame_delete_topics.
  - apply otyped_lift, typed_DeleteQueueMeta.
  - apply otyped_lift, typed_DeleteShardMap.
  - apply otyped_worker. intros P HP. by apply frame_worker_deletion.
  - apply otyped_redis. intros ks. apply frame_first_shard.
  - apply otyped_topics. intros P HP. by apply frame_ensure_topics.
  - apply otyped_topics. intros P [HP _]. by apply frame_annotate.
  - apply otyped_topics. intros P [HP _]. by apply frame_splits.
  - apply otyped_topics. intros P HP. by apply frame_drains.
  - unfold publishRedisState. repeat pres_step; apply otyped_lift; [apply typed_PutQueueMeta | apply typed_PutShardMap].
  - apply otyped_worker. intros P HP. by apply frame_temporal.
Qed.

Lemma otyped_Worker ns name : preserves otyped (Worker.Reconcile ns name).
Proof.
  unfold Worker.Reconcile, Worker.reconcileDelete, ensure_worker_finalizer.
  repeat first [pres_step | apply otyped_kube].
Qed.
End OperatorTyping.

(** ** The system *)

(** Redis, Kafka and the clock are shared by the server and the operator; the rest is
    theirs. *)
Record system : Type := MkSystem { y_operator : oworld; y_consumers : gmap string registeredConsumer }.

Definition server_of (y : system) : server := MkServer (o_world (y_operator y)) (y_consumers y).
Definition set_server (s : server) (y : system) : system :=
  MkSystem (set_world (s_world s) (y_operator y)) (s_consumers s).
Definition set_operator (o : oworld) (y : system) : system := MkSystem o (y_consumers y).

(** What the two processes can be asked to do. *)
Inductive task : Type :=
| TaskSend (window : Z) (req : SendMessageRequest)
| TaskSendBatch (window : Z) (q : string) (entries : list SendEntry)
| TaskReceive (interval : Z) (brokers : list string) (req : ReceiveMessageRequest)
| TaskDelete (committer : bool) (q h : string)
| TaskDeleteBatch (committer : bool) (q : string) (entries : list DeleteEntry)
| TaskChangeVisibility (q h : string) (timeout : Z)
| TaskSweep (sender : bool) (q : string)
| TaskReconcileQueue (z : option ZoneLocator) (ns name : string)
| TaskReconcileWorker (ns name : string).

Section System.
Context {RS : RedisServer} {K : KafkaServer} {U : UUIDSource} {CC : ConsumerClient}.
Context {KS : KubeServer} {CU : ControllerUtil} {TA : TopicAdmin} {RG : Registerer}.

Definition by_server {A} (m : M server A) (y : system) : system := set_server (snd (m (server_of y))) y.
Definition by_operator {A} (m : M oworld A) (y : system) : system := set_operator (snd (m (y_operator y))) y.

Definition perform (t : task) : system -> system :=
  match t with
  | TaskSend d req => by_server (Service.SendMessage d req)
  | TaskSendBatch d q es => by_server (SendMessageBatch d q es)
  | TaskReceive i bs req => by_server (Service.ReceiveMessage i bs req)
  | TaskDelete c q h => by_server (Service.DeleteMessage c q h)
  | TaskDeleteBatch c q es => by_server (DeleteMessageBatch c q es)
  | TaskChangeVisibility q h t => by_server (Service.ChangeMessageVisibility q h t)
  | TaskSweep b q => by_server (serve (Sweep b q))
  | TaskReconcileQueue z ns name => by_operator (Reconcile.Reconcile z ns name)
  | TaskReconcileWorker ns name => by_operator (Worker.Reconcile ns name)
  end.

(** A task is performed, or everything outside Redis and the registry drifts: time
    passes, keys of Redis expire, brokers and the cluster change, the network decides. *)
Inductive system_step : system -> system -> Prop :=
| step_task t y : system_step y (perform t y)
| step_drift y y' :
    w_redis (o_world (y_operator y')) ⊆ w_redis (o_world (y_operator y)) -> y_consumers y' = y_consumers y ->
    system_step y y'.

Context {RL : RedisLaws RS} {KL : KubeLaws KS} {TL : TopicAdminLaws TA} {GL : RegistererLaws RG}.

Definition system_ok (y : system) : Prop := server_ok (server_of y).

Lemma by_server_ok {A} (m : M server A) y : preserves server_ok m -> system_ok y -> system_ok (by_server m y).
Proof. intros Hm Hy. unfold system_ok, by_server. by apply (Hm (server_of y)) in Hy; destruct (snd (m _)). Qed.

Lemma by_operator_ok {A} (m : M oworld A) y : preserves otyped m -> system_ok y -> system_ok (by_operator m y).
Proof. intros Hm [Ht Hr]. split; [by apply (Hm (y_operator y)) | done]. Qed.

Lemma perform_ok t y : system_ok y -> system_ok (perform t y).
Proof.
  destruct t; simpl; first [apply by_server_ok | apply by_operator_ok];
    [| | | | | | | apply otyped_Reconcile | apply otyped_Worker].
  - unfold Service.SendMessage. repeat pres_step. apply serve_ok, typed_SendMessage.
  - unfold SendMessageBatch. repeat pres_step. apply batch_ok. intros e. apply typed_SendMessage.
  - unfold Service.ReceiveMessage, receive. repeat pres_step.
    + apply Get_ok.
    + apply serve_ok, typed_ReceiveMessage.
    + apply to_proto_ok.
  - unfold Service.DeleteMessage. repeat pres_step. apply serve_ok, typed_DeleteMessage.
  - unfold DeleteMessageBatch. repeat pres_step. apply batch_ok. intros e. apply typed_DeleteMessage.
  - unfold Service.ChangeMessageVisibility. repeat pres_step. apply serve_ok, typed_ChangeMessageVisibility.
  - apply serve_ok, typed_Sweep.
Qed.

End System.

Definition day_one : system :=
  MkSystem (queue_world mail) ∅.


(** Two scans of the keyspace that holds one queue: the second starts nothing. *)
Lemma discovery_run_spec_witness :
  fst (discover ∅ orders_world) = Ok ({["orders"]}, ["orders"]) /\
  fst (discover {["orders"]} orders_world) = Ok ({["orders"]}, []) /\
  (NoDup (["orders"] ++ ([] : list string))).
Proof.
  assert (H1 : fst (discover ∅ orders_world) = Ok ({["orders"]}, ["orders"])) by vm_decide.
  assert (H2 : fst (discover {["orders"]} orders_world) = Ok ({["orders"]}, [])) by vm_decide.
  split; [exact H1 |]. split; [exact H2 |].
  apply (discovery_run_spec {["orders"]} ["orders"] orders_world {["orders"]} []); [| exact H2].
  apply (discovery_tick ∅ [] orders_world {["orders"]} ["orders"] discovery_start H1).
Defined.
