(* ===== verification/Startup.v ===== *)
(** Starting and stopping the two processes: [cmd/server/main.go]'s [run],
    [cmd/queue-operator/main.go]'s [main], and the construction of their clients
    ([NewAdmin], [NewProducer], the clients of [internal/kafka/client.go],
    [internal/redis/client.go] and [internal/temporal/client.go]).

    What the libraries answer is a parameter.  A process leaves a trace of what it opened,
    started, joined and closed; [defer] is [deferred]. *)

From S2P Require Import Prelude GoNum GoStr Topology Json Keys Redis World Schema Store Scripts Send Receive Delete.
From S2P Require Import Sweep Admin Kube Shards Zones Temporal Worker Reconcile Config Server.

Local Open Scope Z_scope.

(** ** The libraries *)

(** kgo's options, as far as the program uses them. *)
Inductive kgo_opt : Type :=
| SeedBrokers (brokers : list string)
| ManualPartitioner
| SnappyCompression
| InConsumerGroup (group : string)
| ConsumeTopics (topics : list string)
| DisableAutoCommit.

Record redis_options : Type := MkRedisOptions { ro_Addr : string; ro_Password : string; ro_DB : Z }.

Inductive scheme_part : Type := ClientGoScheme | KmsvcScheme | AppsScheme.
Inductive controller : Type := QueueController | TemporalWorkerController.

(** The error each call answers with, if it fails. *)
Class Libraries : Type := {
  kgo_NewClient : list kgo_opt -> option error;
  redis_Ping : redis_options -> option error;
  grpc_NewClient : string -> option error;
  gateway_Register : option error;
  net_Listen : string -> option error;
  grpc_Serve : option error;
  http_ListenAndServe : string -> option error;
  is_ErrServerClosed : error -> bool;
  scheme_Add : scheme_part -> option error;
  ctrl_NewManager : option error;
  ctrl_Complete : controller -> option error;
  mgr_Start : option error
}.

(** ** What a process does *)

Inductive resource : Type :=
| RSignals | RRedis (opts : redis_options) | RAdmin | RProducer | RConsumers | RTemporal | RShutdownTimer.

Inductive routine : Type := GDiscovery | GGRPC | GHTTP.

Inductive event : Type :=
| Opened (r : resource)
| Closed (r : resource)
| Started (g : routine)
| Interrupted                     (* ctx.Done() *)
| ShutDown (g : routine)
| Joined (g : routine).

#[export] Instance redis_options_eq_dec : EqDecision redis_options.
Proof. solve_decision. Defined.
#[export] Instance resource_eq_dec : EqDecision resource.
Proof. solve_decision. Defined.
#[export] Instance routine_eq_dec : EqDecision routine.
Proof. solve_decision. Defined.
#[export] Instance event_eq_dec : EqDecision event.
Proof. solve_decision. Defined.

Notation trace := (list event).

Definition emit (e : event) : M trace unit := fun tr => (Ok tt, tr ++ [e]).

Definition lift_err (o : option error) : M trace unit := fun tr =>
  (match o with Some e => Err e | None => Ok tt end, tr).

(** [defer fin(); m]: [fin] runs on every way out. *)
Definition deferred {A} (fin : event) (m : M trace A) : M trace A := fun tr =>
  let '(r, tr') := m tr in (r, tr' ++ [fin]).

Section Clients.
Context {L : Libraries}.

(** *** Clients *)

Definition NewAdmin (brokers : list string) : option error :=
  ErrWrap "creating kafka client: " <$> kgo_NewClient [SeedBrokers brokers].

Definition NewProducer (brokers : list string) : option error :=
  ErrWrap "creating kafka producer client: " <$> kgo_NewClient [SeedBrokers brokers; ManualPartitioner].

Definition NewProducerClient (brokers : list string) : option error :=
  ErrWrap "creating kafka producer client: " <$> kgo_NewClient [SeedBrokers brokers; SnappyCompression].

Definition consumer_options (brokers : list string) (group : string) (topics : list string) : list kgo_opt :=
  [SeedBrokers brokers; InConsumerGroup group; ConsumeTopics topics; DisableAutoCommit].

Definition NewConsumerClient (brokers : list string) (consumerGroup : string) (topics : list string) : option error :=
  ErrWrap "creating kafka consumer client: " <$> kgo_NewClient (consumer_options brokers consumerGroup topics).

(** [redis.NewClient] *)
Definition redis_NewClient (addr password : string) (db : Z) : redis_options := MkRedisOptions addr password db.

(** [temporal.NewClient] *)
Definition temporal_NewClient (address : string) : option error :=
  ErrWrap ("dial temporal frontend " +:+ address +:+ ": ") <$> grpc_NewClient address.

(** ** The server *)

(** What the services and the reaper are built with; the committer and the dead-letter
    sender are there. *)
Record services : Type := MkServices {
  sv_DedupWindow : Z;
  sv_Brokers : list string;
  sv_Committer : bool;
  sv_DLQSender : bool
}.

Definition wire (cfg : Config) : services :=
  {| sv_DedupWindow := cfg_DedupWindowSeconds cfg * Second; sv_Brokers := cfg_KafkaBrokers cfg;
     sv_Committer := true; sv_DLQSender := true |}.

(** The lines the two serving goroutines log. *)
Definition grpc_goroutine (addr : string) : list string :=
  match net_Listen addr with
  | Some e => ["grpc listen " +:+ addr +:+ ": " +:+ err_msg e]
  | None =>
    ("grpc listening on " +:+ addr) ::
    match grpc_Serve with Some e => ["grpc serve: " +:+ err_msg e] | None => [] end
  end.

Definition http_goroutine (addr : string) : list string :=
  ("http listening on " +:+ addr) ::
  match http_ListenAndServe addr with
  | Some e => if is_ErrServerClosed e then [] else ["http serve: " +:+ err_msg e]
  | None => []
  end.

(** From the started goroutines to the return: the signal, the shutdowns, [wg.Wait]. *)
Definition serve_until_done : M trace unit :=
  _ ← emit (Started GDiscovery);
  _ ← emit (Started GGRPC);
  _ ← emit (Started GHTTP);
  _ ← emit Interrupted;
  _ ← emit (Opened RShutdownTimer);
  deferred (Closed RShutdownTimer) (
    _ ← emit (ShutDown GHTTP);
    _ ← emit (ShutDown GGRPC);
    _ ← emit (Joined GGRPC);
    emit (Joined GHTTP)).

Definition run (env : gmap string string) : M trace services :=
  _ ← emit (Opened RSignals);
  deferred (Closed RSignals) (
    cfg ← (fun tr => (Load env, tr));
    let rdb := redis_NewClient (cfg_RedisAddr cfg) (cfg_RedisPassword cfg) (cfg_RedisDB cfg) in
    _ ← emit (Opened (RRedis rdb));
    deferred (Closed (RRedis rdb)) (
      _ ← lift_err (NewAdmin (cfg_KafkaBrokers cfg));
      _ ← emit (Opened RAdmin);
      deferred (Closed RAdmin) (
        _ ← lift_err (NewProducer (cfg_KafkaBrokers cfg));
        _ ← emit (Opened RProducer);
        deferred (Closed RProducer) (
          let svc := wire cfg in
          _ ← emit (Opened RConsumers);
          deferred (Closed RConsumers) (
            _ ← lift_err gateway_Register;
            _ ← serve_until_done;
            mret svc))))).

(** [main]: what is written before the exit status 1. *)
Definition server_main (env : gmap string string) : option string * trace :=
  match run env [] with
  | (Err e, tr) => (Some ("kmsvc-server: " +:+ err_msg e), tr)
  | (Ok _, tr) => (None, tr)
  end.

(** ** The operator *)

Record operator_settings : Type := MkOperatorSettings {
  os_Brokers : list string;
  os_Redis : redis_options;
  os_TemporalAddress : string;
  os_Zones : ZoneLocator
}.

(** The environment as the operator reads it; [exitf]'s text if it cannot. *)
Definition operator_env (env : gmap string string) : operator_settings + string :=
  let brokers := splitCSV (getEnv env "KMSVC_KAFKA_BROKERS" "localhost:9092") in
  let redisAddr := getEnv env "KMSVC_REDIS_ADDR" "localhost:6379" in
  let redisPassword := Getenv env "KMSVC_REDIS_PASSWORD" in
  let settings redisDB :=
    {| os_Brokers := brokers;
       os_Redis := MkRedisOptions redisAddr redisPassword redisDB;
       os_TemporalAddress := getEnv env "KMSVC_TEMPORAL_FRONTEND_ADDRESS"
                               "temporal-frontend.temporal.svc.cluster.local:7233";
       os_Zones := MkZoneLocator (getEnv env "KMSVC_NAMESPACE" "sqs") (getEnv env "KMSVC_KAFKA_CLUSTER_NAME" "kmsvc")
                     (getEnv env "KMSVC_KAFKA_POOL_NAME" "kmsvc-pool") |} in
  let v := Getenv env "KMSVC_REDIS_DB" in
  if bool_decide (v = "") then inl (settings 0)
  else
    match ParseInt v 64 with
    | (n, None) => inl (settings n)
    | (_, Some e) => inr ("invalid KMSVC_REDIS_DB: " +:+ err_msg (atoi_error v e))
    end.

(** [if err != nil { exitf(text, err) }] *)
Definition or_exit (text : string) (o : option error) : M trace unit :=
  lift_err ((fun e => ErrText (text +:+ err_msg e)) <$> o).

Definition operator_main (env : gmap string string) : M trace operator_settings :=
  match operator_env env with
  | inr text => fail (ErrText text)
  | inl settings =>
    _ ← or_exit "registering client-go scheme: " (scheme_Add ClientGoScheme);
    _ ← or_exit "registering kmsvc scheme: " (scheme_Add KmsvcScheme);
    _ ← or_exit "registering apps scheme: " (scheme_Add AppsScheme);
    _ ← or_exit "creating manager: " ctrl_NewManager;
    _ ← or_exit "creating kafka admin: " (NewAdmin (os_Brokers settings));
    _ ← emit (Opened RAdmin);
    _ ← emit (Opened (RRedis (os_Redis settings)));
    _ ← or_exit ("connecting to redis at " +:+ ro_Addr (os_Redis settings) +:+ ": ") (redis_Ping (os_Redis settings));
    _ ← or_exit "creating temporal client: " (temporal_NewClient (os_TemporalAddress settings));
    _ ← emit (Opened RTemporal);
    _ ← or_exit "setting up queue controller: " (ctrl_Complete QueueController);
    _ ← or_exit "setting up temporal worker controller: " (ctrl_Complete TemporalWorkerController);
    _ ← or_exit "running manager: " mgr_Start;
    mret settings
  end.
End Clients.

(** The functions the two controllers call. *)
Section Controllers.
Context {RS : RedisServer} {KS : KubeServer} {CU : ControllerUtil} {TA : TopicAdmin} {RG : Registerer}.

Definition reconcile_queue_request (settings : operator_settings) (ns name : string) : M oworld unit :=
  Reconcile.Reconcile (Some (os_Zones settings)) ns name.

Definition reconcile_worker_request (ns name : string) : M oworld unit :=
  wrap_err ("reconcile TemporalWorker " +:+ ns +:+ "/" +:+ name +:+ ": ") (Worker.Reconcile ns name).
End Controllers.

(** ** Properties *)

(** What is open after a trace, the last opened first; [None] if something was closed that
    was not the last opened. *)
Fixpoint still_open (open : list resource) (tr : trace) : option (list resource) :=
  match tr with
  | [] => Some open
  | Opened r :: tr => still_open (r :: open) tr
  | Closed r :: tr =>
    match open with
    | r' :: open => if decide (r' = r) then still_open open tr else None
    | [] => None
    end
  | _ :: tr => still_open open tr
  end.

(** Nothing but the shutdown's own timer is closed before the servers are joined. *)
Definition joined_first (tr : trace) : Prop :=
  forall tr1 tr2 r, tr = tr1 ++ Closed r :: tr2 -> r <> RShutdownTimer -> Joined GGRPC ∈ tr1 /\ Joined GHTTP ∈ tr1.

Lemma joined_first_app pre suf :
  Joined GGRPC ∈ pre -> Joined GHTTP ∈ pre -> (forall r, Closed r ∈ pre -> r = RShutdownTimer) ->
  joined_first (pre ++ suf).
Proof.
  intros H1 H2 Hpre tr1 tr2 r E Hr. symmetry in E. apply app_eq_inv in E as [(k & -> & E) | (k & -> & E)].
  - split; set_solver.
  - destruct k as [|x k]; [rewrite app_nil_r in *; by split |]. injection E as <- _.
    contradict Hr. apply Hpre. set_solver.
Qed.

Section Properties.
Context {L : Libraries}.

(** The trace of a run that gets as far as serving. *)
Definition full_trace (rdb : redis_options) : trace :=
  [Opened RSignals; Opened (RRedis rdb); Opened RAdmin; Opened RProducer; Opened RConsumers;
   Started GDiscovery; Started GGRPC; Started GHTTP; Interrupted; Opened RShutdownTimer; ShutDown GHTTP; ShutDown GGRPC;
   Joined GGRPC; Joined GHTTP; Closed RShutdownTimer;
   Closed RConsumers; Closed RProducer; Closed RAdmin; Closed (RRedis rdb); Closed RSignals].

(** The ways a run can go. *)
Lemma run_cases env :
  (exists e, Load env = Err e /\ run env [] = (Err e, [Opened RSignals; Closed RSignals])) \/
  exists cfg, Load env = Ok cfg /\
    let rdb := MkRedisOptions (cfg_RedisAddr cfg) (cfg_RedisPassword cfg) (cfg_RedisDB cfg) in
    let brokers := cfg_KafkaBrokers cfg in
    match NewAdmin brokers, NewProducer brokers, gateway_Register with
    | Some e, _, _ => run env [] = (Err e,
        [Opened RSignals; Opened (RRedis rdb); Closed (RRedis rdb); Closed RSignals])
    | None, Some e, _ => run env [] = (Err e,
        [Opened RSignals; Opened (RRedis rdb); Opened RAdmin; Closed RAdmin; Closed (RRedis rdb); Closed RSignals])
    | None, None, Some e => run env [] = (Err e,
        [Opened RSignals; Opened (RRedis rdb); Opened RAdmin; Opened RProducer; Opened RConsumers;
         Closed RConsumers; Closed RProducer; Closed RAdmin; Closed (RRedis rdb); Closed RSignals])
    | None, None, None => run env [] = (Ok (wire cfg), full_trace rdb)
    end.
Proof.
  unfold run, serve_until_done, lift_err, deferred, emit, mbind, M_bind, mret, M_ret.
  destruct (Load env) as [cfg|e]; [right; exists cfg | left; by exists e]. split; [done |]. cbv zeta.
  destruct (NewAdmin _); [done |]. destruct (NewProducer _); [done |]. by destruct gateway_Register.
Qed.

(** C35. Whatever the environment holds and the libraries answer, the server closes all it
    opened, each thing before what it was opened after, and a start that fails leaves no
    goroutine behind.  A run that serves ends only after the interrupt and both
    shutdowns, with its clients closed after both servers were joined; but it does not
    wait for the discovery goroutine and its reapers, which may be in the middle of a
    sweep when Redis and the producer are closed under them. *)
Theorem run_cleans_up env :
  let '(r, tr) := run env [] in
  still_open [] tr = Some [] /\
  match r with
  | Err e => forall g, Started g ∉ tr
  | Ok svc =>
    Interrupted ∈ tr /\ ShutDown GHTTP ∈ tr /\ ShutDown GGRPC ∈ tr /\ joined_first tr /\
    Started GDiscovery ∈ tr /\ (Joined GDiscovery ∉ tr) /\
    (exists cfg, Load env = Ok cfg /\ svc = wire cfg)
  end.
Proof.
  destruct (run_cases env) as [(e & _ & ->) | (cfg & Hcfg & H)].
  { split; [by vm_compute |]. intros g. set_solver. }
  cbv zeta in H. set (rdb := MkRedisOptions _ _ _) in H.
  destruct (NewAdmin _); [| destruct (NewProducer _); [| destruct gateway_Register]]; rewrite H;
    (split; [cbn; by rewrite !decide_True by done |]); [intros g; set_solver .. |].
  unfold full_trace. split_and!; [set_solver .. | | set_solver | set_solver | by exists cfg].
  apply (joined_first_app [Opened RSignals; Opened (RRedis rdb); Opened RAdmin; Opened RProducer; Opened RConsumers;
   Started GDiscovery; Started GGRPC; Started GHTTP; Interrupted; Opened RShutdownTimer; ShutDown GHTTP; ShutDown GGRPC;
   Joined GGRPC; Joined GHTTP; Closed RShutdownTimer]); [set_solver .. |].
  intros r. set_solver.
Qed.

(** The operator reads the settings it shares with the server as the server does, and
    refuses what the server refuses, with the same words. *)
Theorem operator_env_agrees env :
  match Load env, operator_env env with
  | Ok cfg, inl st =>
    os_Brokers st = cfg_KafkaBrokers cfg /\
    os_Redis st = redis_NewClient (cfg_RedisAddr cfg) (cfg_RedisPassword cfg) (cfg_RedisDB cfg)
  | Err e, inr text => err_msg e = text
  | _, _ => False
  end.
Proof.
  unfold Load, operator_env. cbv zeta. case_bool_decide; [done |]. by destruct (ParseInt _ _) as [n [e|]].
Qed.
End Properties.

(** Libraries with which everything answers, except that no address can be listened on. *)
Definition deaf : Libraries := {|
  kgo_NewClient := fun _ => None; redis_Ping := fun _ => None; grpc_NewClient := fun _ => None;
  gateway_Register := None;
  net_Listen := fun addr => Some (ErrText ("listen tcp " +:+ addr +:+ ": bind: address already in use"));
  grpc_Serve := None;
  http_ListenAndServe := fun addr => Some (ErrText ("listen tcp " +:+ addr +:+ ": bind: address already in use"));
  is_ErrServerClosed := fun _ => false;
  scheme_Add := fun _ => None; ctrl_NewManager := None; ctrl_Complete := fun _ => None; mgr_Start := None |}.

(** Neither server then serves anything; the process logs two lines and goes on as if
    they did, until it is interrupted. *)
Lemma deaf_server :
  let '(r, tr) := run (L := deaf) ∅ [] in
  r = Ok (MkServices (300 * Second) ["localhost:9092"] true true) /\ Interrupted ∈ tr /\
  grpc_goroutine (L := deaf) ":9090" = ["grpc listen :9090: listen tcp :9090: bind: address already in use"] /\
  http_goroutine (L := deaf) ":8080" =
    ["http listening on :8080"; "http serve: listen tcp :8080: bind: address already in use"].
Proof.
  vm_compute. split_and!; try reflexivity. repeat (apply elem_of_cons; first [by left | right]).
Qed.
